(* ===== verification/_CoqProject ===== *)
-Q . S2P
Prelude.v
Safe.v
Forward.v
ForwardProps.v
Base64.v
Sha256.v
Json.v
NetAddr.v
NetParse.v
Crypto.v
Protocol.v
RosterWire.v
Ticket.v
RateLimit.v
RelayWire.v
RelayServer.v
RelayInv.v
RelayProps.v
RelayTheorems.v
RelayComplete.v
HsRegistry.v
Authz.v
AuthzFile.v
AuthzProps.v
Handshake.v
HandshakeProps.v
HandshakeTheorems.v
Register.v
RegisterProps.v
RosterProps.v
HandshakeDemo.v
TrustStore.v
TrustProps.v
TrustTheorems.v
Sas.v
SasProps.v
Scope.v
Manifest.v
ManifestProps.v
Supervisor.v
SupervisorProps.v
AttemptProps.v
SupervisorDemo.v
AtomicFile.v
Crash.v
KeyFile.v
Lazy.v
Control.v
ControlProps.v
Transport.v
PeerCache.v
PeerCacheProps.v
PeersList.v
LocalTrust.v
Startup.v
StartupProps.v
CommandLine.v
CommandProps.v
CommandArgs.v
MatchServer.v
Wg.v
Netlink.v
Nft.v
NftKernel.v
NftProps.v
NftEval.v
NftBatch.v
NftTheorems.v
WgNetlink.v
WgProps.v
HostSetup.v
Punch.v
Connect.v
ConnectProps.v
ConnectTheorems.v
ConnectDemo.v
StartupDemo.v
Interfaces.v
EndToEnd.v
