(* ===== verification/Prelude.v ===== *)
(** * BuddyNet: a verified model of the overlay

    BuddyNet connects the machines of a few people who trust each other.  Two
    buddies exchange an invite out of band, register with a handshake server
    that introduces them, meet directly or at a blind relay, pin each other's
    Ed25519 key, and from then on reconnect with a secret only the two of them
    hold.  This library models the Go program under src/ and proves what makes
    it safe to run.  Definitions that model code are executable and follow the
    code they are named after; theorems of interest carry a doc comment in words.

    ** The parts and the files that model them

    _Foundations._  [Prelude] (this file): results, bytes, big-endian integers,
    list, map and counting lemmas, tactics and hint databases.  [Base64],
    [Sha256], [Json], [NetAddr], [NetParse]: the parts of Go's standard library
    the program uses, as functions on byte strings, with their round trips.
    [NetAddr] also holds internal/netkey.

    _Protocol._  [Crypto] (internal/crypto: keys, virtual addresses, sealed
    codes), [Protocol] and [RosterWire] (pkg/protocol: messages, their JSON and
    the bytes that are signed), [Ticket] (internal/ticket), [RateLimit]
    (internal/ratelimit).

    _Relay_ (internal/relay).  [RelayWire] is the wire format, the client leg
    and the fallback chain; [RelayServer] the server record and one [step] per
    datagram, verification, reaper or statistics tick; [RelayInv],
    [RelayProps], [RelayTheorems] and [RelayComplete] the invariant and what
    follows from it in every run.

    _Handshake server_ (internal/role/handshake.go, authz.go).  [HsRegistry] is
    the waiting table, [Authz] the allowlist with its file, replay records and
    pending enrolments, [Handshake] one request from bytes to signed reply;
    [AuthzFile], [AuthzProps], [HandshakeProps], [HandshakeTheorems] and
    [HandshakeDemo] their properties.  [Control] and [ControlProps]
    (internal/tunnel/control.go) are the listener in front of it: who may hold
    a connection, and which bytes become a request with which identity.
    [MatchServer] (cmd/buddynet-handshake) is the binary that runs this server
    alone.

    _Buddy: introduction._  [Register], [RegisterProps], [RosterProps]
    (internal/role/register.go, relaycred.go): the signed registration, the poll
    loop, the checks on the roster.  [Sas], [SasProps] (sas.go, binding.go,
    internal/crypto/pairsecret.go, internal/invite): the code two people
    compare, the binding it covers, pair secrets and invites.

    _Buddy: trust._  [TrustStore], [TrustProps], [TrustTheorems] (trust.go,
    session.go, trustlock.go, peerscmd.go): the known-peers store, the
    revocation list and their transactions.  [Scope] (internal/nft/scope.go),
    [Manifest], [ManifestProps] (peersfile.go, peerscmd.go): exposure scopes and
    the peers manifest; [PeersList] (peerscmd.go) the list of all buddies.
    [PeerCache], [PeerCacheProps] (internal/peer,
    internal/dns): the cache and the names of peers.  [LocalTrust]
    (relaytrust.go, direct.go): what is taken from the local configuration only.
    [KeyFile] (internal/crypto/keys.go): the file a machine's identity lives in.

    _Disk._  [AtomicFile] (internal/atomicfile) is the write every state file
    goes through, call by call, on a disk that can lose what was not flushed;
    [Crash] the commands that replace several files, stopped between two.

    _Buddy: connections._  [Supervisor], [SupervisorProps], [AttemptProps],
    [SupervisorDemo] (supervisor.go, buddy.go): where attempts come from, the
    reconnect loop, and the workers under reloads and shutdown.  [Lazy]
    (lazy.go): the tunnel dialled on demand.  [Connect], [ConnectProps],
    [ConnectTheorems], [ConnectDemo] (connect.go, wgpath.go, probe.go): one
    attempt from the socket to the tunnel, and what it may write.  [Punch]
    (internal/tunnel/nat.go): which address a hole punch settles on.
    [Transport] (internal/tunnel/quic.go, control.go): the TLS settings of both
    kinds of connection, what a handshake proves, and the listener of a tunnel.

    _Buddy: data._  [Forward], [ForwardProps] (forward.go, umask_unix.go,
    connect.go): accept loops, the two copies of a splice, the end of a session,
    local sockets.  [HostSetup] (internal/vip, internal/dns): addresses and
    resolver settings put on the host and taken back.  [Safe] (internal/safe):
    the wrapper that survives a panic.

    _Start-up and the command line._  [Startup], [StartupProps] (buddy.go,
    relay.go): from a configuration to the loop or server that runs.
    [CommandLine], [CommandProps], [CommandArgs] (cmd/buddynet/main.go): from
    flags and environment to configurations, the refusals, the administrative
    commands.  [StartupDemo] has concrete lines.

    _Kernel interfaces._  [Netlink] holds the shared encoders; [Nft]
    (internal/nft/nft_linux.go) the packet-filter batch byte by byte, [Wg] and
    [WgNetlink] (internal/wg, internal/vip) the WireGuard device and addresses.
    [NftKernel] is not code of this repository: it is the reference semantics of
    nftables against which [NftProps], [NftEval], [NftBatch] and [NftTheorems]
    prove what the batch means.  [WgProps] has the properties of the device.

    _Composition._  [EndToEnd]: tickets issued by the handshake server take the
    bind datagrams of two buddies through the relay to the two legs of one
    session.  [Interfaces]: the workers of [Supervisor],
    the packet filter and the WireGuard device as one machine, with reloads,
    attempts and teardowns in any order.

    ** How the code becomes definitions

    A Go function that returns [(value, error)] is a function to [result]; the
    error type lists the ways it can fail.  State behind a mutex is a record and
    each critical section one function on it; concurrency is the order in which
    such functions are applied, and theorems quantify over every order
    ([RelayServer.step], [HsRegistry], [Supervisor.sup_step], [Lazy.lazy_step],
    [Control.ctrl_step], [PeerCache.cache_step], [Interfaces.machine_step],
    [Forward.splice_step], [Forward.fwd_step]).  Strings and byte slices are
    byte strings, maps are finite maps, integers are [Z] with their wrap-around
    written where it can occur.  What comes from outside (datagrams, clocks,
    random bytes, system calls, a human at a terminal) is an argument or a
    record of inputs ([Connect.World]).

    Loops that consume input are structural in the list of inputs, so there is
    no fuel that could run out: the poll loop and the bind loop in the replies,
    the reconnect loop in its rounds, netlink dumps in the replies, and "out of
    inputs" is the time-out the code has.  Scanners and attribute walks
    (JSON, netlink) recurse with fuel equal to the length of the text, which
    every step shortens; their read-back lemmas show that it suffices.

    ** Parameters and hypotheses

    Code that is not in the repository is a parameter with its documented
    behaviour as a class or a hypothesis: Ed25519 and NaCl box
    ([Crypto.Ed25519Laws], [Crypto.BoxLaws]), X25519 ([Sas.X25519Laws]), HKDF,
    the YAML library ([Manifest]), [encoding/json] on merged messages
    (registrations with unknown members), Unicode case mapping beyond ASCII, and
    the QUIC transport.  [Crypto.Toy] and [SasProps.SasDemo] give instances, so
    that no theorem holds for want of one.  Cryptographic strength is never an
    assumption: where it matters the theorem says "or these two inputs collide"
    or speaks of a signature that verifies.

    ** What is shown

    The relay's tables stay within their ceilings under any traffic, every leg
    of a ticketed relay was authorised by a pinned server, data goes to the
    partner only, nothing is reflected or amplified, and honest buddies are
    served.  The handshake server holds bounded state, signs only what two
    proven and approved keys registered, ignores replays, and an honest buddy
    accepts its replies.  The control listener counts connections exactly and
    hands out requests only with the identity TLS proved.

    A buddy learns a partner only after a channel pinned to that partner's key
    came up and a pin, the policy or a human vouched for it; a pairing retires
    its invite; a revocation bites at once in every place that could undo it; a
    forgotten session heals; a worker only ever calls its own buddy; no two
    running workers share an interface; a reload leaves exactly the wanted
    entries, each with its worker unless that worker had already returned; a
    connection that waits for the lazy tunnel is not forgotten while the
    reconnect loop runs.  The bytes sent to the kernel make it drop what a scope
    does not allow and forward nothing; a WireGuard device carries one partner,
    comes up entirely or fails, and while a worker holds it is never without
    the filter of its scope.  Requests to delete a device may be refused too,
    which the code ignores: the theorems name what is left behind then.

    On disk a write is the old content or the new one at every moment, also
    after a power cut; a revocation or its reversal that is interrupted leaves
    the buddy refused and can be repeated; an identity, once stored, is never
    replaced.

    A command line that is accepted is consistent and starts buddies and relays
    whose settings say so; a relay is never open, whatever the line; the key on
    an invite is the one the other side pins; the public server never changes
    its identity.  A connection is with the holder of the pinned key, also at
    an end that is offered no certificate or an old session, and two nodes meet
    just when each pins the other.  Data crosses a tunnel complete
    and in order or the connection is seen to break, connections are bounded
    and accounted for, and the data plane ends with its session but for one
    case that is named.  A local socket is its owner's from the first instant.

    Several lemmas show behaviour the comments of the code promise otherwise;
    they are named where they stand (the Demo modules).

    ** What is not modelled

    The QUIC library and the methods that only call it (of TLS the model has
    what the settings decide: certificates asked for, chain check, callback,
    resumption, version, protocol), the JSON text of the peer cache, the timing of hole
    punching (its outcome is the list of datagrams heard before the deadline),
    the flag package and help texts, signals, terminals and file locking
    (whether a lock was obtained is an argument), the stubs of other platforms,
    and the laboratory, mutation-testing and flag-scanning tools, which are not
    part of the running system.  Of the kernel and of resolvectl the model has
    the state they keep for us and whether a call succeeded.  Log lines are
    modelled only where a claim is about them. *)

From Stdlib Require Export ZArith NArith Lia Bool Ascii.
From stdpp Require Export base gmap strings list fin_maps.
From stdpp Require Export sorting.

(** ** Scopes and notations

    Go's [string] and [[]byte] are both byte sequences; the development uses
    the Standard Library's [string] (a list of 8-bit [ascii]) for both. *)

Declare Scope go_scope.
Delimit Scope go_scope with go.

Notation "s ⊕ t" := (String.append s t) (at level 60, right associativity) : go_scope.
Abbreviation slen := String.length.

#[global] Arguments String.append !_ _ : simpl nomatch.

Open Scope go_scope.
Open Scope Z_scope.

(** ** Results: Go's [(value, error)] pairs *)

Inductive result (E A : Type) : Type :=
| Ok (a : A)
| Err (e : E).
Arguments Ok {E A} a.
Arguments Err {E A} e.

Definition is_ok {E A} (r : result E A) : bool :=
  match r with Ok _ => true | Err _ => false end.

Notation "'let?' x := c 'in' k" :=
  (match c with Ok x => k | Err e => Err e end)
  (at level 10, x pattern, k at level 200) : go_scope.

(** [guard! c else e in k]: Go's [if !c { return e }]. *)
Notation "'guard!' c 'else' e 'in' k" :=
  (if c then k else Err e)
  (at level 10, c at level 100, e at level 100, k at level 200) : go_scope.

(** ** Machine integers: signed 64-bit arithmetic wraps around *)

Definition int64_min : Z := - 2 ^ 63.
Definition int64_max : Z := 2 ^ 63 - 1.
Definition wrap64 (z : Z) : Z := (z + 2 ^ 63) mod 2 ^ 64 - 2 ^ 63.
Definition in_int64 (z : Z) : Prop := int64_min <= z <= int64_max.

Lemma wrap64_id z : in_int64 z -> wrap64 z = z.
Proof.
  unfold in_int64, wrap64, int64_min, int64_max. intros H.
  rewrite Z.mod_small by lia. lia.
Qed.

Lemma wrap64_range z : in_int64 (wrap64 z).
Proof.
  unfold in_int64, wrap64, int64_min, int64_max.
  pose proof (Z.mod_pos_bound (z + 2 ^ 63) (2 ^ 64) ltac:(lia)). lia.
Qed.

(** ** Time: [time.Time] as nanoseconds since the Unix epoch *)

Definition nanosecond : Z := 1.
Definition millisecond : Z := 1000000.
Definition second : Z := 1000000000.
Definition minute : Z := 60 * second.

(** [t.Unix()] *)
Definition unix (t : Z) : Z := t / second.
(** [time.Unix(ts, 0)] *)
Definition of_unix (ts : Z) : Z := ts * second.

Lemma unix_of_unix ts : unix (of_unix ts) = ts.
Proof. unfold unix, of_unix, second. rewrite Z.div_mul; lia. Qed.

Lemma unix_bounds t : of_unix (unix t) <= t < of_unix (unix t) + second.
Proof. unfold unix, of_unix, second. Z.to_euclidean_division_equations. lia. Qed.

(** ** Bytes *)

Definition byte_val (c : Ascii.ascii) : Z := Z.of_N (Ascii.N_of_ascii c).
Definition byte_of (z : Z) : Ascii.ascii := Ascii.ascii_of_N (Z.to_N (z mod 256)).

Lemma byte_val_range c : 0 <= byte_val c < 256.
Proof.
  unfold byte_val. pose proof (Ascii.N_ascii_bounded c). lia.
Qed.

Lemma byte_of_val c : byte_of (byte_val c) = c.
Proof.
  unfold byte_of. rewrite Z.mod_small by apply byte_val_range.
  unfold byte_val. rewrite N2Z.id. apply Ascii.ascii_N_embedding.
Qed.

Lemma byte_val_of z : byte_val (byte_of z) = z mod 256.
Proof.
  unfold byte_val, byte_of.
  pose proof (Z.mod_pos_bound z 256 ltac:(lia)).
  rewrite Ascii.N_ascii_embedding by lia. lia.
Qed.

Lemma byte_val_inj c d : byte_val c = byte_val d -> c = d.
Proof. intros H. rewrite <- (byte_of_val c), <- (byte_of_val d). by f_equal. Qed.

(** A decidable property of bytes holds of all 256 of them when the
    computation says so. *)
Definition all_bytes : list Ascii.ascii :=
  map (fun n => Ascii.ascii_of_nat n) (seq 0 256).

Lemma all_bytes_complete c : In c all_bytes.
Proof.
  unfold all_bytes. apply in_map_iff. exists (Ascii.nat_of_ascii c). split.
  - apply Ascii.ascii_nat_embedding.
  - apply in_seq. pose proof (Ascii.nat_ascii_bounded c). lia.
Qed.

Lemma forall_bytes (P : Ascii.ascii -> bool) :
  forallb P all_bytes = true -> forall c, P c = true.
Proof. rewrite forallb_forall. intros H c. apply H, all_bytes_complete. Qed.

(** ** Strings *)

Lemma slen_app s t : slen (s ⊕ t) = (slen s + slen t)%nat.
Proof. induction s; simpl; congruence. Qed.

Lemma app_empty_r s : s ⊕ "" = s.
Proof. induction s; simpl; congruence. Qed.

Lemma app_assoc_s s t u : (s ⊕ t) ⊕ u = s ⊕ (t ⊕ u).
Proof. induction s; simpl; congruence. Qed.

Lemma app_cancel_l s t u : s ⊕ t = s ⊕ u -> t = u.
Proof. induction s; simpl; [done |]. intros [=]. auto. Qed.

Lemma app_cancel_len s t s' t' :
  slen s = slen s' -> s ⊕ t = s' ⊕ t' -> s = s' /\ t = t'.
Proof.
  revert s'. induction s as [| c s IH]; intros [| c' s']; simpl; try discriminate.
  - auto.
  - intros [= Hl] [= -> H]. destruct (IH _ Hl H) as [-> ->]. done.
Qed.

(** All bytes of a string satisfy a test. *)
Fixpoint all_chars (P : Ascii.ascii -> bool) (s : string) : bool :=
  match s with
  | EmptyString => true
  | String c s' => P c && all_chars P s'
  end.

Lemma all_chars_app P s t : all_chars P (s ⊕ t) = all_chars P s && all_chars P t.
Proof. induction s as [| c s IH]; simpl; [done |]. rewrite IH. by rewrite andb_assoc. Qed.

Lemma all_chars_impl (P Q : Ascii.ascii -> bool) s :
  (forall c, P c = true -> Q c = true) -> all_chars P s = true -> all_chars Q s = true.
Proof.
  intros HPQ. induction s as [| c s IH]; simpl; [done |].
  rewrite !andb_true_iff. naive_solver.
Qed.

(** [strings.HasPrefix], [strings.TrimPrefix] *)
Fixpoint has_prefix (p s : string) : bool :=
  match p, s with
  | EmptyString, _ => true
  | String a p', String b s' => Ascii.eqb a b && has_prefix p' s'
  | String _ _, EmptyString => false
  end.

Fixpoint drop_s (n : nat) (s : string) : string :=
  match n, s with
  | O, _ => s
  | S n', String _ s' => drop_s n' s'
  | S _, EmptyString => EmptyString
  end.

Fixpoint take_s (n : nat) (s : string) : string :=
  match n, s with
  | O, _ => EmptyString
  | S n', String c s' => String c (take_s n' s')
  | S _, EmptyString => EmptyString
  end.

Lemma has_prefix_spec p s : has_prefix p s = true <-> exists t, s = p ⊕ t.
Proof.
  revert s. induction p as [| a p IH]; intros s; simpl.
  - split; eauto.
  - destruct s as [| b s]; [split; [done | by intros [? ?]] |].
    rewrite andb_true_iff, Ascii.eqb_eq, IH. split.
    + intros [-> [t ->]]. eauto.
    + intros [t [= -> ->]]. eauto.
Qed.

Lemma has_prefix_app p t : has_prefix p (p ⊕ t) = true.
Proof. apply has_prefix_spec. eauto. Qed.

Lemma drop_s_app p t : drop_s (slen p) (p ⊕ t) = t.
Proof. induction p; simpl; auto. Qed.

Lemma take_s_app p t : take_s (slen p) (p ⊕ t) = p.
Proof. induction p; simpl; congruence. Qed.

Lemma drop_s_len n p t : slen p = n -> drop_s n (p ⊕ t) = t.
Proof. intros <-. apply drop_s_app. Qed.

Lemma take_s_len n p t : slen p = n -> take_s n (p ⊕ t) = p.
Proof. intros <-. apply take_s_app. Qed.

Lemma take_s_all n s : slen s = n -> take_s n s = s.
Proof. intros <-. rewrite <- (app_empty_r s) at 2. apply take_s_app. Qed.

Lemma drop_s_add n m s : drop_s (n + m) s = drop_s m (drop_s n s).
Proof.
  revert s. induction n as [| n IH]; intros s; [done |]. destruct s as [| c s]; simpl.
  - by destruct m.
  - apply IH.
Qed.

Lemma take_drop_s n s : take_s n s ⊕ drop_s n s = s.
Proof. revert s. induction n as [| n IH]; intros [| c s]; simpl; try done. by rewrite IH. Qed.

Lemma all_chars_take P n s : all_chars P s = true -> all_chars P (take_s n s) = true.
Proof.
  revert s. induction n as [| n IH]; intros [| c s]; simpl; try done. intros [-> H]%andb_true_iff. by rewrite IH.
Qed.

Lemma slen_take n s : slen (take_s n s) = Nat.min n (slen s).
Proof. revert s. induction n as [| n IH]; intros [| c s]; simpl; auto. Qed.

Lemma slen_drop n s : slen (drop_s n s) = (slen s - n)%nat.
Proof. revert s. induction n as [| n IH]; intros [| c s]; simpl; auto. Qed.

(** Lexicographic byte order: Go's [<] on strings, [bytes.Compare]. *)
Fixpoint str_ltb (a b : string) : bool :=
  match a, b with
  | EmptyString, String _ _ => true
  | String x a', String y b' =>
      (byte_val x <? byte_val y) || ((byte_val x =? byte_val y) && str_ltb a' b')
  | _, EmptyString => false
  end.

Lemma str_ltb_irrefl a : str_ltb a a = false.
Proof. induction a as [| x a IH]; simpl; [done |]. rewrite IH. lia. Qed.

Lemma str_ltb_trans a b c : str_ltb a b = true -> str_ltb b c = true -> str_ltb a c = true.
Proof.
  revert b c. induction a as [| x a IH]; intros [| y b] [| z c]; simpl; try done.
  rewrite !orb_true_iff, !andb_true_iff. intros [?|[? ?]] [?|[? ?]]; try (left; lia).
  right. split; [lia |]. eauto.
Qed.

Lemma str_ltb_total a b : str_ltb a b = false -> str_ltb b a = false -> a = b.
Proof.
  revert b. induction a as [| x a IH]; intros [| y b]; simpl; try done.
  rewrite !orb_false_iff, !andb_false_iff. intros [? Hab] [? Hba].
  assert (byte_val x = byte_val y) by lia.
  f_equal; [by apply byte_val_inj |].
  apply IH; [destruct Hab | destruct Hba]; try done; lia.
Qed.

Lemma str_ltb_asym a b : str_ltb a b = true -> str_ltb b a = false.
Proof.
  intros H. destruct (str_ltb b a) eqn:E; [| done].
  pose proof (str_ltb_trans _ _ _ H E) as C. by rewrite str_ltb_irrefl in C.
Qed.

(** ** Decimal rendering: [strconv.FormatInt(n, 10)] *)

Definition digit (n : Z) : Ascii.ascii := byte_of (48 + n).

Fixpoint dec_digits (fuel : nat) (n : Z) (acc : string) : string :=
  match fuel with
  | O => acc
  | S fuel' =>
      let acc' := String (digit (n mod 10)) acc in
      if n <? 10 then acc' else dec_digits fuel' (n / 10) acc'
  end.

(** Enough fuel for every 64-bit value: 20 digits. *)
Definition dec_fuel : nat := 20.

Definition itoa (n : Z) : string :=
  if n <? 0 then String "-"%char (dec_digits dec_fuel (- n) "") else dec_digits dec_fuel n "".

(** ** Counting over lists *)

Fixpoint count_if {A} (P : A -> bool) (l : list A) : nat :=
  match l with
  | [] => 0
  | x :: l' => (if P x then 1 else 0) + count_if P l'
  end%nat.

Lemma count_if_app {A} (P : A -> bool) l k :
  count_if P (l ++ k) = (count_if P l + count_if P k)%nat.
Proof. induction l as [| x l IH]; simpl; [done |]. rewrite IH. lia. Qed.

Lemma count_if_Permutation {A} (P : A -> bool) l k :
  l ≡ₚ k -> count_if P l = count_if P k.
Proof. induction 1; simpl; lia. Qed.

(** ** Finite maps: sizes *)

Lemma NoDup_fmap_inj {A B} (f : A -> B) (l : list A) x y :
  NoDup (f <$> l) -> x ∈ l -> y ∈ l -> f x = f y -> x = y.
Proof.
  induction l as [| z l IH]; [by intros _ ?%not_elem_of_nil |]. cbn.
  intros [Hz Hnd]%NoDup_cons [-> | Hx]%elem_of_cons [-> | Hy]%elem_of_cons E; auto.
  - destruct Hz. rewrite E. by apply list_elem_of_fmap_2.
  - destruct Hz. rewrite <- E. by apply list_elem_of_fmap_2.
Qed.

Lemma map_size_delete_le {K V} `{Countable K} (m : gmap K V) i :
  (size (delete i m) <= size m)%nat.
Proof.
  destruct (m !! i) as [x |] eqn:E.
  - rewrite map_size_delete, E. lia.
  - by rewrite delete_id.
Qed.

Lemma map_size_insert_le {K V} `{Countable K} (m : gmap K V) i x :
  (size (<[i := x]> m) <= S (size m))%nat.
Proof.
  destruct (m !! i) as [y |] eqn:E.
  - rewrite map_size_insert, E. simpl. lia.
  - rewrite map_size_insert, E. simpl. lia.
Qed.

Lemma map_size_filter_le {K V} `{Countable K} (P : K * V -> Prop) `{forall x, Decision (P x)}
  (m : gmap K V) : (size (filter P m) <= size m)%nat.
Proof.
  rewrite <- !size_dom. apply subseteq_size. apply dom_filter_subseteq.
Qed.

Lemma list_to_set_size_le {A} `{Countable A} (l : list A) :
  (size (list_to_set l : gset A) <= length l)%nat.
Proof.
  induction l as [| x l IH]; cbn [list_to_set length]; [by rewrite size_empty |].
  rewrite size_union_alt, size_singleton.
  pose proof (subseteq_size (list_to_set l ∖ {[x]} : gset A) (list_to_set l) ltac:(set_solver)). lia.
Qed.

(** ** Tactics and hints *)

(** Case analysis on the tests of a goal or hypothesis, keeping equations. *)
Ltac case_if H :=
  match goal with
  | |- context [if ?b then _ else _] => destruct b eqn:H
  end.

(** Boolean hypotheses to propositions. *)
Ltac breflect :=
  repeat match goal with
  | H : _ && _ = true |- _ => apply andb_true_iff in H as [? ?]
  | H : _ || _ = false |- _ => apply orb_false_iff in H as [? ?]
  | H : negb _ = true |- _ => apply negb_true_iff in H
  | H : negb _ = false |- _ => apply negb_false_iff in H
  | H : String.eqb _ _ = true |- _ => apply String.eqb_eq in H
  | H : String.eqb _ _ = false |- _ => apply String.eqb_neq in H
  | H : Nat.eqb _ _ = true |- _ => apply Nat.eqb_eq in H
  | H : Nat.eqb _ _ = false |- _ => apply Nat.eqb_neq in H
  | H : Nat.leb _ _ = true |- _ => apply Nat.leb_le in H
  | H : Nat.leb _ _ = false |- _ => apply Nat.leb_gt in H
  | H : Nat.ltb _ _ = true |- _ => apply Nat.ltb_lt in H
  | H : Nat.ltb _ _ = false |- _ => apply Nat.ltb_ge in H
  | H : Z.eqb _ _ = true |- _ => apply Z.eqb_eq in H
  | H : Z.eqb _ _ = false |- _ => apply Z.eqb_neq in H
  | H : Z.leb _ _ = true |- _ => apply Z.leb_le in H
  | H : Z.leb _ _ = false |- _ => apply Z.leb_gt in H
  | H : Z.ltb _ _ = true |- _ => apply Z.ltb_lt in H
  | H : Z.ltb _ _ = false |- _ => apply Z.ltb_ge in H
  end.

Create HintDb buddy.
Create Rewrite HintDb buddy.
#[export] Hint Resolve byte_val_range has_prefix_app wrap64_range : buddy.
#[export] Hint Rewrite slen_app app_empty_r app_assoc_s byte_of_val drop_s_app take_s_app
  slen_take slen_drop all_chars_app : buddy.
