(* ===== verification/Safe.v ===== *)
(** * Surviving a panic

    [internal/safe/safe.go]: the wrapper around every handler of untrusted
    input, its counter and its throttled log. *)

From S2P Require Import Prelude.

Definition logThrottle : Z := 30 * second.

(** The package's state: panics so far and when each component last logged. *)
Record SafeState := mkSafe { panicCount : Z; lastLogged : gmap string Z }.

(** A handler returns or panics with a value, given by its ["%v"] form. *)
Inductive Ran := Returns | PanicsWith (value : string).

Definition log_char (c : Ascii.ascii) : Ascii.ascii :=
  if Ascii.eqb c (byte_of 10) || Ascii.eqb c (byte_of 13) || Ascii.eqb c (byte_of 9) then " "%char else c.

Fixpoint map_chars (f : Ascii.ascii -> Ascii.ascii) (s : string) : string :=
  match s with EmptyString => "" | String c r => String (f c) (map_chars f r) end.

Definition oneline (value : string) : string :=
  let s := map_chars log_char value in
  if (200 <? slen s)%nat then take_s 200 s ⊕ "…" else s.

Record LogLine := mkLine { ll_component : string; ll_time : Z; ll_detail : string }.

Definition logPanic (component : string) (now : Z) (value : string) (s : SafeState) : SafeState * option LogLine :=
  let throttled := match lastLogged s !! component with Some last => now - last <? logThrottle | None => false end in
  if throttled then (s, None)
  else (mkSafe (panicCount s) (<[component := now]> (lastLogged s)), Some (mkLine component now (oneline value))).

(** [Do]: whether the handler returned, and what is logged. *)
Definition Do (component : string) (now : Z) (r : Ran) (s : SafeState) : bool * SafeState * option LogLine :=
  match r with
  | Returns => (true, s, None)
  | PanicsWith v =>
      let '(s', line) := logPanic component now v (mkSafe (panicCount s + 1) (lastLogged s)) in (false, s', line)
  end.

(** Calls in the order in which they finish. *)
Record Call := mkCall { ca_component : string; ca_now : Z; ca_ran : Ran }.

Definition safe_step (acc : SafeState * list LogLine) (c : Call) : SafeState * list LogLine :=
  let '(_, s', line) := Do (ca_component c) (ca_now c) (ca_ran c) acc.1 in
  (s', acc.2 ++ match line with Some l => [l] | None => [] end).

Definition safe_run (cs : list Call) : SafeState * list LogLine := foldl safe_step (mkSafe 0 ∅, []) cs.

(** ** What the wrapper guarantees *)

Definition panicked (c : Call) : bool := match ca_ran c with Returns => false | PanicsWith _ => true end.

Lemma map_chars_len f s : slen (map_chars f s) = slen s.
Proof. induction s as [| c s IH]; [done |]. cbn. by rewrite IH. Qed.

Definition one_line_char (c : Ascii.ascii) : bool :=
  negb (Ascii.eqb c (byte_of 10) || Ascii.eqb c (byte_of 13) || Ascii.eqb c (byte_of 9)).

Lemma log_chars_clean s : all_chars one_line_char (map_chars log_char s) = true.
Proof.
  induction s as [| c s IH]; [done |]. cbn [map_chars all_chars]. rewrite IH, andb_true_r. unfold log_char.
  destruct (Ascii.eqb c (byte_of 10) || Ascii.eqb c (byte_of 13) || Ascii.eqb c (byte_of 9)) eqn:E; [reflexivity |]. unfold one_line_char. by rewrite E.
Qed.

Lemma oneline_sound v : (slen (oneline v) <= 203)%nat /\ all_chars one_line_char (oneline v) = true.
Proof.
  unfold oneline. pose proof (log_chars_clean v) as C. destruct (Nat.ltb_spec 200 (slen (map_chars log_char v))) as [L | L].
  - split; [rewrite slen_app, slen_take; change (slen "…") with 3%nat; lia |]. by rewrite all_chars_app, (all_chars_take _ _ _ C).
  - split; [lia | done].
Qed.

(** The log of a run: each line of a component is far from the one before, and
    the newest is the remembered one. *)
Record log_inv (acc : SafeState * list LogLine) (now : Z) : Prop := {
  lo_last : forall l, l ∈ acc.2 -> exists t, lastLogged acc.1 !! ll_component l = Some t /\ ll_time l <= t;
  lo_past : forall k t, lastLogged acc.1 !! k = Some t -> t <= now;
  lo_apart : forall i j li lj, acc.2 !! i = Some li -> acc.2 !! j = Some lj -> (i < j)%nat -> ll_component li = ll_component lj -> ll_time li + logThrottle <= ll_time lj;
  lo_line : forall l, l ∈ acc.2 -> (slen (ll_detail l) <= 203)%nat /\ all_chars one_line_char (ll_detail l) = true;
}.

Lemma log_later acc n n' : n <= n' -> log_inv acc n -> log_inv acc n'.
Proof. intros L Hi. split; [apply Hi | intros k t K; pose proof (lo_past _ _ Hi k t K); lia | apply Hi | apply Hi]. Qed.

Lemma log_call acc c n : log_inv acc n -> n <= ca_now c -> log_inv (safe_step acc c) (ca_now c).
Proof.
  intros Hi L. apply (log_later _ _ _ L) in Hi. unfold safe_step, Do. destruct (ca_ran c) as [| v]; [by rewrite app_nil_r; destruct acc |].
  unfold logPanic. cbn [lastLogged panicCount].
  destruct (match lastLogged acc.1 !! ca_component c with Some last => _ | None => _ end) eqn:T.
  { rewrite app_nil_r. split; apply Hi. }
  split; cbn [fst snd lastLogged].
  - intros l [Hl | ->%list_elem_of_singleton]%elem_of_app.
    + destruct (lo_last _ _ Hi l Hl) as (t & E & Lt). destruct (decide (ll_component l = ca_component c)) as [Q | Q].
      * exists (ca_now c). rewrite Q, lookup_insert_eq. split; [done |]. pose proof (lo_past _ _ Hi _ _ E). lia.
      * exists t. by rewrite lookup_insert_ne by congruence.
    + exists (ca_now c). cbn. split; [by rewrite lookup_insert_eq | lia].
  - intros k t. destruct (decide (k = ca_component c)) as [-> |]; [rewrite lookup_insert_eq; by intros [= <-] | rewrite lookup_insert_ne by done; apply Hi].
  - intros i j li lj Hli Hlj Hij Q. destruct (decide (j < length acc.2)%nat) as [Hj | Hj].
    { rewrite lookup_app_l in Hlj by done. rewrite lookup_app_l in Hli by lia. by eapply (lo_apart _ _ Hi i j). }
    rewrite lookup_app_r in Hlj by lia. apply list_lookup_singleton_Some in Hlj as [Hj0 <-]. rewrite lookup_app_l in Hli by lia.
    cbn in *. apply list_elem_of_lookup_2 in Hli. destruct (lo_last _ _ Hi li Hli) as (t & E & Lt). rewrite Q in E. rewrite E in T. apply Z.ltb_ge in T. lia.
  - intros l [Hl | ->%list_elem_of_singleton]%elem_of_app; [by apply Hi | apply oneline_sound].
Qed.

Lemma safe_count cs acc : panicCount (foldl safe_step acc cs).1 = panicCount acc.1 + Z.of_nat (length (filter (fun c => panicked c = true) cs)).
Proof.
  revert acc. induction cs as [| c cs IH]; intros acc; [cbn; lia |]. cbn [foldl]. rewrite IH. unfold safe_step, Do, logPanic.
  destruct (ca_ran c) as [| v] eqn:R; cbn [lastLogged panicCount].
  - rewrite filter_cons_False by (unfold panicked; by rewrite R). by destruct acc.
  - rewrite filter_cons_True by (unfold panicked; by rewrite R). cbn [length]. repeat case_match; simplify_eq; cbn; lia.
Qed.

(** Clocks that do not go back. *)
Fixpoint in_time (from : Z) (cs : list Call) : Prop := match cs with [] => True | c :: r => from <= ca_now c /\ in_time (ca_now c) r end.

Lemma log_run cs : forall acc n, log_inv acc n -> in_time n cs -> exists n', log_inv (foldl safe_step acc cs) n'.
Proof.
  induction cs as [| c cs IH]; intros acc n Hi; cbn [foldl in_time]; [eauto |]. intros [L R]. eapply IH; [by eapply log_call | done].
Qed.

(** A panic is counted, contained and quietly logged.  A handler that panics
    makes the wrapper report failure instead of passing the panic on, every
    panic is counted, and the log of any run of calls holds, per component, at
    most one line in thirty seconds, each one line of at most 203 bytes
    whatever the panic value was. *)
Theorem panics_contained cs :
  in_time 0 cs ->
  (forall c s, (Do (ca_component c) (ca_now c) (ca_ran c) s).1.1 = negb (panicked c)) /\
  panicCount (safe_run cs).1 = Z.of_nat (length (filter (fun c => panicked c = true) cs)) /\
  (forall i j li lj, (safe_run cs).2 !! i = Some li -> (safe_run cs).2 !! j = Some lj -> (i < j)%nat ->
     ll_component li = ll_component lj -> ll_time li + logThrottle <= ll_time lj) /\
  forall l, l ∈ (safe_run cs).2 -> (slen (ll_detail l) <= 203)%nat /\ all_chars one_line_char (ll_detail l) = true.
Proof.
  intros T. destruct (log_run cs (mkSafe 0 ∅, []) 0) as [n Hi]; [split; cbn; set_solver | done |]. split_and!; [| by apply safe_count | apply Hi | apply Hi].
  intros c s. unfold Do, panicked. destruct (ca_ran c); [done |]. unfold logPanic. by repeat case_match; simplify_eq.
Qed.

Definition storm : list Call :=
  [mkCall "dns.query" second (PanicsWith ("index" ⊕ String (byte_of 10) "9")); mkCall "dns.query" (2 * second) (PanicsWith "again"); mkCall "relay.packet" (3 * second) Returns].

Lemma panics_contained_witness : panicCount (safe_run storm).1 = 2 /\ length (safe_run storm).2 = 1%nat.
Proof.
  destruct (panics_contained storm) as (_ & C & _); [vm_compute; intuition discriminate |]. split; [exact C | reflexivity].
Defined.
