(* ===== verification/Forward.v ===== *)
(** * Carrying data

    [internal/role/forward.go]: the listeners and dialled services of a tunnel,
    the bound on their connections, the two copies that join a connection to a
    stream, and the creation of a local socket
    ([internal/role/umask_unix.go]).  Goroutines are interleaved: one event is
    one action of one of them. *)

From S2P Require Import Prelude.

(** ** Local addresses *)

Inductive Network := TCP | Unix.
#[export] Instance Network_eq_dec : EqDecision Network.
Proof. solve_decision. Defined.

Definition localNetwork (addr : string) : Network * string :=
  if has_prefix "unix:" addr then (Unix, drop_s 5 addr)
  else if has_prefix "/" addr then (Unix, addr)
  else (TCP, addr).

(** ** A socket only its owner can reach *)

(** The process mask and what the paths name: a socket or something else, with
    its permission bits. *)
Inductive Node := Sock | Other.
Record Proc := mkProc { umask : Z; paths : gmap string (Node * Z) }.

Definition all_perms : Z := 511. (* 0o777 *)
Definition tight_mask : Z := 127. (* 0o177 *)
Definition owner_rw : Z := 384. (* 0o600 *)

(** Which calls succeed: removing what is in the way, binding, changing the
    mode. *)
Record SockIO := mkSockIO { so_remove : bool; so_bind : bool; so_chmod : bool }.

(** [net.Listen] on a path: the kernel creates the socket with the bits the mask
    leaves, and refuses a path that exists. *)
Definition listen_unix (io : SockIO) (path : string) (p : Proc) : bool * Proc :=
  if negb (so_bind io) || bool_decide (is_Some (paths p !! path)) then (false, p)
  else (true, mkProc (umask p) (<[path := (Sock, Z.ldiff all_perms (umask p))]> (paths p))).

(** [withTightUmask]: the states others can observe, oldest first, and the
    outcome. *)
Definition withTightUmask {A} (fn : Proc -> A * Proc) (p : Proc) : list Proc * A * Proc :=
  let p1 := mkProc tight_mask (paths p) in
  let '(r, p2) := fn p1 in
  let p3 := mkProc (umask p) (paths p2) in
  ([p1; p2; p3], r, p3).

(** [listenLocal]: whether it listens, every state on the way, the last one.
    Closing a listener removes its socket. *)
Definition listenLocal (io : SockIO) (addr : string) (p : Proc) : bool * list Proc * Proc :=
  match localNetwork addr with
  | (TCP, _) => (so_bind io, [], p)
  | (Unix, path) =>
      let p0 := if so_remove io then mkProc (umask p) (delete path (paths p)) else p in
      let '(seen, ok, p1) := withTightUmask (listen_unix io path) p0 in
      if negb ok then (false, p0 :: seen, p1)
      else if so_chmod io
           then let p2 := mkProc (umask p1) (<[path := (Sock, owner_rw)]> (paths p1)) in (true, p0 :: seen ++ [p2], p2)
           else let p2 := mkProc (umask p1) (delete path (paths p1)) in (false, p0 :: seen ++ [p2], p2)
  end.

(** ** Two copies *)

(** The loop of [io.Copy], then the half-close of the other side. *)
Inductive Copier := Reading | Writing (chunk : string) | Closing | Finished.

(** One direction: everything its source has written, what is still unread,
    what the other side has received, whether the source is at its end,
    whether the direction is broken. *)
Record Half := mkHalf {
  h_sent : string; h_unread : string; h_got : string; h_eof : bool; h_broken : bool; h_copier : Copier;
}.

Definition set_copier (c : Copier) (h : Half) : Half := mkHalf (h_sent h) (h_unread h) (h_got h) (h_eof h) (h_broken h) c.

(** A connection that breaks ends a copy that is still running. *)
Definition break (h : Half) : Half :=
  match h_copier h with
  | Closing | Finished => h
  | _ => mkHalf (h_sent h) (h_unread h) (h_got h) (h_eof h) true (h_copier h)
  end.

Definition idle : Half := mkHalf "" "" "" false false Reading.

(** [Up] is towards the stream, [Down] towards the local connection, which may
    or may not be able to close one side only. *)
Inductive Dir2 := Up | Down.
#[export] Instance Dir2_eq_dec : EqDecision Dir2.
Proof. solve_decision. Defined.

Record Splice := mkSplice { sp_up : Half; sp_down : Half; sp_cw : bool; sp_closed : bool }.

Definition half (d : Dir2) (s : Splice) : Half := match d with Up => sp_up s | Down => sp_down s end.
Definition set_half (d : Dir2) (h : Half) (s : Splice) : Splice :=
  match d with
  | Up => mkSplice h (sp_down s) (sp_cw s) (sp_closed s)
  | Down => mkSplice (sp_up s) h (sp_cw s) (sp_closed s)
  end.

(** The ends write, finish or break; the copiers read, write and close; at last
    both connections are closed. *)
Inductive SpliceEvent :=
| Sends (d : Dir2) (data : string)
| Ends (d : Dir2)
| Breaks (d : Dir2)
| Reads (d : Dir2) (n : nat)
| Writes (d : Dir2)
| Stops (d : Dir2)
| HalfCloses (d : Dir2)
| ClosesBoth.

Definition copy_buffer : nat := 32768.

Definition splice_step (e : SpliceEvent) (s : Splice) : option Splice :=
  if sp_closed s then None
  else match e with
  | Sends d data =>
      let h := half d s in
      if h_eof h || h_broken h then None
      else Some (set_half d (mkHalf (h_sent h ⊕ data) (h_unread h ⊕ data) (h_got h) false false (h_copier h)) s)
  | Ends d =>
      let h := half d s in
      if h_broken h then None
      else Some (set_half d (mkHalf (h_sent h) (h_unread h) (h_got h) true false (h_copier h)) s)
  | Breaks d => Some (set_half d (break (half d s)) s)
  | Reads d n =>
      let h := half d s in
      match h_copier h with
      | Reading =>
          if (1 <=? n)%nat && (n <=? copy_buffer)%nat && (n <=? slen (h_unread h))%nat
          then Some (set_half d (mkHalf (h_sent h) (drop_s n (h_unread h)) (h_got h) (h_eof h) (h_broken h) (Writing (take_s n (h_unread h)))) s)
          else None
      | _ => None
      end
  | Writes d =>
      let h := half d s in
      match h_copier h with
      | Writing chunk =>
          if h_broken h then None
          else Some (set_half d (mkHalf (h_sent h) (h_unread h) (h_got h ⊕ chunk) (h_eof h) false Reading) s)
      | _ => None
      end
  | Stops d =>
      let h := half d s in
      match h_copier h with
      | Reading =>
          if h_broken h || (h_eof h && String.eqb (h_unread h) "") then Some (set_half d (set_copier Closing h) s) else None
      | Writing _ => if h_broken h then Some (set_half d (set_copier Closing h) s) else None
      | _ => None
      end
  | HalfCloses d =>
      let h := half d s in
      match h_copier h with
      | Closing =>
          let s' := set_half d (set_copier Finished h) s in
          Some (match d with
                | Down => if sp_cw s then s' else set_half Up (break (half Up s')) s'
                | Up => s'
                end)
      | _ => None
      end
  | ClosesBoth =>
      match h_copier (sp_up s), h_copier (sp_down s) with
      | Finished, Finished => Some (mkSplice (sp_up s) (sp_down s) (sp_cw s) true)
      | _, _ => None
      end
  end.

Fixpoint splice_run (es : list SpliceEvent) (s : Splice) : option Splice :=
  match es with [] => Some s | e :: r => s' ← splice_step e s; splice_run r s' end.

Definition splice (cw : bool) : Splice := mkSplice idle idle cw false.

(** What [splice] itself does, as opposed to the two ends. *)
Definition own (e : SpliceEvent) : bool :=
  match e with Reads _ _ | Writes _ | Stops _ | HalfCloses _ | ClosesBoth => true | _ => false end.

(** ** Accepting *)

Definition maxConcurrentStreams : nat := 256.

(** [acceptAndForward] opens a stream per local connection, [serveStreams]
    dials the local service per stream, [lazyForward] fetches the session
    first. *)
Inductive AcceptKind := KLocal | KStreams | KLazy.

Inductive LoopAt := Accepting | Holding (c : nat) | Returned.
Inductive Handler := Starting | Splicing.

(** [ac_open] is the listener or the session's stream queue; [ac_shut] are the
    connections that were closed, [ac_lost] those a recovered panic left. *)
Record Acceptor := mkAcc {
  ac_at : LoopAt; ac_open : bool; ac_handlers : gmap nat Handler; ac_seen : list nat; ac_shut : list nat; ac_lost : list nat; ac_count : Z;
}.

Definition new_acceptor : Acceptor := mkAcc Accepting true ∅ [] [] [] 0.

Inductive AcceptEvent :=
| Accepts (c : nat)        (* a connection or stream arrives *)
| AcceptFails              (* the queue was closed: the waiting call returns its error *)
| AcceptErrs               (* the call returns an error of its own, the queue still open *)
| Acquires                 (* a place in the semaphore *)
| Joined (c : nat)         (* the other side is there: splice *)
| JoinFails (c : nat)      (* it is not: close *)
| SpliceEnds (c : nat)
| Panics (c : nat)         (* under safe.Do, before the splice *)
| QueueCloses.             (* the listener, or the session with its streams *)

Definition acc_step (k : AcceptKind) (e : AcceptEvent) (a : Acceptor) : option Acceptor :=
  match e with
  | Accepts c =>
      match ac_at a with
      | Accepting =>
          if ac_open a && negb (bool_decide (c ∈ ac_seen a))
          then Some (mkAcc (Holding c) (ac_open a) (ac_handlers a) (c :: ac_seen a) (ac_shut a) (ac_lost a) (ac_count a)) else None
      | _ => None
      end
  | AcceptFails =>
      match ac_at a with
      | Accepting =>
          if ac_open a then None
          else Some (mkAcc Returned (ac_open a) (ac_handlers a) (ac_seen a) (ac_shut a) (ac_lost a) (ac_count a))
      | _ => None
      end
  | AcceptErrs =>
      match ac_at a with
      | Accepting =>
          if ac_open a then Some (mkAcc Returned (ac_open a) (ac_handlers a) (ac_seen a) (ac_shut a) (ac_lost a) (ac_count a)) else None
      | _ => None
      end
  | Acquires =>
      match ac_at a with
      | Holding c =>
          if (size (ac_handlers a) <? maxConcurrentStreams)%nat
          then Some (mkAcc Accepting (ac_open a) (<[c := Starting]> (ac_handlers a)) (ac_seen a) (ac_shut a) (ac_lost a)
                       (ac_count a + match k with KStreams => 1 | _ => 0 end)) else None
      | _ => None
      end
  | Joined c =>
      match ac_handlers a !! c with
      | Some Starting =>
          Some (mkAcc (ac_at a) (ac_open a) (<[c := Splicing]> (ac_handlers a)) (ac_seen a) (ac_shut a) (ac_lost a)
                  (ac_count a + match k with KStreams => 0 | _ => 1 end))
      | _ => None
      end
  | JoinFails c =>
      match ac_handlers a !! c with
      | Some Starting => Some (mkAcc (ac_at a) (ac_open a) (delete c (ac_handlers a)) (ac_seen a) (c :: ac_shut a) (ac_lost a) (ac_count a))
      | _ => None
      end
  | SpliceEnds c =>
      match ac_handlers a !! c with
      | Some Splicing => Some (mkAcc (ac_at a) (ac_open a) (delete c (ac_handlers a)) (ac_seen a) (c :: ac_shut a) (ac_lost a) (ac_count a))
      | _ => None
      end
  | Panics c =>
      match ac_handlers a !! c with
      | Some Starting => Some (mkAcc (ac_at a) (ac_open a) (delete c (ac_handlers a)) (ac_seen a) (ac_shut a) (c :: ac_lost a) (ac_count a))
      | _ => None
      end
  | QueueCloses => if ac_open a then Some (mkAcc (ac_at a) false (ac_handlers a) (ac_seen a) (ac_shut a) (ac_lost a) (ac_count a)) else None
  end.

(** The three loops.  [lazyForward] of [internal/role/lazy.go] differs in that a
    handler first waits for the session, which can fail as the stream can. *)
Definition acceptAndForward := acc_step KLocal.
Definition serveStreams := acc_step KStreams.
Definition lazyForward := acc_step KLazy.

(** ** A tunnel's data plane *)

(** Where [forward] stands: in its select, waiting for its loops, returned. *)
Inductive ForwardAt := Selecting | Joining | Over (streams : Z).

(** [fw_ctx] is the caller's context, [fw_done] the session's end, [fw_cancel]
    the context of the loops. *)
Record Fwd := mkFwd {
  fw_at : ForwardAt; fw_ctx : bool; fw_done : bool; fw_cancel : bool;
  fw_local : option Acceptor; fw_vip : option Acceptor; fw_streams : option Acceptor;
}.

Inductive Which := WLocal | WVip | WStreams.
#[export] Instance Which_eq_dec : EqDecision Which.
Proof. solve_decision. Defined.

Definition acceptor (w : Which) (s : Fwd) : option Acceptor :=
  match w with WLocal => fw_local s | WVip => fw_vip s | WStreams => fw_streams s end.
Definition set_acceptor (w : Which) (a : Acceptor) (s : Fwd) : Fwd :=
  match w with
  | WLocal => mkFwd (fw_at s) (fw_ctx s) (fw_done s) (fw_cancel s) (Some a) (fw_vip s) (fw_streams s)
  | WVip => mkFwd (fw_at s) (fw_ctx s) (fw_done s) (fw_cancel s) (fw_local s) (Some a) (fw_streams s)
  | WStreams => mkFwd (fw_at s) (fw_ctx s) (fw_done s) (fw_cancel s) (fw_local s) (fw_vip s) (Some a)
  end.
Definition kind_of (w : Which) : AcceptKind := match w with WStreams => KStreams | _ => KLocal end.

(** The listener goroutine closes the queue when the loops' context ends;
    streams also end with the session. *)
Definition may_close (w : Which) (s : Fwd) : bool := fw_cancel s || fw_ctx s || match w with WStreams => fw_done s | _ => false end.

Definition returned (a : option Acceptor) : bool := match a with Some a => match ac_at a with Returned => true | _ => false end | None => true end.
Definition counted (a : option Acceptor) : Z := match a with Some a => ac_count a | None => 0 end.

Inductive FwdEvent :=
| CtxEnds | SessionOver
| Loop (w : Which) (e : AcceptEvent)
| Leaves                     (* the select returns *)
| Waited.                    (* wg.Wait returns *)

Definition fwd_step (e : FwdEvent) (s : Fwd) : option Fwd :=
  match e with
  | CtxEnds => Some (mkFwd (fw_at s) true (fw_done s) (fw_cancel s) (fw_local s) (fw_vip s) (fw_streams s))
  | SessionOver => Some (mkFwd (fw_at s) (fw_ctx s) true (fw_cancel s) (fw_local s) (fw_vip s) (fw_streams s))
  | Loop w e =>
      match acceptor w s with
      | Some a =>
          match e with QueueCloses => if may_close w s then (fun a => set_acceptor w a s) <$> acc_step (kind_of w) e a else None
          | _ => (fun a => set_acceptor w a s) <$> acc_step (kind_of w) e a end
      | None => None
      end
  | Leaves =>
      match fw_at s with
      | Selecting =>
          if fw_done s || fw_ctx s then Some (mkFwd Joining (fw_ctx s) true true (fw_local s) (fw_vip s) (fw_streams s)) else None
      | _ => None
      end
  | Waited =>
      match fw_at s with
      | Joining =>
          if returned (fw_local s) && returned (fw_vip s) && returned (fw_streams s)
          then Some (mkFwd (Over (counted (fw_local s) + counted (fw_vip s) + counted (fw_streams s)))
                       (fw_ctx s) (fw_done s) (fw_cancel s) (fw_local s) (fw_vip s) (fw_streams s))
          else None
      | _ => None
      end
  end.

Fixpoint fwd_run (es : list FwdEvent) (s : Fwd) : option Fwd :=
  match es with [] => Some s | e :: r => s' ← fwd_step e s; fwd_run r s' end.

(** [forward]: which loops run.  [serveLocal] and [serveVIP] return at once
    where they cannot listen. *)
Definition forward (localListen forwardTo : string) (vip_valid : bool) (vipPort : string) (listens bound : bool) : Fwd :=
  mkFwd Selecting false false false
    (if String.eqb localListen "" then None else if listens then Some new_acceptor else None)
    (if negb (String.eqb vipPort "") && vip_valid && bound then Some new_acceptor else None)
    (if String.eqb forwardTo "" then None else Some new_acceptor).

(** ** A session until it is over *)

(** The end of [buddyRun] in [internal/role/connect.go]: what it waits for once
    the session is up.  In lazy mode without [--forward] that is the session's
    end alone. *)
Record Live := mkLive { lv_lazy : bool; lv_forward : bool; lv_interval : Z; lv_age : Z; lv_ctx : bool; lv_done : bool; lv_reauth : bool }.

Definition may_return (l : Live) : bool :=
  if lv_lazy l && negb (lv_forward l) then lv_done l else lv_done l || lv_ctx l.

Inductive LiveEvent := LCancel | LSessionEnds | LTick (d : Z).

(** The re-authentication timer closes the session. *)
Definition live_step (l : Live) (e : LiveEvent) : Live :=
  match e with
  | LCancel => mkLive (lv_lazy l) (lv_forward l) (lv_interval l) (lv_age l) true (lv_done l) (lv_reauth l)
  | LSessionEnds => mkLive (lv_lazy l) (lv_forward l) (lv_interval l) (lv_age l) (lv_ctx l) true (lv_reauth l)
  | LTick d =>
      let age := lv_age l + d in
      let fires := (0 <? lv_interval l) && (lv_interval l <=? age) && negb (lv_done l) in
      mkLive (lv_lazy l) (lv_forward l) (lv_interval l) age (lv_ctx l) (lv_done l || fires) (lv_reauth l || fires)
  end.

Definition disconnect_reason (l : Live) : string :=
  if lv_ctx l then "shutdown" else if lv_reauth l then "reauth" else "peer-closed-or-idle".
