(* ===== verification/ForwardProps.v ===== *)
(** * What carrying data guarantees *)

From S2P Require Import Prelude Forward.

(** ** Local sockets *)

(** Bits for the group or for others. *)
Definition open_to_others (m : Z) : bool := negb (Z.land m 63 =? 0).

Definition sockets_private (path : string) (p : Proc) : Prop := forall m, paths p !! path = Some (Sock, m) -> open_to_others m = false.

Lemma tight_create : open_to_others (Z.ldiff all_perms tight_mask) = false.
Proof. reflexivity. Qed.

(** C31. A local socket is its owner's from the first instant.  Whatever the
    process mask was and whichever calls fail, in every state another process
    can observe the socket at the path is closed to group and others, or the old
    file could not be removed and is still what it was; when listening succeeds it exists with mode 0600; when it
    does not, no socket of this call is left; the mask and every other path
    are as before, on every branch. *)
Theorem local_socket_private io addr p ok seen p' :
  listenLocal io addr p = (ok, seen, p') ->
  umask p' = umask p /\
  match localNetwork addr with
  | (TCP, _) => p' = p
  | (Unix, path) =>
      Forall (fun q => sockets_private path q \/ (so_remove io = false /\ paths q !! path = paths p !! path)) seen /\
      (if ok then paths p' !! path = Some (Sock, owner_rw)
       else paths p' !! path = if so_remove io then None else paths p !! path) /\
      forall q, q <> path -> paths p' !! q = paths p !! q
  end.
Proof.
  unfold listenLocal. destruct (localNetwork addr) as [[] path]; [by intros [= _ _ <-] |]. unfold withTightUmask, listen_unix. cbn [paths umask].
  destruct (so_remove io) eqn:R; cbn [paths umask].
  - assert (D : delete path (paths p) !! path = None) by apply lookup_delete_eq.
    assert (G : forall u, sockets_private path (mkProc u (delete path (paths p)))) by (intros u m; cbn; by rewrite D).
    assert (I : forall u m, open_to_others m = false -> sockets_private path (mkProc u (<[path := (Sock, m)]> (delete path (paths p)))))
      by (intros u m Hm m'; cbn; rewrite lookup_insert_eq; by intros [= <-]).
    rewrite D. rewrite (bool_decide_eq_false_2 (is_Some None)) by (by intros [? ?]). rewrite orb_false_r. destruct (so_bind io); cbn [negb].
    + assert (S0 : Forall (sockets_private path) [mkProc (umask p) (delete path (paths p)); mkProc tight_mask (delete path (paths p));
          mkProc tight_mask (<[path := (Sock, Z.ldiff all_perms tight_mask)]> (delete path (paths p)));
          mkProc (umask p) (<[path := (Sock, Z.ldiff all_perms tight_mask)]> (delete path (paths p)))]) by (repeat constructor; auto).
      destruct (so_chmod io); intros [= <- <- <-]; (split; [done |]); cbn [paths]; split_and!.
      * eapply Forall_impl; [| by left]. apply (Forall_app_2 _ _ _ S0). repeat constructor. intros m. cbn. rewrite lookup_insert_eq. by intros [= <-].
      * apply lookup_insert_eq.
      * intros q Hq. rewrite !lookup_insert_ne by done. by rewrite lookup_delete_ne.
      * eapply Forall_impl; [| by left]. apply (Forall_app_2 _ _ _ S0). repeat constructor. intros m. cbn. by rewrite lookup_delete_eq.
      * apply lookup_delete_eq.
      * intros q Hq. rewrite lookup_delete_ne, lookup_insert_ne by done. by rewrite lookup_delete_ne.
    + intros [= <- <- <-]. split; [done |]. cbn [paths]. split_and!; [repeat (apply Forall_cons_2; [left; apply G |]); apply Forall_nil_2 | done |]. intros q Hq. by rewrite lookup_delete_ne.
  - assert (I : forall u m, open_to_others m = false -> sockets_private path (mkProc u (<[path := (Sock, m)]> (paths p))))
      by (intros u m Hm m'; cbn; rewrite lookup_insert_eq; by intros [= <-]).
    destruct (so_bind io); cbn [negb orb]; [| intros [= <- <- <-]; split_and!; try done; repeat (apply Forall_cons_2; [by right |]); apply Forall_nil_2].
    case_bool_decide as E; [intros [= <- <- <-]; split_and!; try done; repeat (apply Forall_cons_2; [by right |]); apply Forall_nil_2 |].
    apply eq_None_not_Some in E. destruct (so_chmod io); intros [= <- <- <-]; (split; [done |]); cbn [paths]; split_and!; try done.
    + do 4 (apply Forall_cons_2; [auto 10 |]). apply Forall_cons_2; [| apply Forall_nil_2]. left. intros m. cbn. rewrite lookup_insert_eq. by intros [= <-].
    + apply lookup_insert_eq.
    + intros q Hq. by rewrite !lookup_insert_ne.
    + do 4 (apply Forall_cons_2; [auto 10 |]). apply Forall_cons_2; [| apply Forall_nil_2]. right. split; [done |]. cbn. by rewrite lookup_delete_eq.
    + by rewrite lookup_delete_eq.
    + intros q Hq. by rewrite lookup_delete_ne, lookup_insert_ne.
Qed.

(** ** Two copies *)

Definition in_hand (c : Copier) : string := match c with Writing chunk => chunk | _ => "" end.
Definition ending (c : Copier) : Prop := c = Closing \/ c = Finished.

Record half_inv (h : Half) : Prop := {
  hi_prefix : exists rest, h_sent h = h_got h ⊕ rest;
  hi_whole : h_broken h = false -> h_sent h = h_got h ⊕ in_hand (h_copier h) ⊕ h_unread h;
  hi_ending : h_broken h = false -> ending (h_copier h) -> h_eof h = true /\ h_unread h = "";
}.

Lemma idle_inv : half_inv idle.
Proof. split; cbn; [by exists "" | done | by intros _ [? | ?]]. Qed.

Lemma break_inv h : half_inv h -> half_inv (break h).
Proof. intros Hi. unfold break. destruct (h_copier h) eqn:E; try done; (split; cbn; [apply Hi | done | done]). Qed.

Lemma break_copier h : h_copier (break h) = h_copier h.
Proof. unfold break. by destruct (h_copier h) eqn:E; rewrite ?E. Qed.

Record splice_inv (s : Splice) : Prop := {
  si_half : forall d, half_inv (half d s);
  si_closed : sp_closed s = true -> forall d, h_copier (half d s) = Finished;
}.

Lemma half_set d d' h s : half d' (set_half d h s) = if decide (d' = d) then h else half d' s.
Proof. by destruct d, d'. Qed.

(** A step of one direction. *)
Lemma set_half_inv d h s : sp_closed s = false -> half_inv h -> splice_inv s -> splice_inv (set_half d h s).
Proof.
  intros C Hh Hi. split; [intros d'; rewrite half_set; destruct (decide _); [done | apply Hi] |]. destruct d; cbn; by rewrite C.
Qed.

Lemma splice_step_inv e s s' : splice_step e s = Some s' -> splice_inv s -> splice_inv s'.
Proof.
  unfold splice_step. destruct (sp_closed s) eqn:C; [done |]. intros E Hi.
  assert (Set_ : forall d h, half_inv h -> Some (set_half d h s) = Some s' -> splice_inv s')
    by (intros d h Hh [= <-]; by apply set_half_inv).
  destruct e as [d data | d | d | d n | d | d | d |]; try pose proof (si_half _ Hi d) as [(rest & P) W F].
  - destruct (h_eof (half d s)) eqn:Ee; [done |]. destruct (h_broken (half d s)) eqn:B; [done |]. revert E. apply Set_. split; cbn; intros.
    + exists (rest ⊕ data). by rewrite P, app_assoc_s.
    + rewrite W by done. by rewrite !app_assoc_s.
    + destruct (F eq_refl ltac:(done)) as [? _]. congruence.
  - destruct (h_broken (half d s)) eqn:B; [done |]. revert E. apply Set_. split; cbn; intros; [by exists rest | by apply W | split; [done | by apply F]].
  - revert E. apply Set_, break_inv. apply Hi.
  - destruct (h_copier (half d s)) eqn:Ec; try done. destruct (_ && _); [| done]. revert E. apply Set_. split; cbn; intros; [by exists rest | | by destruct H0].
    rewrite W by done. cbn. by rewrite take_drop_s.
  - destruct (h_copier (half d s)) eqn:Ec; try done. destruct (h_broken (half d s)) eqn:B; [done |]. revert E. apply Set_. split; cbn; intros.
    + exists (h_unread (half d s)). rewrite W by done. cbn. by rewrite app_assoc_s.
    + rewrite W by done. cbn. by rewrite app_assoc_s.
    + by destruct H0.
  - assert (K : forall h, (h_broken h = true \/ (h_copier h = Reading /\ h_eof h = true /\ h_unread h = "")) -> half_inv h -> half_inv (set_copier Closing h)).
    { intros h Hc [P' W' F']. split; cbn; [done | |]; intros B; (destruct Hc as [Hc | (Hc & He & Hu)]; [congruence |]); [| done].
      rewrite W' by done. by rewrite Hc. }
    destruct (h_copier (half d s)) eqn:Ec; try done.
    + destruct (h_broken (half d s)) eqn:B; cbn [orb] in E.
      * revert E. apply Set_, K; [by left | apply Hi].
      * destruct (h_eof _ && _) eqn:Q; [| done]. apply andb_true_iff in Q as [Q1 Q2%String.eqb_eq]. revert E. apply Set_, K; [by right | apply Hi].
    + destruct (h_broken (half d s)) eqn:B; [| done]. revert E. apply Set_, K; [by left | apply Hi].
  - destruct (h_copier (half d s)) eqn:Ec; try done.
    assert (I1 : splice_inv (set_half d (set_copier Finished (half d s)) s)).
    { apply set_half_inv; [done | | done]. split; cbn; intros; [by exists rest | by rewrite W | apply F; [done | by left]]. }
    destruct d; [by injection E as <- |]. destruct (sp_cw s); injection E as <-; [done |].
    exact (set_half_inv Up (break (sp_up s)) (set_half Down (set_copier Finished (half Down s)) s) C (break_inv _ (si_half _ Hi Up)) I1).
  - destruct (h_copier (sp_up s)) eqn:E1, (h_copier (sp_down s)) eqn:E2; try done. injection E as <-.
    split; [intros d; apply (si_half _ Hi d) | intros _ []; cbn; congruence].
Qed.

Lemma splice_run_inv es : forall s s', splice_run es s = Some s' -> splice_inv s -> splice_inv s'.
Proof.
  induction es as [| e es IH]; intros s s'; cbn [splice_run]; [by intros [= <-] |].
  destruct (splice_step e s) as [s1 |] eqn:E; [| done]. cbn. intros R Hi. eapply IH; [exact R |]. by eapply splice_step_inv.
Qed.

Lemma splice_start_inv cw : splice_inv (splice cw).
Proof. split; [intros []; apply idle_inv | done]. Qed.

(** *** One direction does not disturb the other *)

Lemma set_half_cw d h s : sp_cw (set_half d h s) = sp_cw s.
Proof. by destruct d. Qed.

Lemma splice_step_cw e s s' : splice_step e s = Some s' -> sp_cw s' = sp_cw s.
Proof.
  unfold splice_step. destruct (sp_closed s); [done |].
  destruct e as [d data | d | d | d n | d | d | d |]; repeat case_match; intros [= <-]; by rewrite ?set_half_cw.
Qed.

Lemma splice_run_cw es : forall s s', splice_run es s = Some s' -> sp_cw s' = sp_cw s.
Proof.
  induction es as [| e es IH]; intros s s'; cbn [splice_run]; [by intros [= <-] |]. destruct (splice_step e s) as [s1 |] eqn:E; [| done].
  cbn. intros Q. rewrite (IH _ _ Q). by eapply splice_step_cw.
Qed.

Lemma splice_step_unbroken e s s' d :
  splice_step e s = Some s' -> e <> Breaks d -> d = Down \/ sp_cw s = true -> h_broken (half d s) = false -> h_broken (half d s') = false.
Proof.
  unfold splice_step. destruct (sp_closed s); [done |]. intros E Hn Hd B.
  assert (K : forall d' h, (d' = d -> h_broken h = false) -> h_broken (half d (set_half d' h s)) = false).
  { intros d' h Hh. rewrite half_set. destruct (decide (d = d')); auto. }
  destruct e as [d' data | d' | d' | d' n | d' | d' | d' |]; revert E; repeat case_match; intros [= <-]; try (apply K; cbn; congruence); try (by destruct d).
  destruct Hd as [-> | ?]; [exact B | congruence].
Qed.

Lemma splice_run_unbroken es : forall s s' d,
  splice_run es s = Some s' -> Breaks d ∉ es -> d = Down \/ sp_cw s = true -> h_broken (half d s) = false -> h_broken (half d s') = false.
Proof.
  induction es as [| e es IH]; intros s s' d; cbn [splice_run]; [by intros [= <-] |].
  destruct (splice_step e s) as [s1 |] eqn:E; [| done]. cbn. intros R [N1 N2]%not_elem_of_cons Hd B.
  eapply IH; [exact R | done | by rewrite (splice_step_cw _ _ _ E) |]. eapply splice_step_unbroken; [exact E | congruence | done | done].
Qed.

(** *** The copies end *)

Definition half_work (h : Half) : nat :=
  match h_copier h with Reading => 2 + 2 * slen (h_unread h) | Writing _ => 3 + 2 * slen (h_unread h) | Closing => 1 | Finished => 0 end.
Definition splice_work (s : Splice) : nat := half_work (sp_up s) + half_work (sp_down s) + (if sp_closed s then 0 else 1).

Lemma half_work_break h : half_work (break h) = half_work h.
Proof. unfold break, half_work. by destruct (h_copier h) eqn:E; cbn; rewrite ?E. Qed.

Lemma set_half_work d h s : (half_work h < half_work (half d s))%nat -> (splice_work (set_half d h s) < splice_work s)%nat.
Proof. destruct d; unfold splice_work; cbn; lia. Qed.

Lemma own_step_work e s s' : own e = true -> splice_step e s = Some s' -> (splice_work s' < splice_work s)%nat.
Proof.
  unfold splice_step. destruct (sp_closed s) eqn:C; [done |]. destruct e as [d data | d | d | d n | d | d | d |]; try done; intros _ E.
  - destruct (h_copier (half d s)) eqn:Ec; try done. destruct (_ && _) eqn:B; [| done]. injection E as <-. apply set_half_work. unfold half_work. cbn. rewrite Ec.
    breflect. rewrite slen_drop. lia.
  - destruct (h_copier (half d s)) eqn:Ec; try done. destruct (h_broken _); [done |]. injection E as <-. apply set_half_work. unfold half_work. cbn. rewrite Ec. lia.
  - destruct (h_copier (half d s)) eqn:Ec; try done; repeat case_match; try done; injection E as <-; apply set_half_work; unfold half_work; cbn; rewrite Ec; lia.
  - destruct (h_copier (half d s)) eqn:Ec; try done. assert (L : (splice_work (set_half d (set_copier Finished (half d s)) s) < splice_work s)%nat)
      by (apply set_half_work; unfold half_work; cbn; rewrite Ec; lia).
    destruct d; [by injection E as <- |]. destruct (sp_cw s); injection E as <-; [done |].
    unfold splice_work in *. cbn in *. by rewrite half_work_break.
  - destruct (h_copier (sp_up s)), (h_copier (sp_down s)); try done. injection E as <-. unfold splice_work. cbn. rewrite C. lia.
Qed.

Lemma own_run_work es : forall s s', forallb own es = true -> splice_run es s = Some s' -> (length es + splice_work s' <= splice_work s)%nat.
Proof.
  induction es as [| e es IH]; intros s s'; cbn [splice_run forallb length]; [intros _ [= <-]; lia |].
  intros [O Os]%andb_true_iff. destruct (splice_step e s) as [s1 |] eqn:E; [| done]. cbn. intros R.
  apply own_step_work in E; [| done]. specialize (IH _ _ Os R). lia.
Qed.

(** Where nothing of its own is left to do, the splice is over or waits for an
    end that has neither finished nor broken. *)
Lemma own_stuck s : (forall e, own e = true -> splice_step e s = None) -> (forall d, h_eof (half d s) || h_broken (half d s) = true) -> sp_closed s = true.
Proof.
  intros N A. destruct (sp_closed s) eqn:C; [done |]. exfalso.
  assert (F : forall d, h_copier (half d s) = Finished).
  { intros d. destruct (h_copier (half d s)) as [| chunk | |] eqn:Ec; [exfalso .. | done].
    - destruct (h_broken (half d s)) eqn:B.
      + specialize (N (Stops d) eq_refl). unfold splice_step in N. by rewrite C, Ec, B in N.
      + specialize (A d). rewrite B, orb_false_r in A. destruct (h_unread (half d s)) as [| c r] eqn:U.
        * specialize (N (Stops d) eq_refl). unfold splice_step in N. by rewrite C, Ec, B, A, U in N.
        * specialize (N (Reads d 1) eq_refl). unfold splice_step in N. by rewrite C, Ec, U in N.
    - destruct (h_broken (half d s)) eqn:B.
      + specialize (N (Stops d) eq_refl). unfold splice_step in N. by rewrite C, Ec, B in N.
      + specialize (N (Writes d) eq_refl). unfold splice_step in N. by rewrite C, Ec, B in N.
    - specialize (N (HalfCloses d) eq_refl). unfold splice_step in N. by rewrite C, Ec in N. }
  specialize (N ClosesBoth eq_refl). unfold splice_step in N. pose proof (F Up) as FU. pose proof (F Down) as FD. cbn in FU, FD. by rewrite C, FU, FD in N.
Qed.

(** An own step keeps what the ends did. *)
Lemma own_step_ends e s s' d :
  own e = true -> splice_step e s = Some s' ->
  h_sent (half d s') = h_sent (half d s) /\ h_eof (half d s') = h_eof (half d s) /\ (h_broken (half d s) = true -> h_broken (half d s') = true).
Proof.
  unfold splice_step. destruct (sp_closed s); [done |]. intros O E.
  assert (Bk : forall h, h_sent (break h) = h_sent h /\ h_eof (break h) = h_eof h /\ (h_broken h = true -> h_broken (break h) = true))
    by (intros h; unfold break; by destruct (h_copier h)).
  destruct e as [d' data | d' | d' | d' n | d' | d' | d' |]; try done; revert E; repeat case_match; intros [= <-]; destruct d; try done; try (destruct d'; done).
  all: try apply Bk. all: destruct d'; try done; cbn in *; split_and!; congruence.
Qed.

Lemma own_run_ends es : forall s s' d,
  forallb own es = true -> splice_run es s = Some s' ->
  h_sent (half d s') = h_sent (half d s) /\ h_eof (half d s') = h_eof (half d s) /\ (h_broken (half d s) = true -> h_broken (half d s') = true).
Proof.
  induction es as [| e es IH]; intros s s' d; cbn [splice_run forallb]; [by intros _ [= <-] |].
  intros [O Os]%andb_true_iff. destruct (splice_step e s) as [s1 |] eqn:E; [| done]. cbn. intros R.
  destruct (own_step_ends _ _ _ d O E) as (A1 & A2 & A3), (IH _ _ d Os R) as (B1 & B2 & B3). split_and!; [congruence | congruence | auto].
Qed.

Lemma own_not_break es d : forallb own es = true -> Breaks d ∉ es.
Proof. intros O I%list_elem_of_In. rewrite forallb_forall in O. by specialize (O _ I). Qed.

(** C13. Splicing neither loses nor invents data and always ends.  Whatever both
    ends do and however the two copies are interleaved, each end has received
    a prefix of what the other wrote; a side is half-closed without an error
    only after everything arrived; both are closed only after both directions
    are through; and as long as the local connection can be half-closed, the
    end of one direction never cuts the other.  The copies themselves take a
    bounded number of steps, and once each direction has ended or broken they
    can stop only with everything closed and, where nothing broke, delivered. *)
Theorem splice_delivers cw es s :
  splice_run es (splice cw) = Some s ->
  (forall d, exists rest, h_sent (half d s) = h_got (half d s) ⊕ rest) /\
  (forall d, ending (h_copier (half d s)) -> h_broken (half d s) = false -> h_eof (half d s) = true /\ h_got (half d s) = h_sent (half d s)) /\
  (sp_closed s = true -> forall d, h_copier (half d s) = Finished) /\
  (forall d, Breaks d ∉ es -> d = Down \/ cw = true -> h_broken (half d s) = false) /\
  forall es' s', forallb own es' = true -> splice_run es' s = Some s' ->
    (length es' <= splice_work s)%nat /\
    ((forall d, h_eof (half d s) || h_broken (half d s) = true) -> (forall e, own e = true -> splice_step e s' = None) ->
     sp_closed s' = true /\ forall d, Breaks d ∉ es -> d = Down \/ cw = true -> h_got (half d s') = h_sent (half d s)).
Proof.
  intros R. pose proof (splice_run_inv _ _ _ R (splice_start_inv cw)) as Hi.
  assert (U : forall d, Breaks d ∉ es -> d = Down \/ cw = true -> h_broken (half d s) = false) by (intros d N Hd; eapply splice_run_unbroken; [exact R | done | done | by destruct d]).
  assert (All : forall s d, splice_inv s -> ending (h_copier (half d s)) -> h_broken (half d s) = false -> h_eof (half d s) = true /\ h_got (half d s) = h_sent (half d s)).
  { intros s1 d I1 En B. destruct (hi_ending _ (si_half _ I1 d) B En) as [E1 E2]. split; [done |]. rewrite (hi_whole _ (si_half _ I1 d) B), E2.
    destruct En as [-> | ->]; cbn; by rewrite app_empty_r. }
  pose proof (splice_run_cw _ _ _ R) as Cw. cbn in Cw.
  split_and!; [intros d; apply (si_half _ Hi d) | intros d; by apply All | apply (si_closed _ Hi) | done |].
  intros es' s' O R'. pose proof (own_run_work _ _ _ O R'). split; [lia |]. intros A N.
  assert (C : sp_closed s' = true).
  { apply own_stuck; [done |]. intros d. destruct (own_run_ends _ _ _ d O R') as (_ & -> & K). specialize (A d). apply orb_true_iff in A as [-> | A]; [done |].
    rewrite K by done. by rewrite orb_true_r. }
  split; [done |]. intros d Nb Hd. pose proof (splice_run_inv _ _ _ R' Hi) as Hi'. pose proof (si_closed _ Hi' C d) as Fin.
  destruct (own_run_ends _ _ _ d O R') as (<- & _). apply All; [done | by right |].
  eapply splice_run_unbroken; [exact R' | by apply own_not_break | by rewrite Cw | auto].
Qed.

(** ** Accepting *)

Definition held (a : Acceptor) : list nat := match ac_at a with Holding c => [c] | _ => [] end.
Definition handled (a : Acceptor) : list nat := (map_to_list (ac_handlers a)).*1.

Record acc_inv (k : AcceptKind) (a : Acceptor) : Prop := {
  ai_bound : (size (ac_handlers a) <= maxConcurrentStreams)%nat;
  ai_seen : NoDup (ac_seen a);
  ai_once : ac_seen a ≡ₚ held a ++ handled a ++ ac_shut a ++ ac_lost a;
  ai_count : match k with KStreams => ac_count a + Z.of_nat (length (held a)) = Z.of_nat (length (ac_seen a))
                        | _ => 0 <= ac_count a end;
}.

Lemma new_acceptor_inv k : acc_inv k new_acceptor.
Proof. split; try done; [vm_compute; lia | constructor | by destruct k]. Qed.

(** A handler comes, changes or goes. *)
Lemma handled_insert a c h : ac_handlers a !! c = None -> (map_to_list (<[c := h]> (ac_handlers a))).*1 ≡ₚ c :: handled a.
Proof. intros N. unfold handled. by rewrite map_to_list_insert. Qed.

Lemma handled_update a c h h' : ac_handlers a !! c = Some h -> (map_to_list (<[c := h']> (ac_handlers a))).*1 ≡ₚ handled a.
Proof.
  intros S. unfold handled. rewrite <- (insert_delete_id _ _ _ S) at 2. rewrite <- (insert_delete_eq (ac_handlers a) c h').
  by rewrite !map_to_list_insert by apply lookup_delete_eq.
Qed.

Lemma handled_delete a c h : ac_handlers a !! c = Some h -> handled a ≡ₚ c :: (map_to_list (delete c (ac_handlers a))).*1.
Proof. intros S. unfold handled. by rewrite <- (map_to_list_delete _ _ _ S). Qed.

Lemma fresh_handler k a c : acc_inv k a -> ac_at a = Holding c -> ac_handlers a !! c = None.
Proof.
  intros Hi E. destruct (ac_handlers a !! c) as [h |] eqn:L; [| done]. exfalso. pose proof (ai_seen _ _ Hi) as N. rewrite (ai_once _ _ Hi) in N.
  unfold held in N. rewrite E in N. cbn in N. apply NoDup_cons in N as [N _]. apply N. rewrite (handled_delete _ _ _ L). by left.
Qed.

Lemma handler_gone k a c h shut lost :
  acc_inv k a -> ac_handlers a !! c = Some h -> c :: ac_shut a ++ ac_lost a ≡ₚ shut ++ lost ->
  acc_inv k (mkAcc (ac_at a) (ac_open a) (delete c (ac_handlers a)) (ac_seen a) shut lost (ac_count a)).
Proof.
  intros Hi L Q. pose proof (ai_bound _ _ Hi). split; cbn; [| apply Hi | | apply Hi].
  - rewrite map_size_delete_Some by eauto. lia.
  - pose proof (ai_once _ _ Hi) as P. rewrite (handled_delete _ _ _ L) in P. etransitivity; [exact P |]. unfold held, handled. cbn. f_equiv.
    rewrite <- Q. by rewrite <- Permutation_middle.
Qed.

Lemma acc_step_inv k e a a' : acc_step k e a = Some a' -> acc_inv k a -> acc_inv k a'.
Proof.
  intros E Hi. pose proof (ai_bound _ _ Hi) as B. pose proof (ai_seen _ _ Hi) as N. pose proof (ai_once _ _ Hi) as P. pose proof (ai_count _ _ Hi) as C.
  destruct e as [c | | | | c | c | c | c |]; cbn [acc_step] in E.
  - destruct (ac_at a) eqn:At; try done. destruct (ac_open a && _) eqn:Ok; [| done]. injection E as <-. unfold held in *. rewrite At in *.
    apply andb_true_iff in Ok as [_ F%negb_true_iff%bool_decide_eq_false]. split; cbn; [done | by constructor | exact (perm_skip c P) |].
    unfold held. cbn. destruct k; cbn in *; lia.
  - destruct (ac_at a) eqn:At; try done. destruct (ac_open a); [done |]. injection E as <-. unfold held in *. rewrite At in *. split; done.
  - destruct (ac_at a) eqn:At; try done. destruct (ac_open a); [| done]. injection E as <-. unfold held in *. rewrite At in *. split; done.
  - destruct (ac_at a) as [| c |] eqn:At; try done. destruct (Nat.ltb_spec (size (ac_handlers a)) maxConcurrentStreams) as [L |]; [| done]. injection E as <-.
    pose proof (fresh_handler _ _ _ Hi At) as F. unfold held in *. rewrite At in *. split; cbn.
    + rewrite map_size_insert_None by done. lia.
    + done.
    + etransitivity; [exact P |]. unfold held, handled at 2. cbn. by rewrite (handled_insert a c).
    + unfold held. cbn. destruct k; cbn in *; lia.
  - destruct (ac_handlers a !! c) as [[] |] eqn:L; try done. injection E as <-. split; cbn.
    + rewrite map_size_insert_Some; eauto.
    + done.
    + etransitivity; [exact P |]. unfold held, handled at 2. cbn. by rewrite (handled_update a c Starting).
    + unfold held in *. cbn. destruct k; cbn in *; lia.
  - destruct (ac_handlers a !! c) as [[] |] eqn:L; try done. injection E as <-. by eapply handler_gone.
  - destruct (ac_handlers a !! c) as [[] |] eqn:L; try done. injection E as <-. by eapply handler_gone.
  - destruct (ac_handlers a !! c) as [[] |] eqn:L; try done. injection E as <-. eapply handler_gone; [done | done |]. apply Permutation_middle.
  - destruct (ac_open a); [| done]. injection E as <-. split; done.
Qed.

(** ** A tunnel's data plane *)

Record fwd_inv (s : Fwd) : Prop := {
  fi_acc : forall w a, acceptor w s = Some a -> acc_inv (kind_of w) a;
  fi_left : fw_at s <> Selecting -> fw_done s = true /\ fw_cancel s = true;
  fi_over : forall n, fw_at s = Over n -> forall w, returned (acceptor w s) = true;
}.

Lemma acceptor_set w w' a s : acceptor w' (set_acceptor w a s) = if decide (w' = w) then Some a else acceptor w' s.
Proof. by destruct w, w'. Qed.

Lemma set_acceptor_same w a s :
  fw_at (set_acceptor w a s) = fw_at s /\ fw_done (set_acceptor w a s) = fw_done s /\ fw_cancel (set_acceptor w a s) = fw_cancel s /\
  fw_ctx (set_acceptor w a s) = fw_ctx s.
Proof. by destruct w. Qed.

(** A loop that has returned stays so. *)
Lemma acc_step_returned k e a a' : acc_step k e a = Some a' -> ac_at a = Returned -> ac_at a' = Returned.
Proof. intros E R. destruct e; cbn [acc_step] in E; rewrite ?R in E; repeat case_match; by simplify_eq. Qed.

Lemma loop_step w e s s' :
  fwd_step (Loop w e) s = Some s' -> exists a a', acceptor w s = Some a /\ acc_step (kind_of w) e a = Some a' /\ s' = set_acceptor w a' s.
Proof.
  cbn [fwd_step]. destruct (acceptor w s) as [a |]; [| done]. intros E.
  assert (K : (fun a => set_acceptor w a s) <$> acc_step (kind_of w) e a = Some s') by (destruct e; try done; by destruct (may_close w s)).
  destruct (acc_step _ e a) as [a' |] eqn:Es; [| done]. injection K as <-. by exists a, a'.
Qed.

Lemma fwd_step_inv e s s' : fwd_step e s = Some s' -> fwd_inv s -> fwd_inv s'.
Proof.
  intros E Hi. destruct e as [| | w e | |].
  - injection E as <-. split; [intros w a A; apply (fi_acc _ Hi); by destruct w | apply Hi | intros n Hn w; pose proof (fi_over _ Hi n Hn w); by destruct w].
  - injection E as <-. split; [intros w a A; apply (fi_acc _ Hi); by destruct w | intros Hn; split; [done | by apply Hi] | intros n Hn w; pose proof (fi_over _ Hi n Hn w); by destruct w].
  - apply loop_step in E as (a & a' & A & St & ->). pose proof (set_acceptor_same w a' s) as (S1 & S2 & S3 & _). split.
    + intros w' b. rewrite acceptor_set. destruct (decide (w' = w)) as [-> |]; [| apply Hi]. intros [= <-]. eapply acc_step_inv; [exact St | by eapply fi_acc].
    + rewrite S1, S2, S3. apply Hi.
    + intros n. rewrite S1. intros Hn w'. rewrite acceptor_set. destruct (decide (w' = w)) as [-> |]; [| by eapply fi_over].
      pose proof (fi_over _ Hi n Hn w) as R. rewrite A in R. cbn in *. destruct (ac_at a) eqn:Ea; try done. by rewrite (acc_step_returned _ _ _ _ St Ea).
  - cbn [fwd_step] in E. destruct (fw_at s) eqn:At; try done. destruct (_ || _); [| done]. injection E as <-. split; [intros w a A; apply (fi_acc _ Hi); by destruct w | done | done].
  - cbn [fwd_step] in E. destruct (fw_at s) eqn:At; try done. destruct (_ && _) eqn:R; [| done]. injection E as <-. breflect.
    split; [intros w a A; apply (fi_acc _ Hi); by destruct w | intros _; apply (fi_left _ Hi); by rewrite At | by intros n _ []].
Qed.

Lemma fwd_run_inv es : forall s s', fwd_run es s = Some s' -> fwd_inv s -> fwd_inv s'.
Proof.
  induction es as [| e es IH]; intros s s'; cbn [fwd_run]; [by intros [= <-] |].
  destruct (fwd_step e s) as [s1 |] eqn:E; [| done]. cbn. intros R Hi. eapply IH; [exact R |]. by eapply fwd_step_inv.
Qed.

Lemma forward_inv l f v p ok b : fwd_inv (forward l f v p ok b).
Proof.
  split; [| done | done]. intros [] a; cbn [acceptor forward fw_local fw_vip fw_streams]; repeat case_match; intros [= <-]; apply new_acceptor_inv.
Qed.

(** C25. No connection is lost and none is one too many.  Whatever arrives and in
    whatever order the loops and handlers run, each listener and each stream
    queue serves at most 256 connections and holds at most one more; every
    connection it ever accepted is in exactly one place: held, served, closed,
    or abandoned by a recovered panic; incoming streams are counted exactly.
    Once the data plane reports its end, the session is closed and no loop of
    it is left. *)
Theorem connections_accounted l f v p ok b es s :
  fwd_run es (forward l f v p ok b) = Some s ->
  (forall w a, acceptor w s = Some a ->
     (size (ac_handlers a) <= maxConcurrentStreams)%nat /\ (length (held a) <= 1)%nat /\
     NoDup (held a ++ handled a ++ ac_shut a ++ ac_lost a) /\
     (forall c, c ∈ ac_seen a <-> c ∈ held a \/ c ∈ handled a \/ c ∈ ac_shut a \/ c ∈ ac_lost a) /\
     (w = WStreams -> ac_count a = Z.of_nat (length (ac_seen a)) - Z.of_nat (length (held a)))) /\
  forall n, fw_at s = Over n -> fw_done s = true /\ forall w, returned (acceptor w s) = true.
Proof.
  intros R. apply fwd_run_inv in R as Hi; [| apply forward_inv]. split.
  - intros w a A. pose proof (fi_acc _ Hi w a A) as [B N P C]. split_and!; [done | unfold held; destruct (ac_at a); cbn; lia | by rewrite <- P | | ].
    + intros c. rewrite P, !elem_of_app. done.
    + intros ->. cbn [kind_of] in C. lia.
  - intros n Hn. split; [| by eapply fi_over]. apply (fi_left _ Hi). by rewrite Hn.
Qed.

(** *** The end *)

(** What the data plane does by itself: not an accept call that fails with its
    queue still open, on which it cannot count. *)
Definition fwd_own (e : FwdEvent) : bool :=
  match e with Leaves | Waited | Loop _ QueueCloses | Loop _ Acquires | Loop _ AcceptFails => true | _ => false end.

Definition acc_work (a : option Acceptor) : nat :=
  match a with
  | None => 0
  | Some a => (if ac_open a then 1 else 0) + match ac_at a with Holding _ => 2 | Accepting => 1 | Returned => 0 end
  end.
Definition fwd_work (s : Fwd) : nat :=
  acc_work (fw_local s) + acc_work (fw_vip s) + acc_work (fw_streams s) + match fw_at s with Selecting => 2 | Joining => 1 | Over _ => 0 end.

Lemma fwd_own_work e s s' : fwd_own e = true -> fwd_step e s = Some s' -> (fwd_work s' < fwd_work s)%nat.
Proof.
  intros O E. destruct e as [| | w e | |]; try done.
  - apply loop_step in E as (a & a' & A & St & ->).
    assert (L : (acc_work (Some a') < acc_work (Some a))%nat) by (destruct e; try done; cbn [acc_step] in St; repeat case_match; simplify_eq; cbn; rewrite ?H; repeat case_match; simplify_eq; lia).
    destruct w; cbn [acceptor] in A; unfold fwd_work; cbn [set_acceptor fw_local fw_vip fw_streams fw_at]; rewrite A; lia.
  - cbn [fwd_step] in E. destruct (fw_at s) eqn:At; try done. destruct (_ || _); [| done]. injection E as <-. unfold fwd_work. cbn. rewrite At. lia.
  - cbn [fwd_step] in E. destruct (fw_at s) eqn:At; try done. destruct (_ && _); [| done]. injection E as <-. unfold fwd_work. cbn. rewrite At. lia.
Qed.

Lemma fwd_own_run es : forall s s', forallb fwd_own es = true -> fwd_run es s = Some s' -> (length es + fwd_work s' <= fwd_work s)%nat.
Proof.
  induction es as [| e es IH]; intros s s'; cbn [fwd_run forallb length]; [intros _ [= <-]; lia |].
  intros [O Os]%andb_true_iff. destruct (fwd_step e s) as [s1 |] eqn:E; [| done]. cbn. intros R.
  apply fwd_own_work in E; [| done]. specialize (IH _ _ Os R). lia.
Qed.

Lemma fwd_ended_mono es : forall s s', fwd_run es s = Some s' -> fw_done s || fw_ctx s = true -> fw_done s' || fw_ctx s' = true.
Proof.
  induction es as [| e es IH]; intros s s'; cbn [fwd_run]; [by intros [= <-] |]. destruct (fwd_step e s) as [s1 |] eqn:E; [| done]. cbn. intros R D.
  apply (IH _ _ R). destruct e as [| | w e | |].
  - injection E as <-. cbn. by rewrite orb_true_r.
  - by injection E as <-.
  - apply loop_step in E as (a & a' & _ & _ & ->). pose proof (set_acceptor_same w a' s) as (_ & -> & _ & ->). done.
  - cbn [fwd_step] in E. repeat case_match; by simplify_eq.
  - cbn [fwd_step] in E. repeat case_match; by simplify_eq.
Qed.

(** A loop blocked at its bound. *)
Definition blocked (s : Fwd) : Prop :=
  exists w a c, acceptor w s = Some a /\ ac_at a = Holding c /\ size (ac_handlers a) = maxConcurrentStreams.

(** With its context cancelled a loop is not left waiting for a connection: its
    queue can be closed, and then the call it waits in returns. *)
Lemma loop_stuck s w :
  fwd_inv s -> fw_cancel s = true -> (forall e, fwd_own e = true -> fwd_step e s = None) -> returned (acceptor w s) = true \/ blocked s.
Proof.
  intros Hi C N. destruct (acceptor w s) as [a |] eqn:A; [| by left]. destruct (ac_at a) as [| c |] eqn:At; cbn; rewrite At; [| | by left].
  - exfalso. destruct (ac_open a) eqn:Op.
    + specialize (N (Loop w QueueCloses) eq_refl). cbn [fwd_step] in N. rewrite A in N. unfold may_close in N. rewrite C in N.
      cbn [orb acc_step] in N. by rewrite Op in N.
    + specialize (N (Loop w AcceptFails) eq_refl). cbn [fwd_step] in N. rewrite A in N. cbn [acc_step] in N. by rewrite At, Op in N.
  - right. exists w, a, c. split_and!; [done | done |]. specialize (N (Loop w Acquires) eq_refl). cbn [fwd_step] in N. rewrite A in N. cbn [acc_step] in N.
    rewrite At in N. pose proof (ai_bound _ _ (fi_acc _ Hi w a A)). destruct (Nat.ltb_spec (size (ac_handlers a)) maxConcurrentStreams); [done | lia].
Qed.

(** C26. The data plane ends with its session.  Once the session is over or the
    context is cancelled, what the data plane does by itself (leaving its
    select, closing the queues, ending the loops whose queue is closed, taking
    a free place, and returning) is bounded, and when nothing of it is left to
    do it has returned, without any accept call failing on an open queue; the
    one exception, in
    which it is still waiting, is a loop that holds a connection while all 256
    places are taken by connections nobody has closed. *)
Theorem forward_returns l f v p ok b es s es' s' :
  fwd_run es (forward l f v p ok b) = Some s -> fw_done s || fw_ctx s = true ->
  forallb fwd_own es' = true -> fwd_run es' s = Some s' ->
  (length es' <= fwd_work s)%nat /\
  ((forall e, fwd_own e = true -> fwd_step e s' = None) -> (exists n, fw_at s' = Over n) \/ blocked s').
Proof.
  intros R D O R'. apply fwd_run_inv in R as Hi; [| apply forward_inv]. apply fwd_run_inv in R' as Hi'; [| done].
  pose proof (fwd_own_run _ _ _ O R'). split; [lia |]. intros N. pose proof (fwd_ended_mono _ _ _ R' D) as D'.
  destruct (fw_at s') as [| | n] eqn:At; [| | by left; exists n].
  - specialize (N Leaves eq_refl). cbn [fwd_step] in N. by rewrite At, D' in N.
  - assert (C : fw_cancel s' = true) by (apply (fi_left _ Hi'); by rewrite At). right.
    destruct (loop_stuck s' WLocal Hi' C N) as [R1 |]; [| done]. destruct (loop_stuck s' WVip Hi' C N) as [R2 |]; [| done].
    destruct (loop_stuck s' WStreams Hi' C N) as [R3 |]; [| done]. specialize (N Waited eq_refl). cbn [fwd_step] in N. cbn in R1, R2, R3. by rewrite At, R1, R2, R3 in N.
Qed.

(** ** A session until it is over *)

Lemma live_run_done es : forall l, lv_done l = true -> lv_done (foldl live_step l es) = true.
Proof. induction es as [| e es IH]; intros l D; [done |]. cbn [foldl]. apply IH. destruct e; cbn; [done | done | by rewrite D]. Qed.

Lemma live_run_age es : forall l,
  (forall d, LTick d ∈ es -> 0 <= d) -> 0 < lv_interval l -> lv_interval l <= lv_age l + foldr (fun e n => match e with LTick d => d + n | _ => n end) 0 es ->
  lv_age l < lv_interval l \/ lv_done l = true -> lv_done (foldl live_step l es) = true.
Proof.
  induction es as [| e es IH]; intros l P I A D; cbn [foldl foldr] in *; [destruct D; [lia | done] |].
  assert (P' : forall d, LTick d ∈ es -> 0 <= d) by (intros d K; apply P; by right).
  destruct e as [| | d]; [by apply IH | by apply live_run_done |]. assert (Hd : 0 <= d) by (apply P; by left).
  apply IH; cbn; [done | done | lia |]. destruct (lv_done l); [by right |]. destruct D as [D | ?]; [| done]. cbn [orb negb]. rewrite andb_true_r.
  destruct (Z.ltb_spec 0 (lv_interval l)); [| lia]. destruct (Z.leb_spec (lv_interval l) (lv_age l + d)); [by right | by left].
Qed.

(** A revocation reaches an established tunnel.  With [--reauth-interval] set,
    no session outlives the interval: whatever happens meanwhile, once that
    much time has passed the session is over and the wait for it ends in every
    mode, so that the next attempt checks its authorisation again. *)
Theorem reauth_ends_session lazy fwd interval es :
  0 < interval -> (forall d, LTick d ∈ es -> 0 <= d) ->
  interval <= foldr (fun e n => match e with LTick d => d + n | _ => n end) 0 es ->
  let l := foldl live_step (mkLive lazy fwd interval 0 false false false) es in lv_done l = true /\ may_return l = true.
Proof.
  intros I P A l. assert (D : lv_done l = true) by (apply live_run_age; cbn; [done | done | lia | by left]). split; [done |].
  unfold may_return. rewrite D. by destruct (_ && _).
Qed.

(** ** Concrete runs *)

Module ForwardDemo.
(** A request, its end, the answer after it. *)
Definition exchange : list SpliceEvent :=
  [Sends Up "get"; Ends Up; Reads Up 3; Writes Up; Stops Up; HalfCloses Up; Sends Down "data"; Ends Down; Reads Down 1; Writes Down; Reads Down 3].

Definition midway : Splice := default (splice true) (splice_run exchange (splice true)).

Lemma splice_delivers_witness :
  exists s', splice_run [Writes Down; Stops Down; HalfCloses Down; ClosesBoth] midway = Some s' /\ sp_closed s' = true /\
    h_got (sp_up midway) = "get" /\ h_got (half Down s') = "data".
Proof.
  destruct (splice_delivers true exchange midway eq_refl) as (_ & _ & _ & _ & F).
  destruct (splice_run [Writes Down; Stops Down; HalfCloses Down; ClosesBoth] midway) as [s' |] eqn:E; [| vm_compute in E; discriminate E].
  exists s'. destruct (F [Writes Down; Stops Down; HalfCloses Down; ClosesBoth] s' eq_refl E) as [_ G]. destruct G as [C D].
  - intros []; reflexivity.
  - intros e _. vm_compute in E. injection E as <-. reflexivity.
  - split; [reflexivity |]. split; [exact C |]. split; [reflexivity |]. rewrite (D Down); [reflexivity | | by left].
    intros B. repeat (apply elem_of_cons in B as [B | B]; [discriminate B |]). by apply elem_of_nil in B.
Defined.

Definition private_path : SockIO := mkSockIO true true true.
Definition stale : Proc := mkProc 0 {[ "/run/bn.sock" := (Sock, 511) ]}.

Lemma local_socket_private_witness :
  exists seen p', listenLocal private_path "unix:/run/bn.sock" stale = (true, seen, p') /\
    paths p' !! "/run/bn.sock" = Some (Sock, owner_rw) /\ Forall (fun q => sockets_private "/run/bn.sock" q \/ (true = false /\ paths q !! "/run/bn.sock" = paths stale !! "/run/bn.sock")) seen.
Proof.
  destruct (listenLocal private_path "unix:/run/bn.sock" stale) as [[ok seen] p'] eqn:E.
  destruct (local_socket_private private_path "unix:/run/bn.sock" stale ok seen p' E) as (_ & F & G & _).
  assert (ok = true) as -> by (vm_compute in E; by injection E as <- _ _). exists seen, p'. split; [reflexivity |]. split; [exact G | exact F].
Defined.

(** Connections 1 to n, each served, none finished. *)
Definition fill (n : nat) : list FwdEvent := flat_map (fun c => [Loop WLocal (Accepts c); Loop WLocal Acquires; Loop WLocal (Joined c)]) (seq 1 n).

Definition listening : Fwd := forward "127.0.0.1:8080" "" false "" true false.
Definition traffic : list FwdEvent := fill 3 ++ [SessionOver; Leaves].
Definition busy : option Fwd := fwd_run traffic listening.

Lemma connections_accounted_witness :
  exists s a, busy = Some s /\ acceptor WLocal s = Some a /\ handled a ≡ₚ [1; 2; 3]%nat /\ (size (ac_handlers a) <= maxConcurrentStreams)%nat.
Proof.
  destruct busy as [s |] eqn:E; [| vm_compute in E; discriminate E]. destruct (connections_accounted "127.0.0.1:8080" "" false "" true false traffic s E) as [F _].
  destruct (acceptor WLocal s) as [a |] eqn:A; [| vm_compute in E; injection E as <-; discriminate A]. exists s, a. destruct (F WLocal a A) as (B & _).
  split; [reflexivity |]. split; [exact A |]. split; [| exact B]. vm_compute in E. injection E as <-. injection A as <-.
  apply (bool_decide_eq_true_1 _). vm_compute. reflexivity.
Defined.

Lemma forward_returns_witness :
  exists s s' n, busy = Some s /\ fwd_run [Loop WLocal QueueCloses; Loop WLocal AcceptFails; Waited] s = Some s' /\ fw_at s' = Over n /\ n = 3.
Proof.
  destruct busy as [s |] eqn:E; [| vm_compute in E; discriminate E].
  destruct (fwd_run [Loop WLocal QueueCloses; Loop WLocal AcceptFails; Waited] s) as [s' |] eqn:E'; [| vm_compute in E; injection E as <-; vm_compute in E'; discriminate E'].
  exists s, s', 3. split; [reflexivity |]. split; [exact E' |]. split; [| reflexivity].
  destruct (forward_returns "127.0.0.1:8080" "" false "" true false traffic s [Loop WLocal QueueCloses; Loop WLocal AcceptFails; Waited] s' E) as [_ G]; [| reflexivity | exact E' |].
  - vm_compute in E. injection E as <-. reflexivity.
  - vm_compute in E. injection E as <-. vm_compute in E'. injection E' as <-. destruct G as [[n G] | (w & a & c & A & H & _)].
    + intros [| | [] [] | |]; try discriminate; intros _; reflexivity.
    + injection G as <-. reflexivity.
    + destruct w; [injection A as <- | discriminate A | discriminate A]. discriminate H.
Defined.

Lemma reauth_ends_session_witness :
  let l := foldl live_step (mkLive true false (60 * second) 0 false false false) [LTick (30 * second); LCancel; LTick (30 * second)] in
  lv_done l = true /\ may_return l = true.
Proof.
  apply (reauth_ends_session true false (60 * second) [LTick (30 * second); LCancel; LTick (30 * second)]); [reflexivity | | vm_compute; discriminate].
  intros d K. apply elem_of_cons in K as [K | K]; [injection K as ->; vm_compute; discriminate |]. apply elem_of_cons in K as [K | K]; [discriminate K |].
  apply list_elem_of_singleton in K. injection K as ->. vm_compute. discriminate.
Defined.

(** ** Behaviour worth knowing *)

(** With all places taken by clients that do not hang up, one more client keeps
    the data plane of an ended session from returning: nothing it can do by
    itself is left. *)
Definition wedged : option Fwd := fwd_run (fill 256 ++ [Loop WLocal (Accepts 257); SessionOver; Leaves; Loop WLocal QueueCloses]) listening.

Lemma full_house_blocks_return : exists s, wedged = Some s /\ fw_at s = Joining /\ forall e, fwd_own e = true -> fwd_step e s = None.
Proof.
  destruct wedged as [s |] eqn:E; [| vm_compute in E; discriminate E]. exists s. split; [reflexivity |]. vm_compute in E. injection E as <-.
  split; [reflexivity |]. intros [| | [] [] | |]; try discriminate; intros _; vm_compute; reflexivity.
Qed.

(** One failing accept call ends the listener for the rest of the session. *)
Lemma one_accept_error_ends_loop : exists s, fwd_run [Loop WLocal AcceptErrs] listening = Some s /\ fw_at s = Selecting /\ fwd_step (Loop WLocal (Accepts 1)) s = None.
Proof. eexists. split_and!; reflexivity. Qed.

(** A lazy buddy without [--forward] does not see the cancellation. *)
Lemma lazy_ignores_shutdown l :
  lv_lazy l = true -> lv_forward l = false -> lv_done l = false -> may_return (live_step l LCancel) = false.
Proof. intros A B C. unfold may_return. cbn. by rewrite A, B, C. Qed.

(** Whatever the path names is removed, not only a stale socket. *)
Lemma any_file_is_removed :
  (listenLocal (mkSockIO true false true) "/etc/motd" (mkProc 18 {[ "/etc/motd" := (Other, 420) ]})).2 = mkProc 18 ∅.
Proof. reflexivity. Qed.

(** The mask gives directories 0600, which their owner cannot enter. *)
Lemma mask_for_directories : Z.ldiff all_perms tight_mask = owner_rw.
Proof. reflexivity. Qed.
End ForwardDemo.
