(* ===== verification/Base64.v ===== *)
(** * Base64: Go's [encoding/base64] as the program uses it

    [base64.RawURLEncoding] (tickets, ids, nonces, cookies, invites) and
    [base64.StdEncoding] (public keys, signatures, sealed boxes).  The decoder
    is Go's default, non-strict one: it skips carriage returns and newlines and
    does not look at the unused low bits of the last character, so one value
    has several spellings; the encoder produces one of them. *)

From S2P Require Import Prelude.

Definition encodeURL : string :=
  "ABCDEFGHIJKLMNOPQRSTUVWXYZabcdefghijklmnopqrstuvwxyz0123456789-_".
Definition encodeStd : string :=
  "ABCDEFGHIJKLMNOPQRSTUVWXYZabcdefghijklmnopqrstuvwxyz0123456789+/".

(** The alphabet lookup and its inverse ([decodeMap]). *)
Definition b64_char (alph : string) (n : Z) : Ascii.ascii :=
  default "A"%char (String.get (Z.to_nat n) alph).

Fixpoint index_of (c : Ascii.ascii) (s : string) (i : Z) : option Z :=
  match s with
  | EmptyString => None
  | String d s' => if Ascii.eqb c d then Some i else index_of c s' (i + 1)
  end.

Definition b64_val (alph : string) (c : Ascii.ascii) : option Z := index_of c alph 0.

(** The [k]-th sextet of a 24-bit group, counted from the low end. *)
Definition sextet (k : Z) (v : Z) : Z := (v / 2 ^ (6 * k)) mod 64.

Definition group24 (a b c : Ascii.ascii) : Z :=
  byte_val a * 65536 + byte_val b * 256 + byte_val c.

Definition pad1 (pad : bool) : string := if pad then "=" else "".
Definition pad2 (pad : bool) : string := if pad then "==" else "".

Fixpoint encode (alph : string) (pad : bool) (s : string) : string :=
  let ch k v := b64_char alph (sextet k v) in
  match s with
  | EmptyString => EmptyString
  | String a EmptyString =>
      let v := group24 a zero zero in
      String (ch 3 v) (String (ch 2 v) (pad2 pad))
  | String a (String b EmptyString) =>
      let v := group24 a b zero in
      String (ch 3 v) (String (ch 2 v) (String (ch 1 v) (pad1 pad)))
  | String a (String b (String c r)) =>
      let v := group24 a b c in
      String (ch 3 v) (String (ch 2 v) (String (ch 1 v) (String (ch 0 v) (encode alph pad r))))
  end.

Definition is_newline (c : Ascii.ascii) : bool :=
  (byte_val c =? 10) || (byte_val c =? 13).

Fixpoint drop_newlines (s : string) : string :=
  match s with
  | EmptyString => EmptyString
  | String c s' => if is_newline c then drop_newlines s' else String c (drop_newlines s')
  end.

(** The bytes of a decoded group of sextets. *)
Definition bytes1 (x y : Z) : string := String (byte_of (x * 4 + y / 16)) "".
Definition bytes2 (x y z : Z) : string :=
  String (byte_of (x * 4 + y / 16)) (String (byte_of (y * 16 + z / 4)) "").
Definition bytes3 (x y z w : Z) : string :=
  String (byte_of (x * 4 + y / 16))
    (String (byte_of (y * 16 + z / 4)) (String (byte_of (z * 64 + w)) "")).

#[global] Arguments bytes1 : simpl never.
#[global] Arguments bytes2 : simpl never.
#[global] Arguments bytes3 : simpl never.
#[global] Arguments sextet : simpl never.

(** [decodeQuantum], unpadded: a final group of two or three characters is
    allowed, of one is not. *)
Fixpoint decode_raw (alph : string) (s : string) : option string :=
  match s with
  | EmptyString => Some ""
  | String _ EmptyString => None
  | String a (String b EmptyString) =>
      x ← b64_val alph a; y ← b64_val alph b; Some (bytes1 x y)
  | String a (String b (String c EmptyString)) =>
      x ← b64_val alph a; y ← b64_val alph b; z ← b64_val alph c; Some (bytes2 x y z)
  | String a (String b (String c (String d r))) =>
      x ← b64_val alph a; y ← b64_val alph b; z ← b64_val alph c; w ← b64_val alph d;
      rest ← decode_raw alph r;
      Some (bytes3 x y z w ⊕ rest)
  end.

(** [decodeQuantum], padded: every group has four characters and padding ends
    the input. *)
Fixpoint decode_padded (alph : string) (s : string) : option string :=
  match s with
  | EmptyString => Some ""
  | String a (String b (String c (String d r))) =>
      if Ascii.eqb c "=" && Ascii.eqb d "=" then
        match r with
        | EmptyString => x ← b64_val alph a; y ← b64_val alph b; Some (bytes1 x y)
        | String _ _ => None
        end
      else if Ascii.eqb d "=" then
        match r with
        | EmptyString =>
            x ← b64_val alph a; y ← b64_val alph b; z ← b64_val alph c; Some (bytes2 x y z)
        | String _ _ => None
        end
      else
        x ← b64_val alph a; y ← b64_val alph b; z ← b64_val alph c; w ← b64_val alph d;
        rest ← decode_padded alph r;
        Some (bytes3 x y z w ⊕ rest)
  | _ => None
  end.

Module RawURL.
Definition EncodeToString (s : string) : string := encode encodeURL false s.
Definition DecodeString (s : string) : option string := decode_raw encodeURL (drop_newlines s).
Definition EncodedLen (n : nat) : nat := (n * 8 + 5) / 6.
End RawURL.

Module Std.
Definition EncodeToString (s : string) : string := encode encodeStd true s.
Definition DecodeString (s : string) : option string := decode_padded encodeStd (drop_newlines s).
End Std.

(** ** Induction by groups of three bytes *)

Lemma string_ind3 (P : string -> Prop) :
  P "" -> (forall a, P (String a "")) -> (forall a b, P (String a (String b ""))) ->
  (forall a b c s, P s -> P (String a (String b (String c s)))) -> forall s, P s.
Proof.
  intros H0 H1 H2 H3. fix IH 1. intros [| a [| b [| c s]]];
    [exact H0 | apply H1 | apply H2 | apply H3, IH].
Qed.

Lemma string_ind4 (P : string -> Prop) :
  P "" -> (forall a, P (String a "")) -> (forall a b, P (String a (String b ""))) ->
  (forall a b c, P (String a (String b (String c "")))) ->
  (forall a b c d s, P s -> P (String a (String b (String c (String d s))))) -> forall s, P s.
Proof.
  intros H0 H1 H2 H3 H4. fix IH 1. intros [| a [| b [| c [| d s]]]];
    [exact H0 | apply H1 | apply H2 | apply H3 | apply H4, IH].
Qed.

(** ** The alphabets *)

Definition sextets : list Z := map Z.of_nat (seq 0 64).

Lemma sextets_complete n : 0 <= n < 64 -> In n sextets.
Proof.
  intros H. unfold sextets. apply in_map_iff. exists (Z.to_nat n).
  split; [lia |]. apply in_seq. lia.
Qed.

Definition good_alphabet (alph : string) : bool :=
  forallb (fun n => bool_decide (b64_val alph (b64_char alph n) = Some n)) sextets &&
  forallb (fun n => negb (is_newline (b64_char alph n))) sextets &&
  forallb (fun n => negb (Ascii.eqb (b64_char alph n) "=")) sextets &&
  forallb (fun c => match b64_val alph c with
                    | Some n => (0 <=? n) && (n <? 64) && Ascii.eqb (b64_char alph n) c
                    | None => true
                    end) all_bytes.

Lemma encodeURL_good : good_alphabet encodeURL = true.
Proof. vm_compute. reflexivity. Qed.

Lemma encodeStd_good : good_alphabet encodeStd = true.
Proof. vm_compute. reflexivity. Qed.

Section Codec.
Context (alph : string) (Halph : good_alphabet alph = true).

Lemma b64_val_char n : 0 <= n < 64 -> b64_val alph (b64_char alph n) = Some n.
Proof using Halph.
  intros H. unfold good_alphabet in Halph. breflect.
  rewrite forallb_forall in *. eapply bool_decide_eq_true_1; eauto using sextets_complete.
Qed.

Lemma b64_char_not_newline n : 0 <= n < 64 -> is_newline (b64_char alph n) = false.
Proof using Halph.
  intros H. unfold good_alphabet in Halph. breflect.
  rewrite forallb_forall in *. apply negb_true_iff. eauto using sextets_complete.
Qed.

Lemma b64_char_not_pad n : 0 <= n < 64 -> Ascii.eqb (b64_char alph n) "=" = false.
Proof using Halph.
  intros H. unfold good_alphabet in Halph. breflect.
  rewrite forallb_forall in *. apply negb_true_iff. eauto using sextets_complete.
Qed.

Lemma b64_val_Some c n :
  b64_val alph c = Some n -> 0 <= n < 64 /\ b64_char alph n = c.
Proof using Halph.
  intros H. unfold good_alphabet in Halph. breflect.
  rewrite forallb_forall in *. specialize (H1 c (all_bytes_complete c)).
  rewrite H in H1. breflect. split; [lia |]. by apply Ascii.eqb_eq.
Qed.

Lemma sextet_range k v : 0 <= sextet k v < 64.
Proof. unfold sextet. apply Z.mod_pos_bound. lia. Qed.

Hint Resolve sextet_range b64_val_char b64_char_not_newline b64_char_not_pad : buddy.

Lemma bytes3_group a b c :
  bytes3 (sextet 3 (group24 a b c)) (sextet 2 (group24 a b c)) (sextet 1 (group24 a b c))
    (sextet 0 (group24 a b c)) = String a (String b (String c "")).
Proof.
  unfold bytes3, sextet, group24.
  pose proof (byte_val_range a). pose proof (byte_val_range b). pose proof (byte_val_range c).
  repeat f_equal; apply byte_val_inj; rewrite byte_val_of;
    Z.to_euclidean_division_equations; lia.
Qed.

Lemma bytes3_app a b c s :
  bytes3 (sextet 3 (group24 a b c)) (sextet 2 (group24 a b c)) (sextet 1 (group24 a b c))
    (sextet 0 (group24 a b c)) ⊕ s = String a (String b (String c s)).
Proof. by rewrite bytes3_group. Qed.

Lemma bytes2_group a b :
  bytes2 (sextet 3 (group24 a b zero)) (sextet 2 (group24 a b zero)) (sextet 1 (group24 a b zero))
  = String a (String b "").
Proof.
  unfold bytes2, sextet, group24.
  pose proof (byte_val_range a). pose proof (byte_val_range b).
  change (byte_val zero) with 0.
  repeat f_equal; apply byte_val_inj; rewrite byte_val_of;
    Z.to_euclidean_division_equations; lia.
Qed.

Lemma bytes1_group a :
  bytes1 (sextet 3 (group24 a zero zero)) (sextet 2 (group24 a zero zero)) = String a "".
Proof.
  unfold bytes1, sextet, group24. pose proof (byte_val_range a).
  change (byte_val zero) with 0.
  repeat f_equal; apply byte_val_inj; rewrite byte_val_of;
    Z.to_euclidean_division_equations; lia.
Qed.

Lemma drop_newlines_encode pad s : drop_newlines (encode alph pad s) = encode alph pad s.
Proof using Halph.
  induction s as [| a | a b | a b c s IH] using string_ind3; destruct pad; simpl;
    rewrite ?b64_char_not_newline by apply sextet_range; try done; by rewrite IH.
Qed.

Lemma decode_raw_encode s : decode_raw alph (encode alph false s) = Some s.
Proof using Halph.
  induction s as [| a | a b | a b c s IH] using string_ind3; simpl;
    rewrite ?b64_val_char by apply sextet_range; simpl.
  - done.
  - by rewrite bytes1_group.
  - by rewrite bytes2_group.
  - rewrite IH. simpl. f_equal. exact (bytes3_app a b c s).
Qed.

Lemma decode_padded_encode s : decode_padded alph (encode alph true s) = Some s.
Proof using Halph.
  induction s as [| a | a b | a b c s IH] using string_ind3; simpl;
    rewrite ?b64_val_char, ?b64_char_not_pad by apply sextet_range; simpl.
  - done.
  - by rewrite bytes1_group.
  - by rewrite bytes2_group.
  - rewrite ?andb_false_r, IH. simpl. f_equal. exact (bytes3_app a b c s).
Qed.

Lemma slen_encode_raw s : slen (encode alph false s) = ((slen s * 8 + 5) / 6)%nat.
Proof.
  induction s as [| a | a b | a b c s IH] using string_ind3; try done.
  cbn [encode String.length]. rewrite IH.
  pose proof (Nat.div_mod_eq (slen s * 8 + 5) 6).
  pose proof (Nat.mod_upper_bound (slen s * 8 + 5) 6).
  apply (Nat.div_unique _ _ _ ((slen s * 8 + 5) mod 6)%nat); lia.
Qed.
End Codec.

(** ** Round trips and lengths of the two encodings *)

Lemma RawURL_decode_encode s : RawURL.DecodeString (RawURL.EncodeToString s) = Some s.
Proof.
  unfold RawURL.DecodeString, RawURL.EncodeToString.
  rewrite drop_newlines_encode by apply encodeURL_good.
  apply decode_raw_encode, encodeURL_good.
Qed.

Lemma Std_decode_encode s : Std.DecodeString (Std.EncodeToString s) = Some s.
Proof.
  unfold Std.DecodeString, Std.EncodeToString.
  rewrite drop_newlines_encode by apply encodeStd_good.
  apply decode_padded_encode, encodeStd_good.
Qed.

Lemma RawURL_encoded_len s : slen (RawURL.EncodeToString s) = RawURL.EncodedLen (slen s).
Proof. apply slen_encode_raw. Qed.

Lemma Std_encoded_len s : slen (Std.EncodeToString s) = ((slen s + 2) / 3 * 4)%nat.
Proof.
  unfold Std.EncodeToString. induction s as [| a | a b | a b c s IH] using string_ind3; try done.
  cbn [encode String.length]. rewrite IH.
  replace (S (S (S (slen s))) + 2)%nat with ((slen s + 2) + 1 * 3)%nat by lia. rewrite Nat.div_add by lia. lia.
Qed.

Lemma RawURL_encode_inj s t : RawURL.EncodeToString s = RawURL.EncodeToString t -> s = t.
Proof.
  intros H. apply (f_equal RawURL.DecodeString) in H.
  rewrite !RawURL_decode_encode in H. by injection H.
Qed.

Lemma Std_encode_inj s t : Std.EncodeToString s = Std.EncodeToString t -> s = t.
Proof.
  intros H. apply (f_equal Std.DecodeString) in H.
  rewrite !Std_decode_encode in H. by injection H.
Qed.

(** The unpadded base64url alphabet, as the program spells it out in
    [base64urlOnly] and [validField]. *)
Definition is_b64url (c : Ascii.ascii) : bool :=
  let b := byte_val c in
  ((65 <=? b) && (b <=? 90)) || ((97 <=? b) && (b <=? 122)) ||
  ((48 <=? b) && (b <=? 57)) || (b =? 45) || (b =? 95).

Lemma is_b64url_char n : 0 <= n < 64 -> is_b64url (b64_char encodeURL n) = true.
Proof.
  intros H. assert (A : forallb (fun n => is_b64url (b64_char encodeURL n)) sextets = true)
    by (vm_compute; reflexivity).
  rewrite forallb_forall in A. apply A, sextets_complete, H.
Qed.

Lemma RawURL_encode_alphabet s : all_chars is_b64url (RawURL.EncodeToString s) = true.
Proof.
  unfold RawURL.EncodeToString.
  induction s as [| a | a b | a b c s IH] using string_ind3; simpl;
    rewrite ?is_b64url_char by apply sextet_range; simpl; auto.
Qed.

#[export] Hint Rewrite RawURL_decode_encode Std_decode_encode RawURL_encoded_len : buddy.
#[export] Hint Resolve RawURL_encode_alphabet : buddy.
