(* ===== verification/Sha256.v ===== *)
(** * SHA-256 and HMAC-SHA-256

    Executable definitions of the two hash functions of Go's standard library
    the program uses ([crypto/sha256], [crypto/hmac]): virtual addresses, the
    bind proof of possession and the relay cookie are computed with them.
    Words are [Z] reduced modulo [2^32]. *)

From S2P Require Import Prelude.

Definition w32 (z : Z) : Z := z mod 2 ^ 32.
Definition rotr (n x : Z) : Z := Z.lor (Z.shiftr x n) (w32 (Z.shiftl x (32 - n))).

Definition ch (x y z : Z) : Z := Z.lxor (Z.land x y) (Z.land (w32 (Z.lnot x)) z).
Definition maj (x y z : Z) : Z := Z.lxor (Z.lxor (Z.land x y) (Z.land x z)) (Z.land y z).
Definition bsig0 (x : Z) : Z := Z.lxor (Z.lxor (rotr 2 x) (rotr 13 x)) (rotr 22 x).
Definition bsig1 (x : Z) : Z := Z.lxor (Z.lxor (rotr 6 x) (rotr 11 x)) (rotr 25 x).
Definition ssig0 (x : Z) : Z := Z.lxor (Z.lxor (rotr 7 x) (rotr 18 x)) (Z.shiftr x 3).
Definition ssig1 (x : Z) : Z := Z.lxor (Z.lxor (rotr 17 x) (rotr 19 x)) (Z.shiftr x 10).

(** The constants are the first 32 fractional bits of the cube roots (round
    constants) and square roots (initial state) of the first primes, computed
    as integer roots scaled by [2^32]. *)
Definition composite (n : Z) : bool :=
  existsb (fun d => (d <? n) && (n mod d =? 0)) (map Z.of_nat (seq 2 16)).
Definition primes : list Z :=
  Eval vm_compute in List.filter (fun n => negb (composite n)) (map Z.of_nat (seq 2 310)).

Fixpoint root_bits (k : nat) (pow acc n : Z) : Z :=
  match k with
  | O => acc
  | S k' => let acc' := acc + 2 ^ Z.of_nat k' in
            root_bits k' pow (if acc' ^ pow <=? n then acc' else acc) n
  end.

(** [frac_root pow p]: 32 fractional bits of the [pow]-th root of [p]. *)
Definition frac_root (pow p : Z) : Z := w32 (root_bits 40 pow 0 (p * 2 ^ (32 * pow))).

Definition K256 : list Z := Eval vm_compute in map (frac_root 3) primes.

Record state := St { sa : Z; sb : Z; sc : Z; sd : Z; se : Z; sf : Z; sg : Z; sh : Z }.

Definition H0 : state :=
  Eval vm_compute in
  match map (frac_root 2) primes with
  | a :: b :: c :: d :: e :: f :: g :: h :: _ => St a b c d e f g h
  | _ => St 0 0 0 0 0 0 0 0
  end.

Example K256_ends : (length K256, nth 0 K256 0, nth 63 K256 0) = (64%nat, 0x428a2f98, 0xc67178f2).
Proof. reflexivity. Qed.

Definition round (s : state) (kw : Z * Z) : state :=
  let t1 := w32 (sh s + bsig1 (se s) + ch (se s) (sf s) (sg s) + kw.1 + kw.2) in
  let t2 := w32 (bsig0 (sa s) + maj (sa s) (sb s) (sc s)) in
  St (w32 (t1 + t2)) (sa s) (sb s) (sc s) (w32 (sd s + t1)) (se s) (sf s) (sg s).

(** The message schedule, kept as a reversed list whose head is the last word. *)
Fixpoint schedule (n : nat) (rev_w : list Z) : list Z :=
  match n with
  | O => rev_w
  | S n' =>
      let at_ i := nth i rev_w 0 in
      schedule n' (w32 (ssig1 (at_ 1%nat) + at_ 6%nat + ssig0 (at_ 14%nat) + at_ 15%nat) :: rev_w)
  end.

Definition add_state (s t : state) : state :=
  St (w32 (sa s + sa t)) (w32 (sb s + sb t)) (w32 (sc s + sc t)) (w32 (sd s + sd t))
     (w32 (se s + se t)) (w32 (sf s + sf t)) (w32 (sg s + sg t)) (w32 (sh s + sh t)).

Definition compress (s : state) (block : list Z) : state :=
  add_state s (fold_left round (combine K256 (rev (schedule 48 (rev block)))) s).

Fixpoint words (s : string) : list Z :=
  match s with
  | String a (String b (String c (String d r))) =>
      (byte_val a * 2 ^ 24 + byte_val b * 2 ^ 16 + byte_val c * 2 ^ 8 + byte_val d) :: words r
  | _ => []
  end.

Fixpoint zeros (n : nat) : string :=
  match n with O => "" | S n' => String zero (zeros n') end.

(** Big-endian rendering on [n] bytes ([binary.BigEndian.PutUint]). *)
Fixpoint be_bytes (n : nat) (z : Z) : string :=
  match n with
  | O => ""
  | S n' => String (byte_of (z / 2 ^ (8 * Z.of_nat n'))) (be_bytes n' z)
  end.

Definition pad_message (s : string) : string :=
  let l := slen s in
  s ⊕ String (byte_of 128) "" ⊕ zeros ((119 - l mod 64) mod 64) ⊕ be_bytes 8 (8 * Z.of_nat l).

Fixpoint process (fuel : nat) (st : state) (ws : list Z) : state :=
  match fuel with
  | O => st
  | S f => match ws with
           | [] => st
           | _ => process f (compress st (firstn 16 ws)) (skipn 16 ws)
           end
  end.

Definition digest (s : state) : string :=
  be_bytes 4 (sa s) ⊕ be_bytes 4 (sb s) ⊕ be_bytes 4 (sc s) ⊕ be_bytes 4 (sd s) ⊕
  be_bytes 4 (se s) ⊕ be_bytes 4 (sf s) ⊕ be_bytes 4 (sg s) ⊕ be_bytes 4 (sh s).

(** [sha256.Sum256]; the fuel is the number of message bytes plus two, more
    than the number of 64-byte blocks. *)
Definition sha256 (s : string) : string :=
  digest (process (slen s + 2) H0 (words (pad_message s))).

(** [hmac.New(sha256.New, key)] applied to a whole message. *)
Fixpoint xor_pad (n : nat) (v : Z) (key : string) : string :=
  match n with
  | O => ""
  | S n' =>
      match key with
      | EmptyString => String (byte_of v) (xor_pad n' v "")
      | String c k => String (byte_of (Z.lxor v (byte_val c))) (xor_pad n' v k)
      end
  end.

Definition hmac_sha256 (key msg : string) : string :=
  let k := if (slen key <=? 64)%nat then key else sha256 key in
  sha256 (xor_pad 64 0x5c k ⊕ sha256 (xor_pad 64 0x36 k ⊕ msg)).

(** Lower-case hexadecimal ([hex.EncodeToString]). *)
Definition hex_digit (n : Z) : Ascii.ascii :=
  if n <? 10 then byte_of (48 + n) else byte_of (87 + n).

Fixpoint hex (s : string) : string :=
  match s with
  | EmptyString => ""
  | String c r => String (hex_digit (byte_val c / 16)) (String (hex_digit (byte_val c mod 16)) (hex r))
  end.

(** ** Test vectors (FIPS 180-4, RFC 4231) *)

Example sha256_empty :
  hex (sha256 "") = "e3b0c44298fc1c149afbf4c8996fb92427ae41e4649b934ca495991b7852b855".
Proof. vm_compute. reflexivity. Qed.

Example sha256_abc :
  hex (sha256 "abc") = "ba7816bf8f01cfea414140de5dae2223b00361a396177a9cb410ff61f20015ad".
Proof. vm_compute. reflexivity. Qed.

Example sha256_two_blocks :
  hex (sha256 "abcdbcdecdefdefgefghfghighijhijkijkljklmklmnlmnomnopnopq")
  = "248d6a61d20638b8e5c026930c3e6039a33ce45964ff2167f6ecedd419db06c1".
Proof. vm_compute. reflexivity. Qed.

Example hmac_rfc4231_2 :
  hex (hmac_sha256 "Jefe" "what do ya want for nothing?")
  = "5bdcc146bf60754e6a042426089575c75a003f089d2739839dec58b964ec3843".
Proof. vm_compute. reflexivity. Qed.

(** ** Lengths and injectivity of fixed-width renderings *)

Lemma slen_be_bytes n z : slen (be_bytes n z) = n.
Proof. induction n; simpl; congruence. Qed.

Lemma slen_sha256 s : slen (sha256 s) = 32%nat.
Proof. unfold sha256, digest. by rewrite !slen_app, !slen_be_bytes. Qed.

Lemma slen_hmac k m : slen (hmac_sha256 k m) = 32%nat.
Proof. apply slen_sha256. Qed.

Lemma slen_hex s : slen (hex s) = (2 * slen s)%nat.
Proof. induction s as [| c s IH]; simpl; [done |]. rewrite IH. lia. Qed.

Lemma be_bytes_mod n x y :
  be_bytes n x = be_bytes n y -> x mod 2 ^ (8 * Z.of_nat n) = y mod 2 ^ (8 * Z.of_nat n).
Proof.
  induction n as [| n IH]; intros H.
  - by rewrite !Z.mod_1_r.
  - cbn [be_bytes] in H. injection H as Hb Hr. apply IH in Hr.
    apply (f_equal byte_val) in Hb. rewrite !byte_val_of in Hb.
    replace (2 ^ (8 * Z.of_nat (S n))) with (2 ^ (8 * Z.of_nat n) * 256)
      by (rewrite <- (Z.pow_add_r 2 _ 8) by lia; f_equal; lia).
    rewrite !Z.rem_mul_r by lia. by rewrite Hb, Hr.
Qed.

Lemma be_bytes_inj n x y :
  0 <= x < 2 ^ (8 * Z.of_nat n) -> 0 <= y < 2 ^ (8 * Z.of_nat n) ->
  be_bytes n x = be_bytes n y -> x = y.
Proof.
  intros Hx Hy H. apply be_bytes_mod in H. by rewrite !Z.mod_small in H by done.
Qed.

#[export] Hint Rewrite slen_be_bytes slen_sha256 slen_hmac slen_hex : buddy.
#[global] Opaque sha256 hmac_sha256.
