(* ===== verification/Json.v ===== *)
(** * JSON: Go's [encoding/json] as the program uses it

    [json.Marshal] with its HTML-safe string escaping, the RFC 8259 scanner
    behind [json.Unmarshal] and [json.Decoder], string unquoting (invalid UTF-8
    and lone surrogates become U+FFFD), and decoding into a struct: a key
    selects a field by exact name and otherwise by case folding, [null] leaves
    a field alone, the last of several occurrences wins, a value of the wrong
    type is an error.  The nesting limit of 10000 is above every input size the
    program admits and is not modelled. *)

From S2P Require Import Prelude.

#[warnings="-register-all"]
Inductive json : Type :=
| JNull
| JBool (b : bool)
| JNum (lit : string)
| JStr (s : string)
| JArr (l : list json)
| JObj (kvs : list (string * json)).

Section JsonInd.
Context (P : json -> Prop)
  (Hnull : P JNull) (Hbool : forall b, P (JBool b)) (Hnum : forall n, P (JNum n))
  (Hstr : forall s, P (JStr s)) (Harr : forall l, Forall P l -> P (JArr l))
  (Hobj : forall kvs, Forall (fun kv => P kv.2) kvs -> P (JObj kvs)).

Fixpoint json_ind' (j : json) : P j :=
  match j with
  | JNull => Hnull
  | JBool b => Hbool b
  | JNum n => Hnum n
  | JStr s => Hstr s
  | JArr l =>
      Harr l ((fix go l : Forall P l :=
                 match l with
                 | [] => Forall_nil_2 _
                 | x :: l' => Forall_cons_2 _ _ _ (json_ind' x) (go l')
                 end) l)
  | JObj kvs =>
      Hobj kvs ((fix go l : Forall (fun kv => P kv.2) l :=
                   match l with
                   | [] => Forall_nil_2 _
                   | kv :: l' => Forall_cons_2 _ _ _ (json_ind' kv.2) (go l')
                   end) kvs)
  end.
End JsonInd.

(** ** UTF-8 *)

Definition between (lo hi : Z) (c : Ascii.ascii) : bool :=
  (lo <=? byte_val c) && (byte_val c <=? hi).

Definition cont (c : Ascii.ascii) : bool := between 0x80 0xBF c.
Definition is_ascii (c : Ascii.ascii) : bool := byte_val c <? 0x80.

(** A well-formed sequence of two, three or four bytes. *)
Definition ok2 (a b : Ascii.ascii) : bool := between 0xC2 0xDF a && cont b.
Definition ok3 (a b c : Ascii.ascii) : bool :=
  between 0xE0 0xEF a && cont c &&
  (if byte_val a =? 0xE0 then between 0xA0 0xBF b
   else if byte_val a =? 0xED then between 0x80 0x9F b else cont b).
Definition ok4 (a b c d : Ascii.ascii) : bool :=
  between 0xF0 0xF4 a && cont c && cont d &&
  (if byte_val a =? 0xF0 then between 0x90 0xBF b
   else if byte_val a =? 0xF4 then between 0x80 0x8F b else cont b).

(** [utf8.ValidString] *)
Fixpoint valid_utf8 (s : string) : bool :=
  match s with
  | EmptyString => true
  | String a r =>
      if is_ascii a then valid_utf8 r else
      match r with
      | EmptyString => false
      | String b r2 =>
          if ok2 a b then valid_utf8 r2 else
          match r2 with
          | EmptyString => false
          | String c r3 =>
              if ok3 a b c then valid_utf8 r3 else
              match r3 with
              | EmptyString => false
              | String d r4 => if ok4 a b c d then valid_utf8 r4 else false
              end
          end
      end
  end.

Definition ufffd_bytes : string :=
  String (byte_of 0xEF) (String (byte_of 0xBF) (String (byte_of 0xBD) "")).

(** [utf8.EncodeRune] on a valid rune. *)
Definition encode_rune (r : Z) : string :=
  if r <? 0x80 then String (byte_of r) ""
  else if r <? 0x800 then
    String (byte_of (0xC0 + r / 64)) (String (byte_of (0x80 + r mod 64)) "")
  else if r <? 0x10000 then
    String (byte_of (0xE0 + r / 4096))
      (String (byte_of (0x80 + (r / 64) mod 64)) (String (byte_of (0x80 + r mod 64)) ""))
  else
    String (byte_of (0xF0 + r / 262144))
      (String (byte_of (0x80 + (r / 4096) mod 64))
         (String (byte_of (0x80 + (r / 64) mod 64)) (String (byte_of (0x80 + r mod 64)) ""))).

(** ** Writing: [appendString] with HTML escaping, [json.Marshal] *)

Definition quote : Ascii.ascii := Eval vm_compute in byte_of 34.
Definition bslash : Ascii.ascii := Eval vm_compute in byte_of 92.
Definition quote_s : string := String quote "".

Definition hexd (n : Z) : Ascii.ascii := if n <? 10 then byte_of (48 + n) else byte_of (87 + n).

Definition esc2 (c : Ascii.ascii) : string := String bslash (String c "").

Definition escape_char (c : Ascii.ascii) : string :=
  let b := byte_val c in
  if (b =? 34) || (b =? 92) then esc2 c
  else if b =? 8 then esc2 "b"
  else if b =? 12 then esc2 "f"
  else if b =? 10 then esc2 "n"
  else if b =? 13 then esc2 "r"
  else if b =? 9 then esc2 "t"
  else if (b <? 32) || (b =? 38) || (b =? 60) || (b =? 62) then
    String bslash (String "u" (String "0" (String "0"
      (String (hexd (b / 16)) (String (hexd (b mod 16)) "")))))
  else String c "".

Definition ufffd_esc : string := String bslash "ufffd".

(** U+2028 and U+2029 are escaped although they are valid JSON. *)
Definition line_sep (a b c : Ascii.ascii) : bool :=
  (byte_val a =? 0xE2) && (byte_val b =? 0x80) && ((byte_val c =? 0xA8) || (byte_val c =? 0xA9)).

Definition line_sep_esc (c : Ascii.ascii) : string :=
  String bslash ("u202" ⊕ String (hexd (byte_val c mod 16)) "").

Fixpoint escape (s : string) : string :=
  match s with
  | EmptyString => EmptyString
  | String a r =>
      if is_ascii a then escape_char a ⊕ escape r else
      match r with
      | EmptyString => ufffd_esc
      | String b r2 =>
          if ok2 a b then String a (String b (escape r2)) else
          match r2 with
          | EmptyString => ufffd_esc ⊕ escape r
          | String c r3 =>
              if ok3 a b c then
                (if line_sep a b c then line_sep_esc c else String a (String b (String c "")))
                  ⊕ escape r3
              else
              match r3 with
              | EmptyString => ufffd_esc ⊕ escape r
              | String d r4 =>
                  if ok4 a b c d then String a (String b (String c (String d (escape r4))))
                  else ufffd_esc ⊕ escape r
              end
          end
      end
  end.

Definition render_string (s : string) : string := String quote (escape s ⊕ quote_s).

Fixpoint render (j : json) : string :=
  match j with
  | JNull => "null"
  | JBool true => "true"
  | JBool false => "false"
  | JNum lit => lit
  | JStr s => render_string s
  | JArr l =>
      String "[" ((fix go (first : bool) (l : list json) : string :=
         match l with
         | [] => "]"
         | x :: l' => (if first then "" else ",") ⊕ render x ⊕ go false l'
         end) true l)
  | JObj kvs =>
      String "{" ((fix go (first : bool) (l : list (string * json)) : string :=
         match l with
         | [] => "}"
         | kv :: l' =>
             (if first then "" else ",") ⊕ render_string kv.1 ⊕ ":" ⊕ render kv.2 ⊕ go false l'
         end) true kvs)
  end.

Fixpoint render_elems (first : bool) (l : list json) : string :=
  match l with
  | [] => "]"
  | x :: l' => (if first then "" else ",") ⊕ render x ⊕ render_elems false l'
  end.

Fixpoint render_members (first : bool) (l : list (string * json)) : string :=
  match l with
  | [] => "}"
  | kv :: l' =>
      (if first then "" else ",") ⊕ render_string kv.1 ⊕ ":" ⊕ render kv.2 ⊕ render_members false l'
  end.

Lemma render_arr l : render (JArr l) = String "[" (render_elems true l).
Proof. reflexivity. Qed.

Lemma render_obj kvs : render (JObj kvs) = String "{" (render_members true kvs).
Proof. reflexivity. Qed.

(** ** Reading *)

Definition is_ws (c : Ascii.ascii) : bool :=
  let b := byte_val c in (b =? 32) || (b =? 9) || (b =? 10) || (b =? 13).

Fixpoint skip_ws (s : string) : string :=
  match s with
  | String c r => if is_ws c then skip_ws r else s
  | EmptyString => EmptyString
  end.

Definition hex_val (c : Ascii.ascii) : option Z :=
  let b := byte_val c in
  if (48 <=? b) && (b <=? 57) then Some (b - 48)
  else if (97 <=? b) && (b <=? 102) then Some (b - 87)
  else if (65 <=? b) && (b <=? 70) then Some (b - 55)
  else None.

(** [getu4] on the four characters after [\u]. *)
Definition hex4 (a b c d : Ascii.ascii) : option Z :=
  w ← hex_val a; x ← hex_val b; y ← hex_val c; z ← hex_val d;
  Some (w * 4096 + x * 256 + y * 16 + z).

Definition is_surrogate (r : Z) : bool := (0xD800 <=? r) && (r <? 0xE000).

(** [utf16.DecodeRune] *)
Definition decode_pair (r1 r2 : Z) : option Z :=
  if (0xD800 <=? r1) && (r1 <? 0xDC00) && (0xDC00 <=? r2) && (r2 <? 0xE000)
  then Some ((r1 - 0xD800) * 1024 + (r2 - 0xDC00) + 0x10000) else None.

Definition simple_escape (e : Ascii.ascii) : option Ascii.ascii :=
  let b := byte_val e in
  if (b =? 34) || (b =? 92) || (b =? 47) then Some e
  else if b =? 98 then Some (byte_of 8)
  else if b =? 102 then Some (byte_of 12)
  else if b =? 110 then Some (byte_of 10)
  else if b =? 114 then Some (byte_of 13)
  else if b =? 116 then Some (byte_of 9)
  else None.

Definition prepend (p : string) (r : option (string * string)) : option (string * string) :=
  '(v, rest) ← r; Some (p ⊕ v, rest).

(** The body of a string literal, after the opening quote: the unquoted value
    and what follows the closing quote. *)
Fixpoint parse_str (s : string) : option (string * string) :=
  match s with
  | EmptyString => None
  | String a r =>
      if Ascii.eqb a quote then Some ("", r)
      else if Ascii.eqb a bslash then
        match r with
        | EmptyString => None
        | String e r2 =>
            match simple_escape e with
            | Some c => prepend (String c "") (parse_str r2)
            | None =>
                if Ascii.eqb e "u" then
                  match r2 with
                  | String h1 (String h2 (String h3 (String h4 r3))) =>
                      match hex4 h1 h2 h3 h4 with
                      | None => None
                      | Some u =>
                          if is_surrogate u then
                            match r3 with
                            | String x (String y (String g1 (String g2 (String g3 (String g4 r4))))) =>
                                match (if Ascii.eqb x bslash && Ascii.eqb y "u"
                                       then u2 ← hex4 g1 g2 g3 g4; decode_pair u u2 else None) with
                                | Some rn => prepend (encode_rune rn) (parse_str r4)
                                | None => prepend ufffd_bytes (parse_str r3)
                                end
                            | _ => prepend ufffd_bytes (parse_str r3)
                            end
                          else prepend (encode_rune u) (parse_str r3)
                      end
                  | _ => None
                  end
                else None
            end
        end
      else if byte_val a <? 32 then None
      else if is_ascii a then prepend (String a "") (parse_str r)
      else
        match r with
        | EmptyString => None
        | String b r2 =>
            if ok2 a b then prepend (String a (String b "")) (parse_str r2) else
            match r2 with
            | EmptyString => prepend ufffd_bytes (parse_str r)
            | String c r3 =>
                if ok3 a b c then prepend (String a (String b (String c ""))) (parse_str r3) else
                match r3 with
                | EmptyString => prepend ufffd_bytes (parse_str r)
                | String d r4 =>
                    if ok4 a b c d
                    then prepend (String a (String b (String c (String d "")))) (parse_str r4)
                    else prepend ufffd_bytes (parse_str r)
                end
            end
        end
  end.

(** Numbers: [-? (0 | [1-9][0-9]* ) (. [0-9]+)? ([eE] [+-]? [0-9]+)?], kept as
    their literal. *)
Definition is_digit (c : Ascii.ascii) : bool := between 48 57 c.

Fixpoint span_digits (s : string) : string * string :=
  match s with
  | String c r =>
      if is_digit c then let '(d, rest) := span_digits r in (String c d, rest) else ("", s)
  | EmptyString => ("", "")
  end.

Definition scan_int (s : string) : option (string * string) :=
  match s with
  | String c r =>
      if Ascii.eqb c "0" then Some ("0", r)
      else if is_digit c then Some (span_digits s)
      else None
  | EmptyString => None
  end.

Definition nonempty_digits (p s : string) : option (string * string) :=
  let '(d, rest) := span_digits s in
  if String.eqb d "" then None else Some (p ⊕ d, rest).

Definition scan_frac (s : string) : option (string * string) :=
  match s with
  | String c r => if Ascii.eqb c "." then nonempty_digits "." r else Some ("", s)
  | EmptyString => Some ("", "")
  end.

Definition scan_exp (s : string) : option (string * string) :=
  match s with
  | String c r =>
      if Ascii.eqb c "e" || Ascii.eqb c "E" then
        match r with
        | String g r2 =>
            if Ascii.eqb g "+" || Ascii.eqb g "-"
            then nonempty_digits (String c (String g "")) r2
            else nonempty_digits (String c "") r
        | EmptyString => None
        end
      else Some ("", s)
  | EmptyString => Some ("", "")
  end.

Definition scan_number (s : string) : option (string * string) :=
  let '(sign, s1) :=
    match s with
    | String c r => if Ascii.eqb c "-" then ("-", r) else ("", s)
    | EmptyString => ("", "")
    end in
  '(i, s2) ← scan_int s1; '(f, s3) ← scan_frac s2; '(e, s4) ← scan_exp s3;
  Some (sign ⊕ i ⊕ f ⊕ e, s4).

(** A literal ([true], [false], [null]). *)
Definition scan_lit (w : string) (v : json) (s : string) : option (json * string) :=
  if has_prefix w s then Some (v, drop_s (slen w) s) else None.

(** Recursive descent over the scanner's grammar.  [n] bounds the number of
    nested calls; [json_fuel] below is enough for every input. *)
Fixpoint parse_value (n : nat) (s : string) {struct n} : option (json * string) :=
  match n with
  | O => None
  | S n' =>
      match skip_ws s with
      | EmptyString => None
      | String c r =>
          if Ascii.eqb c "{" then
            match skip_ws r with
            | String c2 r2 =>
                if Ascii.eqb c2 "}" then Some (JObj [], r2)
                else '(kvs, rest) ← parse_members n' r; Some (JObj kvs, rest)
            | EmptyString => None
            end
          else if Ascii.eqb c "[" then
            match skip_ws r with
            | String c2 r2 =>
                if Ascii.eqb c2 "]" then Some (JArr [], r2)
                else '(l, rest) ← parse_elems n' r; Some (JArr l, rest)
            | EmptyString => None
            end
          else if Ascii.eqb c quote then '(v, rest) ← parse_str r; Some (JStr v, rest)
          else if Ascii.eqb c "t" then scan_lit "true" (JBool true) (String c r)
          else if Ascii.eqb c "f" then scan_lit "false" (JBool false) (String c r)
          else if Ascii.eqb c "n" then scan_lit "null" JNull (String c r)
          else '(lit, rest) ← scan_number (String c r); Some (JNum lit, rest)
      end
  end
with parse_elems (n : nat) (s : string) {struct n} : option (list json * string) :=
  match n with
  | O => None
  | S n' =>
      '(v, r) ← parse_value n' s;
      match skip_ws r with
      | String c r2 =>
          if Ascii.eqb c "," then '(l, rest) ← parse_elems n' r2; Some (v :: l, rest)
          else if Ascii.eqb c "]" then Some ([v], r2) else None
      | EmptyString => None
      end
  end
with parse_members (n : nat) (s : string) {struct n} : option (list (string * json) * string) :=
  match n with
  | O => None
  | S n' =>
      match skip_ws s with
      | String q r =>
          if Ascii.eqb q quote then
            '(k, r1) ← parse_str r;
            match skip_ws r1 with
            | String col r2 =>
                if Ascii.eqb col ":" then
                  '(v, r3) ← parse_value n' r2;
                  match skip_ws r3 with
                  | String c r4 =>
                      if Ascii.eqb c "," then
                        '(l, rest) ← parse_members n' r4; Some ((k, v) :: l, rest)
                      else if Ascii.eqb c "}" then Some ([(k, v)], r4) else None
                  | EmptyString => None
                  end
                else None
            | EmptyString => None
            end
          else None
      | EmptyString => None
      end
  end.

Definition json_fuel (s : string) : nat := (2 * slen s + 2)%nat.

(** [Decoder.Decode]: the first value and what is left unread. *)
Definition decode_first (s : string) : option (json * string) := parse_value (json_fuel s) s.

(** [json.Unmarshal]'s syntax check: one value, then white space only. *)
Definition parse_document (s : string) : option json :=
  '(v, rest) ← decode_first s;
  if String.eqb (skip_ws rest) "" then Some v else None.

(** ** Decoding into a struct *)

(** [strconv.ParseInt] on a JSON number literal. *)
Fixpoint digits_val (acc : Z) (s : string) : option Z :=
  match s with
  | EmptyString => Some acc
  | String c r => if is_digit c then digits_val (acc * 10 + (byte_val c - 48)) r else None
  end.

Definition parse_int64 (lit : string) : option Z :=
  let signed :=
    match lit with
    | String c r =>
        if Ascii.eqb c "-" then (if String.eqb r "" then None else Z.opp <$> digits_val 0 r)
        else digits_val 0 lit
    | EmptyString => None
    end in
  z ← signed;
  if (int64_min <=? z) && (z <=? int64_max) then Some z else None.

(** Field selection: exact name first, then the case-folded name.  Folding maps
    ASCII letters to upper case and the two non-ASCII runes whose fold is ASCII
    (U+017F and U+212A) to [S] and [K]. *)
Definition upper (c : Ascii.ascii) : Ascii.ascii :=
  if between 97 122 c then byte_of (byte_val c - 32) else c.

Fixpoint fold_name (s : string) : string :=
  match s with
  | EmptyString => EmptyString
  | String a r =>
      match r with
      | String b r2 =>
          if (byte_val a =? 0xC5) && (byte_val b =? 0xBF) then String "S" (fold_name r2)
          else
            match r2 with
            | String c r3 =>
                if (byte_val a =? 0xE2) && (byte_val b =? 0x84) && (byte_val c =? 0xAA)
                then String "K" (fold_name r3) else String (upper a) (fold_name r)
            | EmptyString => String (upper a) (fold_name r)
            end
      | EmptyString => String (upper a) (fold_name r)
      end
  end.

#[warnings="-register-all"]
Inductive kind : Type :=
| KStr | KInt | KBool
| KArr (k : kind)
| KStruct (fields : list (string * kind)).

Definition schema := list (string * kind).

Definition find_field (sc : schema) (key : string) : option (string * kind) :=
  match find (fun f => String.eqb f.1 key) sc with
  | Some f => Some f
  | None => find (fun f => String.eqb (fold_name f.1) (fold_name key)) sc
  end.

(** Whether a value can be stored in a field of a kind.  [strict] is
    [DisallowUnknownFields]. *)
Fixpoint fits (n : nat) (strict : bool) (k : kind) (v : json) : bool :=
  match n with
  | O => false
  | S n' =>
      match k, v with
      | _, JNull => true
      | KStr, JStr _ => true
      | KInt, JNum lit => match parse_int64 lit with Some _ => true | None => false end
      | KBool, JBool _ => true
      | KArr k', JArr l => forallb (fits n' strict k') l
      | KStruct sc, JObj kvs =>
          forallb (fun kv => match find_field sc kv.1 with
                             | Some f => fits n' strict f.2 kv.2
                             | None => negb strict
                             end) kvs
      | _, _ => false
      end
  end.

(** Kinds nest less deeply than this. *)
Definition kind_depth : nat := 8.

(** The members of an object, with each key replaced by the field it selects,
    [null]s and unknown keys dropped, in order. *)
Fixpoint assignments (sc : schema) (kvs : list (string * json)) : list (string * json) :=
  match kvs with
  | [] => []
  | (k, v) :: rest =>
      match find_field sc k, v with
      | None, _ => assignments sc rest
      | Some _, JNull => assignments sc rest
      | Some f, _ => (f.1, v) :: assignments sc rest
      end
  end.

(** Decoding a value into a zero struct: the assignments made, or an error. *)
Definition decode_struct (strict : bool) (sc : schema) (v : json) : option (list (string * json)) :=
  match v with
  | JNull => Some []
  | JObj kvs => if fits kind_depth strict (KStruct sc) v then Some (assignments sc kvs) else None
  | _ => None
  end.

(** The last assignment to a field. *)
Fixpoint last_assigned (name : string) (asg : list (string * json)) : option json :=
  match asg with
  | [] => None
  | (k, v) :: rest =>
      match last_assigned name rest with
      | Some w => Some w
      | None => if String.eqb k name then Some v else None
      end
  end.

Definition get_str (name : string) (asg : list (string * json)) : string :=
  match last_assigned name asg with Some (JStr s) => s | _ => "" end.

Definition get_int (name : string) (asg : list (string * json)) : Z :=
  match last_assigned name asg with
  | Some (JNum lit) => default 0 (parse_int64 lit)
  | _ => 0
  end.

(** [json.Unmarshal(data, &v)] for a struct. *)
Definition unmarshal (sc : schema) (data : string) : option (list (string * json)) :=
  v ← parse_document data; decode_struct false sc v.

(** ** Encoding a struct: its fields in declaration order, an [omitempty]
    field that is zero being left out *)

Definition str_opt (s : string) : option json := if String.eqb s "" then None else Some (JStr s).
Definition int_opt (z : Z) : option json := if z =? 0 then None else Some (JNum (itoa z)).

Fixpoint present (l : list (string * option json)) : list (string * json) :=
  match l with
  | [] => []
  | (n, Some v) :: r => (n, v) :: present r
  | (_, None) :: r => present r
  end.

(** ** Strings: reading back what was written *)

Lemma nonascii_tests a :
  is_ascii a = false ->
  Ascii.eqb a quote = false /\ Ascii.eqb a bslash = false /\ (byte_val a <? 32) = false.
Proof.
  unfold is_ascii. intros H. breflect. split_and!.
  - apply Ascii.eqb_neq. intros ->. vm_compute in H. congruence.
  - apply Ascii.eqb_neq. intros ->. vm_compute in H. congruence.
  - apply Z.ltb_ge. lia.
Qed.

Lemma parse_escape_char a X :
  is_ascii a = true -> parse_str (escape_char a ⊕ X) = prepend (String a "") (parse_str X).
Proof.
  intros H. destruct a as [[] [] [] [] [] [] [] []]; try discriminate H; reflexivity.
Qed.

Lemma parse_ok2 a b X :
  is_ascii a = false -> ok2 a b = true ->
  parse_str (String a (String b X)) = prepend (String a (String b "")) (parse_str X).
Proof.
  intros Ha H. destruct (nonascii_tests a Ha) as (Hq & Hb & Hc).
  cbn [parse_str]. by rewrite Hq, Hb, Hc, Ha, H.
Qed.

Lemma parse_ok3 a b c X :
  is_ascii a = false -> ok2 a b = false -> ok3 a b c = true ->
  parse_str (String a (String b (String c X)))
  = prepend (String a (String b (String c ""))) (parse_str X).
Proof.
  intros Ha H2 H3. destruct (nonascii_tests a Ha) as (Hq & Hb & Hc).
  cbn [parse_str]. by rewrite Hq, Hb, Hc, Ha, H2, H3.
Qed.

Lemma parse_ok4 a b c d X :
  is_ascii a = false -> ok2 a b = false -> ok3 a b c = false -> ok4 a b c d = true ->
  parse_str (String a (String b (String c (String d X))))
  = prepend (String a (String b (String c (String d "")))) (parse_str X).
Proof.
  intros Ha H2 H3 H4. destruct (nonascii_tests a Ha) as (Hq & Hb & Hc).
  cbn [parse_str]. by rewrite Hq, Hb, Hc, Ha, H2, H3, H4.
Qed.

Lemma parse_line_sep a b c X :
  line_sep a b c = true ->
  parse_str (line_sep_esc c ⊕ X) = prepend (String a (String b (String c ""))) (parse_str X).
Proof.
  unfold line_sep. intros H. breflect.
  assert (a = byte_of 0xE2) as -> by (apply byte_val_inj; rewrite byte_val_of; done).
  assert (b = byte_of 0x80) as -> by (apply byte_val_inj; rewrite byte_val_of; done).
  apply orb_true_iff in H0 as [H0|H0]; breflect.
  - assert (c = byte_of 0xA8) as -> by (apply byte_val_inj; rewrite byte_val_of; done).
    reflexivity.
  - assert (c = byte_of 0xA9) as -> by (apply byte_val_inj; rewrite byte_val_of; done).
    reflexivity.
Qed.

Lemma prepend_Some p v r : prepend p (Some (v, r)) = Some (p ⊕ v, r).
Proof. done. Qed.

(** Unquoting inverts escaping on valid UTF-8. *)
Lemma parse_escape s X :
  valid_utf8 s = true -> parse_str (escape s ⊕ String quote X) = Some (s, X).
Proof.
  remember (slen s) as n eqn:Hn. revert s Hn X.
  induction n as [n IH] using lt_wf_ind. intros s -> X.
  assert (IH' : forall t, (slen t < slen s)%nat -> valid_utf8 t = true ->
                     parse_str (escape t ⊕ String quote X) = Some (t, X)) by (intros; eapply IH; eauto).
  clear IH. destruct s as [| a r]; [done |]. cbn [valid_utf8 escape].
  destruct (is_ascii a) eqn:Ha.
  { intros Hv. rewrite app_assoc_s, parse_escape_char, IH' by (done || simpl; lia). done. }
  destruct r as [| b r2]; [done |].
  destruct (ok2 a b) eqn:H2.
  { intros Hv. cbn [String.append]. rewrite parse_ok2, IH' by (done || simpl; lia). done. }
  destruct r2 as [| c r3]; [done |].
  destruct (ok3 a b c) eqn:H3.
  { intros Hv. rewrite app_assoc_s.
    destruct (line_sep a b c) eqn:Hl.
    - rewrite (parse_line_sep a b c) by done. rewrite IH' by (done || simpl; lia). done.
    - cbn [String.append]. rewrite parse_ok3, IH' by (done || simpl; lia). done. }
  destruct r3 as [| d r4]; [done |].
  destruct (ok4 a b c d) eqn:H4; [| done].
  intros Hv. cbn [String.append]. rewrite parse_ok4, IH' by (done || simpl; lia). done.
Qed.

Lemma ascii_valid_utf8 s : all_chars is_ascii s = true -> valid_utf8 s = true.
Proof.
  induction s as [| a r IH]; simpl; [done |]. intros H. breflect. rewrite H. auto.
Qed.

(** ** Numbers: reading back [strconv.FormatInt] *)

Lemma is_digit_digit n : is_digit (digit (n mod 10)) = true.
Proof.
  unfold is_digit, between, digit. rewrite byte_val_of.
  pose proof (Z.mod_pos_bound n 10 ltac:(lia)). rewrite Z.mod_small by lia.
  apply andb_true_iff. lia.
Qed.

Lemma digit_val n : byte_val (digit (n mod 10)) - 48 = n mod 10.
Proof.
  unfold digit. rewrite byte_val_of.
  pose proof (Z.mod_pos_bound n 10 ltac:(lia)). rewrite Z.mod_small by lia. lia.
Qed.

Lemma digits_val_app a d e : digits_val a (d ⊕ e) = digits_val a d ≫= fun a' => digits_val a' e.
Proof.
  revert a. induction d as [| c d IH]; intros a; simpl; [done |].
  destruct (is_digit c); [apply IH | done].
Qed.

(** What a decimal rendering looks like: digits, no superfluous leading zero,
    and the value it denotes. *)
Record decimal (n : Z) (d : string) : Prop := {
  dec_chars : all_chars is_digit d = true;
  dec_head : exists c d', d = String c d' /\ (c = "0"%char -> d' = "");
  dec_val : exists k, 0 <= k /\ forall a, digits_val a d = Some (a * 10 ^ k + n);
}.

Lemma dec_digits_decimal f n acc :
  0 <= n < 10 ^ Z.of_nat f -> (0 < f)%nat ->
  exists d, dec_digits f n acc = d ⊕ acc /\ decimal n d /\ (1 <= n -> forall d', d <> String "0" d').
Proof.
  revert n acc. induction f as [| f IH]; intros n acc Hn Hf; [lia |].
  cbn [dec_digits]. destruct (n <? 10) eqn:H10; breflect.
  - exists (String (digit (n mod 10)) ""). split; [done |]. split.
    + split.
      * simpl. by rewrite is_digit_digit.
      * eauto.
      * exists 1. split; [lia |]. intros a. cbn [digits_val].
        rewrite is_digit_digit, digit_val, Z.mod_small by lia. f_equal.
    + intros H1 d' [= E _]. apply (f_equal byte_val) in E. pose proof (digit_val n) as D.
      rewrite E, Z.mod_small in D by lia. vm_compute in D. lia.
  - assert (Hf' : (0 < f)%nat).
    { destruct f; [| lia]. change (10 ^ Z.of_nat 1) with 10 in Hn. lia. }
    destruct (IH (n / 10) (String (digit (n mod 10)) acc)) as (d & -> & Hd & Hz); [| done |].
    { split; [apply Z.div_pos; lia |].
      apply Z.div_lt_upper_bound; [lia |].
      replace (10 * 10 ^ Z.of_nat f) with (10 ^ Z.of_nat (S f)); [lia |].
      rewrite Nat2Z.inj_succ, Z.pow_succ_r by lia. done. }
    assert (Hq : 1 <= n / 10) by (apply Z.div_le_lower_bound; lia).
    specialize (Hz Hq). destruct Hd as [Hc (c & d' & -> & _) (k & Hk & Hv)].
    exists (String c d' ⊕ String (digit (n mod 10)) ""). split; [by rewrite app_assoc_s |].
    assert (Hne : forall d'', String c d' ⊕ String (digit (n mod 10)) "" <> String "0" d'').
    { cbn [String.append]. intros d'' [= -> _]. by eapply Hz. }
    split; [split |].
    + rewrite all_chars_app, Hc. simpl. by rewrite is_digit_digit.
    + cbn [String.append] in *. eexists _, _. split; [done |]. intros ->. by edestruct Hne.
    + exists (k + 1). split; [lia |]. intros a. rewrite digits_val_app, Hv.
      cbn [mbind option_bind digits_val]. rewrite is_digit_digit, digit_val. f_equal.
      rewrite Z.pow_add_r by lia. rewrite (Z.div_mod n 10) at 3 by lia. lia.
    + auto.
Qed.

Lemma itoa_nonneg n : 0 <= n < 10 ^ 20 -> decimal n (itoa n).
Proof.
  intros H. unfold itoa. destruct (n <? 0) eqn:E; breflect; [lia |].
  destruct (dec_digits_decimal dec_fuel n "") as (d & -> & Hd & _);
    [exact H | unfold dec_fuel; lia |]. by rewrite app_empty_r.
Qed.

Lemma itoa_neg n : 0 < n < 10 ^ 20 -> exists d, itoa (- n) = String "-" d /\ decimal n d.
Proof.
  intros H. unfold itoa. destruct (- n <? 0) eqn:E; breflect; [| lia].
  rewrite Z.opp_involutive.
  destruct (dec_digits_decimal dec_fuel n "") as (d & -> & Hd & _);
    [split; [lia | apply H] | unfold dec_fuel; lia |]. rewrite app_empty_r. eauto.
Qed.

Lemma parse_int64_itoa z : in_int64 z -> parse_int64 (itoa z) = Some z.
Proof.
  unfold in_int64, int64_min, int64_max. intros H.
  destruct (Z_lt_le_dec z 0) as [Hz|Hz].
  - destruct (itoa_neg (- z)) as (d & E & Hd); [lia |].
    rewrite Z.opp_involutive in E. rewrite E. unfold parse_int64.
    destruct Hd as [_ (c & d' & -> & _) (k & _ & Hv)]. cbn [Ascii.eqb].
    change (Ascii.eqb "-" "-") with true. cbn [String.eqb]. rewrite Hv, Z.mul_0_l, Z.add_0_l. simpl.
    rewrite Z.opp_involutive. unfold int64_min, int64_max.
    replace ((- 2 ^ 63 <=? z) && (z <=? 2 ^ 63 - 1)) with true; [done |].
    symmetry. apply andb_true_iff. lia.
  - destruct (itoa_nonneg z) as [Hc (c & d' & E & _) (k & _ & Hv)]; [lia |].
    rewrite E in *. unfold parse_int64. simpl in Hc. breflect.
    assert (Ascii.eqb c "-" = false) as ->.
    { apply Ascii.eqb_neq. intros ->. discriminate. }
    rewrite Hv, Z.mul_0_l, Z.add_0_l. simpl. unfold int64_min, int64_max.
    replace ((- 2 ^ 63 <=? z) && (z <=? 2 ^ 63 - 1)) with true; [done |].
    symmetry. apply andb_true_iff. lia.
Qed.

(** What may follow a number without being read as part of it. *)
Definition num_stop (s : string) : bool :=
  match s with
  | EmptyString => true
  | String c _ =>
      negb (is_digit c || Ascii.eqb c "." || Ascii.eqb c "e" || Ascii.eqb c "E")
  end.

Lemma span_digits_app d s :
  all_chars is_digit d = true -> num_stop s = true -> span_digits (d ⊕ s) = (d, s).
Proof.
  intros Hd Hs. induction d as [| c d IH]; simpl in *.
  - destruct s as [| c s]; [done |]. cbn [span_digits num_stop] in *. breflect. by rewrite H.
  - breflect. by rewrite H, IH.
Qed.

Lemma scan_int_decimal n d s :
  decimal n d -> num_stop s = true -> scan_int (d ⊕ s) = Some (d, s).
Proof.
  intros [Hc (c & d' & -> & Hz) _] Hs. cbn [String.append scan_int].
  destruct (Ascii.eqb c "0") eqn:E0.
  - apply Ascii.eqb_eq in E0. rewrite (Hz E0), E0. done.
  - pose proof Hc as Hc'. simpl in Hc'. breflect. rewrite H.
    by rewrite <- (span_digits_app (String c d') s Hc Hs).
Qed.

Lemma scan_frac_stop s : num_stop s = true -> scan_frac s = Some ("", s).
Proof. destruct s as [| c s]; [done |]. simpl. intros H. breflect. by rewrite H2. Qed.

Lemma scan_exp_stop s : num_stop s = true -> scan_exp s = Some ("", s).
Proof. destruct s as [| c s]; [done |]. simpl. intros H. breflect. by rewrite H0, H1. Qed.

Lemma scan_number_itoa z s :
  in_int64 z -> num_stop s = true -> scan_number (itoa z ⊕ s) = Some (itoa z, s).
Proof.
  unfold in_int64, int64_min, int64_max. intros H Hs.
  destruct (Z_lt_le_dec z 0) as [Hz|Hz].
  - destruct (itoa_neg (- z)) as (d & E & Hd); [lia |].
    rewrite Z.opp_involutive in E. rewrite E. unfold scan_number. cbn [String.append].
    change (Ascii.eqb "-" "-") with true. cbv iota beta.
    rewrite (scan_int_decimal _ _ _ Hd Hs). simpl.
    rewrite scan_frac_stop by done. simpl. rewrite scan_exp_stop by done. simpl.
    by rewrite !app_empty_r.
  - assert (Hd : decimal z (itoa z)) by (apply itoa_nonneg; lia).
    pose proof (scan_int_decimal _ _ _ Hd Hs) as Hi.
    destruct Hd as [Hc (c & d' & E & _) _]. rewrite E in *. unfold scan_number.
    simpl in Hc. breflect.
    assert (Ascii.eqb c "-" = false) as En.
    { apply Ascii.eqb_neq. intros ->. discriminate. }
    cbn [String.append] in *. rewrite En. cbv iota beta. rewrite Hi. simpl.
    rewrite scan_frac_stop by done. simpl. rewrite scan_exp_stop by done. simpl.
    by rewrite !app_empty_r.
Qed.

(** The first byte of a rendered integer selects the number branch. *)
Lemma itoa_head z :
  in_int64 z -> exists c r, itoa z = String c r /\ (Ascii.eqb c "-" || is_digit c) = true.
Proof.
  unfold in_int64, int64_min, int64_max. intros H.
  destruct (Z_lt_le_dec z 0) as [Hz|Hz].
  - destruct (itoa_neg (- z)) as (d & E & Hd); [lia |].
    rewrite Z.opp_involutive in E. rewrite E. eauto.
  - destruct (itoa_nonneg z) as [Hc (c & d' & E & _) _]; [lia |]. rewrite E in *.
    simpl in Hc. breflect. eexists _, _. split; [done |]. apply orb_true_iff. auto.
Qed.

Definition num_head_other (c : Ascii.ascii) : bool :=
  negb (Ascii.eqb c "-" || is_digit c) ||
  (negb (is_ws c) && negb (Ascii.eqb c "{") && negb (Ascii.eqb c "[") && negb (Ascii.eqb c quote) &&
   negb (Ascii.eqb c "t") && negb (Ascii.eqb c "f") && negb (Ascii.eqb c "n")).

Lemma num_head_tests c :
  (Ascii.eqb c "-" || is_digit c) = true ->
  is_ws c = false /\ Ascii.eqb c "{" = false /\ Ascii.eqb c "[" = false /\
  Ascii.eqb c quote = false /\ Ascii.eqb c "t" = false /\ Ascii.eqb c "f" = false /\
  Ascii.eqb c "n" = false.
Proof.
  intros H. pose proof (forall_bytes num_head_other ltac:(vm_compute; reflexivity) c) as T.
  unfold num_head_other in T. rewrite H in T. simpl in T. breflect. done.
Qed.

(** ** Documents: reading back what was rendered *)

#[warnings="-register-all"]
Inductive wf_json : json -> Prop :=
| wf_null : wf_json JNull
| wf_bool b : wf_json (JBool b)
| wf_num z : in_int64 z -> wf_json (JNum (itoa z))
| wf_str s : valid_utf8 s = true -> wf_json (JStr s)
| wf_arr l : Forall wf_json l -> wf_json (JArr l)
| wf_obj kvs :
    Forall (fun kv => valid_utf8 kv.1 = true /\ wf_json kv.2) kvs -> wf_json (JObj kvs).

Definition reads_back (j : json) : Prop :=
  forall n rest, (slen (render j) <= n)%nat -> num_stop rest = true ->
  parse_value n (render j ⊕ rest) = Some (j, rest).

Lemma render_nonempty j : wf_json j -> (1 <= slen (render j))%nat.
Proof.
  inversion 1 as [| [] | z Hz | | |]; subst; try (simpl; lia).
  simpl. destruct (itoa_head z Hz) as (c & r & -> & _). simpl. lia.
Qed.

Lemma render_elems_false l :
  render_elems false l = match l with [] => "]" | _ => String "," (render_elems true l) end.
Proof. by destruct l. Qed.

Lemma render_members_false l :
  render_members false l = match l with [] => "}" | _ => String "," (render_members true l) end.
Proof. by destruct l. Qed.

Lemma elems_read_back l :
  Forall (fun j => wf_json j /\ reads_back j) l -> l <> [] -> forall n rest,
  (slen (render_elems true l) <= n)%nat ->
  parse_elems n (render_elems true l ⊕ rest) = Some (l, rest).
Proof.
  induction 1 as [| x l [Hw Hx] Hl IH]; [done |]. intros _ n rest Hn.
  cbn [render_elems String.append] in *. rewrite slen_app in Hn.
  pose proof (render_nonempty x Hw).
  rewrite render_elems_false in *. rewrite app_assoc_s.
  destruct n as [| n]; [lia |]. cbn [parse_elems].
  destruct l as [| y l].
  - rewrite Hx; [done | simpl in Hn; lia | done].
  - rewrite Hx; [| simpl in Hn; lia | done].
    cbn [mbind option_bind].
    cbn [String.append skip_ws].
    change (is_ws ",") with false. cbv iota. change (Ascii.eqb "," ",") with true. cbv iota.
    rewrite IH; [done | done | cbn [String.length] in Hn; lia].
Qed.

Lemma members_read_back l :
  Forall (fun kv => (valid_utf8 kv.1 = true /\ wf_json kv.2) /\ reads_back kv.2) l -> l <> [] ->
  forall n rest, (slen (render_members true l) <= n)%nat ->
  parse_members n (render_members true l ⊕ rest) = Some (l, rest).
Proof.
  induction 1 as [| [k x] l [[Hk Hw] Hx] Hl IH]; [done |]. intros _ n rest Hn.
  cbn [render_members String.append fst snd] in *. simpl in Hk, Hw, Hx.
  unfold render_string in *. cbn [String.append String.length] in Hn. rewrite !slen_app in Hn.
  cbn [String.append String.length] in Hn. rewrite slen_app in Hn.
  pose proof (render_nonempty x Hw).
  rewrite render_members_false in *.
  destruct n as [| n]; [lia |]. cbn [parse_members String.append].
  change (skip_ws (String quote ?s)) with (String quote s). cbv iota.
  rewrite Ascii.eqb_refl. unfold quote_s. rewrite !app_assoc_s. cbn [String.append].
  rewrite parse_escape by done. cbn [mbind option_bind].
  change (skip_ws (String ":" ?s)) with (String ":" s). cbv iota.
  rewrite Ascii.eqb_refl, !app_assoc_s.
  destruct l as [| y l].
  - rewrite Hx; [done | simpl in Hn; lia | done].
  - rewrite Hx; [| simpl in Hn; lia | done].
    cbn [mbind option_bind String.append].
    change (skip_ws (String "," ?s)) with (String "," s). cbv iota.
    rewrite Ascii.eqb_refl.
    rewrite IH; [done | done | cbn [String.length] in Hn; lia].
Qed.

Lemma literal_reads_back j w :
  render j = w -> (forall n rest, parse_value (S n) (w ⊕ rest) = Some (j, rest)) ->
  (0 < slen w)%nat -> reads_back j.
Proof.
  intros E H Hw n rest Hn _. rewrite E in *. destruct n as [| n]; [lia |]. apply H.
Qed.

Lemma parse_value_obj n r :
  parse_value (S n) (String "{" r) =
  match skip_ws r with
  | String c2 r2 => if Ascii.eqb c2 "}" then Some (JObj [], r2)
                    else '(kvs, rest) ← parse_members n r; Some (JObj kvs, rest)
  | EmptyString => None
  end.
Proof. reflexivity. Qed.

Lemma parse_value_arr n r :
  parse_value (S n) (String "[" r) =
  match skip_ws r with
  | String c2 r2 => if Ascii.eqb c2 "]" then Some (JArr [], r2)
                    else '(l, rest) ← parse_elems n r; Some (JArr l, rest)
  | EmptyString => None
  end.
Proof. reflexivity. Qed.

(** The first byte of a rendered value is neither white space nor a closing
    bracket. *)
Lemma render_head j :
  wf_json j -> exists c r, render j = String c r /\ is_ws c = false /\ Ascii.eqb c "]" = false.
Proof.
  inversion 1 as [| [] | z Hz | | |]; subst; try by eexists _, _.
  destruct (itoa_head z Hz) as (c & r & E & Hc). simpl. rewrite E.
  eexists _, _. split; [done |]. split; [by apply num_head_tests |].
  apply Ascii.eqb_neq. intros ->. vm_compute in Hc. discriminate.
Qed.

Lemma number_reads_back z : in_int64 z -> reads_back (JNum (itoa z)).
Proof.
  intros Hz n rest Hn Hs. simpl in *.
  destruct (itoa_head z Hz) as (c & r & E & Hc).
  destruct (num_head_tests c Hc) as (T1 & T2 & T3 & T4 & T5 & T6 & T7).
  pose proof (scan_number_itoa z rest Hz Hs) as Hsc. rewrite E in *.
  destruct n as [| n]; [simpl in Hn; lia |].
  cbn [parse_value String.append skip_ws] in *. rewrite T1, T2, T3, T4, T5, T6, T7, Hsc. done.
Qed.

Lemma string_reads_back s : valid_utf8 s = true -> reads_back (JStr s).
Proof.
  intros Hv n rest Hn _. simpl in *. destruct n as [| n]; [lia |].
  unfold quote_s. rewrite app_assoc_s. cbn [String.append].
  change (parse_value (S n) (String quote ?t)) with
    ('(v, rest) ← parse_str t; Some (JStr v, rest)).
  by rewrite parse_escape.
Qed.

Lemma array_reads_back l :
  Forall (fun j => wf_json j /\ reads_back j) l -> reads_back (JArr l).
Proof.
  intros H n rest Hn _. rewrite render_arr in *. cbn [String.append String.length] in *.
  destruct n as [| n]; [lia |]. rewrite parse_value_arr.
  destruct l as [| x l]; [done |].
  pose proof (elems_read_back _ H ltac:(done) n rest ltac:(lia)) as E.
  inversion H as [| ? ? [Hw _] _]; subst. destruct (render_head x Hw) as (c & r & Ex & Hws & Hb).
  assert (Es : render_elems true (x :: l) ⊕ rest = String c ((r ⊕ render_elems false l) ⊕ rest)).
  { cbn [render_elems]. rewrite Ex. done. }
  rewrite Es in *. cbn [skip_ws]. rewrite Hws, Hb, E. done.
Qed.

Lemma object_reads_back l :
  Forall (fun kv => (valid_utf8 kv.1 = true /\ wf_json kv.2) /\ reads_back kv.2) l ->
  reads_back (JObj l).
Proof.
  intros H n rest Hn _. rewrite render_obj in *. cbn [String.append String.length] in *.
  destruct n as [| n]; [lia |]. rewrite parse_value_obj.
  destruct l as [| [k x] l]; [done |].
  pose proof (members_read_back _ H ltac:(done) n rest ltac:(lia)) as E.
  assert (Es : exists r, render_members true ((k, x) :: l) ⊕ rest = String quote r)
    by (cbn [render_members]; unfold render_string; cbn [String.append]; eauto).
  destruct Es as [r Es]. rewrite Es in *. cbn [skip_ws].
  change (is_ws quote) with false. cbv iota. change (Ascii.eqb quote "}") with false. cbv iota.
  by rewrite E.
Qed.

Lemma all_read_back j : wf_json j -> reads_back j.
Proof.
  induction j as [| b | lit | s | l IH | kvs IH] using json_ind'; inversion 1; subst.
  - by apply (literal_reads_back JNull "null"); [| | simpl; lia].
  - destruct b.
    + by apply (literal_reads_back (JBool true) "true"); [| | simpl; lia].
    + by apply (literal_reads_back (JBool false) "false"); [| | simpl; lia].
  - by apply number_reads_back.
  - by apply string_reads_back.
  - apply array_reads_back. rewrite Forall_forall in *. intros x Hx. split; auto.
  - apply object_reads_back. rewrite Forall_forall in *. intros x Hx.
    destruct (H1 x Hx). auto.
Qed.

Lemma decode_first_render j rest :
  wf_json j -> num_stop rest = true -> decode_first (render j ⊕ rest) = Some (j, rest).
Proof.
  intros Hw Hs. unfold decode_first, json_fuel. apply all_read_back; [done | | done].
  rewrite slen_app. lia.
Qed.

(** [json.Unmarshal] inverts [json.Marshal] on well-formed values. *)
Lemma parse_document_render j : wf_json j -> parse_document (render j) = Some j.
Proof.
  intros Hw. unfold parse_document.
  rewrite <- (app_empty_r (render j)), decode_first_render by done. done.
Qed.

Lemma render_inj j k : wf_json j -> wf_json k -> render j = render k -> j = k.
Proof.
  intros Hj Hk E. apply (f_equal parse_document) in E.
  rewrite !parse_document_render in E by done. by injection E.
Qed.

Lemma itoa_inj a b : in_int64 a -> in_int64 b -> itoa a = itoa b -> a = b.
Proof.
  intros Ha Hb E. apply (f_equal parse_int64) in E.
  rewrite !parse_int64_itoa in E by done. by injection E.
Qed.

(** ** The fuel is enough: more of it never changes the result *)

Lemma prepend_inv p o v r : prepend p o = Some (v, r) -> exists v', o = Some (v', r).
Proof. destruct o as [[v' r'] |]; simpl; [intros [= <- <-]; eauto | done]. Qed.

Lemma parse_str_shorter s v r : parse_str s = Some (v, r) -> (slen r < slen s)%nat.
Proof.
  remember (slen s) as n eqn:Hn. revert s Hn v r.
  induction n as [n IH] using lt_wf_ind. intros s -> v r.
  assert (IH' : forall p t v r, prepend p (parse_str t) = Some (v, r) ->
                  (slen t < slen s)%nat -> (slen r < slen s)%nat).
  { intros p t v0 r0 Hp Hl. apply prepend_inv in Hp as [v' Hp].
    pose proof (IH _ Hl t eq_refl _ _ Hp). lia. }
  clear IH. destruct s as [| a s]; [done |]. cbn [parse_str]. intros H.
  repeat (case_match; simplify_eq; subst); try (simpl; lia);
    eapply IH'; try eassumption; simpl; lia.
Qed.

Lemma skip_ws_le s : (slen (skip_ws s) <= slen s)%nat.
Proof. induction s as [| c s IH]; simpl; [done |]. destruct (is_ws c); simpl; lia. Qed.

Lemma span_digits_le s d r : span_digits s = (d, r) -> (slen r <= slen s)%nat.
Proof.
  revert d r. induction s as [| c s IH]; intros d r; cbn [span_digits]; [by intros [= <- <-] |].
  destruct (is_digit c); [| by intros [= <- <-]].
  destruct (span_digits s) as [d' r']. intros [= <- <-].
  specialize (IH _ _ eq_refl). simpl. lia.
Qed.

Lemma nonempty_digits_le p s d r : nonempty_digits p s = Some (d, r) -> (slen r <= slen s)%nat.
Proof.
  unfold nonempty_digits. destruct (span_digits s) as [d' r'] eqn:E.
  destruct (String.eqb d' ""); [done |]. intros [= <- <-]. by eapply span_digits_le.
Qed.

Lemma scan_number_shorter s d r : scan_number s = Some (d, r) -> (slen r < slen s)%nat.
Proof.
  unfold scan_number. intros H.
  assert (Hi : forall t d r, scan_int t = Some (d, r) -> (slen r < slen t)%nat).
  { intros [| c t] d' r'; [done |]. cbn [scan_int].
    destruct (Ascii.eqb c "0"); [intros [= <- <-]; simpl; lia |].
    cbn [span_digits]. destruct (is_digit c) eqn:Ec; [| done].
    destruct (span_digits t) eqn:E. intros [= <- <-].
    apply span_digits_le in E. simpl. lia. }
  assert (Hf : forall t d r, scan_frac t = Some (d, r) -> (slen r <= slen t)%nat).
  { intros [| c t] d' r'; cbn [scan_frac]; [by intros [= <- <-] |].
    destruct (Ascii.eqb c "."); [| by intros [= <- <-]].
    intros E%nonempty_digits_le. simpl. lia. }
  assert (He : forall t d r, scan_exp t = Some (d, r) -> (slen r <= slen t)%nat).
  { intros [| c t] d' r'; cbn [scan_exp]; [by intros [= <- <-] |].
    destruct (_ || _); [| by intros [= <- <-]].
    destruct t as [| g t]; [done |].
    destruct (_ || _); intros E%nonempty_digits_le; simpl in *; lia. }
  destruct (match s with String c r => if Ascii.eqb c "-" then ("-", r) else ("", s)
                       | EmptyString => ("", "") end) as [sign s1] eqn:Es.
  assert (slen s1 <= slen s)%nat.
  { destruct s as [| c s]; [by simplify_eq |]. destruct (Ascii.eqb c "-"); simplify_eq; simpl; lia. }
  destruct (scan_int s1) as [[i s2] |] eqn:E1; [| done]. simpl in H.
  destruct (scan_frac s2) as [[f s3] |] eqn:E2; [| done]. simpl in H.
  destruct (scan_exp s3) as [[e s4] |] eqn:E3; [| done]. simplify_eq/=.
  apply Hi in E1. apply Hf in E2. apply He in E3. lia.
Qed.

Lemma scan_lit_shorter w v s j r :
  scan_lit w v s = Some (j, r) -> (0 < slen w)%nat -> (slen r < slen s)%nat.
Proof.
  unfold scan_lit. destruct (has_prefix w s) eqn:E; [| done]. intros [= <- <-] Hw.
  apply has_prefix_spec in E as [t ->]. rewrite drop_s_app, slen_app. lia.
Qed.

Ltac bind_inv :=
  repeat match goal with
  | H : (_ ≫= _) = Some _ |- _ => apply bind_Some in H as ([? ?] & ? & ?); simplify_eq/=
  end.

Ltac ws_len :=
  repeat match goal with
  | H : skip_ws ?s = String ?c ?r |- _ =>
      pose proof (skip_ws_le s); rewrite H in *; cbn [String.length] in *; clear H
  end.

Ltac lit_len :=
  repeat match goal with
  | H : parse_str _ = Some _ |- _ => apply parse_str_shorter in H
  | H : scan_lit _ _ _ = Some _ |- _ => apply scan_lit_shorter in H; [| simpl; lia]
  | H : scan_number _ = Some _ |- _ => apply scan_number_shorter in H
  end.

Lemma parse_shorter n :
  (forall s j r, parse_value n s = Some (j, r) -> (slen r < slen s)%nat) /\
  (forall s l r, parse_elems n s = Some (l, r) -> (slen r < slen s)%nat) /\
  (forall s l r, parse_members n s = Some (l, r) -> (slen r < slen s)%nat).
Proof.
  induction n as [| n (IHv & IHe & IHm)]; [done |].
  split_and!; intros s j r; cbn [parse_value parse_elems parse_members]; intros H;
    repeat (bind_inv; case_match; try done); bind_inv; simplify_eq;
    repeat match goal with
    | H : parse_value _ _ = Some _ |- _ => apply IHv in H
    | H : parse_elems _ _ = Some _ |- _ => apply IHe in H
    | H : parse_members _ _ = Some _ |- _ => apply IHm in H
    end; lit_len; ws_len; simpl in *; lia.
Qed.

Lemma parse_fuel n :
  (forall m s, (2 * slen s + 1 <= n <= m)%nat -> parse_value m s = parse_value n s) /\
  (forall m s, (2 * slen s + 2 <= n <= m)%nat -> parse_elems m s = parse_elems n s) /\
  (forall m s, (2 * slen s + 2 <= n <= m)%nat -> parse_members m s = parse_members n s).
Proof.
  induction n as [| n (IHv & IHe & IHm)]; [split_and!; intros; lia |].
  destruct (parse_shorter n) as (Sv & Se & Sm).
  split_and!; intros [| m] s Hm; try lia;
    cbn [parse_value parse_elems parse_members].
  - destruct (skip_ws s) as [| c r] eqn:Es; [done |]. ws_len.
    rewrite IHm, IHe by lia. done.
  - rewrite IHv by lia. destruct (parse_value n s) as [[v r] |] eqn:Ev; [| done]. simpl.
    apply Sv in Ev. destruct (skip_ws r) as [| c t] eqn:Es; [done |]. ws_len.
    rewrite IHe by lia. done.
  - destruct (skip_ws s) as [| c r] eqn:Es; [done |]. ws_len.
    destruct (parse_str r) as [[k r1] |] eqn:Ek; [| done]. simpl. apply parse_str_shorter in Ek.
    destruct (skip_ws r1) as [| c1 r2] eqn:E1; [done |]. ws_len.
    rewrite IHv by lia. destruct (parse_value n r2) as [[v r3] |] eqn:Ev; [| done]. simpl.
    apply Sv in Ev. destruct (skip_ws r3) as [| c2 r4] eqn:E2; [done |]. ws_len.
    rewrite IHm by lia. done.
Qed.

(** Whatever bound is at least [json_fuel] gives the result of [decode_first]. *)
Lemma decode_first_fuel m s : (json_fuel s <= m)%nat -> parse_value m s = decode_first s.
Proof. unfold json_fuel, decode_first. intros H. apply parse_fuel. unfold json_fuel. lia. Qed.

(** ** Struct members *)

Fixpoint seg_get (name : string) (l : list (string * option json)) : option json :=
  match l with
  | [] => None
  | (n, o) :: r => if String.eqb n name then o else seg_get name r
  end.

Lemma seg_get_notin name l : name ∉ l.*1 -> seg_get name l = None.
Proof.
  induction l as [| [n o] l IH]; simpl; [done |]. intros H.
  destruct (String.eqb_spec n name) as [->|]; [set_solver |]. apply IH. set_solver.
Qed.

(** Decoding finds in each field what encoding put there. *)
Lemma last_assigned_present name l :
  NoDup l.*1 -> last_assigned name (present l) = seg_get name l.
Proof.
  induction l as [| [n o] l IH]; simpl; [done |]. intros [Hn Hd]%NoDup_cons.
  destruct o as [v |]; simpl; rewrite IH by done;
    destruct (String.eqb_spec n name) as [->|Hne]; try done.
  - by rewrite seg_get_notin.
  - by destruct (seg_get name l).
  - by rewrite seg_get_notin.
Qed.

Lemma str_opt_get s : match str_opt s with Some (JStr s) => s | _ => "" end = s.
Proof. unfold str_opt. destruct (String.eqb_spec s ""); by subst. Qed.

Lemma int_opt_get z :
  in_int64 z -> match int_opt z with Some (JNum lit) => default 0 (parse_int64 lit) | _ => 0 end = z.
Proof.
  intros H. unfold int_opt. destruct (z =? 0) eqn:E; breflect; [by subst |]. by rewrite parse_int64_itoa.
Qed.

(** A segment whose name is a field of the schema and whose value fits it. *)
Definition seg_ok (sc : schema) (strict : bool) (seg : string * option json) : Prop :=
  match seg.2 with
  | None => True
  | Some v => exists k, find_field sc seg.1 = Some (seg.1, k) /\
                fits (kind_depth - 1) strict k v = true /\ v <> JNull /\
                valid_utf8 seg.1 = true /\ wf_json v
  end.

Lemma seg_ok_str sc strict n s :
  find_field sc n = Some (n, KStr) -> valid_utf8 n = true -> valid_utf8 s = true ->
  seg_ok sc strict (n, Some (JStr s)).
Proof. intros. exists KStr. split_and!; try done. by constructor. Qed.

Lemma seg_ok_int sc strict n z :
  find_field sc n = Some (n, KInt) -> valid_utf8 n = true -> in_int64 z ->
  seg_ok sc strict (n, Some (JNum (itoa z))).
Proof.
  intros. exists KInt. split_and!; try done; [| by constructor].
  cbn. by rewrite parse_int64_itoa.
Qed.

Lemma seg_ok_str_opt sc strict n s :
  find_field sc n = Some (n, KStr) -> valid_utf8 n = true -> valid_utf8 s = true ->
  seg_ok sc strict (n, str_opt s).
Proof. intros. unfold str_opt. case_match; [done |]. by apply seg_ok_str. Qed.

Lemma seg_ok_int_opt sc strict n z :
  find_field sc n = Some (n, KInt) -> valid_utf8 n = true -> in_int64 z ->
  seg_ok sc strict (n, int_opt z).
Proof. intros. unfold int_opt. case_match; [done |]. by apply seg_ok_int. Qed.

Lemma decode_present sc strict l :
  Forall (seg_ok sc strict) l -> decode_struct strict sc (JObj (present l)) = Some (present l).
Proof.
  intros H. unfold decode_struct.
  assert (Hf : Forall (fun kv => exists k, find_field sc kv.1 = Some (kv.1, k) /\
                  fits (kind_depth - 1) strict k kv.2 = true /\ kv.2 <> JNull) (present l)).
  { induction H as [| [n [v |]] l Hs Hl IH]; simpl; [constructor | | done].
    destruct Hs as (k & ? & ? & ? & _). constructor; [by exists k | done]. }
  assert (fits kind_depth strict (KStruct sc) (JObj (present l)) = true) as ->.
  { cbn [fits kind_depth]. apply forallb_forall. intros kv Hin. rewrite Forall_forall in Hf.
    destruct (Hf kv) as (k & -> & Hk & _); [by apply list_elem_of_In |]. exact Hk. }
  f_equal. induction Hf as [| [n v] m (k & Hk & _ & Hn) Hl IH]; simpl in *; [done |].
  rewrite Hk, IH. by destruct v.
Qed.

Lemma wf_present sc strict l : Forall (seg_ok sc strict) l -> wf_json (JObj (present l)).
Proof.
  intros H. constructor. induction H as [| [n [v |]] l Hs Hl IH]; simpl; [constructor | | done].
  destruct Hs as (k & _ & _ & _ & ? & ?). by constructor.
Qed.

(** [json.Unmarshal] of a marshalled struct makes exactly the assignments the
    encoder wrote. *)
Lemma unmarshal_present sc l :
  Forall (seg_ok sc false) l -> unmarshal sc (render (JObj (present l))) = Some (present l).
Proof.
  intros H. unfold unmarshal. rewrite parse_document_render by by eapply wf_present.
  cbn [mbind option_bind]. exact (decode_present sc false l H).
Qed.
