(* ===== verification/NetAddr.v ===== *)
(** * Network addresses and the accounting key ([internal/netkey])

    The parts of [net] and [net/netip] the program uses (addresses, their
    canonical text, prefixes) and the rule that maps a source address to the
    key every per-source budget charges: the exact address for IPv4 (an
    IPv4-mapped IPv6 address included), the /64 prefix for IPv6. *)

From S2P Require Import Prelude Sha256 Json.

(** [net.IP] is a byte slice: 4 or 16 bytes when valid. *)
Abbreviation IP := string.

Definition v4_in_6 : string :=
  zeros 10 ⊕ String (byte_of 255) (String (byte_of 255) "").

(** [ip.To4()], [nil] as [None]. *)
Definition To4 (ip : IP) : option IP :=
  if (slen ip =? 4)%nat then Some ip
  else if (slen ip =? 16)%nat && has_prefix v4_in_6 ip then Some (drop_s 12 ip)
  else None.

(** [ip.To16()] *)
Definition To16 (ip : IP) : IP :=
  if (slen ip =? 4)%nat then v4_in_6 ⊕ ip
  else if (slen ip =? 16)%nat then ip
  else "".

(** [netip.Addr], without zones: a source read off a UDP socket carries none
    for a global address. *)
Inductive Addr : Type :=
| Addr4 (b : string)
| Addr6 (b : string).

Definition AddrFromSlice (ip : IP) : option Addr :=
  if (slen ip =? 4)%nat then Some (Addr4 ip)
  else if (slen ip =? 16)%nat then Some (Addr6 ip)
  else None.

Definition Unmap (a : Addr) : Addr :=
  match a with
  | Addr4 b => Addr4 b
  | Addr6 b => if has_prefix v4_in_6 b then Addr4 (drop_s 12 b) else Addr6 b
  end.

Definition Is6 (a : Addr) : bool := match a with Addr6 _ => true | Addr4 _ => false end.

(** ** Text *)

Fixpoint byte_list (s : string) : list Z :=
  match s with EmptyString => [] | String c r => byte_val c :: byte_list r end.

Fixpoint join (sep : string) (l : list string) : string :=
  match l with
  | [] => ""
  | [x] => x
  | x :: l' => x ⊕ sep ⊕ join sep l'
  end.

Definition string4 (b : string) : string := join "." (itoa <$> byte_list b).

(** Big-endian 16-bit groups. *)
Fixpoint hextets (b : string) : list Z :=
  match b with
  | String x (String y r) => (byte_val x * 256 + byte_val y) :: hextets r
  | _ => []
  end.

(** A group in hexadecimal without leading zeros ([appendHex]). *)
Definition hex16 (n : Z) : string :=
  (if 0x1000 <=? n then String (hexd (n / 4096)) "" else "") ⊕
  (if 0x100 <=? n then String (hexd (n / 256 mod 16)) "" else "") ⊕
  (if 0x10 <=? n then String (hexd (n / 16 mod 16)) "" else "") ⊕
  String (hexd (n mod 16)) "".

(** Length of the run of zero groups at the head. *)
Fixpoint zero_run (l : list Z) : nat :=
  match l with
  | h :: l' => if h =? 0 then S (zero_run l') else O
  | [] => O
  end.

(** First longest run of at least two zero groups: start and length. *)
Fixpoint best_run (i : nat) (l : list Z) (best : nat * nat) : nat * nat :=
  match l with
  | [] => best
  | _ :: l' =>
      let r := zero_run l in
      best_run (S i) l' (if (2 <=? r)%nat && (best.2 <? r)%nat then (i, r) else best)
  end.

Definition string6_of (l : list Z) : string :=
  let '(st, len) := best_run 0 l (0, 0)%nat in
  if (len =? 0)%nat then join ":" (hex16 <$> l)
  else join ":" (hex16 <$> take st l) ⊕ "::" ⊕ join ":" (hex16 <$> drop (st + len) l).

Definition string6 (b : string) : string := string6_of (hextets b).

(** [addr.String()]; an IPv4-mapped address prints as [::ffff:a.b.c.d]. *)
Definition Addr_String (a : Addr) : string :=
  match a with
  | Addr4 b => string4 b
  | Addr6 b => if has_prefix v4_in_6 b then "::ffff:" ⊕ string4 (drop_s 12 b) else string6 b
  end.

(** [ip.String()] *)
Definition IP_String (ip : IP) : string :=
  if String.eqb ip "" then "<nil>" else
  match To4 ip with
  | Some b => string4 b
  | None => if (slen ip =? 16)%nat then string6 ip else "?" ⊕ hex ip
  end.

Example string6_ex1 :
  IP_String (String (byte_of 0x20) (String (byte_of 1) (String (byte_of 0xd) (String (byte_of 0xb8)
    (zeros 11 ⊕ String (byte_of 1) ""))))) = "2001:db8::1".
Proof. vm_compute. reflexivity. Qed.

(** [net.UDPAddr] and [net.JoinHostPort]. *)
Record UDPAddr := mkUDPAddr { IPof : IP; Port : Z }.

Fixpoint contains_char (c : Ascii.ascii) (s : string) : bool :=
  match s with EmptyString => false | String d r => Ascii.eqb c d || contains_char c r end.

Definition JoinHostPort (host port : string) : string :=
  if contains_char ":" host then "[" ⊕ host ⊕ "]:" ⊕ port else host ⊕ ":" ⊕ port.

Definition UDPAddr_String (a : UDPAddr) : string :=
  JoinHostPort (IP_String (IPof a)) (itoa (Port a)).

#[export] Instance UDPAddr_eq_dec : EqDecision UDPAddr.
Proof. solve_decision. Defined.

(** ** Prefixes *)

Fixpoint be_value (acc : Z) (s : string) : Z :=
  match s with EmptyString => acc | String c r => be_value (acc * 256 + byte_val c) r end.

(** [netip.Prefix] *)
Record Prefix := mkPrefix { pfx_addr : Addr; pfx_bits : Z }.

(** [p.Contains(a)] *)
Definition Contains (p : Prefix) (a : Addr) : bool :=
  match pfx_addr p, a with
  | Addr4 x, Addr4 y =>
      Z.shiftr (Z.lxor (be_value 0 x) (be_value 0 y)) (32 - pfx_bits p) =? 0
  | Addr6 x, Addr6 y =>
      Z.shiftr (Z.lxor (be_value 0 x) (be_value 0 y)) (128 - pfx_bits p) =? 0
  | _, _ => false
  end.

(** The relay's membership test ([Server.cidrAllowed]). *)
Definition cidrAllowed (allowed : list Prefix) (ip : IP) : bool :=
  match allowed with
  | [] => true
  | _ =>
      match AddrFromSlice ip with
      | None => false
      | Some a => existsb (fun p => Contains p (Unmap a)) allowed
      end
  end.

(** ** The accounting key *)

Definition V6Bits : Z := 64.

(** [addr.Prefix(V6Bits)] of an IPv6 address, as text: the first eight bytes
    kept, the rest zero. *)
Definition prefix64_String (b : string) : string :=
  Addr_String (Addr6 (take_s 8 b ⊕ zeros 8)) ⊕ "/" ⊕ itoa V6Bits.

Definition FromNetipAddr (addr : Addr) : string :=
  match Unmap addr with
  | Addr6 b => prefix64_String b
  | Addr4 b => Addr_String (Addr4 b)
  end.

Definition FromIP (ip : IP) : string :=
  match AddrFromSlice ip with
  | None => IP_String ip
  | Some addr => FromNetipAddr addr
  end.

(** [net.Addr] as [FromAddr] distinguishes it. *)
Inductive NetAddr : Type :=
| ANil
| AUDP (a : UDPAddr)
| ATCP (ip : IP) (port : Z)
| AOther (text : string).

Definition FromAddr (a : NetAddr) : string :=
  match a with
  | AUDP v => FromIP (IPof v)
  | ATCP ip _ => FromIP ip
  | ANil => ""
  | AOther text => text
  end.

(** ** Reading text back by its separators *)

Fixpoint split_on (sep : Ascii.ascii) (s : string) : list string :=
  match s with
  | EmptyString => [""]
  | String c r =>
      if Ascii.eqb c sep then "" :: split_on sep r
      else match split_on sep r with
           | [] => [String c ""]
           | x :: l => String c x :: l
           end
  end.

Lemma split_on_nosep sep s : contains_char sep s = false -> split_on sep s = [s].
Proof.
  induction s as [| c s IH]; simpl; [done |]. intros H. breflect.
  rewrite Ascii.eqb_sym, H, IH by done. done.
Qed.

Lemma split_on_app sep s t :
  contains_char sep s = false -> split_on sep (s ⊕ String sep t) = s :: split_on sep t.
Proof.
  induction s as [| c s IH]; simpl.
  - intros _. by rewrite Ascii.eqb_refl.
  - intros H. breflect. rewrite Ascii.eqb_sym, H, IH by done. done.
Qed.

Lemma contains_char_all c P s :
  all_chars P s = true -> P c = false -> contains_char c s = false.
Proof.
  intros H Hc. induction s as [| d s IH]; simpl in *; [done |]. breflect.
  rewrite IH by done. rewrite orb_false_r. apply Ascii.eqb_neq. congruence.
Qed.

Lemma contains_char_app c s t : contains_char c (s ⊕ t) = contains_char c s || contains_char c t.
Proof. induction s as [| d s IH]; simpl; [done |]. by rewrite IH, orb_assoc. Qed.

(** IPv4 text determines the address. *)

Lemma itoa_byte_digits c : all_chars is_digit (itoa (byte_val c)) = true.
Proof. apply itoa_nonneg. pose proof (byte_val_range c). lia. Qed.

Lemma split_string4 a b c d :
  split_on "." (string4 (String a (String b (String c (String d "")))))
  = [itoa (byte_val a); itoa (byte_val b); itoa (byte_val c); itoa (byte_val d)].
Proof.
  unfold string4. cbn [byte_list fmap list_fmap join String.append].
  assert (H : forall x, contains_char "." (itoa (byte_val x)) = false).
  { intros x. eapply contains_char_all; [apply itoa_byte_digits | done]. }
  by rewrite !split_on_app, split_on_nosep by apply H.
Qed.

Lemma itoa_byte_inj a b : itoa (byte_val a) = itoa (byte_val b) -> a = b.
Proof.
  intros H. apply byte_val_inj, itoa_inj; [| | done];
    unfold in_int64, int64_min, int64_max;
    pose proof (byte_val_range a); pose proof (byte_val_range b); lia.
Qed.

Lemma slen4_inv s : slen s = 4%nat -> exists a b c d, s = String a (String b (String c (String d ""))).
Proof. destruct s as [| a [| b [| c [| d [|]]]]]; try discriminate. eauto 8. Qed.

Lemma string4_inj s t : slen s = 4%nat -> slen t = 4%nat -> string4 s = string4 t -> s = t.
Proof.
  intros (a & b & c & d & ->)%slen4_inv (a' & b' & c' & d' & ->)%slen4_inv H.
  apply (f_equal (split_on ".")) in H. rewrite !split_string4 in H. injection H as H1 H2 H3 H4.
  apply itoa_byte_inj in H1, H2, H3, H4. by subst.
Qed.

Lemma string4_no_colon s : slen s = 4%nat -> contains_char ":" (string4 s) = false.
Proof.
  intros (a & b & c & d & ->)%slen4_inv. unfold string4.
  cbn [byte_list fmap list_fmap join String.append].
  assert (H : forall x, contains_char ":" (itoa (byte_val x)) = false).
  { intros x. eapply contains_char_all; [apply itoa_byte_digits | done]. }
  rewrite !contains_char_app. cbn [contains_char]. rewrite !contains_char_app. cbn [contains_char].
  rewrite !contains_char_app. cbn [contains_char]. rewrite !H. done.
Qed.

(** The hexadecimal text of a group determines it. *)

Lemma hexd_val n : 0 <= n < 16 -> hex_val (hexd n) = Some n.
Proof.
  intros H. unfold hexd. destruct (n <? 10) eqn:E; breflect; unfold hex_val;
    rewrite byte_val_of, Z.mod_small by lia.
  - replace ((48 <=? 48 + n) && (48 + n <=? 57)) with true
      by (symmetry; apply andb_true_iff; lia). f_equal. lia.
  - replace ((48 <=? 87 + n) && (87 + n <=? 57)) with false
      by (symmetry; apply andb_false_iff; lia).
    replace ((97 <=? 87 + n) && (87 + n <=? 102)) with true
      by (symmetry; apply andb_true_iff; lia). f_equal. lia.
Qed.

Fixpoint hex_value (acc : Z) (s : string) : option Z :=
  match s with
  | EmptyString => Some acc
  | String c r => v ← hex_val c; hex_value (acc * 16 + v) r
  end.

Lemma hex_value_hex16 n : 0 <= n < 65536 -> hex_value 0 (hex16 n) = Some n.
Proof.
  intros H. unfold hex16.
  destruct (0x1000 <=? n) eqn:E1, (0x100 <=? n) eqn:E2, (0x10 <=? n) eqn:E3; breflect; try lia;
    cbn [String.append hex_value];
    rewrite ?hexd_val by (Z.to_euclidean_division_equations; lia);
    cbn [mbind option_bind];
    rewrite ?hexd_val by (Z.to_euclidean_division_equations; lia);
    cbn [mbind option_bind];
    rewrite ?hexd_val by (Z.to_euclidean_division_equations; lia);
    cbn [mbind option_bind];
    rewrite ?hexd_val by (Z.to_euclidean_division_equations; lia);
    cbn [mbind option_bind hex_value]; f_equal;
    Z.to_euclidean_division_equations; lia.
Qed.

Lemma hex16_inj m n : 0 <= m < 65536 -> 0 <= n < 65536 -> hex16 m = hex16 n -> m = n.
Proof.
  intros Hm Hn H. apply (f_equal (hex_value 0)) in H.
  rewrite !hex_value_hex16 in H by done. by injection H.
Qed.

Lemma hex16_no_colon n : 0 <= n < 65536 -> contains_char ":" (hex16 n) = false.
Proof.
  intros H. assert (G : forall s acc v, hex_value acc s = Some v -> contains_char ":" s = false).
  { induction s as [| c s IH]; intros acc v; cbn [hex_value contains_char]; [done |].
    destruct (hex_val c) as [w |] eqn:E; [| done]. cbn [mbind option_bind]. intros Hv.
    rewrite (IH _ _ Hv), orb_false_r. apply Ascii.eqb_neq. intros <-. discriminate. }
  eapply G, hex_value_hex16, H.
Qed.

Lemma hex16_nonempty n : hex16 n <> "".
Proof. unfold hex16. repeat case_match; done. Qed.

(** ** What a key stands for *)

(** The abstract account of a source: an IPv4 address or an IPv6 /64. *)
Inductive account : Type :=
| Acct4 (addr : string)
| Acct6 (net64 : string).

Definition account_of (ip : IP) : option account :=
  match To4 ip with
  | Some b => Some (Acct4 b)
  | None => if (slen ip =? 16)%nat then Some (Acct6 (take_s 8 ip)) else None
  end.

Definition valid_ip (ip : IP) : Prop := slen ip = 4%nat \/ slen ip = 16%nat.

Definition account_text (a : account) : string :=
  match a with
  | Acct4 b => string4 b
  | Acct6 n => string6 (n ⊕ zeros 8) ⊕ "/64"
  end.

Lemma slen8_inv s : slen s = 8%nat ->
  exists a b c d e f g h,
    s = String a (String b (String c (String d (String e (String f (String g (String h ""))))))).
Proof. destruct s as [| a [| b [| c [| d [| e [| f [| g [| h [|]]]]]]]]]; try discriminate. eauto 12. Qed.

Lemma masked_not_mapped n : slen n = 8%nat -> has_prefix v4_in_6 (n ⊕ zeros 8) = false.
Proof.
  intros (a & b & c & d & e & f & g & h & ->)%slen8_inv.
  destruct (has_prefix _ _) eqn:E; [| done]. apply has_prefix_spec in E as [t E].
  cbn in E. injection E. done.
Qed.

Lemma FromIP_text ip a : account_of ip = Some a -> FromIP ip = account_text a.
Proof.
  unfold account_of, FromIP, To4, AddrFromSlice.
  destruct (slen ip =? 4)%nat eqn:E4; [by intros [= <-] |].
  destruct (slen ip =? 16)%nat eqn:E16; [| done]. breflect. cbn [andb].
  unfold FromNetipAddr, Unmap. destruct (has_prefix v4_in_6 ip) eqn:Em; intros [= <-]; [done |].
  unfold prefix64_String, Addr_String, account_text.
  by rewrite masked_not_mapped by (rewrite slen_take; lia).
Qed.

(** The text of a /64: the leading groups up to the last non-zero one. *)
Lemma masked_split a b c d :
  0 <= a < 65536 -> 0 <= b < 65536 -> 0 <= c < 65536 -> 0 <= d < 65536 ->
  split_on ":" (string6_of [a; b; c; d; 0; 0; 0; 0] ⊕ "/64") =
  (if negb (d =? 0) then [hex16 a; hex16 b; hex16 c; hex16 d]
   else if negb (c =? 0) then [hex16 a; hex16 b; hex16 c]
   else if negb (b =? 0) then [hex16 a; hex16 b]
   else if negb (a =? 0) then [hex16 a] else [""]) ++ [""; "/64"].
Proof.
  intros Ha Hb Hc Hd.
  pose proof (hex16_no_colon a Ha). pose proof (hex16_no_colon b Hb).
  pose proof (hex16_no_colon c Hc). pose proof (hex16_no_colon d Hd).
  unfold string6_of. cbn [best_run zero_run].
  destruct (a =? 0), (b =? 0), (c =? 0), (d =? 0);
    cbn -[hex16 split_on];
    repeat (cbn [String.append]; first [rewrite split_on_app by done | rewrite app_assoc_s]);
    reflexivity.
Qed.

Lemma group_range x y : 0 <= byte_val x * 256 + byte_val y < 65536.
Proof. pose proof (byte_val_range x). pose proof (byte_val_range y). lia. Qed.

Lemma group_inj x y x' y' :
  byte_val x * 256 + byte_val y = byte_val x' * 256 + byte_val y' -> x = x' /\ y = y'.
Proof.
  intros H. pose proof (byte_val_range x). pose proof (byte_val_range y).
  pose proof (byte_val_range x'). pose proof (byte_val_range y').
  split; apply byte_val_inj; lia.
Qed.

(** The groups named by the text before the double colon, zero-filled. *)
Fixpoint groups_of (n : nat) (l : list string) : list (option Z) :=
  match n, l with
  | S n', x :: l' =>
      if String.eqb x "" then Some 0 :: groups_of n' l else hex_value 0 x :: groups_of n' l'
  | _, _ => []
  end.

Lemma hex16_eqb_empty n : String.eqb (hex16 n) "" = false.
Proof. apply String.eqb_neq, hex16_nonempty. Qed.

Lemma masked_groups a b c d :
  0 <= a < 65536 -> 0 <= b < 65536 -> 0 <= c < 65536 -> 0 <= d < 65536 ->
  groups_of 4 (split_on ":" (string6_of [a; b; c; d; 0; 0; 0; 0] ⊕ "/64"))
  = [Some a; Some b; Some c; Some d].
Proof.
  intros Ha Hb Hc Hd. rewrite masked_split by done.
  destruct (d =? 0) eqn:?, (c =? 0) eqn:?, (b =? 0) eqn:?, (a =? 0) eqn:?; breflect;
    cbn [negb app groups_of];
    rewrite ?hex16_eqb_empty, ?hex_value_hex16 by done; cbn [String.eqb]; by subst.
Qed.

Lemma masked_groups_inj a b c d a' b' c' d' :
  0 <= a < 65536 -> 0 <= b < 65536 -> 0 <= c < 65536 -> 0 <= d < 65536 ->
  0 <= a' < 65536 -> 0 <= b' < 65536 -> 0 <= c' < 65536 -> 0 <= d' < 65536 ->
  string6_of [a; b; c; d; 0; 0; 0; 0] ⊕ "/64" = string6_of [a'; b'; c'; d'; 0; 0; 0; 0] ⊕ "/64" ->
  a = a' /\ b = b' /\ c = c' /\ d = d'.
Proof.
  intros Ha Hb Hc Hd Ha' Hb' Hc' Hd' E. apply (f_equal (fun s => groups_of 4 (split_on ":" s))) in E.
  rewrite !masked_groups in E by done. by simplify_eq.
Qed.

(** The key of a source is the text of its account, and two accounts have
    different texts. *)
Lemma account_text_inj a b :
  (match a with Acct4 x => slen x = 4%nat | Acct6 x => slen x = 8%nat end) ->
  (match b with Acct4 x => slen x = 4%nat | Acct6 x => slen x = 8%nat end) ->
  account_text a = account_text b -> a = b.
Proof.
  assert (H46 : forall x y, slen x = 4%nat -> slen y = 8%nat ->
                  account_text (Acct4 x) <> account_text (Acct6 y)).
  { intros x y Hx (a1 & a2 & a3 & a4 & a5 & a6 & a7 & a8 & ->)%slen8_inv E.
    apply (f_equal (split_on ":")) in E. cbn [account_text] in E. unfold string6 in E.
    rewrite split_on_nosep in E by by apply string4_no_colon. cbn [String.append zeros hextets] in E.
    change (byte_val zero * 256 + byte_val zero) with 0 in E.
    rewrite masked_split in E by apply group_range. repeat case_match; discriminate. }
  destruct a as [x|x], b as [y|y]; intros Hx Hy E.
  - f_equal. by apply string4_inj.
  - by apply H46 in E.
  - by symmetry in E; apply H46 in E.
  - f_equal. apply slen8_inv in Hx as (a1 & a2 & a3 & a4 & a5 & a6 & a7 & a8 & ->).
    apply slen8_inv in Hy as (b1 & b2 & b3 & b4 & b5 & b6 & b7 & b8 & ->).
    cbn [account_text] in E. unfold string6 in E. cbn [String.append zeros hextets] in E.
    change (byte_val zero * 256 + byte_val zero) with 0 in E.
    apply masked_groups_inj in E as (E1 & E2 & E3 & E4); try apply group_range.
    apply group_inj in E1 as [-> ->]. apply group_inj in E2 as [-> ->].
    apply group_inj in E3 as [-> ->]. apply group_inj in E4 as [-> ->]. done.
Qed.

Lemma account_of_valid ip :
  valid_ip ip -> exists a, account_of ip = Some a /\
    match a with Acct4 x => slen x = 4%nat | Acct6 x => slen x = 8%nat end.
Proof.
  unfold valid_ip, account_of, To4. intros [H|H]; rewrite H; cbn [Nat.eqb andb]; eauto.
  destruct (has_prefix v4_in_6 ip); eexists; split; try done; cbn iota.
  - by rewrite slen_drop, H.
  - by rewrite slen_take, H.
Qed.

(** Two sources share every per-source budget exactly when they are the
    same account: the same IPv4 address (written plainly or IPv4-mapped), or
    IPv6 addresses of the same /64.  No two accounts ever share a key. *)
Theorem netkey_accounts a b :
  valid_ip a -> valid_ip b -> FromIP a = FromIP b <-> account_of a = account_of b.
Proof.
  intros (x & Hx & Lx)%account_of_valid (y & Hy & Ly)%account_of_valid.
  rewrite Hx, Hy, (FromIP_text a x Hx), (FromIP_text b y Hy). split.
  - intros E. f_equal. by apply account_text_inj.
  - by intros [= ->].
Qed.

Lemma netkey_accounts_witness :
  FromIP (v4_in_6 ⊕ String (byte_of 192) (String (byte_of 0) (String (byte_of 2) (String (byte_of 7) ""))))
  = FromIP (String (byte_of 192) (String (byte_of 0) (String (byte_of 2) (String (byte_of 7) ""))))
  /\ FromIP (String (byte_of 192) (String (byte_of 0) (String (byte_of 2) (String (byte_of 7) ""))))
     = "192.0.2.7".
Proof.
  split; [| vm_compute; reflexivity].
  apply netkey_accounts; [right; vm_compute; reflexivity | left; vm_compute; reflexivity |].
  vm_compute. reflexivity.
Defined.
