(* ===== verification/NetParse.v ===== *)
(** * Reading addresses back ([net/netip] and [net])

    [netip.ParseAddr], [netip.ParseAddrPort] and [net.SplitHostPort], which the
    buddy applies to what a server wrote into a roster, and the round trip: the
    text [net.UDPAddr.String] gives for a source address is read back as that
    address and port. *)

From S2P Require Import Prelude Sha256 Json NetAddr.

(** ** Text helpers *)

(** The text before and after the first, and around the last, occurrence. *)
Fixpoint cut (c : Ascii.ascii) (s : string) : option (string * string) :=
  match s with
  | EmptyString => None
  | String d r =>
      if Ascii.eqb d c then Some ("", r)
      else match cut c r with Some (a, b) => Some (String d a, b) | None => None end
  end.

Fixpoint cut_last (c : Ascii.ascii) (s : string) : option (string * string) :=
  match s with
  | EmptyString => None
  | String d r =>
      match cut_last c r with
      | Some (a, b) => Some (String d a, b)
      | None => if Ascii.eqb d c then Some ("", r) else None
      end
  end.

(** [strconv.ParseUint(s, 10, 16)]: digits only, leading zeros allowed. *)
Definition ParseUint16 (s : string) : option Z :=
  if String.eqb s "" then None
  else v ← digits_val 0 s; if v <=? 65535 then Some v else None.

(** ** IPv4 *)

(** One dotted field: no empty field, no leading zero, at most 255. *)
Definition octet (s : string) : option Z :=
  if String.eqb s "" || (has_prefix "0" s && negb (String.eqb s "0")) then None
  else v ← digits_val 0 s; if v <=? 255 then Some v else None.

Definition parseIPv4Fields (s : string) : option string :=
  match split_on "." s with
  | [a; b; c; d] =>
      w ← octet a; x ← octet b; y ← octet c; z ← octet d;
      Some (String (byte_of w) (String (byte_of x) (String (byte_of y) (String (byte_of z) ""))))
  | _ => None
  end.

(** ** IPv6 *)

(** The leading hexadecimal digits, their value, and what follows. *)
Fixpoint span_hex (acc : Z) (s : string) : nat * Z * string :=
  match s with
  | EmptyString => (0%nat, acc, "")
  | String c r =>
      match hex_val c with
      | Some v => let '(n, w, rest) := span_hex (acc * 16 + v) r in (S n, w, rest)
      | None => (0%nat, acc, s)
      end
  end.

(** The group loop of [parseIPv6]: the groups read so far and where a [::]
    stood.  Each turn reads at least one group, and there are at most eight. *)
Fixpoint groups_loop (fuel : nat) (s : string) (gs : list Z) (ell : option nat) : option (list Z * option nat * string) :=
  match fuel with
  | O => Some (gs, ell, s)
  | S fuel' =>
      let '(n, v, rest) := span_hex 0 s in
      if (n =? 0)%nat || (4 <? n)%nat then None
      else match rest with
           | EmptyString => Some (gs ++ [v], ell, "")
           | String c r =>
               if Ascii.eqb c "." then
                 if (negb (bool_decide (is_Some ell)) && negb (length gs =? 6)%nat) || (8 <? length gs + 2)%nat then None
                 else b ← parseIPv4Fields s; Some (gs ++ hextets b, ell, "")
               else if negb (Ascii.eqb c ":") then None
               else match r with
                    | EmptyString => None
                    | String c' r' =>
                        if Ascii.eqb c' ":" then
                          match ell with
                          | Some _ => None
                          | None =>
                              let ell' := Some (S (length gs)) in
                              match r' with
                              | EmptyString => Some (gs ++ [v], ell', "")
                              | _ => groups_loop fuel' r' (gs ++ [v]) ell'
                              end
                          end
                        else groups_loop fuel' r (gs ++ [v]) ell
                    end
           end
  end.

Fixpoint pack_groups (l : list Z) : string :=
  match l with [] => "" | g :: r => String (byte_of (g / 256)) (String (byte_of g) (pack_groups r)) end.

(** The address and its zone. *)
Definition parseIPv6 (text : string) : option (Addr * string) :=
  let '(s, zone, zone_ok) :=
    match cut "%" text with Some (a, z) => (a, z, negb (String.eqb z "")) | None => (text, "", true) end in
  if negb zone_ok then None
  else
    let '(s1, ell0) := if has_prefix "::" s then (drop_s 2 s, Some 0%nat) else (s, None) in
    if bool_decide (is_Some ell0) && String.eqb s1 "" then Some (Addr6 (zeros 16), zone)
    else
      match groups_loop 8 s1 [] ell0 with
      | Some (gs, ell, "") =>
          if (length gs <? 8)%nat then
            e ← ell;
            Some (Addr6 (pack_groups (take e gs ++ replicate (8 - length gs) 0 ++ drop e gs)), zone)
          else if bool_decide (is_Some ell) then None else Some (Addr6 (pack_groups gs), zone)
      | _ => None
      end.

(** [netip.ParseAddr]: the first of dot, colon and percent decides. *)
Fixpoint addr_kind (s : string) : option bool :=
  match s with
  | EmptyString => None
  | String c r =>
      if Ascii.eqb c "." then Some false
      else if Ascii.eqb c ":" then Some true
      else if Ascii.eqb c "%" then None
      else addr_kind r
  end.

Definition ParseAddr (s : string) : option (Addr * string) :=
  match addr_kind s with
  | None => None
  | Some false => b ← parseIPv4Fields s; Some (Addr4 b, "")
  | Some true => parseIPv6 s
  end.

(** ** With a port *)

(** [[text]] stripped of its brackets. *)
Definition unbracket (s : string) : option (string * bool) :=
  match s with
  | EmptyString => None
  | String c r =>
      if Ascii.eqb c "[" then
        match cut_last "]" r with Some (a, "") => Some (a, true) | _ => None end
      else Some (s, false)
  end.

Definition ParseAddrPort (s : string) : option (Addr * string * Z) :=
  '(ip, port) ← cut_last ":" s;
  '(host, v6) ← unbracket ip;
  p ← ParseUint16 port;
  '(a, zone) ← ParseAddr host;
  if Bool.eqb v6 (Is6 a) then Some (a, zone, p) else None.

Definition IsUnspecified (a : Addr) (zone : string) : bool :=
  match a with
  | Addr4 b => String.eqb b (zeros 4)
  | Addr6 b => String.eqb b (zeros 16) && String.eqb zone ""
  end.

Definition IsMulticast (a : Addr) : bool :=
  match a with
  | Addr4 b => match b with String c _ => Z.land (byte_val c) 0xf0 =? 0xe0 | _ => false end
  | Addr6 b => match b with String c _ => byte_val c =? 0xff | _ => false end
  end.

(** [net.SplitHostPort] *)
Definition SplitHostPort (s : string) : option (string * string) :=
  '(before, port) ← cut_last ":" s;
  match s with
  | String "["%char r =>
      '(host, after) ← cut "]" r;
      match after with
      | String ":"%char p =>
          (* the bracket must close right before the last colon *)
          if negb (String.eqb p port) || contains_char "[" r || contains_char "]" after then None else Some (host, port)
      | _ => None
      end
  | _ => if contains_char ":" before || contains_char "[" s || contains_char "]" s then None else Some (before, port)
  end.

(** ** Round trips *)

Lemma cut_last_none c s : contains_char c s = false -> cut_last c s = None.
Proof.
  induction s as [| d s IH]; simpl; [done |]. intros H. breflect. rewrite IH by done.
  by rewrite Ascii.eqb_sym, H.
Qed.

Lemma cut_last_app c s t : contains_char c t = false -> cut_last c (s ⊕ String c t) = Some (s, t).
Proof.
  intros Ht. induction s as [| d s IH]; simpl.
  - by rewrite cut_last_none, Ascii.eqb_refl.
  - by rewrite IH.
Qed.

Lemma cut_none c s : contains_char c s = false -> cut c s = None.
Proof.
  induction s as [| d s IH]; simpl; [done |]. intros H. breflect. rewrite IH by done.
  by rewrite Ascii.eqb_sym, H.
Qed.

Lemma digits_val_itoa n : 0 <= n < 10 ^ 20 -> digits_val 0 (itoa n) = Some n.
Proof. intros H. destruct (dec_val _ _ (itoa_nonneg n H)) as (k & _ & ->). done. Qed.

Lemma itoa_nonempty n : 0 <= n < 10 ^ 20 -> String.eqb (itoa n) "" = false.
Proof. intros H. by destruct (dec_head _ _ (itoa_nonneg n H)) as (c & d & -> & _). Qed.

Lemma octet_itoa c : octet (itoa (byte_val c)) = Some (byte_val c).
Proof.
  pose proof (byte_val_range c) as Hc. unfold octet. rewrite digits_val_itoa, itoa_nonempty by lia.
  assert (H : (has_prefix "0" (itoa (byte_val c)) && negb (String.eqb (itoa (byte_val c)) "0")) = false).
  { destruct (itoa_nonneg (byte_val c)) as [_ (d & r & -> & Hz) _]; [lia |]. cbn [has_prefix].
    destruct (Ascii.eqb "0" d) eqn:E; [| done]. apply Ascii.eqb_eq in E as <-. by rewrite Hz. }
  rewrite H. cbn [orb mbind option_bind]. by destruct (Z.leb_spec (byte_val c) 255); [| lia].
Qed.

Lemma parse_string4 b : slen b = 4%nat -> parseIPv4Fields (string4 b) = Some b.
Proof.
  intros (x & y & z & w & ->)%slen4_inv. unfold parseIPv4Fields. rewrite split_string4, !octet_itoa.
  cbn [mbind option_bind]. by rewrite !byte_of_val.
Qed.

Lemma addr_kind_v4 s t : all_chars is_digit s = true -> addr_kind (s ⊕ String "." t) = Some false.
Proof.
  induction s as [| c s IH]; [done |]. cbn [all_chars String.append addr_kind]. intros H. breflect.
  destruct (Ascii.eqb c ".") eqn:E1; [done |].
  destruct (Ascii.eqb c ":") eqn:E2; [by apply Ascii.eqb_eq in E2 as -> |].
  destruct (Ascii.eqb c "%") eqn:E3; [by apply Ascii.eqb_eq in E3 as -> |]. by apply IH.
Qed.

Lemma ParseAddr_string4 b : slen b = 4%nat -> ParseAddr (string4 b) = Some (Addr4 b, "").
Proof.
  intros H. unfold ParseAddr. pose proof (parse_string4 b H) as P.
  destruct (slen4_inv _ H) as (x & y & z & w & ->).
  assert (K : addr_kind (string4 (String x (String y (String z (String w ""))))) = Some false).
  { unfold string4. cbn [byte_list fmap list_fmap join]. apply addr_kind_v4, itoa_byte_digits. }
  by rewrite K, P.
Qed.

(** ** IPv6 text *)

Definition group (n : Z) : Prop := 0 <= n < 65536.

Lemma span_hex_value s t acc v :
  hex_value acc s = Some v -> match t with EmptyString => True | String c _ => hex_val c = None end ->
  span_hex acc (s ⊕ t) = (slen s, v, t).
Proof.
  revert acc. induction s as [| c s IH]; intros acc Hv Ht; cbn [String.append hex_value] in *.
  - injection Hv as ->. destruct t as [| c t]; [done |]. cbn [span_hex]. by rewrite Ht.
  - cbn [span_hex]. destruct (hex_val c) as [w |]; [| done]. cbn [mbind option_bind] in Hv. by rewrite (IH _ Hv Ht).
Qed.

Lemma hex16_len n : (1 <= slen (hex16 n) <= 4)%nat.
Proof. unfold hex16. repeat case_match; cbn [String.append String.length]; lia. Qed.

Lemma span_hex16 n t :
  group n -> match t with EmptyString => True | String c _ => hex_val c = None end ->
  span_hex 0 (hex16 n ⊕ t) = (slen (hex16 n), n, t).
Proof. intros Hn. by apply span_hex_value, hex_value_hex16. Qed.

(** A group starts with a hexadecimal digit. *)
Lemma hex16_head n : group n -> exists c r, hex16 n = String c r /\ is_Some (hex_val c).
Proof.
  intros Hn. pose proof (hex_value_hex16 n Hn) as H. destruct (hex16 n) as [| c r] eqn:E; [by apply hex16_nonempty in E |].
  exists c, r. split; [done |]. cbn [hex_value] in H. destruct (hex_val c); [eauto | done].
Qed.

Abbreviation text gs := (join ":" (hex16 <$> gs)).

Lemma text_cons g h gs : text (g :: h :: gs) = hex16 g ⊕ ":" ⊕ text (h :: gs).
Proof. done. Qed.

Lemma text_head g gs t : group g -> exists c r, text (g :: gs) ⊕ t = String c r /\ Ascii.eqb c ":" = false /\ has_prefix "::" (String c r) = false.
Proof.
  intros Hg. destruct (hex16_head g Hg) as (c & r & E & [v Hv]).
  assert (Hc : Ascii.eqb c ":" = false) by (apply Ascii.eqb_neq; by intros ->).
  assert (Hp : forall x, has_prefix "::" (String c x) = false) by (intros x; cbn [has_prefix]; by rewrite Ascii.eqb_sym, Hc).
  destruct gs as [| h gs]; [exists c, (r ⊕ t) | exists c, (r ⊕ (":" ⊕ text (h :: gs)) ⊕ t)];
    rewrite ?text_cons; cbn [fmap list_fmap join]; rewrite E; cbn [String.append]; rewrite ?app_assoc_s; auto.
Qed.

(** One turn of the loop on a group followed by [:] and another group. *)
Lemma groups_loop_turn fuel g c r gs ell :
  group g -> Ascii.eqb c ":" = false ->
  groups_loop (S fuel) (hex16 g ⊕ ":" ⊕ String c r) gs ell = groups_loop fuel (String c r) (gs ++ [g]) ell.
Proof.
  intros Hg Hc. cbn [groups_loop]. change (":" ⊕ String c r) with (String ":" (String c r)).
  rewrite span_hex16 by done. pose proof (hex16_len g).
  destruct (Nat.eqb_spec (slen (hex16 g)) 0); [lia |]. destruct (Nat.ltb_spec 4 (slen (hex16 g))); [lia |].
  cbn [orb Ascii.eqb]. change (Ascii.eqb ":" ".") with false. change (Ascii.eqb ":" ":") with true. cbv iota. cbn [negb].
  by rewrite Hc.
Qed.

Lemma groups_loop_last fuel g gs ell :
  group g -> groups_loop (S fuel) (hex16 g) gs ell = Some (gs ++ [g], ell, "").
Proof.
  intros Hg. rewrite <- (app_empty_r (hex16 g)). cbn [groups_loop]. rewrite span_hex16 by done. pose proof (hex16_len g).
  destruct (Nat.eqb_spec (slen (hex16 g)) 0); [lia |]. by destruct (Nat.ltb_spec 4 (slen (hex16 g))); [lia |].
Qed.

Lemma groups_loop_text gs fuel acc ell :
  Forall group gs -> gs <> [] -> (length gs <= fuel)%nat ->
  groups_loop fuel (text gs) acc ell = Some (acc ++ gs, ell, "").
Proof.
  revert fuel acc. induction gs as [| g gs IH]; intros fuel acc Hg Hne Hl; [done |].
  apply Forall_cons in Hg as [Hg Hgs]. destruct fuel as [| fuel]; [cbn in Hl; lia |].
  destruct gs as [| h gs]; [by apply groups_loop_last |]. rewrite text_cons.
  assert (Hh : group h) by (by apply Forall_cons in Hgs as [? _]).
  destruct (text_head h gs "" Hh) as (c & r & E & Hc & _). rewrite app_empty_r in E. rewrite E.
  rewrite groups_loop_turn by done. rewrite <- E, IH by (done || (cbn in *; lia)). by rewrite <- app_assoc.
Qed.

(** Up to and past the [::]. *)
Lemma groups_loop_ellipsis gs bs fuel acc :
  Forall group gs -> gs <> [] -> Forall group bs -> (length gs + length bs <= fuel)%nat ->
  groups_loop fuel (text gs ⊕ "::" ⊕ text bs) acc None = Some (acc ++ gs ++ bs, Some (length acc + length gs)%nat, "").
Proof.
  revert fuel acc. induction gs as [| g gs IH]; intros fuel acc Hg Hne Hb Hl; [done |].
  apply Forall_cons in Hg as [Hg Hgs]. destruct fuel as [| fuel]; [cbn in Hl; lia |].
  destruct gs as [| h gs].
  - cbn [fmap list_fmap join]. cbn [groups_loop]. change ("::" ⊕ text bs) with (String ":" (String ":" (text bs))).
    rewrite span_hex16 by done. pose proof (hex16_len g).
    destruct (Nat.eqb_spec (slen (hex16 g)) 0); [lia |]. destruct (Nat.ltb_spec 4 (slen (hex16 g))); [lia |].
    change (Ascii.eqb ":" ".") with false. change (Ascii.eqb ":" ":") with true. cbn [orb negb].
    assert (L : S (length acc) = (length acc + length [g])%nat) by (cbn; lia). rewrite L.
    destruct bs as [| b bs]; [done |].
    assert (Hb1 : group b) by (by apply Forall_cons in Hb as [? _]).
    destruct (text_head b bs "" Hb1) as (c & r & E & _). rewrite app_empty_r in E.
    rewrite E at 1. rewrite groups_loop_text by (done || (cbn in *; lia)). by rewrite <- app_assoc.
  - rewrite text_cons, app_assoc_s, app_assoc_s.
    assert (Hh : group h) by (by apply Forall_cons in Hgs as [? _]).
    destruct (text_head h gs ("::" ⊕ text bs) Hh) as (c & r & E & Hc & _). rewrite E, groups_loop_turn by done.
    rewrite <- E, IH by (done || (cbn in *; lia)). rewrite <- app_assoc. f_equal. f_equal. f_equal. f_equal.
    rewrite length_app. cbn. lia.
Qed.

(** The run [string6] compresses really is a run of zeros. *)
Definition is_run (l : list Z) (r : nat * nat) : Prop :=
  l = take (r.1) l ++ replicate (r.2) 0 ++ drop (r.1 + r.2) l.

Lemma zero_run_spec l : l = replicate (zero_run l) 0 ++ drop (zero_run l) l.
Proof.
  induction l as [| h l IH]; [done |]. cbn [zero_run]. destruct (Z.eqb_spec h 0) as [-> |]; [| done].
  cbn [replicate drop app]. by rewrite <- IH.
Qed.

Lemma best_run_is_run pre l best :
  is_run (pre ++ l) best -> is_run (pre ++ l) (best_run (length pre) l best).
Proof.
  revert pre best. induction l as [| h l IH]; intros pre best Hb; [done |].
  change (best_run (length pre) (h :: l) best)
    with (best_run (S (length pre)) l (if (2 <=? zero_run (h :: l))%nat && (best.2 <? zero_run (h :: l))%nat then (length pre, zero_run (h :: l)) else best)).
  replace (pre ++ h :: l) with ((pre ++ [h]) ++ l) in * by (by rewrite <- app_assoc).
  replace (S (length pre)) with (length (pre ++ [h])) by (rewrite length_app; cbn; lia). apply IH.
  destruct (_ && _); [| done]. unfold is_run. cbn [fst snd]. rewrite <- app_assoc. cbn [app].
  rewrite take_app_length, drop_app_add. by rewrite <- zero_run_spec.
Qed.

Lemma hextets_group b : Forall group (hextets b).
Proof.
  enough (forall n b, (slen b <= n)%nat -> Forall group (hextets b)) by eauto.
  induction n as [| n IH]; intros s Hs; destruct s as [| x [| y r]]; cbn [hextets]; auto; cbn in Hs; [lia |].
  constructor; [| apply IH; lia]. unfold group. pose proof (byte_val_range x). pose proof (byte_val_range y). lia.
Qed.

Lemma pack_hextets k b : slen b = (2 * k)%nat -> pack_groups (hextets b) = b /\ length (hextets b) = k.
Proof.
  revert b. induction k as [| k IH]; intros b Hb.
  - by destruct b.
  - destruct b as [| x [| y r]]; [done | cbn in Hb; lia |]. cbn [hextets]. destruct (IH r) as [Hp Hl]; [cbn in Hb; lia |].
    split; [| cbn; by rewrite Hl]. cbn [pack_groups].
    assert (E1 : byte_of ((byte_val x * 256 + byte_val y) / 256) = x).
    { rewrite Z.add_comm, Z.div_add, Z.div_small by (try lia; apply byte_val_range). apply byte_of_val. }
    assert (E2 : byte_of (byte_val x * 256 + byte_val y) = y).
    { unfold byte_of. rewrite Z.add_comm, Z.mod_add by lia. apply byte_of_val. }
    by rewrite E1, E2, Hp.
Qed.

Definition hex_or_colon (c : Ascii.ascii) : bool := bool_decide (is_Some (hex_val c)) || Ascii.eqb c ":".

Lemma hex_value_chars s : forall acc v, hex_value acc s = Some v -> all_chars hex_or_colon s = true.
Proof.
  induction s as [| c s IH]; intros acc v; cbn [hex_value all_chars]; [done |].
  unfold hex_or_colon at 1. destruct (hex_val c) as [w |]; [| done]. cbn [mbind option_bind]. intros Hv.
  by rewrite (IH _ _ Hv).
Qed.

Lemma text_chars gs : Forall group gs -> all_chars hex_or_colon (text gs) = true.
Proof.
  induction gs as [| g gs IH]; intros Hg; [done |]. apply Forall_cons in Hg as [Hg Hgs].
  pose proof (hex_value_chars _ _ _ (hex_value_hex16 g Hg)) as H1.
  destruct gs as [| h gs]; [done |]. rewrite text_cons, !all_chars_app, H1, IH by done. done.
Qed.

Lemma addr_kind_v6 s : all_chars hex_or_colon s = true -> contains_char ":" s = true -> addr_kind s = Some true.
Proof.
  induction s as [| c s IH]; [done |]. cbn [all_chars contains_char addr_kind]. intros H1 H2. breflect.
  destruct (Ascii.eqb c ".") eqn:E1; [by apply Ascii.eqb_eq in E1 as -> |].
  destruct (Ascii.eqb c ":") eqn:E2; [done |].
  destruct (Ascii.eqb c "%") eqn:E3; [by apply Ascii.eqb_eq in E3 as -> |].
  apply IH; [done |]. rewrite Ascii.eqb_sym, E2 in H2. done.
Qed.

(** [string6_of] either prints every group or compresses one run. *)
Lemma string6_cases l :
  Forall group l ->
  string6_of l = text l \/
  exists a n b, l = a ++ replicate n 0 ++ b /\ (0 < n)%nat /\ string6_of l = text a ⊕ "::" ⊕ text b.
Proof.
  intros Hl. unfold string6_of. destruct (best_run 0 l (0, 0)%nat) as [st len] eqn:E.
  assert (R : is_run l (st, len)).
  { rewrite <- E. apply (best_run_is_run [] l). unfold is_run. by cbn. }
  destruct (Nat.eqb_spec len 0); [by left |]. right. exists (take st l), len, (drop (st + len) l).
  split; [exact R | split; [lia | done]].
Qed.

Lemma string6_chars l : Forall group l -> (2 <= length l)%nat ->
  all_chars hex_or_colon (string6_of l) = true /\ contains_char ":" (string6_of l) = true.
Proof.
  intros Hl H2. destruct (string6_cases l Hl) as [-> | (a & n & b & -> & _ & ->)].
  - split; [by apply text_chars |]. destruct l as [| g [| h gs]]; [cbn in H2; lia.. |].
    rewrite text_cons, contains_char_app. cbn. by rewrite orb_true_r.
  - apply Forall_app in Hl as [Ha [_ Hb]%Forall_app]. rewrite !all_chars_app, !contains_char_app, !text_chars by done.
    split; [done |]. cbn. by rewrite orb_true_r.
Qed.

Lemma parse_string6_of l :
  Forall group l -> length l = 8%nat -> parseIPv6 (string6_of l) = Some (Addr6 (pack_groups l), "").
Proof.
  intros Hl H8. destruct (string6_chars l Hl) as [Hc _]; [lia |]. unfold parseIPv6.
  rewrite cut_none by (eapply contains_char_all; [exact Hc | done]). cbn [negb].
  destruct (string6_cases l Hl) as [-> | (a & n & b & E & Hn & ->)].
  - destruct l as [| g gs]; [done |]. assert (Hg : group g) by (by apply Forall_cons in Hl as [? _]).
    destruct (text_head g gs "" Hg) as (c & r & Et & _ & Hp). rewrite app_empty_r in Et. rewrite Et, Hp, <- Et.
    cbn [andb]. rewrite groups_loop_text by (done || lia). cbn [app]. by rewrite H8.
  - assert (Ln : (length a + n + length b = 8)%nat) by (rewrite E, !length_app, length_replicate in H8; lia).
    subst l. apply Forall_app in Hl as [Ha [_ Hb]%Forall_app].
    assert (G : forall gs : list Z, gs = a ++ b -> (length gs <? 8)%nat = true /\ (8 - length gs)%nat = n /\
              take (length a) gs = a /\ drop (length a) gs = b).
    { intros gs ->. rewrite length_app, take_app_length, drop_app_length. repeat split; [apply Nat.ltb_lt; lia | lia]. }
    destruct a as [| g gs].
    + assert (E0 : forall t, (if has_prefix "::" ("" ⊕ "::" ⊕ t) then (drop_s 2 ("" ⊕ "::" ⊕ t), Some 0%nat)
                            else ("" ⊕ "::" ⊕ t, None)) = (t, Some 0%nat)) by done.
      change (text []) with "". rewrite E0. destruct b as [| h bs].
      * cbn in Ln. assert (n = 8%nat) as -> by lia. done.
      * assert (Hh : group h) by (by apply Forall_cons in Hb as [? _]).
        destruct (text_head h bs "" Hh) as (c & r & Et & _ & _). rewrite app_empty_r in Et.
        assert (Hne : String.eqb (text (h :: bs)) "" = false) by (by rewrite Et). rewrite Hne, andb_false_r.
        rewrite groups_loop_text by (done || (cbn in *; lia)). change ([] ++ h :: bs) with (h :: bs). destruct (G (h :: bs)) as (-> & -> & G1 & G2); [done |].
        cbn [app length] in *. done.
    + assert (Hg : group g) by (by apply Forall_cons in Ha as [? _]).
      destruct (text_head g gs ("::" ⊕ text b) Hg) as (c & r & Et & _ & Hp). rewrite Et, Hp, <- Et. cbn [andb].
      rewrite groups_loop_ellipsis by (done || lia). cbn [app]. change (length [] + length (g :: gs))%nat with (length (g :: gs)).
      change (g :: gs ++ b) with ((g :: gs) ++ b).
      destruct (G ((g :: gs) ++ b)) as (-> & -> & G1 & G2); [done |]. cbn [mbind option_bind]. by rewrite G1, G2.
Qed.

Lemma ParseAddr_string6 b : slen b = 16%nat -> ParseAddr (string6 b) = Some (Addr6 b, "") /\ contains_char ":" (string6 b) = true.
Proof.
  intros Hb. destruct (pack_hextets 8 b Hb) as [Hp Hl]. pose proof (hextets_group b) as Hg. unfold string6.
  destruct (string6_chars (hextets b) Hg) as [Hc Hcol]; [lia |]. split; [| done].
  unfold ParseAddr. rewrite addr_kind_v6 by done. rewrite parse_string6_of by done. by rewrite Hp.
Qed.

Lemma ParseUint16_itoa p : 0 <= p <= 65535 -> ParseUint16 (itoa p) = Some p /\ contains_char ":" (itoa p) = false.
Proof.
  intros Hp. unfold ParseUint16. rewrite itoa_nonempty, digits_val_itoa by lia. cbn [mbind option_bind].
  destruct (Z.leb_spec p 65535); [| lia]. split; [done |].
  eapply contains_char_all; [apply itoa_nonneg; lia | done].
Qed.

(** The address a source prints as: an IPv4-mapped one prints, and reads back,
    as IPv4. *)
Definition addr_of (ip : IP) : Addr := match To4 ip with Some b => Addr4 b | None => Addr6 ip end.

Lemma ParseAddrPort_String a :
  valid_ip (IPof a) -> 0 <= Port a <= 65535 ->
  ParseAddrPort (UDPAddr_String a) = Some (addr_of (IPof a), "", Port a).
Proof.
  intros Hv Hp. destruct (ParseUint16_itoa _ Hp) as [Hu Hc]. unfold UDPAddr_String, JoinHostPort, IP_String, addr_of.
  assert (Hne : String.eqb (IPof a) "" = false) by (by destruct (IPof a); [destruct Hv |]). rewrite Hne.
  assert (H4 : forall b, To4 (IPof a) = Some b -> slen b = 4%nat).
  { unfold To4. intros b. destruct (slen (IPof a) =? 4)%nat eqn:E; [intros [= <-]; by apply Nat.eqb_eq in E |].
    destruct (slen (IPof a) =? 16)%nat eqn:E2; [| done]. cbn [andb]. destruct (has_prefix _ _); [| done]. intros Hs.
    assert (b = drop_s 12 (IPof a)) as -> by congruence.
    apply Nat.eqb_eq in E2. rewrite slen_drop. lia. }
  destruct (To4 (IPof a)) as [b |] eqn:E4.
  - specialize (H4 _ eq_refl). rewrite string4_no_colon by done. unfold ParseAddrPort.
    change (":" ⊕ itoa (Port a)) with (String ":" (itoa (Port a))). rewrite cut_last_app by done. cbn [mbind option_bind].
    assert (Hb : unbracket (string4 b) = Some (string4 b, false)).
    { destruct (slen4_inv _ H4) as (x & y & z & w & ->). unfold string4. cbn [byte_list fmap list_fmap join].
      destruct (itoa_nonneg (byte_val x)) as [Hd (c & d & E & _) _]; [pose proof (byte_val_range x); lia |].
      rewrite E in *. cbn [String.append unbracket all_chars] in *. breflect.
      destruct (Ascii.eqb c "[") eqn:Ec; [by apply Ascii.eqb_eq in Ec as -> |]. done. }
    rewrite Hb. cbn [mbind option_bind]. rewrite Hu. cbn [mbind option_bind]. by rewrite ParseAddr_string4.
  - assert (H16 : slen (IPof a) = 16%nat).
    { destruct Hv as [Hv | Hv]; [| done]. unfold To4 in E4. by rewrite Hv in E4. }
    rewrite H16. cbn [Nat.eqb]. destruct (ParseAddr_string6 _ H16) as [Hpa Hcol]. rewrite Hcol. unfold ParseAddrPort.
    replace ("[" ⊕ string6 (IPof a) ⊕ "]:" ⊕ itoa (Port a)) with (("[" ⊕ string6 (IPof a) ⊕ "]") ⊕ String ":" (itoa (Port a)))
      by (by rewrite !app_assoc_s).
    rewrite cut_last_app by done. cbn [mbind option_bind].
    change ("[" ⊕ string6 (IPof a) ⊕ "]") with (String "[" (string6 (IPof a) ⊕ "]")). cbn [unbracket].
    change (Ascii.eqb "[" "[") with true. cbv iota. change "]" with (String "]" "").
    rewrite cut_last_app by done. cbn [mbind option_bind]. rewrite Hu. cbn [mbind option_bind]. by rewrite Hpa.
Qed.

(** The text of an endpoint, as [UDPAddr.String] writes it into a candidate,
    is read back by [netip.ParseAddrPort] as the same address and port, for
    every IPv4 and IPv6 address, the compressed forms included. *)
Theorem addrport_roundtrip a :
  valid_ip (IPof a) -> 0 <= Port a <= 65535 ->
  ParseAddrPort (UDPAddr_String a) = Some (addr_of (IPof a), "", Port a).
Proof. apply ParseAddrPort_String. Qed.

Lemma addrport_roundtrip_witness :
  let a := mkUDPAddr (String.string_of_list_ascii (byte_of <$> [203; 0; 113; 9])) 51820 in
  UDPAddr_String a = "203.0.113.9:51820" /\ ParseAddrPort "203.0.113.9:51820" = Some (Addr4 (IPof a), "", 51820).
Proof.
  intros a. assert (E : UDPAddr_String a = "203.0.113.9:51820") by (vm_compute; reflexivity).
  split; [exact E |]. rewrite <- E. apply (addrport_roundtrip a).
  - left. reflexivity.
  - cbn. lia.
Defined.
