(* ===== verification/Crypto.v ===== *)
(** * Identities ([internal/crypto])

    Public keys and their text, the virtual IP derived from a key, and the
    sealed codes that carry the pairing token and the enrollment code to the
    server.  The signature scheme and the NaCl box are interfaces: the
    operations the code calls, and the documented behaviour it relies on. *)

From S2P Require Import Prelude Base64 Sha256 NetAddr.

Definition PublicKeySize : nat := 32.
Definition SignatureSize : nat := 64.

(** ** Ed25519 as the program uses it ([crypto/ed25519]) *)

Class Ed25519 := {
  pub_of : string -> string;                      (* priv.Public() *)
  ed_sign : string -> string -> string;           (* Sign(priv, msg) *)
  ed_verify : string -> string -> string -> bool; (* Verify(pub, msg, sig) *)
}.

(** Keys and signatures have their documented sizes and a signature verifies
    under the key that made it. *)
Class Ed25519Laws `{Ed25519} : Prop := {
  pub_size priv : slen (pub_of priv) = PublicKeySize;
  sig_size priv m : slen (ed_sign priv m) = SignatureSize;
  sig_verifies priv m : ed_verify (pub_of priv) m (ed_sign priv m) = true;
}.

(** ** The NaCl box ([golang.org/x/crypto/nacl/box]), with the key conversions
    of [x25519.go] folded in: the recipient is named by its Ed25519 key. *)

Definition BoxOverhead : nat := 16.

Class Box := {
  (* box.Seal(msg, nonce, X25519FromEd25519Public(recipient), sender private) *)
  box_seal : string -> string -> string -> string -> string;
  (* box.Open(ct, nonce, sender public, X25519FromEd25519Private(recipient)) *)
  box_open : string -> string -> string -> string -> option string;
  (* the public half of an ephemeral sender key *)
  box_pub : string -> string;
}.

Class BoxLaws `{Ed25519} `{Box} : Prop := {
  box_pub_size e : slen (box_pub e) = 32%nat;
  box_seal_size m n r e : slen (box_seal m n r e) = (slen m + BoxOverhead)%nat;
  box_opens m n priv e : box_open (box_seal m n (pub_of priv) e) n (box_pub e) priv = Some m;
}.

Section Crypto.
Context `{Ed25519} `{Box}.

(** *** Virtual IPs *)

(** The two reserved host values are folded onto their neighbours. *)
Definition fold_host (hi lo : Z) : Z * Z :=
  if (hi =? 0) && (lo =? 0) then (hi, 1)
  else if (hi =? 255) && (lo =? 255) then (hi, 254)
  else (hi, lo).

Definition VirtualIP (pub : string) : Addr :=
  let sum := byte_list (sha256 pub) in
  let '(hi, lo) := fold_host (nth 0 sum 0) (nth 1 sum 0) in
  Addr4 (String (byte_of 10) (String (byte_of 66) (String (byte_of hi) (String (byte_of lo) "")))).

Definition VirtualIPString (pub : string) : string := Addr_String (VirtualIP pub).

(** *** Key text *)

Definition PubKeyB64 (pub : string) : string := Std.EncodeToString pub.

Inductive DecodeErr := NotBase64 | BadKeySize (n : nat).

Definition DecodePubKey (b64 : string) : result DecodeErr string :=
  match Std.DecodeString b64 with
  | None => Err NotBase64
  | Some raw => if (slen raw =? PublicKeySize)%nat then Ok raw else Err (BadKeySize (slen raw))
  end.

(** *** Sealed codes *)

(** [SealCode] with the ephemeral key and nonce it draws as arguments. *)
Definition SealCode (eph nonce : string) (code serverEdPub : string) : string :=
  Std.EncodeToString (box_pub eph ⊕ nonce ⊕ box_seal code nonce serverEdPub eph).

Inductive OpenErr := MalformedCode | DoesNotDecrypt.

Definition OpenCode (enc serverEdPriv : string) : result OpenErr string :=
  match Std.DecodeString enc with
  | None => Err MalformedCode
  | Some raw =>
      if (slen raw <? 32 + 24 + BoxOverhead)%nat then Err MalformedCode
      else
        let epub := take_s 32 raw in
        let nonce := take_s 24 (drop_s 32 raw) in
        match box_open (drop_s 56 raw) nonce epub serverEdPriv with
        | Some msg => Ok msg
        | None => Err DoesNotDecrypt
        end
  end.
End Crypto.

(** ** Lemmas *)

Lemma DecodePubKey_B64 pub : slen pub = PublicKeySize -> DecodePubKey (PubKeyB64 pub) = Ok pub.
Proof.
  intros H. unfold DecodePubKey, PubKeyB64. rewrite Std_decode_encode, H. done.
Qed.

Lemma OpenCode_SealCode `{BoxLaws} eph nonce code priv :
  slen nonce = 24%nat -> OpenCode (SealCode eph nonce code (pub_of priv)) priv = Ok code.
Proof.
  intros Hn. unfold OpenCode, SealCode. rewrite Std_decode_encode.
  pose proof (box_pub_size eph) as Hp.
  rewrite !slen_app, Hp, Hn, box_seal_size.
  destruct (_ <? _)%nat eqn:E; [apply Nat.ltb_lt in E; lia |].
  change 56%nat with (32 + 24)%nat. rewrite drop_s_add.
  rewrite (take_s_len 32), !(drop_s_len 32), (take_s_len 24), (drop_s_len 24) by done.
  by rewrite box_opens.
Qed.

(** A code sealed to a server's public key opens under its private key to
    the same code, whatever the code, the ephemeral key and the nonce. *)
Theorem sealed_code_opens `{BoxLaws} eph nonce code priv :
  slen nonce = 24%nat -> OpenCode (SealCode eph nonce code (pub_of priv)) priv = Ok code.
Proof. apply OpenCode_SealCode. Qed.

(** The overlay range without its network and broadcast addresses. *)
Lemma fold_host_range hi lo :
  0 <= hi < 256 -> 0 <= lo < 256 ->
  let '(h, l) := fold_host hi lo in
  0 <= h < 256 /\ 0 <= l < 256 /\ ~ (h = 0 /\ l = 0) /\ ~ (h = 255 /\ l = 255).
Proof.
  intros. unfold fold_host. repeat case_match; simplify_eq; breflect;
    repeat match goal with H : _ && _ = false |- _ => apply andb_false_iff in H end; lia.
Qed.

Lemma byte_list_nth_range s i : 0 <= nth i (byte_list s) 0 < 256.
Proof.
  revert i. induction s as [| c s IH]; intros [| i]; simpl; try lia.
  - apply byte_val_range.
  - apply IH.
Qed.

(** Every identity key has a virtual address inside 10.66.0.0/16 that is
    neither the network address 10.66.0.0 nor the broadcast 10.66.255.255. *)
Theorem virtual_ip_range pub :
  exists h l, VirtualIP pub = Addr4 (String (byte_of 10) (String (byte_of 66)
                                (String (byte_of h) (String (byte_of l) "")))) /\
    VirtualIPString pub = "10.66." ⊕ itoa h ⊕ "." ⊕ itoa l /\
    0 <= h < 256 /\ 0 <= l < 256 /\ ~ (h = 0 /\ l = 0) /\ ~ (h = 255 /\ l = 255).
Proof.
  pose proof (fold_host_range (nth 0 (byte_list (sha256 pub)) 0) (nth 1 (byte_list (sha256 pub)) 0)
                (byte_list_nth_range _ _) (byte_list_nth_range _ _)) as R.
  unfold VirtualIPString, VirtualIP.
  destruct (fold_host _ _) as [h l]. exists h, l. destruct R as (? & ? & ?).
  split_and!; try done; try lia.
  cbn [Addr_String string4 byte_list fmap list_fmap join].
  rewrite !byte_val_of, !(Z.mod_small h), !(Z.mod_small l) by lia. done.
Qed.

(** ** A concrete scheme satisfying the laws

    Not secure (anyone can sign), but an executable instance, so that
    statements with these interfaces can be evaluated. *)

Module Toy.
(** A key padded or cut to 32 bytes. *)
Definition pad32 (s : string) : string := take_s 32 (s ⊕ zeros 32).

(** A checksum of the message, and a "signature" of key and checksum. *)
Fixpoint checksum (h : Z) (s : string) : Z :=
  match s with EmptyString => h | String c r => checksum ((h * 31 + byte_val c) mod 2 ^ 61) r end.

Definition toy_sign (pub m : string) : string := pad32 pub ⊕ be_bytes 32 (checksum 7 m).

Lemma pad32_len s : slen (pad32 s) = 32%nat.
Proof. unfold pad32. rewrite slen_take, slen_app. change (slen (zeros 32)) with 32%nat. lia. Qed.

#[local] Instance toy_ed : Ed25519 := {
  pub_of priv := pad32 priv;
  ed_sign priv m := toy_sign (pad32 priv) m;
  ed_verify pub m sig := String.eqb (toy_sign pub m) sig;
}.

#[local] Instance toy_ed_laws : Ed25519Laws.
Proof.
  split; intros; simpl.
  - apply pad32_len.
  - unfold toy_sign. by rewrite slen_app, pad32_len, slen_be_bytes.
  - apply String.eqb_refl.
Qed.

(** The "box" prefixes the plaintext with a 16-byte tag naming the recipient. *)
Definition toy_tag (pub : string) : string := take_s 16 (pad32 pub).

#[local] Instance toy_box : Box := {
  box_seal m n r e := toy_tag r ⊕ m;
  box_open ct n e priv :=
    if has_prefix (toy_tag (pad32 priv)) ct then Some (drop_s 16 ct) else None;
  box_pub e := pad32 e;
}.

Lemma toy_tag_len r : slen (toy_tag r) = 16%nat.
Proof. unfold toy_tag. by rewrite slen_take, pad32_len. Qed.

#[local] Instance toy_box_laws : BoxLaws.
Proof.
  split; intros; cbn [box_pub box_seal box_open toy_box pub_of toy_ed].
  - apply pad32_len.
  - rewrite slen_app, toy_tag_len. unfold BoxOverhead. lia.
  - rewrite has_prefix_app. apply (f_equal Some), drop_s_len, toy_tag_len.
Qed.
End Toy.

Lemma sealed_code_opens_witness :
  @OpenCode Toy.toy_box
    (@SealCode Toy.toy_box "eph" "nonce-of-24-bytes-exact!" "invite-token" (Toy.pad32 "server")) "server"
  = Ok "invite-token".
Proof.
  apply (@sealed_code_opens Toy.toy_ed Toy.toy_box Toy.toy_box_laws). vm_compute. reflexivity.
Defined.
