(* ===== verification/Protocol.v ===== *)
(** * The control-plane protocol ([pkg/protocol])

    Messages, the canonical bytes that are signed, nonces and names. *)

From S2P Require Import Prelude Base64 Json Sha256 NetAddr Crypto.

Definition Version : Z := 8.
Definition MaxFieldLen : nat := 128.
Definition MaxNameLen : nat := 63.
Definition NonceLen : nat := 16.
Definition nonceB64Len : nat := (NonceLen * 8 + 5) / 6.

Definition TypeRegister : string := "REGISTER".
Definition TypePeerList : string := "PEER_LIST".
Definition TypeRelayOffer : string := "RELAY_OFFER".

Record Candidate := mkCandidate { c_Addr : string; c_V6 : bool }.

Record Peer := mkPeer {
  p_ID : string;
  p_PubKey : string;
  p_VirtualIP : string;
  p_Name : string;
  p_Candidates : list Candidate;
  p_Relay : string;
  p_LastSeen : Z;
}.

Record RelayTicket := mkRelayTicket { rt_Payload : string; rt_Sig : string }.

Record Message := mkMessage {
  m_Type : string;
  m_Ver : Z;
  m_Token : string;
  m_TokenEnc : string;
  m_Role : string;
  m_ID : string;
  m_PubKey : string;
  m_VirtualIP : string;
  m_Name : string;
  m_Ts : Z;
  m_Nonce : string;
  m_RegSig : string;
  m_CodeEnc : string;
  m_EphPub : string;
  m_Peers : list Peer;
  m_Sig : string;
  m_Ticket : option RelayTicket;
  m_From : string;
  m_To : string;
  m_RelayEndpoint : string;
  m_RelayPubKey : string;
  m_FromPubKey : string;
  m_ToPubKey : string;
  m_SessionToken : string;
}.

Definition zero_message : Message :=
  mkMessage "" 0 "" "" "" "" "" "" "" 0 "" "" "" "" [] "" None "" "" "" "" "" "" "".

(** [m.Token = tok; m.TokenEnc = ""], [m.VirtualIP = vip], [m.RegSig = sig],
    [m.Peers = ...]: the assignments the handlers make. *)
Definition with_token (m : Message) (tok : string) : Message :=
  mkMessage (m_Type m) (m_Ver m) tok "" (m_Role m) (m_ID m) (m_PubKey m) (m_VirtualIP m)
    (m_Name m) (m_Ts m) (m_Nonce m) (m_RegSig m) (m_CodeEnc m) (m_EphPub m) (m_Peers m) (m_Sig m)
    (m_Ticket m) (m_From m) (m_To m) (m_RelayEndpoint m) (m_RelayPubKey m) (m_FromPubKey m)
    (m_ToPubKey m) (m_SessionToken m).

Definition with_vip (m : Message) (vip : string) : Message :=
  mkMessage (m_Type m) (m_Ver m) (m_Token m) (m_TokenEnc m) (m_Role m) (m_ID m) (m_PubKey m) vip
    (m_Name m) (m_Ts m) (m_Nonce m) (m_RegSig m) (m_CodeEnc m) (m_EphPub m) (m_Peers m) (m_Sig m)
    (m_Ticket m) (m_From m) (m_To m) (m_RelayEndpoint m) (m_RelayPubKey m) (m_FromPubKey m)
    (m_ToPubKey m) (m_SessionToken m).

(** ** JSON forms *)

Definition Candidate_json (c : Candidate) : json :=
  JObj ([("addr", JStr (c_Addr c))] ++ (if c_V6 c then [("v6", JBool true)] else [])).

Definition Peer_json (p : Peer) : json :=
  JObj (present
    [("id", Some (JStr (p_ID p))); ("pubkey", Some (JStr (p_PubKey p)));
     ("virtual_ip", Some (JStr (p_VirtualIP p))); ("name", str_opt (p_Name p));
     ("candidates", match p_Candidates p with
                    | [] => None
                    | cs => Some (JArr (Candidate_json <$> cs))
                    end);
     ("relay", str_opt (p_Relay p)); ("last_seen", int_opt (p_LastSeen p))]).

Definition RelayTicket_json (t : RelayTicket) : json :=
  JObj [("p", JStr (rt_Payload t)); ("s", JStr (rt_Sig t))].

Definition Message_fields (m : Message) : list (string * option json) :=
  [("type", Some (JStr (m_Type m))); ("ver", Some (JNum (itoa (m_Ver m))));
   ("token_enc", str_opt (m_TokenEnc m)); ("role", str_opt (m_Role m)); ("id", str_opt (m_ID m));
   ("pubkey", str_opt (m_PubKey m)); ("virtual_ip", str_opt (m_VirtualIP m));
   ("name", str_opt (m_Name m)); ("ts", int_opt (m_Ts m)); ("nonce", str_opt (m_Nonce m));
   ("reg_sig", str_opt (m_RegSig m)); ("code_enc", str_opt (m_CodeEnc m));
   ("epk", str_opt (m_EphPub m));
   ("peers", match m_Peers m with [] => None | ps => Some (JArr (Peer_json <$> ps)) end);
   ("sig", str_opt (m_Sig m)); ("ticket", RelayTicket_json <$> m_Ticket m);
   ("from", str_opt (m_From m)); ("to", str_opt (m_To m));
   ("relay_endpoint", str_opt (m_RelayEndpoint m)); ("relay_pubkey", str_opt (m_RelayPubKey m));
   ("from_pubkey", str_opt (m_FromPubKey m)); ("to_pubkey", str_opt (m_ToPubKey m));
   ("session_token", str_opt (m_SessionToken m))].

Definition Message_json (m : Message) : json := JObj (present (Message_fields m)).

Definition Message_marshal (m : Message) : string := render (Message_json m).

Definition Candidate_schema : schema := [("addr", KStr); ("v6", KBool)].
Definition Peer_schema : schema :=
  [("id", KStr); ("pubkey", KStr); ("virtual_ip", KStr); ("name", KStr);
   ("candidates", KArr (KStruct Candidate_schema)); ("relay", KStr); ("last_seen", KInt)].
Definition Message_schema : schema :=
  [("type", KStr); ("ver", KInt); ("token_enc", KStr); ("role", KStr); ("id", KStr);
   ("pubkey", KStr); ("virtual_ip", KStr); ("name", KStr); ("ts", KInt); ("nonce", KStr);
   ("reg_sig", KStr); ("code_enc", KStr); ("epk", KStr); ("peers", KArr (KStruct Peer_schema));
   ("sig", KStr); ("ticket", KStruct [("p", KStr); ("s", KStr)]); ("from", KStr); ("to", KStr);
   ("relay_endpoint", KStr); ("relay_pubkey", KStr); ("from_pubkey", KStr); ("to_pubkey", KStr);
   ("session_token", KStr)].

(** [json.Unmarshal(raw, &m)] on a zero [Message], for its scalar fields: the
    roster and the ticket travel the other way and a server never reads them
    (their types are still checked, as the decoder does). *)
Definition Message_unmarshal (raw : string) : option Message :=
  a ← unmarshal Message_schema raw;
  Some (mkMessage (get_str "type" a) (get_int "ver" a) "" (get_str "token_enc" a)
    (get_str "role" a) (get_str "id" a) (get_str "pubkey" a) (get_str "virtual_ip" a)
    (get_str "name" a) (get_int "ts" a) (get_str "nonce" a) (get_str "reg_sig" a)
    (get_str "code_enc" a) (get_str "epk" a) [] (get_str "sig" a) None (get_str "from" a)
    (get_str "to" a) (get_str "relay_endpoint" a) (get_str "relay_pubkey" a)
    (get_str "from_pubkey" a) (get_str "to_pubkey" a) (get_str "session_token" a)).

(** ** Signed payloads *)

Definition PeerListPayload (token : string) (ts : Z) (peers : list Peer) : string :=
  render (JObj [("token", JStr token); ("ts", JNum (itoa ts));
                ("peers", match peers with [] => JNull | _ => JArr (Peer_json <$> peers) end)]).

Definition RegistrationPayload (m : Message) : string :=
  render (JObj [("ver", JNum (itoa (m_Ver m))); ("role", JStr (m_Role m));
                ("token", JStr (m_Token m)); ("id", JStr (m_ID m)); ("pubkey", JStr (m_PubKey m));
                ("virtual_ip", JStr (m_VirtualIP m)); ("name", JStr (m_Name m));
                ("ts", JNum (itoa (m_Ts m))); ("nonce", JStr (m_Nonce m));
                ("code_enc", JStr (m_CodeEnc m)); ("epk", JStr (m_EphPub m))]).

(** ** Nonces *)

(** [NewNonce] on the random bytes it reads. *)
Definition NewNonce (rand : string) : string := RawURL.EncodeToString rand.

Definition ValidNonce (s : string) : bool :=
  (slen s =? nonceB64Len)%nat &&
  match RawURL.DecodeString s with
  | Some raw => (slen raw =? NonceLen)%nat
  | None => false
  end.

(** ** Names *)

Definition label_edge (c : Ascii.ascii) : bool := between 97 122 c || between 48 57 c.
Definition label_char (c : Ascii.ascii) : bool := label_edge c || Ascii.eqb c "-".

(** The automaton of [^[a-z0-9]([a-z0-9-]*[a-z0-9])?$]: after the first
    character, [edge] says whether the last one read could end the label. *)
Fixpoint name_tail (edge : bool) (s : string) : bool :=
  match s with
  | EmptyString => edge
  | String c r => label_char c && name_tail (label_edge c) r
  end.

Definition nameRE (s : string) : bool :=
  match s with
  | EmptyString => false
  | String c r => label_edge c && name_tail true r
  end.

Definition hex_lower (c : Ascii.ascii) : bool := between 48 57 c || between 97 102 c.

(** [^[0-9a-f]{8}$] *)
Definition fpAliasRE (s : string) : bool := (slen s =? 8)%nat && all_chars hex_lower s.

Definition ValidName (s : string) : bool :=
  (1 <=? slen s)%nat && (slen s <=? MaxNameLen)%nat && nameRE s && negb (fpAliasRE s).

(** ** What the registration signature covers *)

(** The values a decoder or the server's own code can put in a message: valid
    UTF-8 and 64-bit integers. *)
Record msg_wf (m : Message) : Prop := {
  wf_ver : in_int64 (m_Ver m);
  wf_ts : in_int64 (m_Ts m);
  wf_fields : Forall (fun s => valid_utf8 s = true)
    [m_Type m; m_Token m; m_TokenEnc m; m_Role m; m_ID m; m_PubKey m; m_VirtualIP m; m_Name m;
     m_Nonce m; m_RegSig m; m_CodeEnc m; m_EphPub m; m_Sig m; m_From m; m_To m;
     m_RelayEndpoint m; m_RelayPubKey m; m_FromPubKey m; m_ToPubKey m; m_SessionToken m];
}.

Ltac split_forall :=
  repeat match goal with
  | H : Forall _ (_ :: _) |- _ => apply Forall_cons in H as [? ?]
  | H : Forall _ [] |- _ => clear H
  end.

(** The fields the server acts on. *)
Definition covered (m : Message) :=
  (m_Ver m, m_Role m, m_Token m, m_ID m, m_PubKey m, m_VirtualIP m, m_Name m, m_Ts m,
   m_Nonce m, m_CodeEnc m, m_EphPub m).

Lemma registration_json_wf m :
  msg_wf m ->
  wf_json (JObj [("ver", JNum (itoa (m_Ver m))); ("role", JStr (m_Role m));
                ("token", JStr (m_Token m)); ("id", JStr (m_ID m)); ("pubkey", JStr (m_PubKey m));
                ("virtual_ip", JStr (m_VirtualIP m)); ("name", JStr (m_Name m));
                ("ts", JNum (itoa (m_Ts m))); ("nonce", JStr (m_Nonce m));
                ("code_enc", JStr (m_CodeEnc m)); ("epk", JStr (m_EphPub m))]).
Proof.
  intros [Hv Ht Hf]. split_forall. constructor.
  repeat (apply Forall_cons; split; [split; [reflexivity | by constructor] |]). constructor.
Qed.

(** The bytes a registration signature covers determine every field the
    server acts on: version, role, token, identity triple, name, timestamp,
    nonce, sealed code and ephemeral key.  No two registrations that differ in
    one of them have the same signed bytes. *)
Theorem registration_payload_injective m m' :
  msg_wf m -> msg_wf m' -> RegistrationPayload m = RegistrationPayload m' ->
  covered m = covered m'.
Proof.
  intros Hm Hm' E. unfold RegistrationPayload in E.
  apply render_inj in E; try by apply registration_json_wf.
  destruct Hm as [Hv Ht _], Hm' as [Hv' Ht' _]. injection E as Ev Er Et Ei Ep Evip En Ets Eno Ec Ee.
  apply itoa_inj in Ev; [| done..]. apply itoa_inj in Ets; [| done..].
  unfold covered. congruence.
Qed.

Definition sample_registration (ts : Z) : Message :=
  mkMessage TypeRegister Version "" "c2VhbGVk" "buddy" "alice" "cHVia2V5" "" "nas" ts "bm9uY2U" "c2ln" ""
    "ZXBo" [] "" None "" "" "" "" "" "" "".

Lemma sample_registration_wf ts : in_int64 ts -> msg_wf (sample_registration ts).
Proof. intros Hts. split; [vm_compute; split; discriminate | exact Hts | by repeat constructor]. Qed.

Lemma registration_payload_injective_witness :
  msg_wf (sample_registration 7) /\
  covered (sample_registration 7) = covered (with_token (sample_registration 7) "").
Proof.
  assert (R : in_int64 7) by (vm_compute; split; discriminate).
  pose proof (sample_registration_wf 7 R) as W. split; [exact W |].
  apply (registration_payload_injective _ _ W); [| reflexivity].
  split; [vm_compute; split; discriminate | exact R | by repeat constructor].
Defined.

(** ** The wire form of a registration is read back unchanged *)

(** A message as a buddy sends it: no roster, no ticket. *)
Definition client_message (m : Message) : Prop := m_Peers m = [] /\ m_Ticket m = None.

(** The message without its cleartext token, which is not serialised. *)
Definition on_wire (m : Message) : Message :=
  mkMessage (m_Type m) (m_Ver m) "" (m_TokenEnc m) (m_Role m) (m_ID m) (m_PubKey m) (m_VirtualIP m)
    (m_Name m) (m_Ts m) (m_Nonce m) (m_RegSig m) (m_CodeEnc m) (m_EphPub m) (m_Peers m) (m_Sig m)
    (m_Ticket m) (m_From m) (m_To m) (m_RelayEndpoint m) (m_RelayPubKey m) (m_FromPubKey m)
    (m_ToPubKey m) (m_SessionToken m).

Lemma message_wire m :
  msg_wf m -> client_message m -> Message_unmarshal (Message_marshal m) = Some (on_wire m).
Proof.
  intros [Hv Ht Hf] [Hp Hk]. split_forall.
  unfold Message_unmarshal, Message_marshal, Message_json.
  rewrite unmarshal_present.
  - cbn [mbind option_bind]. unfold get_str, get_int.
    rewrite !last_assigned_present by (apply (bool_decide_unpack _); vm_compute; exact I).
    unfold Message_fields. cbn [seg_get String.eqb Ascii.eqb Bool.eqb].
    unfold on_wire. rewrite Hp, Hk, !str_opt_get, int_opt_get, parse_int64_itoa by done. done.
  - unfold Message_fields. rewrite Hp, Hk.
    repeat (apply Forall_cons; split;
      [first [exact I | by apply seg_ok_str_opt | by apply seg_ok_int_opt | by apply seg_ok_str
             | by apply seg_ok_int] |]). constructor.
Qed.

(** What a buddy marshals the server reads back, field for field; the
    cleartext pairing token is the one field that does not travel. *)
Theorem message_wire_roundtrip m :
  msg_wf m -> client_message m -> Message_unmarshal (Message_marshal m) = Some (on_wire m).
Proof. apply message_wire. Qed.

Lemma message_wire_roundtrip_witness :
  client_message (sample_registration 7) /\
  Message_unmarshal (Message_marshal (sample_registration 7)) = Some (sample_registration 7).
Proof.
  split; [split; reflexivity |].
  apply (message_wire_roundtrip (sample_registration 7)); [| split; reflexivity].
  apply sample_registration_wf. vm_compute. split; discriminate.
Defined.

(** ** Nonces *)

Lemma NewNonce_valid rand : slen rand = NonceLen -> ValidNonce (NewNonce rand) = true.
Proof.
  intros H. unfold ValidNonce, NewNonce.
  rewrite RawURL_encoded_len, RawURL_decode_encode, H. done.
Qed.

(** ** Names *)

(** [<fp8>]: the fingerprint alias of a key, first eight hexadecimal digits of
    its SHA-256. *)
Definition fp8 (pub : string) : string := take_s 8 (hex (sha256 pub)).

Lemma hex_is_lower s : all_chars hex_lower (hex s) = true.
Proof.
  assert (D : forall n, 0 <= n < 16 -> hex_lower (hex_digit n) = true).
  { intros n Hn. unfold hex_lower, hex_digit, between. destruct (n <? 10) eqn:E; breflect;
      rewrite byte_val_of, Z.mod_small by lia; apply orb_true_iff; [left|right];
      apply andb_true_iff; lia. }
  induction s as [| c s IH]; simpl; [done |]. pose proof (byte_val_range c).
  rewrite !D, IH by (Z.to_euclidean_division_equations; lia). done.
Qed.

Lemma fp8_alias pub : fpAliasRE (fp8 pub) = true.
Proof.
  unfold fpAliasRE, fp8. rewrite slen_take, slen_hex, slen_sha256.
  rewrite all_chars_take by apply hex_is_lower. done.
Qed.

Lemma name_tail_spec e s :
  name_tail e s = all_chars label_char s &&
                  match slen s with O => e | S k => match String.get k s with
                                                   | Some c => label_edge c | None => false end end.
Proof.
  revert e. induction s as [| c s IH]; intros e; [done |].
  cbn [name_tail all_chars String.length]. rewrite IH.
  destruct (label_char c); [| done]. simpl. f_equal. by destruct s.
Qed.

(** A name is accepted exactly when it is a DNS label: 1 to 63 characters
    from a-z, 0-9 and the hyphen, the first and the last not a hyphen, and not
    of the shape reserved for fingerprints; so no accepted name is the
    fingerprint alias of any key. *)
Theorem valid_name_spec s :
  (ValidName s = true <->
     (1 <= slen s <= MaxNameLen)%nat /\ all_chars label_char s = true /\
     (exists c r, s = String c r /\ label_edge c = true) /\
     (exists c, String.get (slen s - 1) s = Some c /\ label_edge c = true) /\
     fpAliasRE s = false) /\
  (forall pub, ValidName s = true -> s <> fp8 pub).
Proof.
  split.
  - unfold ValidName. rewrite !andb_true_iff, Nat.leb_le, Nat.leb_le, negb_true_iff.
    destruct s as [| c r]; simpl; [split; [lia | intros ([? ?] & _); lia] |].
    rewrite andb_true_iff, name_tail_spec, andb_true_iff, andb_true_iff.
    assert (Hl : label_edge c = true -> label_char c = true).
    { unfold label_char. intros ->. done. }
    rewrite Nat.sub_0_r. split.
    + intros ([[H1 H2] (Hc & Ha & He)] & Hf). split_and!; eauto; try lia.
      destruct r as [| d r]; simpl in *; [eauto |]. repeat case_match; try done; eauto.
    + intros ([H1 H2] & [Ha1 Ha2] & (c' & r' & [= <- <-] & Hc) & (d & Hg & Hd) & Hf).
      split_and!; try done; try lia. destruct r as [| d' r]; [done |].
      cbn [String.length] in *. by rewrite Hg.
  - intros pub H ->. unfold ValidName in H. rewrite fp8_alias in H. by rewrite andb_false_r in H.
Qed.
