(* ===== verification/RosterWire.v ===== *)
(** * Reading a signed roster

    [json.Unmarshal] of a PEER_LIST on the buddy's side: besides the scalar
    fields [Protocol.Message_unmarshal] reads, the roster and the relay ticket;
    and the round trip: a buddy reads back every message a server marshals.

    Go merges a repeated array or struct member into the value the earlier one
    left.  No encoder writes one twice; where a document does, the result is the
    parameter [merged]. *)

From S2P Require Import Prelude Base64 Json Sha256 NetAddr Crypto Protocol.

Definition get_bool (name : string) (asg : list (string * json)) : bool :=
  match last_assigned name asg with Some (JBool b) => b | _ => false end.

Definition get_list (name : string) (asg : list (string * json)) : list json :=
  match last_assigned name asg with Some (JArr l) => l | _ => [] end.

Definition asg_of (sc : schema) (v : json) : list (string * json) :=
  match v with JObj kvs => assignments sc kvs | _ => [] end.

Definition Candidate_of (v : json) : Candidate :=
  let a := asg_of Candidate_schema v in mkCandidate (get_str "addr" a) (get_bool "v6" a).

Definition Peer_of (v : json) : Peer :=
  let a := asg_of Peer_schema v in
  mkPeer (get_str "id" a) (get_str "pubkey" a) (get_str "virtual_ip" a) (get_str "name" a)
    (Candidate_of <$> get_list "candidates" a) (get_str "relay" a) (get_int "last_seen" a).

Definition Ticket_schema : schema := [("p", KStr); ("s", KStr)].

Definition RelayTicket_of (asg : list (string * json)) : option RelayTicket :=
  match last_assigned "ticket" asg with
  | Some (JObj kvs) =>
      let a := assignments Ticket_schema kvs in Some (mkRelayTicket (get_str "p" a) (get_str "s" a))
  | _ => None
  end.

(** How many members of an object select a field. *)
Definition members (sc : schema) (name : string) (kvs : list (string * json)) : nat :=
  count_if (fun kv => match find_field sc kv.1 with Some f => String.eqb f.1 name | None => false end) kvs.

Definition once (sc : schema) (name : string) (v : json) : bool :=
  match v with JObj kvs => (members sc name kvs <=? 1)%nat | _ => true end.

Definition aggregates_once (v : json) : bool :=
  once Message_schema "peers" v && once Message_schema "ticket" v &&
  forallb (once Peer_schema "candidates") (get_list "peers" (asg_of Message_schema v)).

Definition with_roster (m : Message) (ps : list Peer) (tk : option RelayTicket) : Message :=
  mkMessage (m_Type m) (m_Ver m) (m_Token m) (m_TokenEnc m) (m_Role m) (m_ID m) (m_PubKey m) (m_VirtualIP m)
    (m_Name m) (m_Ts m) (m_Nonce m) (m_RegSig m) (m_CodeEnc m) (m_EphPub m) ps (m_Sig m)
    tk (m_From m) (m_To m) (m_RelayEndpoint m) (m_RelayPubKey m) (m_FromPubKey m)
    (m_ToPubKey m) (m_SessionToken m).

Section Unmarshal.
Context (merged : string -> option Message).

Definition Roster_unmarshal (raw : string) : option Message :=
  m ← Message_unmarshal raw;
  v ← parse_document raw;
  let a := asg_of Message_schema v in
  if aggregates_once v then Some (with_roster m (Peer_of <$> get_list "peers" a) (RelayTicket_of a))
  else merged raw.

(** ** Round trip *)

Record cand_wf (c : Candidate) : Prop := { cw_addr : valid_utf8 (c_Addr c) = true }.

Record peer_wf (p : Peer) : Prop := {
  pw_fields : Forall (fun s => valid_utf8 s = true) [p_ID p; p_PubKey p; p_VirtualIP p; p_Name p; p_Relay p];
  pw_seen : in_int64 (p_LastSeen p);
  pw_cands : Forall cand_wf (p_Candidates p);
}.

Definition ticket_text_wf (t : RelayTicket) : Prop := valid_utf8 (rt_Payload t) = true /\ valid_utf8 (rt_Sig t) = true.

Lemma members_present_cons sc strict name n v l :
  seg_ok sc strict (n, Some v) ->
  members sc name (present ((n, Some v) :: l)) = ((if String.eqb n name then 1 else 0) + members sc name (present l))%nat.
Proof.
  intros (k & Hk & _). unfold members. cbn [present count_if fst]. cbn [fst] in Hk. rewrite Hk. cbn [fst].
  by destruct (String.eqb n name).
Qed.

Lemma members_notin sc strict name l :
  Forall (seg_ok sc strict) l -> name ∉ l.*1 -> members sc name (present l) = 0%nat.
Proof.
  induction 1 as [| [n [v |]] l Hn Hl IH]; intros Hnot; [done | |]; apply not_elem_of_cons in Hnot as [Hne Hnot].
  - rewrite (members_present_cons _ _ _ _ _ _ Hn), IH by done. by destruct (String.eqb_spec n name) as [-> |].
  - by apply IH.
Qed.

Lemma members_present sc strict name l :
  Forall (seg_ok sc strict) l -> NoDup l.*1 -> (members sc name (present l) <= 1)%nat.
Proof.
  induction 1 as [| [n [v |]] l Hn Hl IH]; intros Hd; [cbn; lia | |]; apply NoDup_cons in Hd as [Hni Hd].
  - rewrite (members_present_cons _ _ _ _ _ _ Hn). destruct (String.eqb_spec n name) as [-> |]; [| by apply IH].
    by rewrite (members_notin _ _ _ _ Hl).
  - by apply IH.
Qed.

Lemma once_present sc strict name l :
  Forall (seg_ok sc strict) l -> NoDup l.*1 -> once sc name (JObj (present l)) = true.
Proof. intros. apply Nat.leb_le. by eapply members_present. Qed.

Lemma asg_of_present sc strict l : Forall (seg_ok sc strict) l -> asg_of sc (JObj (present l)) = present l.
Proof.
  intros Hl. pose proof (decode_present _ _ _ Hl) as H. unfold decode_struct in H.
  destruct (fits _ _ _ _); [| done]. by injection H.
Qed.

(** The nested structs, at whatever depth they are decoded. *)
Definition fits_at (n : nat) (sc : schema) (seg : string * option json) : Prop :=
  match seg.2 with
  | None => True
  | Some v => exists k, find_field sc seg.1 = Some (seg.1, k) /\ fits n false k v = true
  end.

Lemma fits_present n sc l :
  Forall (fits_at n sc) l -> fits (S n) false (KStruct sc) (JObj (present l)) = true.
Proof.
  intros H. change (forallb (fun kv => match find_field sc kv.1 with
                                       | Some f => fits n false f.2 kv.2
                                       | None => true
                                       end) (present l) = true).
  induction H as [| [m [v |]] l Hm Hl IH]; [done | | done].
  cbn [present forallb fst snd]. destruct Hm as (k & Hk & Hv). cbn [fst snd] in *. rewrite Hk. cbn [snd]. by rewrite Hv, IH.
Qed.

Lemma fits_at_str n sc name s : find_field sc name = Some (name, KStr) -> fits_at (S n) sc (name, Some (JStr s)).
Proof. intros. by exists KStr. Qed.

Lemma fits_at_str_opt n sc name s : find_field sc name = Some (name, KStr) -> fits_at (S n) sc (name, str_opt s).
Proof. intros. unfold str_opt. case_match; [done |]. by apply fits_at_str. Qed.

Lemma fits_at_int_opt n sc name z :
  find_field sc name = Some (name, KInt) -> in_int64 z -> fits_at (S n) sc (name, int_opt z).
Proof. intros. unfold int_opt. case_match; [done |]. exists KInt. split; [done |]. cbn. by rewrite parse_int64_itoa. Qed.

Lemma forallb_fmap {A B} (f : A -> B) (P : B -> bool) l : (forall x, In x l -> P (f x) = true) -> forallb P (f <$> l) = true.
Proof. intros H. apply forallb_forall. intros y Hy. apply in_map_iff in Hy as (x & <- & Hx). by apply H. Qed.

Lemma fmap_inverse {A B} (f : A -> B) (g : B -> A) (P : A -> Prop) l :
  (forall x, P x -> g (f x) = x) -> Forall P l -> g <$> (f <$> l) = l.
Proof. intros Hg. induction 1 as [| x l Hx Hl IH]; [done |]. cbn. by rewrite Hg, IH. Qed.

(** The segments of the two nested structs. *)
Definition Candidate_segs (c : Candidate) : list (string * option json) :=
  [("addr", Some (JStr (c_Addr c))); ("v6", if c_V6 c then Some (JBool true) else None)].

Lemma Candidate_json_segs c : Candidate_json c = JObj (present (Candidate_segs c)).
Proof. unfold Candidate_json, Candidate_segs. by destruct (c_V6 c). Qed.

Lemma Candidate_segs_ok c : cand_wf c -> Forall (seg_ok Candidate_schema false) (Candidate_segs c).
Proof.
  intros [Hc]. apply Forall_cons; split; [by apply seg_ok_str |]. apply Forall_cons; split; [| constructor].
  destruct (c_V6 c); [| exact I]. exists KBool. repeat split; try done. constructor.
Qed.

Lemma Candidate_fits n c : fits (S (S n)) false (KStruct Candidate_schema) (Candidate_json c) = true.
Proof.
  rewrite Candidate_json_segs. apply fits_present. apply Forall_cons; split; [by apply fits_at_str |].
  apply Forall_cons; split; [| constructor]. destruct (c_V6 c); [by exists KBool | exact I].
Qed.

Lemma Candidate_of_json c : cand_wf c -> Candidate_of (Candidate_json c) = c.
Proof.
  intros Hc. unfold Candidate_of. rewrite Candidate_json_segs, (asg_of_present _ _ _ (Candidate_segs_ok c Hc)).
  unfold get_str, get_bool. rewrite !last_assigned_present by (apply (bool_decide_unpack _); vm_compute; exact I).
  destruct c as [a []]; done.
Qed.

Definition Peer_segs (p : Peer) : list (string * option json) :=
  [("id", Some (JStr (p_ID p))); ("pubkey", Some (JStr (p_PubKey p)));
   ("virtual_ip", Some (JStr (p_VirtualIP p))); ("name", str_opt (p_Name p));
   ("candidates", match p_Candidates p with
                  | [] => None
                  | cs => Some (JArr (Candidate_json <$> cs))
                  end);
   ("relay", str_opt (p_Relay p)); ("last_seen", int_opt (p_LastSeen p))].

Lemma wf_cands cs : Forall cand_wf cs -> wf_json (JArr (Candidate_json <$> cs)).
Proof.
  intros H. constructor. apply Forall_fmap. eapply Forall_impl; [exact H |]. intros c Hc. cbn.
  rewrite Candidate_json_segs. eapply wf_present, Candidate_segs_ok, Hc.
Qed.

Lemma cands_fit n cs : fits (S (S (S n))) false (KArr (KStruct Candidate_schema)) (JArr (Candidate_json <$> cs)) = true.
Proof. change (forallb (fits (S (S n)) false (KStruct Candidate_schema)) (Candidate_json <$> cs) = true). apply forallb_fmap. intros c _. apply Candidate_fits. Qed.

Lemma Peer_segs_ok p : peer_wf p -> Forall (seg_ok Peer_schema false) (Peer_segs p).
Proof.
  intros [Hf Hs Hc]. split_forall. unfold Peer_segs.
  repeat (apply Forall_cons; split;
    [first [by apply seg_ok_str_opt | by apply seg_ok_int_opt | by apply seg_ok_str | idtac] |]); [| constructor].
  destruct (p_Candidates p) as [| c cs] eqn:E; [exact I |]. exists (KArr (KStruct Candidate_schema)).
  split_and!; try done; [apply (cands_fit 4) | by apply wf_cands].
Qed.

Lemma Peer_fits n p : peer_wf p -> fits (S (S (S (S n)))) false (KStruct Peer_schema) (Peer_json p) = true.
Proof.
  intros [Hf Hs Hc]. change (Peer_json p) with (JObj (present (Peer_segs p))). apply fits_present. unfold Peer_segs.
  repeat (apply Forall_cons; split;
    [first [by apply fits_at_str_opt | by apply fits_at_int_opt | by apply fits_at_str | idtac] |]); [| constructor].
  destruct (p_Candidates p) as [| c cs] eqn:E; [exact I |]. exists (KArr (KStruct Candidate_schema)).
  split; [done | apply cands_fit].
Qed.

Lemma Peer_of_json p : peer_wf p -> Peer_of (Peer_json p) = p.
Proof.
  intros Hp. unfold Peer_of. change (Peer_json p) with (JObj (present (Peer_segs p))).
  rewrite (asg_of_present _ _ _ (Peer_segs_ok p Hp)). unfold get_str, get_int, get_list.
  rewrite !last_assigned_present by (apply (bool_decide_unpack _); vm_compute; exact I).
  unfold Peer_segs. cbn [seg_get String.eqb Ascii.eqb Bool.eqb]. destruct Hp as [Hf Hs Hc].
  rewrite !str_opt_get, int_opt_get by done. destruct p as [i k v n cs r s]. cbn [p_Candidates] in *. f_equal.
  destruct cs as [| c cs]; [done |]. apply (fmap_inverse _ _ cand_wf); [apply Candidate_of_json | done].
Qed.

Lemma peers_fit n ps :
  Forall peer_wf ps ->
  fits (S (S (S (S (S n))))) false (KArr (KStruct Peer_schema)) (JArr (Peer_json <$> ps)) = true.
Proof.
  intros H. change (forallb (fits (S (S (S (S n)))) false (KStruct Peer_schema)) (Peer_json <$> ps) = true).
  apply forallb_fmap. intros p Hp. apply Peer_fits. rewrite Forall_forall in H. by apply H, list_elem_of_In.
Qed.

Lemma wf_peers ps : Forall peer_wf ps -> wf_json (JArr (Peer_json <$> ps)).
Proof.
  intros H. constructor. apply Forall_fmap. eapply Forall_impl; [exact H |]. intros p Hp. cbn.
  exact (wf_present _ _ _ (Peer_segs_ok p Hp)).
Qed.

(** A message as either side sends it. *)
Record message_wf (m : Message) : Prop := {
  mw_msg : msg_wf m;
  mw_peers : Forall peer_wf (m_Peers m);
  mw_ticket : forall t, m_Ticket m = Some t -> ticket_text_wf t;
}.

Lemma Message_segs_ok m : message_wf m -> Forall (seg_ok Message_schema false) (Message_fields m).
Proof.
  intros [[Hv Ht Hf] Hp Hk]. split_forall. unfold Message_fields.
  repeat (apply Forall_cons; split;
    [first [by apply seg_ok_str_opt | by apply seg_ok_int_opt | by apply seg_ok_str | by apply seg_ok_int | idtac] |]);
    [| | constructor].
  - destruct (m_Peers m) as [| p ps] eqn:E; [exact I |]. exists (KArr (KStruct Peer_schema)).
    split_and!; try done; [by apply (peers_fit 2) | by apply wf_peers].
  - destruct (m_Ticket m) as [t |]; [| exact I]. destruct (Hk t eq_refl) as [? ?].
    exists (KStruct [("p", KStr); ("s", KStr)]). split_and!; try done.
    constructor. by repeat constructor.
Qed.

Lemma roster_roundtrip m :
  message_wf m -> Roster_unmarshal (Message_marshal m) = Some (on_wire m).
Proof.
  intros Hm. pose proof (Message_segs_ok m Hm) as Hs. unfold Roster_unmarshal, Message_unmarshal.
  assert (Hd : NoDup (Message_fields m).*1) by (apply (bool_decide_unpack _); vm_compute; exact I).
  assert (Hpd : parse_document (Message_marshal m) = Some (JObj (present (Message_fields m))))
    by (apply parse_document_render; by eapply wf_present).
  unfold unmarshal. rewrite Hpd. cbn [mbind option_bind]. rewrite (decode_present _ _ _ Hs). cbn [mbind option_bind].
  rewrite (asg_of_present _ _ _ Hs). destruct Hm as [[Hv Ht Hf] Hp Hk].
  assert (L : forall name, last_assigned name (present (Message_fields m)) = seg_get name (Message_fields m))
    by (intros name; by apply last_assigned_present).
  assert (P : get_list "peers" (present (Message_fields m)) = Peer_json <$> m_Peers m).
  { unfold get_list. rewrite L. cbn [seg_get Message_fields String.eqb Ascii.eqb Bool.eqb]. by destruct (m_Peers m). }
  assert (T : RelayTicket_of (present (Message_fields m)) = m_Ticket m).
  { unfold RelayTicket_of. rewrite L. cbn [seg_get Message_fields String.eqb Ascii.eqb Bool.eqb].
    by destruct (m_Ticket m) as [[]|]. }
  assert (A : aggregates_once (JObj (present (Message_fields m))) = true).
  { unfold aggregates_once. rewrite !(once_present _ _ _ _ Hs Hd), (asg_of_present _ _ _ Hs), P. cbn [andb].
    apply forallb_fmap. intros p Hin. rewrite Forall_forall in Hp.
    apply (once_present Peer_schema false "candidates" (Peer_segs p)).
    - by apply Peer_segs_ok, Hp, list_elem_of_In.
    - apply (bool_decide_unpack _). vm_compute. exact I. }
  rewrite A, P, T. rewrite fmap_inverse with (P := peer_wf); [| intros; by apply Peer_of_json | done].
  unfold get_str, get_int. rewrite !L. unfold Message_fields. cbn [seg_get String.eqb Ascii.eqb Bool.eqb].
  unfold with_roster, on_wire. cbn. by rewrite !str_opt_get, int_opt_get, parse_int64_itoa by done.
Qed.
End Unmarshal.
