(* ===== verification/Ticket.v ===== *)
(** * Relay tickets ([internal/ticket])

    The server-signed permit: its fields, the exact bytes that are signed, the
    strict parser the relay runs after verifying the signature, the lifetime
    rules, and the proof of possession of the ephemeral key. *)

From S2P Require Import Prelude Base64 Sha256 Json Crypto.

Definition FormatVersion : Z := 1.
Definition MaxTTL : Z := 120 * second.
Definition Skew : Z := 10 * second.
Definition IDLen : nat := 16.
Definition LegA : string := "a".
Definition LegB : string := "b".
Definition MaxPayloadLen : nat := 512.

Definition nul : string := String zero "".
Definition ticketContext : string := "buddynet-relay-ticket-v1" ⊕ nul.
Definition bindContext : string := "buddynet-relay-bind-v1" ⊕ nul.

Record Payload := mkPayload {
  V : Z;
  RID : string;
  SID : string;
  Leg : string;
  EPK : string;
  IAT : Z;
  EXP : Z;
  Nonce : string;
}.

#[export] Instance Payload_eq_dec : EqDecision Payload.
Proof. solve_decision. Defined.

Inductive Reason : Type :=
| ReasonSize | ReasonMalformed | ReasonUnknownVer | ReasonSignature | ReasonWindow
| ReasonTTL | ReasonRelay | ReasonLeg | ReasonProof.

#[export] Instance Reason_eq_dec : EqDecision Reason.
Proof. solve_decision. Defined.

(** The label that is logged. *)
Definition reason_text (r : Reason) : string :=
  match r with
  | ReasonSize => "payload too large"
  | ReasonMalformed => "payload is not a well-formed ticket"
  | ReasonUnknownVer => "unknown ticket version"
  | ReasonSignature => "server signature did not verify"
  | ReasonWindow => "issue/expiry time outside the accepted window"
  | ReasonTTL => "ticket validity span out of bounds"
  | ReasonRelay => "ticket is for a different relay"
  | ReasonLeg => "ticket names no valid leg"
  | ReasonProof => "proof of possession did not verify"
  end.

(** ** Identifiers *)

(** [NewID] on the random bytes it reads. *)
Definition NewID (rand : string) : string := RawURL.EncodeToString rand.

Definition ValidID (s : string) : bool :=
  (slen s =? RawURL.EncodedLen IDLen)%nat &&
  match RawURL.DecodeString s with
  | Some raw => (slen raw =? IDLen)%nat && String.eqb (RawURL.EncodeToString raw) s
  | None => false
  end.

(** ** Signing and verifying *)

Definition Payload_json (p : Payload) : json :=
  JObj (present
    [("v", Some (JNum (itoa (V p)))); ("rid", Some (JStr (RID p))); ("sid", Some (JStr (SID p)));
     ("leg", Some (JStr (Leg p))); ("epk", Some (JStr (EPK p)));
     ("iat", Some (JNum (itoa (IAT p)))); ("exp", Some (JNum (itoa (EXP p))));
     ("nonce", Some (JStr (Nonce p)))]).

Definition Payload_schema : schema :=
  [("v", KInt); ("rid", KStr); ("sid", KStr); ("leg", KStr); ("epk", KStr); ("iat", KInt);
   ("exp", KInt); ("nonce", KStr)].

Definition signedBytes (payload : string) : string := ticketContext ⊕ payload.

Section Signing.
Context `{Ed25519}.

(** The error of [Sign]: the payload is over the cap. *)
Inductive SignErr := OverCap (n : nat).

Definition Sign (priv : string) (p : Payload) : result SignErr (string * string) :=
  let payload := render (Payload_json p) in
  if (MaxPayloadLen <? slen payload)%nat then Err (OverCap (slen payload))
  else Ok (payload, ed_sign priv (signedBytes payload)).

Definition Verify (keys : list string) (payload sig : string) : bool :=
  if (slen payload =? 0)%nat || (MaxPayloadLen <? slen payload)%nat ||
     negb (slen sig =? SignatureSize)%nat
  then false
  else
    let msg := signedBytes payload in
    existsb (fun k => (slen k =? PublicKeySize)%nat && ed_verify k msg sig) keys.
End Signing.

(** ** Strict parsing *)

Definition EphPub (p : Payload) : option string :=
  match RawURL.DecodeString (EPK p) with
  | Some raw => if (slen raw =? PublicKeySize)%nat then Some raw else None
  | None => None
  end.

(** The loop of [noDuplicateKeys] over [Decoder.Token], [More] and [Decode]:
    [first] is false once a member was read (a comma is then expected), [seen]
    is the set of keys so far. *)
Fixpoint noDuplicateKeys_loop (n : nat) (first : bool) (seen : gset string) (s : string)
  : result Reason unit :=
  match n with
  | O => Err ReasonMalformed
  | S n' =>
      match skip_ws s with
      | EmptyString => Ok tt
      | String c r =>
          if Ascii.eqb c "}" || Ascii.eqb c "]" then Ok tt else
          let key_at :=
            if first then Some (String c r)
            else if Ascii.eqb c "," then Some (skip_ws r) else None in
          match key_at with
          | Some (String q body) =>
              if Ascii.eqb q quote then
                match parse_str body with
                | None => Err ReasonMalformed
                | Some (key, r1) =>
                    if bool_decide (key ∈ seen) then Err ReasonMalformed else
                    match skip_ws r1 with
                    | String col r2 =>
                        if Ascii.eqb col ":" then
                          match decode_first r2 with
                          | None => Err ReasonMalformed
                          | Some (_, r3) => noDuplicateKeys_loop n' false ({[key]} ∪ seen) r3
                          end
                        else Err ReasonMalformed
                    | EmptyString => Err ReasonMalformed
                    end
                end
              else Err ReasonMalformed
          | _ => Err ReasonMalformed
          end
      end
  end.

Definition noDuplicateKeys (payload : string) : result Reason unit :=
  match skip_ws payload with
  | String c r =>
      if Ascii.eqb c "{" then noDuplicateKeys_loop (S (slen payload)) true ∅ r
      else Err ReasonMalformed
  | EmptyString => Err ReasonMalformed
  end.

(** [Decoder.Decode(&p)] with [DisallowUnknownFields], and the unread rest. *)
Definition decode_payload (payload : string) : option (Payload * string) :=
  '(v, rest) ← decode_first payload;
  a ← decode_struct true Payload_schema v;
  Some (mkPayload (get_int "v" a) (get_str "rid" a) (get_str "sid" a) (get_str "leg" a)
          (get_str "epk" a) (get_int "iat" a) (get_int "exp" a) (get_str "nonce" a), rest).

Definition Parse (payload : string) : result Reason Payload :=
  if (slen payload =? 0)%nat || (MaxPayloadLen <? slen payload)%nat then Err ReasonSize else
  let? _ := noDuplicateKeys payload in
  match decode_payload payload with
  | None => Err ReasonMalformed
  | Some (p, rest) =>
      guard! String.eqb (skip_ws rest) "" else ReasonMalformed in
      guard! (V p =? FormatVersion) else ReasonUnknownVer in
      guard! ValidID (RID p) && ValidID (SID p) && ValidID (Nonce p) else ReasonMalformed in
      guard! String.eqb (Leg p) LegA || String.eqb (Leg p) LegB else ReasonLeg in
      guard! bool_decide (is_Some (EphPub p)) else ReasonMalformed in
      Ok p
  end.

(** ** Lifetime *)

Definition CheckWindow (p : Payload) (now : Z) : result Reason unit :=
  let span := wrap64 (EXP p - IAT p) in
  if (span <=? 0) || (MaxTTL / second <? span) then Err ReasonTTL else
  let sec := unix now in
  let skew := Skew / second in
  if (wrap64 (sec + skew) <? IAT p) || (EXP p <? wrap64 (sec - skew)) then Err ReasonWindow
  else Ok tt.

Definition CheckRelay (p : Payload) (rid : string) : result Reason unit :=
  if String.eqb rid "" || negb (String.eqb (RID p) rid) then Err ReasonRelay else Ok tt.

(** ** Proof of possession *)

Definition BindSigningBytes (payload sig cookie : string) : string :=
  bindContext ⊕ sha256 (payload ⊕ sig) ⊕ cookie.

Section Binding.
Context `{Ed25519}.

Definition SignBind (eph payload sig cookie : string) : string :=
  ed_sign eph (BindSigningBytes payload sig cookie).

Definition VerifyBind (epk payload sig cookie bindSig : string) : result Reason unit :=
  if negb (slen epk =? PublicKeySize)%nat || negb (slen bindSig =? SignatureSize)%nat
  then Err ReasonProof
  else if negb (ed_verify epk (BindSigningBytes payload sig cookie) bindSig)
  then Err ReasonProof
  else Ok tt.
End Binding.

(** [ShortSID]: the log form of a session id. *)
Definition ShortSID (sid : string) : string := if (8 <? slen sid)%nat then take_s 8 sid else sid.

(** ** Identifiers have one spelling *)

Lemma NewID_valid rand : slen rand = IDLen -> ValidID (NewID rand) = true.
Proof.
  intros H. unfold ValidID, NewID.
  rewrite RawURL_encoded_len, RawURL_decode_encode, H, String.eqb_refl. done.
Qed.

Lemma ValidID_iff s :
  ValidID s = true <-> exists raw, slen raw = IDLen /\ s = RawURL.EncodeToString raw.
Proof.
  split.
  - unfold ValidID. intros H. breflect. destruct (RawURL.DecodeString s) as [raw |]; [| done].
    breflect. eauto.
  - intros (raw & H & ->). by apply NewID_valid.
Qed.

Lemma ValidID_alphabet s : ValidID s = true -> all_chars is_b64url s = true /\ slen s = 22%nat.
Proof.
  intros (raw & H & ->)%ValidID_iff. split; [apply RawURL_encode_alphabet |].
  by rewrite RawURL_encoded_len, H.
Qed.

(** An identifier has one accepted spelling: of the sixteen base64url
    strings that decode to the same 16 bytes, [ValidID] accepts exactly the one
    [NewID] produces, so comparing two accepted identifiers as strings compares
    the values they stand for. *)
Theorem valid_id_canonical s t raw :
  ValidID s = true -> RawURL.DecodeString s = Some raw ->
  slen raw = IDLen /\ s = NewID raw /\
  (ValidID t = true -> RawURL.DecodeString t = Some raw -> s = t).
Proof.
  intros (r & Hr & ->)%ValidID_iff. rewrite RawURL_decode_encode. intros [= <-].
  split_and!; [done | done |]. intros (r' & _ & ->)%ValidID_iff.
  rewrite RawURL_decode_encode. by intros [= <-].
Qed.

Lemma valid_id_canonical_witness :
  "YWJjZGVmZ2hpamtsbW5vcA" = NewID "abcdefghijklmnop" /\
  RawURL.DecodeString "YWJjZGVmZ2hpamtsbW5vcB" = Some "abcdefghijklmnop" /\
  ValidID "YWJjZGVmZ2hpamtsbW5vcB" = false.
Proof.
  split; [| split; vm_compute; reflexivity].
  apply (valid_id_canonical "YWJjZGVmZ2hpamtsbW5vcA" "" "abcdefghijklmnop"); vm_compute; reflexivity.
Defined.

(** ** Text that JSON leaves alone *)

Definition plain (c : Ascii.ascii) : bool :=
  is_ascii c && String.eqb (escape_char c) (String c "").

Lemma escape_plain s : all_chars plain s = true -> escape s = s.
Proof.
  induction s as [| c s IH]; [done |]. simpl. intros H. breflect. unfold plain in H. breflect.
  by rewrite H, H1, IH.
Qed.

Lemma b64url_plain c : is_b64url c = true -> plain c = true.
Proof.
  intros H. pose proof (forall_bytes (fun c => negb (is_b64url c) || plain c)
    ltac:(vm_compute; reflexivity) c) as T. simpl in T. by rewrite H in T.
Qed.

Lemma plain_valid_utf8 s : all_chars plain s = true -> valid_utf8 s = true.
Proof.
  intros H. apply ascii_valid_utf8. eapply all_chars_impl; [| exact H].
  intros c Hc. unfold plain in Hc. by breflect.
Qed.

Lemma b64url_string_plain s : all_chars is_b64url s = true -> all_chars plain s = true.
Proof. apply all_chars_impl, b64url_plain. Qed.

Lemma slen_render_plain s : all_chars plain s = true -> slen (render_string s) = (slen s + 2)%nat.
Proof. intros H. unfold render_string. simpl. rewrite slen_app, escape_plain by done. simpl. lia. Qed.

Lemma slen_dec_digits f n acc : (slen (dec_digits f n acc) <= f + slen acc)%nat.
Proof.
  revert n acc. induction f as [| f IH]; intros n acc; simpl; [done |].
  destruct (n <? 10); simpl; [lia |]. etransitivity; [apply IH |]. simpl. lia.
Qed.

Lemma slen_itoa z : (slen (itoa z) <= 21)%nat.
Proof.
  unfold itoa. pose proof (slen_dec_digits dec_fuel (- z) "") as H1.
  pose proof (slen_dec_digits dec_fuel z "") as H2.
  change (slen "") with O in *. change dec_fuel with 20%nat in *.
  destruct (z <? 0); cbn [String.length]; lia.
Qed.

(** ** Duplicate keys *)

Lemma noDup_fuel n m first seen s :
  (slen s < n)%nat -> (slen s < m)%nat ->
  noDuplicateKeys_loop n first seen s = noDuplicateKeys_loop m first seen s.
Proof.
  revert m first seen s. induction n as [| n IH]; intros [| m] first seen s Hn Hm; try lia.
  cbn [noDuplicateKeys_loop]. destruct (skip_ws s) as [| c r] eqn:Es; [done |]. ws_len.
  destruct (_ || _); [done |].
  destruct (if first then _ else _) as [[| q body] |] eqn:Ek; try done.
  destruct (Ascii.eqb q quote); [| done].
  destruct (parse_str body) as [[key r1] |] eqn:Ep; [| done].
  destruct (bool_decide _); [done |].
  destruct (skip_ws r1) as [| col r2] eqn:E1; [done |].
  destruct (Ascii.eqb col ":"); [| done].
  destruct (decode_first r2) as [[v r3] |] eqn:Ev; [| done].
  assert (Hb : (slen body <= slen r)%nat).
  { destruct first; [by simplify_eq |]. destruct (Ascii.eqb c ","); [| done].
    injection Ek as Ek. pose proof (skip_ws_le r). rewrite Ek in *. simpl in *. lia. }
  apply parse_str_shorter in Ep. ws_len.
  apply (proj1 (parse_shorter _)) in Ev. apply IH; lia.
Qed.

Lemma noDup_step n first (seen : gset string) k v rest :
  valid_utf8 k = true -> wf_json v -> num_stop rest = true -> k ∉ seen ->
  noDuplicateKeys_loop (S n) first seen
    ((if first then "" else ",") ⊕ render_string k ⊕ ":" ⊕ render v ⊕ rest)
  = noDuplicateKeys_loop n false ({[k]} ∪ seen) rest.
Proof.
  intros Hk Hv Hr Hs.
  transitivity (match parse_str (escape k ⊕ String quote (String ":" (render v ⊕ rest))) with
    | None => Err ReasonMalformed
    | Some (key, r1) =>
        if bool_decide (key ∈ seen) then Err ReasonMalformed else
        match skip_ws r1 with
        | String col r2 =>
            if Ascii.eqb col ":" then
              match decode_first r2 with
              | None => Err ReasonMalformed
              | Some (_, r3) => noDuplicateKeys_loop n false ({[key]} ∪ seen) r3
              end
            else Err ReasonMalformed
        | EmptyString => Err ReasonMalformed
        end
    end).
  - unfold render_string, quote_s. cbn [String.append]. rewrite app_assoc_s.
    cbn [String.append]. by destruct first.
  - rewrite parse_escape by done. rewrite bool_decide_false by done.
    change (skip_ws (String ":" ?x)) with (String ":" x). cbv iota. rewrite Ascii.eqb_refl.
    by rewrite decode_first_render.
Qed.

Lemma noDup_members l : forall n first (seen : gset string) rest,
  Forall (fun kv => valid_utf8 kv.1 = true /\ wf_json kv.2) l ->
  NoDup (map fst l) -> (forall k, In k (map fst l) -> k ∉ seen) -> (length l < n)%nat ->
  noDuplicateKeys_loop n first seen (render_members first l ⊕ rest) = Ok tt.
Proof.
  induction l as [| [k v] l IH]; intros n first seen rest Hw Hd Hs Hn;
    destruct n as [| n]; try (simpl in Hn; lia); [done |].
  apply Forall_cons in Hw as [[Hk Hv] Hw]. cbn [map fst snd] in *.
  apply NoDup_cons in Hd as [Hkl Hd].
  cbn [render_members fst snd]. rewrite !app_assoc_s.
  rewrite noDup_step; [| done | done | by destruct l | apply Hs; by left].
  apply IH; try done; [| simpl in Hn; lia]. intros k' Hk' [->%elem_of_singleton|Hin]%elem_of_union.
  - apply Hkl. by apply list_elem_of_In.
  - by apply (Hs k'); [right |].
Qed.

Lemma noDuplicateKeys_render l :
  Forall (fun kv => valid_utf8 kv.1 = true /\ wf_json kv.2) l -> NoDup (map fst l) ->
  noDuplicateKeys (render (JObj l)) = Ok tt.
Proof.
  intros Hw Hd. rewrite render_obj. unfold noDuplicateKeys.
  change (skip_ws (String "{" ?x)) with (String "{" x). cbv iota.
  change (Ascii.eqb "{" "{") with true. cbv iota. cbn [String.length].
  rewrite <- (app_empty_r (render_members true l)) at 2.
  rewrite (noDup_fuel _ (S (S (slen (render_members true l) + length l)))).
  - apply noDup_members; [done | done | intros; apply not_elem_of_empty | lia].
  - rewrite app_empty_r. lia.
  - rewrite app_empty_r. lia.
Qed.

(** ** What the server mints, the relay accepts *)

(** A payload as [issueTicket] builds it. *)
Record ticket_wf (p : Payload) : Prop := {
  tw_v : V p = FormatVersion;
  tw_rid : ValidID (RID p) = true;
  tw_sid : ValidID (SID p) = true;
  tw_nonce : ValidID (Nonce p) = true;
  tw_leg : Leg p = LegA \/ Leg p = LegB;
  tw_epk : exists raw, slen raw = PublicKeySize /\ EPK p = RawURL.EncodeToString raw;
  tw_iat : in_int64 (IAT p);
  tw_exp : in_int64 (EXP p);
}.

Definition Payload_fields (p : Payload) : list (string * option json) :=
  [("v", Some (JNum (itoa (V p)))); ("rid", Some (JStr (RID p))); ("sid", Some (JStr (SID p)));
   ("leg", Some (JStr (Leg p))); ("epk", Some (JStr (EPK p)));
   ("iat", Some (JNum (itoa (IAT p)))); ("exp", Some (JNum (itoa (EXP p))));
   ("nonce", Some (JStr (Nonce p)))].

Lemma leg_plain l : l = LegA \/ l = LegB -> all_chars plain l = true /\ slen l = 1%nat.
Proof. by intros [-> | ->]. Qed.

Lemma epk_plain p :
  ticket_wf p -> all_chars plain (EPK p) = true /\ slen (EPK p) = 43%nat.
Proof.
  intros Hw. destruct (tw_epk p Hw) as (raw & Hr & ->). split.
  - apply b64url_string_plain, RawURL_encode_alphabet.
  - by rewrite RawURL_encoded_len, Hr.
Qed.

Lemma id_plain s : ValidID s = true -> all_chars plain s = true /\ slen s = 22%nat.
Proof. intros [H1 H2]%ValidID_alphabet. split; [by apply b64url_string_plain | done]. Qed.

Lemma version_int64 : in_int64 FormatVersion.
Proof. unfold in_int64, int64_min, int64_max, FormatVersion. lia. Qed.

Lemma Payload_fields_ok p : ticket_wf p -> Forall (seg_ok Payload_schema true) (Payload_fields p).
Proof.
  intros Hw. pose proof (epk_plain p Hw) as [He _]. destruct Hw as [Hv Hr Hs Hn Hl _ Hi Hx].
  apply id_plain in Hr as [Hr _], Hs as [Hs _], Hn as [Hn _]. apply leg_plain in Hl as [Hl _].
  repeat (apply Forall_cons; split;
    [first [apply seg_ok_str; [done | done | by apply plain_valid_utf8]
           | apply seg_ok_int; [done | done | by rewrite ?Hv; try apply version_int64]] |]).
  constructor.
Qed.

Lemma Payload_size p : ticket_wf p -> (0 < slen (render (Payload_json p)) <= MaxPayloadLen)%nat.
Proof.
  intros Hw. pose proof (epk_plain p Hw) as [He Hel]. destruct Hw as [_ Hr Hs Hn Hl _ _ _].
  apply id_plain in Hr as [Hr Hrl], Hs as [Hs Hsl], Hn as [Hn Hnl]. apply leg_plain in Hl as [Hl Hll].
  unfold Payload_json. rewrite render_obj. cbn [present render_members fst snd render].
  pose proof (slen_itoa (V p)). pose proof (slen_itoa (IAT p)). pose proof (slen_itoa (EXP p)).
  cbn [String.append String.length]. rewrite !slen_app. cbn [String.append String.length].
  rewrite !slen_app. cbn [String.append String.length].
  repeat (rewrite ?slen_app, ?slen_render_plain by done; cbn [String.append String.length]).
  unfold MaxPayloadLen. lia.
Qed.

Lemma decode_payload_render p :
  ticket_wf p -> decode_payload (render (Payload_json p)) = Some (p, "").
Proof.
  intros Hw. pose proof (Payload_fields_ok p Hw) as Hf. unfold decode_payload.
  rewrite <- (app_empty_r (render _)). unfold Payload_json. fold (Payload_fields p).
  rewrite decode_first_render by (done || by eapply wf_present).
  cbn [mbind option_bind]. rewrite (decode_present Payload_schema true _ Hf).
  cbn [mbind option_bind]. unfold get_str, get_int.
  rewrite !last_assigned_present by (apply (bool_decide_unpack _); vm_compute; exact I).
  unfold Payload_fields. cbn [seg_get String.eqb Ascii.eqb Bool.eqb].
  destruct Hw as [Hv _ _ _ _ _ Hi Hx].
  rewrite !parse_int64_itoa; [by destruct p | done | done |]. rewrite Hv. apply version_int64.
Qed.

Lemma EphPub_canonical p raw :
  slen raw = PublicKeySize -> EPK p = RawURL.EncodeToString raw -> EphPub p = Some raw.
Proof. intros H E. unfold EphPub. by rewrite E, RawURL_decode_encode, H. Qed.

Lemma Parse_render p : ticket_wf p -> Parse (render (Payload_json p)) = Ok p.
Proof.
  intros Hw. pose proof (Payload_size p Hw) as [H1 H2]. pose proof (Payload_fields_ok p Hw) as Hf.
  unfold Parse. destruct (_ || _) eqn:E.
  { apply orb_true_iff in E as [E|E]; breflect; lia. }
  assert (noDuplicateKeys (render (Payload_json p)) = Ok tt) as ->.
  { apply noDuplicateKeys_render.
    - apply (wf_present Payload_schema true) in Hf. by inversion Hf.
    - apply (bool_decide_unpack _). vm_compute. exact I. }
  rewrite decode_payload_render by done. simpl. destruct Hw as [Hv Hr Hs Hn Hl He _ _].
  rewrite Hv, Hr, Hs, Hn. destruct He as (raw & Hraw & He).
  rewrite bool_decide_true by (rewrite (EphPub_canonical p raw) by done; eauto).
  by destruct Hl as [-> | ->].
Qed.

Section Roundtrip.
Context `{Ed25519Laws}.

Lemma Sign_accepted priv p keys :
  ticket_wf p -> In (pub_of priv) keys ->
  exists payload sig, Sign priv p = Ok (payload, sig) /\
    Verify keys payload sig = true /\ Parse payload = Ok p /\
    (0 < slen payload <= MaxPayloadLen)%nat /\ slen sig = SignatureSize.
Proof.
  intros Hw Hk. pose proof (Payload_size p Hw) as [Hlo Hhi].
  unfold Sign. destruct (MaxPayloadLen <? _)%nat eqn:E; [breflect; lia |].
  eexists _, _. split; [done |]. split; [| split_and!; [by apply Parse_render | lia | lia | apply sig_size]].
  unfold Verify. rewrite E, sig_size.
  destruct (slen (render (Payload_json p)) =? 0)%nat eqn:E0; [breflect; lia |]. simpl.
  apply existsb_exists. exists (pub_of priv). rewrite pub_size, sig_verifies. done.
Qed.

(** C40. A ticket minted by the server is never over the size cap, verifies at
    a relay that pins the server's key (alone or next to a second key, as
    during a rotation), and parses back to exactly the fields that were
    signed. *)
Theorem ticket_sign_verify_parse priv p keys :
  ticket_wf p -> In (pub_of priv) keys ->
  exists payload sig, Sign priv p = Ok (payload, sig) /\
    Verify keys payload sig = true /\ Parse payload = Ok p.
Proof.
  intros Hw Hk. destruct (Sign_accepted priv p keys Hw Hk) as (payload & sig & S1 & S2 & S3 & _). eauto.
Qed.
End Roundtrip.

Definition sample_ticket : Payload :=
  mkPayload 1 (RawURL.EncodeToString "relay-id-16bytes") (RawURL.EncodeToString "session-id-16byt")
    "a" (RawURL.EncodeToString (Toy.pad32 "ephemeral")) 1700000000 1700000120
    (RawURL.EncodeToString "nonce-of-16bytes").

Lemma sample_ticket_wf : ticket_wf sample_ticket.
Proof.
  split.
  - reflexivity.
  - vm_compute. reflexivity.
  - vm_compute. reflexivity.
  - vm_compute. reflexivity.
  - by left.
  - exists (Toy.pad32 "ephemeral"). split; [apply Toy.pad32_len | done].
  - split; vm_compute; discriminate.
  - split; vm_compute; discriminate.
Qed.

Lemma ticket_sign_verify_parse_witness :
  exists payload sig, @Sign Toy.toy_ed "server" sample_ticket = Ok (payload, sig) /\
    @Verify Toy.toy_ed [Toy.pad32 "next"; Toy.pad32 "server"] payload sig = true /\
    Parse payload = Ok sample_ticket.
Proof.
  apply (@ticket_sign_verify_parse Toy.toy_ed Toy.toy_ed_laws "server" sample_ticket).
  - apply sample_ticket_wf.
  - right. left. reflexivity.
Defined.

(** ** What a parsed ticket is *)

(** Whatever bytes [Parse] accepts, the ticket it returns is of the known
    format version, carries canonical identifiers, names leg "a" or "b" and an
    Ed25519-sized ephemeral key; and the accepted bytes are within the cap and
    are exactly one JSON value. *)
Theorem parse_accepts_only_wellformed payload p :
  Parse payload = Ok p ->
  V p = FormatVersion /\ ValidID (RID p) = true /\ ValidID (SID p) = true /\
  ValidID (Nonce p) = true /\ (Leg p = LegA \/ Leg p = LegB) /\
  (exists epk, EphPub p = Some epk /\ slen epk = PublicKeySize) /\
  (0 < slen payload <= MaxPayloadLen)%nat /\ is_Some (parse_document payload).
Proof.
  unfold Parse. destruct (_ || _) eqn:Es; [done |]. breflect.
  destruct (noDuplicateKeys payload); [| done].
  destruct (decode_payload payload) as [[q rest] |] eqn:Ed; [| done].
  repeat case_match; try done; intros [= <-]; breflect.
  assert (is_Some (EphPub q)) as [epk Hepk] by by eapply bool_decide_eq_true_1.
  unfold decode_payload in Ed. apply bind_Some in Ed as ([v r] & Hd & Ed).
  apply bind_Some in Ed as (a' & _ & [= _ ->]).
  split_and!; try done; try lia.
  - by match goal with H : _ || _ = true |- _ =>
      apply orb_true_iff in H as [H|H]; apply String.eqb_eq in H; auto end.
  - exists epk. split; [done |]. unfold EphPub in Hepk. repeat case_match; simplify_eq. by breflect.
  - unfold parse_document. rewrite Hd. cbn [mbind option_bind].
    match goal with H : skip_ws rest = "" |- _ => rewrite H end. eauto.
Qed.

Lemma parse_accepts_only_wellformed_witness :
  Parse (render (Payload_json sample_ticket)) = Ok sample_ticket /\
  (Leg sample_ticket = LegA \/ Leg sample_ticket = LegB).
Proof.
  assert (H : Parse (render (Payload_json sample_ticket)) = Ok sample_ticket)
    by (apply Parse_render, sample_ticket_wf).
  split; [exact H |]. apply (parse_accepts_only_wellformed _ _ H).
Defined.

(** ** Lifetime *)

(** The window in plain arithmetic. *)
Definition window_ok (p : Payload) (sec : Z) : Prop :=
  0 < EXP p - IAT p <= 120 /\ IAT p <= sec + 10 /\ sec - 10 <= EXP p.

Lemma CheckWindow_iff p now :
  in_int64 (IAT p) -> in_int64 (EXP p) -> 0 <= unix now <= int64_max - 10 ->
  CheckWindow p now = Ok tt <-> window_ok p (unix now).
Proof.
  intros Hi He Hn. unfold CheckWindow, window_ok.
  change (MaxTTL / second) with 120. change (Skew / second) with 10.
  rewrite (wrap64_id (unix now + 10)), (wrap64_id (unix now - 10))
    by (unfold in_int64, int64_min, int64_max in *; lia).
  unfold in_int64, int64_min, int64_max, wrap64 in *.
  pose proof (Z.mod_pos_bound (EXP p - IAT p + 2 ^ 63) (2 ^ 64) ltac:(lia)) as Hb.
  pose proof (Z.div_mod (EXP p - IAT p + 2 ^ 63) (2 ^ 64) ltac:(lia)) as Hd.
  split.
  - destruct (_ || (120 <? _)) eqn:E1; [done |].
    destruct ((_ <? IAT p) || _) eqn:E2; [done |]. intros _. breflect. lia.
  - intros (Hs & Hi' & He').
    assert ((EXP p - IAT p + 2 ^ 63) mod 2 ^ 64 = EXP p - IAT p + 2 ^ 63) as -> by (apply Z.mod_small; lia).
    destruct (_ || (120 <? _)) eqn:E1.
    { apply orb_true_iff in E1 as [E1|E1]; breflect; lia. }
    destruct ((_ <? IAT p) || _) eqn:E2; [| done].
    apply orb_true_iff in E2 as [E2|E2]; breflect; lia.
Qed.

(** With 64-bit wrap-around in every subtraction, [CheckWindow] still
    accepts exactly the tickets whose true span is in (0, 120] seconds and
    whose issue and expiry lie within ten seconds of the relay's clock, for
    every clock reading between 1970 and the year 292 billion. *)
Theorem check_window_exact p now :
  in_int64 (IAT p) -> in_int64 (EXP p) -> 0 <= unix now <= int64_max - 10 ->
  CheckWindow p now = Ok tt <-> window_ok p (unix now).
Proof. apply CheckWindow_iff. Qed.

Lemma check_window_exact_witness :
  CheckWindow sample_ticket (of_unix 1700000060) = Ok tt /\ window_ok sample_ticket 1700000060.
Proof.
  assert (H : CheckWindow sample_ticket (of_unix 1700000060) = Ok tt) by (vm_compute; reflexivity).
  split; [exact H |].
  rewrite <- (unix_of_unix 1700000060). apply check_window_exact; [| | | exact H];
    split; vm_compute; discriminate.
Defined.

(** No ticket is accepted at two instants more than 140 seconds apart on
    the relay's clock: the nominal 120 seconds plus the skew allowance on both
    sides, which is the documented worst case. *)
Theorem ticket_lifetime_bound p now1 now2 :
  in_int64 (IAT p) -> in_int64 (EXP p) ->
  0 <= unix now1 <= int64_max - 10 -> 0 <= unix now2 <= int64_max - 10 ->
  CheckWindow p now1 = Ok tt -> CheckWindow p now2 = Ok tt ->
  Z.abs (unix now1 - unix now2) <= (MaxTTL + 2 * Skew) / second.
Proof.
  intros Hi He H1 H2 C1%CheckWindow_iff C2%CheckWindow_iff; try done.
  change ((MaxTTL + 2 * Skew) / second) with 140. unfold window_ok in *. lia.
Qed.

Lemma ticket_lifetime_bound_witness :
  CheckWindow sample_ticket (of_unix 1699999990) = Ok tt /\
  CheckWindow sample_ticket (of_unix 1700000130) = Ok tt /\
  Z.abs (1699999990 - 1700000130) <= 140.
Proof.
  assert (H1 : CheckWindow sample_ticket (of_unix 1699999990) = Ok tt) by (vm_compute; reflexivity).
  assert (H2 : CheckWindow sample_ticket (of_unix 1700000130) = Ok tt) by (vm_compute; reflexivity).
  split_and!; [exact H1 | exact H2 |].
  apply (ticket_lifetime_bound sample_ticket (of_unix 1699999990) (of_unix 1700000130));
    try assumption; split; vm_compute; discriminate.
Defined.

(** ** Proof of possession *)

(** Two distinct inputs with the same hash. *)
Definition collision (x y : string) : Prop := x <> y /\ sha256 x = sha256 y.

(** The bytes a bind proof signs determine the cookie and, up to a SHA-256
    collision, the complete ticket (payload and signature together); and they
    are never the bytes of a ticket signature, so neither kind of signature
    can stand in for the other. *)
Theorem bind_bytes_determine payload sig cookie payload' sig' cookie' :
  BindSigningBytes payload sig cookie = BindSigningBytes payload' sig' cookie' ->
  cookie = cookie' /\
  (payload ⊕ sig = payload' ⊕ sig' \/ collision (payload ⊕ sig) (payload' ⊕ sig')) /\
  (forall q, signedBytes q <> BindSigningBytes payload sig cookie).
Proof.
  intros E. unfold BindSigningBytes in E. apply app_cancel_l in E.
  apply app_cancel_len in E as [E ->]; [| by rewrite !slen_sha256]. split_and!; [done | |].
  - destruct (decide (payload ⊕ sig = payload' ⊕ sig')); [by left | by right].
  - intros q. unfold signedBytes, BindSigningBytes, ticketContext, bindContext. discriminate.
Qed.

Lemma bind_bytes_determine_witness :
  "cookie-16-bytes!" = "cookie-16-bytes!" /\
  ("p" ⊕ "s" = "p" ⊕ "s" \/ collision ("p" ⊕ "s") ("p" ⊕ "s")) /\
  (forall q, signedBytes q <> BindSigningBytes "p" "s" "cookie-16-bytes!").
Proof. apply bind_bytes_determine. reflexivity. Defined.

(** A key that differs only in letter case from one already seen is not a
    duplicate to [noDuplicateKeys] but is the same field to the decoder, and
    the last occurrence wins: this payload carries two session ids, passes the
    strict parser, and is read with the second one. *)
Theorem case_variant_keys_pass :
  let sid1 := RawURL.EncodeToString "session-id-16byt" in
  let sid2 := RawURL.EncodeToString "another-id-16byt" in
  exists payload p q,
    payload = render (JObj [("v", JNum (itoa 1)); ("rid", JStr (RID sample_ticket));
                ("sid", JStr sid1); ("SID", JStr sid2); ("leg", JStr "a");
                ("epk", JStr (EPK sample_ticket)); ("iat", JNum (itoa 1700000000));
                ("exp", JNum (itoa 1700000120)); ("nonce", JStr (Nonce sample_ticket))]) /\
    noDuplicateKeys payload = Ok tt /\ Parse payload = Ok p /\ SID p = sid2 /\ sid1 <> sid2 /\
    Parse (render (Payload_json sample_ticket)) = Ok q /\ SID q = sid1.
Proof.
  eexists _, _, _. split; [reflexivity |]. split_and!; try (vm_compute; reflexivity).
  vm_compute. discriminate.
Qed.
