(* ===== verification/RateLimit.v ===== *)
(** * The token-bucket limiter ([internal/ratelimit])

    A global ceiling and bounded per-source fairness.  Token counts are exact
    rationals where the code has [float64]; what is not modelled is the
    rounding of that type.  The clock reading of each call is an argument. *)

From S2P Require Import Prelude.
From Stdlib Require Import QArith Lqa.
Open Scope Z_scope.

Record bucket := mkBucket { tokens : Q; last : Z }.

(** [d.Seconds()] of a duration in nanoseconds. *)
Definition Seconds (d : Z) : Q := d # 1000000000.

Definition take (b : bucket) (now : Z) (rate burst : Q) : bool * bucket :=
  let t := (tokens b + Seconds (now - last b) * rate)%Q in
  let t := if Qle_bool t burst then t else burst in
  if Qle_bool 1 t then (true, mkBucket (t - 1) now) else (false, mkBucket t now).

Definition full (b : bucket) (now : Z) (rate burst : Q) : bool :=
  Qle_bool burst (tokens b + Seconds (now - last b) * rate).

Record Limiter := mkLimiter {
  globalRate : Q; globalBurst : Q;
  srcRate : Q; srcBurst : Q;
  maxSources : Z;
  global : bucket;
  perSrc : gmap string bucket;
}.

Definition New (globalRate srcRate : Q) (maxSources : Z) (now : Z) : Limiter :=
  mkLimiter globalRate (2 * globalRate) srcRate (2 * srcRate) maxSources
    (mkBucket (2 * globalRate) now) ∅.

Definition NewGlobal (rate : Q) (now : Z) : Limiter :=
  mkLimiter rate (2 * rate) 0 0 0 (mkBucket (2 * rate) now) ∅.

Definition with_global (l : Limiter) (g : bucket) : Limiter :=
  mkLimiter (globalRate l) (globalBurst l) (srcRate l) (srcBurst l) (maxSources l) g (perSrc l).
Definition with_perSrc (l : Limiter) (m : gmap string bucket) : Limiter :=
  mkLimiter (globalRate l) (globalBurst l) (srcRate l) (srcBurst l) (maxSources l) (global l) m.

Definition AllowGlobal (now : Z) (l : Limiter) : bool * Limiter :=
  let '(ok, g) := take (global l) now (globalRate l) (globalBurst l) in (ok, with_global l g).

Definition pruneLocked (now : Z) (l : Limiter) : Limiter :=
  with_perSrc l (filter (fun kb => full kb.2 now (srcRate l) (srcBurst l) = false) (perSrc l)).

(** The part of [Allow] below the lookup: charge the source's bucket [b], then
    the global one. *)
Definition charge (now : Z) (src : string) (b : bucket) (l : Limiter) : bool * Limiter :=
  let '(ok, b') := take b now (srcRate l) (srcBurst l) in
  let l := with_perSrc l (<[src := b']> (perSrc l)) in
  if ok then AllowGlobal now l else (false, l).

Definition Allow (now : Z) (src : string) (l : Limiter) : bool * Limiter :=
  match perSrc l !! src with
  | Some b => charge now src b l
  | None =>
      let at_cap l := maxSources l <=? Z.of_nat (size (perSrc l)) in
      let l := if at_cap l then pruneLocked now l else l in
      if at_cap l then (false, l)
      else charge now src (mkBucket (srcBurst l) now) l
  end.

(** ** Buckets *)

Lemma Seconds_add a b : (Seconds (a + b) == Seconds a + Seconds b)%Q.
Proof. unfold Seconds, Qeq. simpl. lia. Qed.

Lemma Seconds_nonneg d : 0 <= d -> (0 <= Seconds d)%Q.
Proof. unfold Seconds, Qle. simpl. lia. Qed.

Lemma Qle_bool_false x y : Qle_bool x y = false -> (y < x)%Q.
Proof.
  intros H. apply Qnot_le_lt. intros C. apply Qle_bool_iff in C. congruence.
Qed.

Ltac qcases :=
  repeat match goal with
  | H : Qle_bool _ _ = true |- _ => apply Qle_bool_iff in H
  | H : Qle_bool _ _ = false |- _ => apply Qle_bool_false in H
  end.

Definition b2q (b : bool) : Q := if b then 1 else 0.

(** What one [take] does to the balance. *)
Lemma take_spec b now rate burst ok b' :
  take b now rate burst = (ok, b') ->
  last b' = now /\
  (tokens b' + b2q ok <= tokens b + Seconds (now - last b) * rate)%Q /\
  (tokens b' + b2q ok <= burst)%Q /\
  (ok = true -> 0 <= tokens b')%Q.
Proof.
  unfold take. destruct (Qle_bool (tokens b + _) burst) eqn:E1;
    destruct (Qle_bool 1 _) eqn:E2; intros [= <- <-]; qcases; cbn [last tokens b2q];
    split_and!; try done; try lra; intros; lra || done.
Qed.

(** ** The ceiling over any sequence of requests *)

(** A run of requests (clock reading, source): the limiter at the end and the
    number admitted. *)
Fixpoint run (l : Limiter) (evs : list (Z * string)) : Limiter * list bool :=
  match evs with
  | [] => (l, [])
  | (now, src) :: evs' =>
      let '(ok, l1) := Allow now src l in
      let '(l2, oks) := run l1 evs' in
      (l2, ok :: oks)
  end.

Definition admitted (oks : list bool) : Z := Z.of_nat (count_if id oks).

(** Parameters never change. *)
Definition same_params (l l' : Limiter) : Prop :=
  globalRate l' = globalRate l /\ globalBurst l' = globalBurst l /\
  srcRate l' = srcRate l /\ srcBurst l' = srcBurst l /\ maxSources l' = maxSources l.

Lemma AllowGlobal_params now l ok l' : AllowGlobal now l = (ok, l') -> same_params l l'.
Proof. unfold AllowGlobal. destruct (take _ _ _ _). by intros [= _ <-]. Qed.

Lemma charge_params now src b l ok l' : charge now src b l = (ok, l') -> same_params l l'.
Proof.
  unfold charge. destruct (take _ _ _ _) as [o b']. destruct o.
  - intros H%AllowGlobal_params. exact H.
  - by intros [= _ <-].
Qed.

Lemma prune_params now l : same_params l (pruneLocked now l).
Proof. by split_and!. Qed.

(** The three ways through [Allow]: a known source is charged; a new one is
    charged from a full bucket, after a prune when the table was at its cap; or
    the table is full of active sources and nothing is charged. *)
Lemma Allow_cases now src l ok l' :
  Allow now src l = (ok, l') ->
  (exists b, perSrc l !! src = Some b /\ charge now src b l = (ok, l')) \/
  (perSrc l !! src = None /\ exists l0,
     (l0 = l \/ l0 = pruneLocked now l) /\ Z.of_nat (size (perSrc l0)) < maxSources l0 /\
     charge now src (mkBucket (srcBurst l0) now) l0 = (ok, l')) \/
  (perSrc l !! src = None /\ ok = false /\ l' = pruneLocked now l).
Proof.
  unfold Allow. destruct (perSrc l !! src) as [b |] eqn:El; [by eauto |]. cbv zeta.
  destruct (maxSources l <=? _) eqn:E; [clear E | apply Z.leb_gt in E as E'; rewrite E; by eauto 10].
  destruct (_ <=? _) eqn:E; [intros [= <- <-] | apply Z.leb_gt in E]; eauto 10.
Qed.

Lemma Allow_params now src l ok l' : Allow now src l = (ok, l') -> same_params l l'.
Proof.
  intros [(b & _ & H) | [(_ & l0 & Hl & _ & H) | (_ & _ & ->)]]%Allow_cases; [| | done].
  - by eapply charge_params.
  - apply charge_params in H. destruct Hl as [-> | ->]; exact H.
Qed.

Lemma charge_global now src b l ok l' :
  charge now src b l = (ok, l') ->
  (ok = false /\ global l' = global l) \/
  take (global l) now (globalRate l) (globalBurst l) = (ok, global l').
Proof.
  unfold charge, AllowGlobal. destruct (take b _ _ _) as [[] b'].
  - cbn [global globalRate globalBurst with_perSrc].
    destruct (take (global l) _ _ _) as [o g]. intros [= <- <-]. by right.
  - intros [= <- <-]. by left.
Qed.

(** One request leaves the global bucket alone unless it spends from it. *)
Lemma Allow_global now src l ok l' :
  Allow now src l = (ok, l') ->
  (ok = false /\ global l' = global l) \/
  take (global l) now (globalRate l) (globalBurst l) = (ok, global l').
Proof.
  intros [(b & _ & H) | [(_ & l0 & Hl & _ & H) | (_ & -> & ->)]]%Allow_cases; [| | by left].
  - by eapply charge_global.
  - apply charge_global in H. destruct Hl as [-> | ->]; exact H.
Qed.

Lemma admitted_cons ok oks : (inject_Z (admitted (ok :: oks)) == b2q ok + inject_Z (admitted oks))%Q.
Proof.
  unfold admitted. cbn [count_if]. rewrite Nat2Z.inj_add, inject_Z_plus. by destruct ok.
Qed.

Lemma admitted_nonneg oks : (0 <= inject_Z (admitted oks))%Q.
Proof. unfold admitted, inject_Z, Qle. simpl. lia. Qed.

(** The balance of the global bucket over a run: either nothing was admitted,
    or the last admission left it non-negative. *)
Lemma run_global l evs l' oks T :
  run l evs = (l', oks) -> (0 <= globalRate l)%Q ->
  Forall (fun e => e.1 <= T) evs ->
  ((admitted oks = 0)%Z \/
   inject_Z (admitted oks) <= tokens (global l) + Seconds (T - last (global l)) * globalRate l)%Q.
Proof.
  revert l l' oks. induction evs as [| [now src] evs IH]; intros l l' oks Hr Hrate HT.
  { injection Hr as _ <-. by left. }
  apply Forall_cons in HT as [Hnow HT]. simpl in Hnow, Hr.
  destruct (Allow now src l) as [ok l1] eqn:EA. destruct (run l1 evs) as [l2 os] eqn:ER.
  injection Hr as _ <-.
  pose proof (Allow_params _ _ _ _ _ EA) as (Hgr & _).
  destruct (IH _ _ _ ER) as [H0|H0]; [by rewrite Hgr | done | |].
  - destruct ok; [| left; unfold admitted in *; simpl; lia]. right.
    destruct (Allow_global _ _ _ _ _ EA) as [[? _] | Ht]; [done |].
    apply take_spec in Ht as (_ & Hle & _ & Hpos). specialize (Hpos eq_refl). cbn [b2q] in Hle.
    rewrite admitted_cons, H0. cbn [b2q].
    replace (T - last (global l))%Z with ((now - last (global l)) + (T - now))%Z by lia.
    rewrite Seconds_add. pose proof (Seconds_nonneg (T - now) ltac:(lia)).
    assert (0 <= Seconds (T - now) * globalRate l)%Q by (by apply Qmult_le_0_compat).
    change (inject_Z 0) with 0%Q. lra.
  - right. rewrite admitted_cons. rewrite Hgr in H0.
    destruct (Allow_global _ _ _ _ _ EA) as [[-> Hg] | Ht].
    + rewrite Hg in H0. cbn [b2q]. lra.
    + apply take_spec in Ht as (Hl & Hle & _ & _). rewrite Hl in H0.
      replace (T - last (global l))%Z with ((now - last (global l)) + (T - now))%Z by lia.
      rewrite Seconds_add. lra.
Qed.

(** Whatever the sources and however the requests are interleaved, the
    number a limiter admits up to time [T] is at most what its global bucket
    held plus the global rate times the time elapsed. *)
Theorem limiter_global_ceiling l evs T :
  (0 <= globalRate l)%Q -> (0 <= tokens (global l) <= globalBurst l)%Q ->
  last (global l) <= T -> Forall (fun e => e.1 <= T) evs ->
  (inject_Z (admitted (run l evs).2) <=
     globalBurst l + Seconds (T - last (global l)) * globalRate l)%Q.
Proof.
  intros Hr [Ht1 Ht2] HT Hev. destruct (run l evs) as [l' oks] eqn:ER. simpl.
  pose proof (Seconds_nonneg (T - last (global l)) ltac:(lia)).
  assert (0 <= Seconds (T - last (global l)) * globalRate l)%Q by (by apply Qmult_le_0_compat).
  destruct (run_global _ _ _ _ _ ER Hr Hev) as [-> | H1]; [change (inject_Z 0) with 0%Q; lra | lra].
Qed.

(** A relay limiter of one bind per second in total, four requests at once. *)
Definition ex_burst : list (Z * string) := [(0, "a"); (0, "b"); (0, "a"); (0, "c")].

Lemma limiter_global_ceiling_witness :
  (inject_Z (admitted (run (New 1 5 8 0) ex_burst).2)
     <= 2 + Seconds (0 - 0) * 1)%Q
  /\ (run (New 1 5 8 0) ex_burst).2 = [true; true; false; false].
Proof.
  split; [| vm_compute; reflexivity].
  apply (limiter_global_ceiling (New 1 5 8 0) ex_burst 0).
  - vm_compute. discriminate.
  - split; vm_compute; discriminate.
  - vm_compute. discriminate.
  - repeat constructor; vm_compute; discriminate.
Defined.

(** ** The ceiling of one source *)

(** What [take] would find in the bucket at time [t]. *)
Definition avail (b : bucket) (t : Z) (rate burst : Q) : Q :=
  let x := (tokens b + Seconds (t - last b) * rate)%Q in
  if Qle_bool x burst then x else burst.

(** What a source may still spend at [t]; one the table does not hold starts
    from a full bucket. *)
Definition headroom (l : Limiter) (t : Z) (src : string) : Q :=
  match perSrc l !! src with
  | Some b => avail b t (srcRate l) (srcBurst l)
  | None => srcBurst l
  end.

Lemma Seconds_diag t : (Seconds (t - t) == 0)%Q.
Proof. rewrite Z.sub_diag. done. Qed.

Lemma avail_now x t rate burst : (x <= burst)%Q -> (avail (mkBucket x t) t rate burst == x)%Q.
Proof.
  intros H. unfold avail. cbn [tokens last]. pose proof (Seconds_diag t) as Z0.
  destruct (Qle_bool _ _) eqn:E; qcases; rewrite Z0 in *; lra.
Qed.

Lemma take_avail b now rate burst ok b' :
  take b now rate burst = (ok, b') ->
  (avail b' now rate burst + b2q ok == avail b now rate burst)%Q /\
  ((0 <= avail b now rate burst)%Q -> (0 <= avail b' now rate burst)%Q).
Proof.
  unfold take. fold (avail b now rate burst).
  assert (Hm : (avail b now rate burst <= burst)%Q)
    by (unfold avail; destruct (Qle_bool _ _) eqn:E; qcases; lra).
  destruct (Qle_bool 1 _) eqn:E; intros [= <- <-]; qcases; cbn [tokens last b2q];
    rewrite avail_now by lra; split; lra.
Qed.

Lemma avail_later b t t' rate burst :
  t <= t' -> (0 <= rate)%Q ->
  (avail b t rate burst <= avail b t' rate burst <= avail b t rate burst + Seconds (t' - t) * rate)%Q.
Proof.
  intros Ht Hr. unfold avail.
  replace (t' - last b)%Z with ((t - last b) + (t' - t))%Z by lia. rewrite !Seconds_add.
  pose proof (Qmult_le_0_compat _ _ (Seconds_nonneg (t' - t) ltac:(lia)) Hr).
  destruct (Qle_bool (tokens b + Seconds (t - last b) * rate) burst) eqn:E1;
    destruct (Qle_bool (tokens b + (Seconds _ + _) * rate) burst) eqn:E2; qcases; rewrite ?Seconds_add; split; lra.
Qed.

(** Time only adds headroom, at the source's rate. *)
Lemma headroom_later l src t t' :
  t <= t' -> (0 <= srcRate l)%Q ->
  (headroom l t src <= headroom l t' src <= headroom l t src + Seconds (t' - t) * srcRate l)%Q.
Proof.
  intros Ht Hr. unfold headroom. destruct (perSrc l !! src); [by apply avail_later |].
  pose proof (Qmult_le_0_compat _ _ (Seconds_nonneg (t' - t) ltac:(lia)) Hr). split; lra.
Qed.

Lemma prune_headroom l now src : (headroom (pruneLocked now l) now src == headroom l now src)%Q.
Proof.
  unfold headroom, pruneLocked. cbn [perSrc with_perSrc srcRate srcBurst].
  destruct (perSrc l !! src) as [b |] eqn:E.
  - destruct (full b now (srcRate l) (srcBurst l)) eqn:F.
    + rewrite (proj2 (map_lookup_filter_None _ _ _))
        by (right; intros x; rewrite E; intros [= <-]; simpl; by rewrite F).
      unfold full in F. unfold avail. destruct (Qle_bool (_ + _) _) eqn:G; qcases; lra.
    + by rewrite (proj2 (map_lookup_filter_Some _ _ _ b) (conj E F)).
  - by rewrite (proj2 (map_lookup_filter_None _ _ _)) by (by left).
Qed.

Lemma charge_headroom now src b l ok l' q :
  charge now src b l = (ok, l') ->
  (avail b now (srcRate l) (srcBurst l) == headroom l now src)%Q ->
  (headroom l' now q + b2q (ok && String.eqb src q) <= headroom l now q)%Q /\
  ((0 <= headroom l now q)%Q -> (0 <= headroom l' now q)%Q).
Proof.
  unfold charge. destruct (take b _ _ _) as [o b'] eqn:Ht. intros H Hb.
  apply take_avail in Ht as (Ha & Hn).
  assert (Hs : (headroom (with_perSrc l (<[src:=b']> (perSrc l))) now q + b2q (o && String.eqb src q)
               == headroom l now q)%Q /\
          ((0 <= headroom l now q)%Q ->
           (0 <= headroom (with_perSrc l (<[src:=b']> (perSrc l))) now q)%Q)).
  { unfold headroom at 1 4. cbn [perSrc with_perSrc srcRate srcBurst].
    destruct (String.eqb_spec src q) as [<- | Hne].
    - rewrite lookup_insert_eq, andb_true_r. split; [lra |]. rewrite <- Hb. exact Hn.
    - rewrite lookup_insert_ne, andb_false_r by done. fold (headroom l now q).
      cbn [b2q]. split; [lra | done]. }
  destruct Hs as [Hs Hp].
  destruct o; [| injection H as <- <-; split; [lra | done]].
  unfold AllowGlobal in H. destruct (take (global _) _ _ _) as [o2 g]. injection H as <- <-.
  cbn [andb] in Hs. split; [| exact Hp].
  change (headroom (with_global ?x g) now q) with (headroom x now q).
  destruct o2; cbn [andb]; [lra |]. destruct (String.eqb src q); cbn [b2q] in *; lra.
Qed.

(** What one request takes from a source's headroom. *)
Lemma Allow_headroom now src l ok l' q :
  Allow now src l = (ok, l') ->
  (headroom l' now q + b2q (ok && String.eqb src q) <= headroom l now q)%Q /\
  ((0 <= headroom l now q)%Q -> (0 <= headroom l' now q)%Q).
Proof.
  intros [(b & E & H) | [(E & l0 & Hl & _ & H) | (_ & -> & ->)]]%Allow_cases.
  - eapply charge_headroom; [done |]. unfold headroom. by rewrite E.
  - assert (Hp : forall p, (headroom l0 now p == headroom l now p)%Q)
      by (destruct Hl as [-> | ->]; intros; [reflexivity | apply prune_headroom]).
    rewrite <- Hp. eapply charge_headroom; [done |]. rewrite Hp. unfold headroom. rewrite E.
    replace (srcBurst l0) with (srcBurst l) by (by destruct Hl as [-> | ->]).
    apply avail_now. lra.
  - rewrite prune_headroom. cbn [andb b2q]. split; [lra | done].
Qed.

(** The readings of a clock that starts at [t] and ends by [T]. *)
Fixpoint clock_ok (t : Z) (evs : list (Z * string)) (T : Z) : bool :=
  match evs with
  | [] => t <=? T
  | (now, _) :: evs' => (t <=? now) && clock_ok now evs' T
  end.

(** The admissions of one source in a run. *)
Definition admitted_of (q : string) (evs : list (Z * string)) (oks : list bool) : Z :=
  Z.of_nat (count_if (fun eo => eo.2 && String.eqb eo.1.2 q) (zip evs oks)).

Lemma run_headroom q evs : forall l t T l' oks,
  run l evs = (l', oks) -> (0 <= srcRate l)%Q -> clock_ok t evs T = true ->
  (headroom l' T q + inject_Z (admitted_of q evs oks)
     <= headroom l t q + Seconds (T - t) * srcRate l)%Q /\
  ((0 <= headroom l t q)%Q -> (0 <= headroom l' T q)%Q).
Proof.
  induction evs as [| [now src] evs IH]; intros l t T l' oks Hr Hrate HT; simpl in Hr, HT.
  { injection Hr as <- <-. apply Z.leb_le in HT.
    destruct (headroom_later l q t T HT Hrate). unfold admitted_of. simpl.
    change (inject_Z (Z.of_nat 0)) with 0%Q. split; [lra |]. intros. lra. }
  apply andb_true_iff in HT as [Ht%Z.leb_le HT].
  destruct (Allow now src l) as [ok l1] eqn:EA. destruct (run l1 evs) as [l2 os] eqn:ER.
  injection Hr as <- <-.
  pose proof (Allow_params _ _ _ _ _ EA) as (_ & _ & Hsr & _).
  destruct (IH _ _ _ _ _ ER ltac:(by rewrite Hsr) HT) as [IH1 IH2]. rewrite Hsr in IH1.
  destruct (Allow_headroom _ _ _ _ _ q EA) as [Hs1 Hs2].
  destruct (headroom_later l q t now Ht Hrate) as [Hl1 Hl2].
  split; [| intros; apply IH2, Hs2; lra].
  replace (T - t)%Z with ((now - t) + (T - now))%Z by lia. rewrite Seconds_add.
  assert (Hc : (inject_Z (admitted_of q ((now, src) :: evs) (ok :: os)) ==
               b2q (ok && String.eqb src q) + inject_Z (admitted_of q evs os))%Q).
  { unfold admitted_of. cbn [zip_with count_if fst snd]. rewrite Nat2Z.inj_add, inject_Z_plus.
    by destruct (ok && String.eqb src q). }
  rewrite Hc. lra.
Qed.

(** Fairness: from a fresh limiter and under any interleaving with other
    sources (including the prunes their arrival triggers), one source is
    admitted at most its burst plus its rate times the time elapsed. *)
Theorem limiter_source_ceiling gr sr cap q evs t0 T :
  (0 <= sr)%Q -> clock_ok t0 evs T = true ->
  (inject_Z (admitted_of q evs (run (New gr sr cap t0) evs).2) <= 2 * sr + Seconds (T - t0) * sr)%Q.
Proof.
  intros Hr HT. destruct (run _ evs) as [l' oks] eqn:ER.
  destruct (run_headroom q _ _ _ _ _ _ ER Hr HT) as [H1 H2].
  change (headroom (New gr sr cap t0) t0 q) with (2 * sr)%Q in *.
  specialize (H2 ltac:(lra)). cbn [snd srcRate New] in *. lra.
Qed.

(** Two sources against a per-source rate of one: the table holds one of them,
    so the second is refused until the first has refilled and is pruned. *)
Definition ex_fair : list (Z * string) :=
  [(0, "a"); (0, "a"); (0, "a"); (second, "b"); (2 * second, "b"); (2 * second, "a")].

Lemma limiter_source_ceiling_witness :
  (inject_Z (admitted_of "a" ex_fair (run (New 100 1 1 0) ex_fair).2)
     <= 2 * 1 + Seconds (2 * second - 0) * 1)%Q
  /\ (run (New 100 1 1 0) ex_fair).2 = [true; true; false; false; true; false].
Proof.
  split; [| vm_compute; reflexivity].
  apply (limiter_source_ceiling 100 1 1 "a" ex_fair 0 (2 * second)).
  - vm_compute. discriminate.
  - vm_compute. reflexivity.
Defined.

(** ** The table of sources *)

Lemma charge_size now src b l ok l' :
  charge now src b l = (ok, l') -> perSrc l' = <[src := (take b now (srcRate l) (srcBurst l)).2]> (perSrc l).
Proof.
  unfold charge, AllowGlobal. destruct (take b _ _ _) as [[] b'].
  - cbn [global with_perSrc]. destruct (take (global l) _ _ _). by intros [= _ <-].
  - by intros [= _ <-].
Qed.

Lemma Allow_bounded now src l ok l' :
  Allow now src l = (ok, l') -> Z.of_nat (size (perSrc l)) <= Z.max 0 (maxSources l) ->
  Z.of_nat (size (perSrc l')) <= Z.max 0 (maxSources l').
Proof.
  intros H Hsz. pose proof (Allow_params _ _ _ _ _ H) as (_ & _ & _ & _ & ->).
  apply Allow_cases in H as [(b & E & H) | [(E & l0 & Hl & Hroom & H) | (E & -> & ->)]].
  - apply charge_size in H as ->. by rewrite map_size_insert_Some.
  - apply charge_size in H as ->.
    pose proof (map_size_insert_le (perSrc l0) src (take (mkBucket (srcBurst l0) now) now (srcRate l0) (srcBurst l0)).2).
    assert (maxSources l0 = maxSources l) by (by destruct Hl as [-> | ->]). lia.
  - unfold pruneLocked. cbn [perSrc with_perSrc].
    pose proof (map_size_filter_le (fun kb => full kb.2 now (srcRate l) (srcBurst l) = false) (perSrc l)). lia.
Qed.

Lemma prune_keeps now l q b :
  perSrc l !! q = Some b ->
  perSrc (pruneLocked now l) !! q = Some b \/
  (perSrc (pruneLocked now l) !! q = None /\ full b now (srcRate l) (srcBurst l) = true).
Proof.
  intros E. unfold pruneLocked. cbn [perSrc with_perSrc].
  destruct (full b now _ _) eqn:F; [right; split; [| done] | left].
  - apply map_lookup_filter_None. right. intros x. rewrite E. intros [= <-]. simpl. by rewrite F.
  - by apply map_lookup_filter_Some.
Qed.

(** The per-source table never outgrows its cap, whatever addresses the
    requests carry; and a request from one source leaves the bucket of every
    other source as it was or drops it because it had refilled. *)
Theorem limiter_table_bounded_isolated now src l ok l' :
  Allow now src l = (ok, l') -> Z.of_nat (size (perSrc l)) <= Z.max 0 (maxSources l) ->
  Z.of_nat (size (perSrc l')) <= Z.max 0 (maxSources l') /\
  forall q b, q <> src -> perSrc l !! q = Some b ->
    perSrc l' !! q = Some b \/
    (perSrc l' !! q = None /\ full b now (srcRate l) (srcBurst l) = true).
Proof.
  intros H Hsz. split; [by eapply Allow_bounded |]. intros q b Hne Hq.
  apply Allow_cases in H as [(b' & E & H) | [(E & l0 & Hl & _ & H) | (E & -> & ->)]].
  - apply charge_size in H as ->. left. by rewrite lookup_insert_ne.
  - apply charge_size in H as ->. rewrite lookup_insert_ne by done.
    destruct Hl as [-> | ->]; [by left | by apply prune_keeps].
  - by apply prune_keeps.
Qed.

(** At its cap of one, the table forgets the refilled ["a"] to admit ["b"]. *)
Definition ex_cap : Limiter := (run (New 100 1 1 0) [(0, "a")]).1.
Definition ex_cap' : Limiter := (Allow (2 * second) "b" ex_cap).2.

Lemma limiter_table_bounded_isolated_witness :
  Z.of_nat (size (perSrc ex_cap')) <= Z.max 0 (maxSources ex_cap') /\
  (perSrc ex_cap' !! "a" = Some (mkBucket 1.000000000 0) \/
   (perSrc ex_cap' !! "a" = None /\ full (mkBucket 1.000000000 0) (2 * second) 1 2 = true)).
Proof.
  destruct (limiter_table_bounded_isolated (2 * second) "b" ex_cap true ex_cap') as [H1 H2].
  - vm_compute. reflexivity.
  - vm_compute. discriminate.
  - split; [exact H1 |]. apply (H2 "a" (mkBucket 1.000000000 0)); [discriminate |]. vm_compute. reflexivity.
Defined.
