(* ===== verification/RelayWire.v ===== *)
(** * Relay signalling ([internal/relay/offer.go], [fallback.go])

    The bind and challenge datagrams a buddy and a relay exchange, the client
    side of the bind handshake ([BindLeg]) and the order in which a buddy
    tries the ways to reach its partner ([Chain], [DirectChain]). *)

From S2P Require Import Prelude Base64 Sha256 Json NetAddr Crypto Protocol Ticket.

Definition BindPrefix : string := "BNRELAY1".
Definition ChallengePrefix : string := "BNRLYC1".
Definition CookieLen : nat := 16.
Definition MinSessionTokenLen : nat := 16.
Definition MaxBindLen : nat := 1024.
Definition maxTicketB64 : nat := 700.
Definition maxSigB64 : nat := 96.

Record Bind := mkBind {
  b_SessionToken : string;
  b_Cookie : string;
  b_Ticket : string;
  b_TicketSig : string;
  b_BindSig : string;
}.

#[export] Instance Bind_eq_dec : EqDecision Bind.
Proof. solve_decision. Defined.

Definition Bind_fields (b : Bind) : list (string * option json) :=
  [("s", Some (JStr (b_SessionToken b))); ("c", str_opt (b_Cookie b)); ("t", str_opt (b_Ticket b));
   ("ts", str_opt (b_TicketSig b)); ("b", str_opt (b_BindSig b))].

Definition Bind_schema : schema := [("s", KStr); ("c", KStr); ("t", KStr); ("ts", KStr); ("b", KStr)].

Definition MarshalBind (b : Bind) : string := BindPrefix ⊕ render (JObj (present (Bind_fields b))).

Definition base64urlOnly (s : string) : bool := all_chars is_b64url s.

(** The [json.Unmarshal] of [ParseBind]. *)
Definition Bind_unmarshal (data : string) : option Bind :=
  a ← unmarshal Bind_schema data;
  Some (mkBind (get_str "s" a) (get_str "c" a) (get_str "t" a) (get_str "ts" a) (get_str "b" a)).

Definition ParseBind (pkt : string) : option Bind :=
  if (slen pkt <? slen BindPrefix)%nat || (MaxBindLen <? slen pkt)%nat ||
     negb (String.eqb (take_s (slen BindPrefix) pkt) BindPrefix)
  then None
  else
    match Bind_unmarshal (drop_s (slen BindPrefix) pkt) with
    | None => None
    | Some b =>
        if (slen (b_SessionToken b) <? MinSessionTokenLen)%nat ||
           (MaxFieldLen <? slen (b_SessionToken b))%nat || (MaxFieldLen <? slen (b_Cookie b))%nat ||
           (maxTicketB64 <? slen (b_Ticket b))%nat || (maxSigB64 <? slen (b_TicketSig b))%nat ||
           (maxSigB64 <? slen (b_BindSig b))%nat || negb (base64urlOnly (b_SessionToken b))
        then None
        else Some b
    end.

Definition MarshalChallenge (cookie : string) : string := ChallengePrefix ⊕ cookie.

Definition ParseChallenge (pkt : string) : option string :=
  if negb (slen pkt =? slen ChallengePrefix + CookieLen)%nat ||
     negb (String.eqb (take_s (slen ChallengePrefix) pkt) ChallengePrefix)
  then None
  else Some (drop_s (slen ChallengePrefix) pkt).

(** ** The client *)

(** [ip.Equal]: an IPv4 address equals its IPv4-in-IPv6 form. *)
Definition IP_Equal (a b : IP) : bool :=
  if (slen a =? slen b)%nat then String.eqb a b
  else if (slen a =? 4)%nat && (slen b =? 16)%nat then String.eqb (v4_in_6 ⊕ a) b
  else if (slen a =? 16)%nat && (slen b =? 4)%nat then String.eqb a (v4_in_6 ⊕ b)
  else false.

Definition sameAddr (a b : UDPAddr) : bool := (Port a =? Port b) && IP_Equal (IPof a) (IPof b).

Record BindCred := mkBindCred { cred_Payload : string; cred_Sig : string; cred_Eph : string }.

Section Client.
Context `{Ed25519}.

(** [( *BindCred).bind]; [None] is the nil receiver. *)
Definition BindCred_bind (c : option BindCred) (token cookieB64 cookie : string) : Bind :=
  match c with
  | None => mkBind token cookieB64 "" "" ""
  | Some c =>
      mkBind token cookieB64
        (RawURL.EncodeToString (cred_Payload c)) (RawURL.EncodeToString (cred_Sig c))
        (RawURL.EncodeToString (SignBind (cred_Eph c) (cred_Payload c) (cred_Sig c) cookie))
  end.

(** The variables of [BindLeg]'s loop. *)
Record LegState := mkLegState { l_cookie : string; l_req : string; l_next : Z }.

(** One iteration's inputs: the clock before and after the read, and what the
    read returned ([None]: the read deadline passed). *)
Record LegInput := mkLegInput { li_now : Z; li_read : option (string * UDPAddr); li_after : Z }.

Inductive LegErr := NotAckedNoCred | NotAckedCred.

(** How far the loop got: waiting for more input, acknowledged, timed out. *)
Inductive LegStatus := LWaiting (st : LegState) | LDone (r : result LegErr unit).

(** What the loop does with a datagram that came from the relay's address. *)
Definition leg_read (cred : option BindCred) (token : string) (st : LegState) (pkt : string) (after : Z)
  : LegStatus :=
  match ParseChallenge pkt with
  | Some c =>
      let next64 := RawURL.EncodeToString c in
      if negb (String.eqb next64 (l_cookie st))
      then LWaiting (mkLegState next64 (MarshalBind (BindCred_bind cred token next64 c)) after)
      else LWaiting st
  | None =>
      match ParseBind pkt with
      | Some b => if String.eqb (b_SessionToken b) token then LDone (Ok tt) else LWaiting st
      | None => LWaiting st
      end
  end.

(** [BindLeg] over the iterations the world lets it run: the datagrams sent to
    the relay, and the status.  The inputs are what the socket and the clock
    deliver; the loop itself ends at the deadline. *)
Fixpoint BindLeg_loop (relayAddr : UDPAddr) (token : string) (cred : option BindCred) (deadline : Z)
  (st : LegState) (ins : list LegInput) : list string * LegStatus :=
  match ins with
  | [] => ([], LWaiting st)
  | i :: ins' =>
      if negb (li_now i <? deadline)
      then ([], LDone (Err (match cred with None => NotAckedNoCred | Some _ => NotAckedCred end)))
      else
        let send := negb (li_now i <? l_next st) in
        let out := if send then [l_req st] else [] in
        let st1 := if send then mkLegState (l_cookie st) (l_req st) (li_now i + 200 * millisecond)
                   else st in
        let k st2 := let '(o, r) := BindLeg_loop relayAddr token cred deadline st2 ins' in
                     (out ++ o, r) in
        match li_read i with
        | None => k st1
        | Some (pkt, src) =>
            if negb (sameAddr src relayAddr) then k st1
            else match leg_read cred token st1 pkt (li_after i) with
                 | LWaiting st2 => k st2
                 | LDone r => (out, LDone r)
                 end
        end
  end.

Definition BindLeg (relayAddr : UDPAddr) (token : string) (timeout : Z) (cred : option BindCred)
  (start : Z) (ins : list LegInput) : list string * LegStatus :=
  BindLeg_loop relayAddr token cred (start + timeout)
    (mkLegState "" (MarshalBind (mkBind token "" "" "" "")) start) ins.
End Client.

(** ** The fallback chain *)

Inductive Kind := Direct | Relayed | Configured.

Definition Kind_String (k : Kind) : string :=
  match k with Relayed => "relayed" | Configured => "configured" | Direct => "direct" end.

Record Path := mkPath {
  pt_Kind : Kind;
  pt_Desc : string;
  pt_Candidates : list Candidate;
  pt_RelayEndpoint : string;
  pt_Endpoint : string;
}.

Definition DirectChain (endpoint relayEndpoint : string) : list Path :=
  mkPath Configured "direct (configured endpoint)" [] "" endpoint ::
  (if negb (String.eqb relayEndpoint "")
   then [mkPath Relayed ("configured relay " ⊕ relayEndpoint) [] relayEndpoint ""] else []).

Definition Chain (partner : Peer) (offers : list Message) (serverRelay : string) (cached : option Peer)
  : list Path :=
  (match p_Candidates partner with
   | [] => []
   | cs => [mkPath Direct "direct P2P" cs "" ""]
   end) ++
  flat_map (fun o =>
    if String.eqb (m_RelayEndpoint o) "" then []
    else [mkPath Relayed ("known relay " ⊕ m_RelayEndpoint o) [] (m_RelayEndpoint o) ""]) offers ++
  (if negb (String.eqb serverRelay "")
   then [mkPath Relayed "handshake server as relay" [] serverRelay ""] else []) ++
  (match cached with
   | Some c =>
       if (length (p_Candidates partner) =? 0)%nat && negb (length (p_Candidates c) =? 0)%nat
       then [mkPath Direct "cached peer (server offline)" (p_Candidates c) "" ""] else []
   | None => []
   end).

(** ** The datagrams *)

(** Fields a bind may carry: unpadded base64url text within the wire bounds. *)
Record bind_wf (b : Bind) : Prop := {
  bw_token : base64urlOnly (b_SessionToken b) = true;
  bw_cookie : base64urlOnly (b_Cookie b) = true;
  bw_ticket : base64urlOnly (b_Ticket b) = true;
  bw_tsig : base64urlOnly (b_TicketSig b) = true;
  bw_bsig : base64urlOnly (b_BindSig b) = true;
  bw_token_len : (MinSessionTokenLen <= slen (b_SessionToken b) <= MaxFieldLen)%nat;
  bw_cookie_len : (slen (b_Cookie b) <= MaxFieldLen)%nat;
  bw_ticket_len : (slen (b_Ticket b) <= maxTicketB64)%nat;
  bw_tsig_len : (slen (b_TicketSig b) <= maxSigB64)%nat;
  bw_bsig_len : (slen (b_BindSig b) <= maxSigB64)%nat;
}.

Definition bind_text_len (b : Bind) : nat :=
  (slen (b_SessionToken b) + slen (b_Cookie b) + slen (b_Ticket b) +
   slen (b_TicketSig b) + slen (b_BindSig b))%nat.

Lemma member_size k v l :
  all_chars plain k = true -> all_chars plain v = true ->
  (slen (render_members false (present ((k, str_opt v) :: l)))
     <= slen k + slen v + 6 + slen (render_members false (present l)))%nat.
Proof.
  intros Hk Hv. unfold str_opt. destruct (String.eqb v ""); cbn [present render_members fst snd]; [lia |].
  cbn [String.append String.length render].
  rewrite ?slen_app. cbn [String.append String.length]. rewrite ?slen_app.
  rewrite !slen_render_plain by done. lia.
Qed.

Lemma MarshalBind_size b :
  bind_wf b -> (slen (MarshalBind b) <= bind_text_len b + 46)%nat.
Proof.
  intros [H1 H2 H3 H4 H5 _ _ _ _ _].
  apply b64url_string_plain in H1, H2, H3, H4, H5.
  unfold MarshalBind. rewrite slen_app, render_obj. unfold Bind_fields.
  cbn [present render_members String.append String.length render fst snd].
  rewrite ?slen_app. cbn [String.append String.length]. rewrite !slen_app, !slen_render_plain by done.
  pose proof (member_size "c" _ [("t", str_opt (b_Ticket b)); ("ts", str_opt (b_TicketSig b));
                ("b", str_opt (b_BindSig b))] eq_refl H2).
  pose proof (member_size "t" _ [("ts", str_opt (b_TicketSig b)); ("b", str_opt (b_BindSig b))] eq_refl H3).
  pose proof (member_size "ts" _ [("b", str_opt (b_BindSig b))] eq_refl H4).
  pose proof (member_size "b" _ [] eq_refl H5).
  unfold bind_text_len. change (slen BindPrefix) with 8%nat.
  cbn [String.length present render_members] in *. lia.
Qed.

Lemma Bind_fields_ok b : bind_wf b -> Forall (seg_ok Bind_schema false) (Bind_fields b).
Proof.
  intros [H1 H2 H3 H4 H5 _ _ _ _ _].
  apply b64url_string_plain, plain_valid_utf8 in H1, H2, H3, H4, H5.
  apply Forall_cons; split; [by apply seg_ok_str |].
  repeat (apply Forall_cons; split; [by apply seg_ok_str_opt |]). constructor.
Qed.

Lemma Bind_unmarshal_render b :
  bind_wf b -> Bind_unmarshal (render (JObj (present (Bind_fields b)))) = Some b.
Proof.
  intros H. unfold Bind_unmarshal. rewrite unmarshal_present by by apply Bind_fields_ok.
  cbn [mbind option_bind]. unfold get_str.
  rewrite !last_assigned_present by (apply (bool_decide_unpack _); vm_compute; exact I).
  unfold Bind_fields. cbn [seg_get String.eqb Ascii.eqb Bool.eqb].
  rewrite !str_opt_get. by destruct b.
Qed.

Lemma ParseBind_MarshalBind b :
  bind_wf b -> (bind_text_len b + 46 <= MaxBindLen)%nat -> ParseBind (MarshalBind b) = Some b.
Proof.
  intros Hw Hl. pose proof (MarshalBind_size b Hw) as Hs. unfold ParseBind.
  assert (Hlo : (slen BindPrefix <= slen (MarshalBind b))%nat)
    by (unfold MarshalBind; rewrite slen_app; lia).
  destruct (slen (MarshalBind b) <? _)%nat eqn:E1; [breflect; lia |].
  destruct (MaxBindLen <? _)%nat eqn:E2; [breflect; lia |].
  unfold MarshalBind. rewrite take_s_len, String.eqb_refl, drop_s_len by done. cbn [orb negb].
  rewrite Bind_unmarshal_render by done. destruct Hw as [-> _ _ _ _ H1 H2 H3 H4 H5].
  repeat match goal with |- context [(?a <? ?b)%nat] =>
    let E := fresh in destruct (a <? b)%nat eqn:E; [breflect; lia |]; clear E end.
  done.
Qed.

Lemma ParseBind_inv pkt b :
  ParseBind pkt = Some b ->
  (slen pkt <= MaxBindLen)%nat /\ has_prefix BindPrefix pkt = true /\
  (MinSessionTokenLen <= slen (b_SessionToken b) <= MaxFieldLen)%nat /\
  base64urlOnly (b_SessionToken b) = true /\
  (slen (b_Cookie b) <= MaxFieldLen /\ slen (b_Ticket b) <= maxTicketB64 /\
   slen (b_TicketSig b) <= maxSigB64 /\ slen (b_BindSig b) <= maxSigB64)%nat.
Proof.
  unfold ParseBind. destruct (_ || negb (String.eqb _ BindPrefix)) eqn:E; [done |].
  destruct (Bind_unmarshal _) as [b' |]; [| done].
  destruct (_ || negb (base64urlOnly _)) eqn:E2; [done |]. intros [= ->]. breflect.
  split_and!; try done; try lia.
  rewrite <- (take_drop_s (slen BindPrefix) pkt).
  match goal with H : take_s _ pkt = BindPrefix |- _ => rewrite H end. apply has_prefix_app.
Qed.

Lemma ParseChallenge_Marshal c : slen c = CookieLen -> ParseChallenge (MarshalChallenge c) = Some c.
Proof.
  intros H. unfold ParseChallenge, MarshalChallenge.
  rewrite slen_app, H, Nat.eqb_refl, take_s_len, String.eqb_refl, drop_s_len by done. done.
Qed.

Lemma ParseChallenge_inv pkt c :
  ParseChallenge pkt = Some c -> pkt = MarshalChallenge c /\ slen c = CookieLen.
Proof.
  unfold ParseChallenge. destruct (_ || _) eqn:E; [done |].
  remember (drop_s (slen ChallengePrefix) pkt) as k eqn:Ek. intros [= <-]. subst k. breflect.
  split; [| rewrite slen_drop; lia]. unfold MarshalChallenge.
  rewrite <- (take_drop_s (slen ChallengePrefix) pkt) at 1. by f_equal.
Qed.

(** The two kinds of control datagram cannot be mistaken for each other. *)
Lemma bind_not_challenge pkt b : ParseBind pkt = Some b -> ParseChallenge pkt = None.
Proof.
  intros (_ & Hp & _)%ParseBind_inv. destruct (ParseChallenge pkt) as [c |] eqn:E; [| done].
  apply ParseChallenge_inv in E as [-> _]. by cbn in Hp.
Qed.

Section Datagrams.
Context `{Ed25519Laws}.

Definition cred_ok (c : BindCred) : Prop :=
  (0 < slen (cred_Payload c) <= MaxPayloadLen)%nat /\ slen (cred_Sig c) = SignatureSize.

Lemma cred_bind_wf c token cookie :
  cred_ok c -> slen cookie = CookieLen -> base64urlOnly token = true -> slen token = 22%nat ->
  bind_wf (BindCred_bind (Some c) token (RawURL.EncodeToString cookie) cookie) /\
  (bind_text_len (BindCred_bind (Some c) token (RawURL.EncodeToString cookie) cookie) + 46
     <= MaxBindLen)%nat.
Proof.
  intros [[_ Hp] Hs] Hc Ht Hl.
  assert (Hpl : (slen (RawURL.EncodeToString (cred_Payload c)) <= 683)%nat).
  { rewrite RawURL_encoded_len. unfold RawURL.EncodedLen, MaxPayloadLen in *.
    transitivity ((512 * 8 + 5) / 6)%nat; [| done]. apply Nat.Div0.div_le_mono. lia. }
  split.
  - split; cbn [BindCred_bind b_SessionToken b_Cookie b_Ticket b_TicketSig b_BindSig];
      try apply RawURL_encode_alphabet; try done;
      rewrite ?RawURL_encoded_len, ?Hl, ?Hc, ?Hs; unfold SignBind; rewrite ?sig_size.
    1,2,4,5: by (apply Nat.leb_le; vm_compute) || (split; apply Nat.leb_le; vm_compute; reflexivity).
    rewrite <- RawURL_encoded_len. unfold maxTicketB64. lia.
  - unfold bind_text_len. cbn [BindCred_bind b_SessionToken b_Cookie b_Ticket b_TicketSig b_BindSig].
    rewrite (RawURL_encoded_len cookie), (RawURL_encoded_len (cred_Sig c)),
      (RawURL_encoded_len (SignBind _ _ _ _)), Hl, Hc, Hs. unfold SignBind. rewrite sig_size.
    change (RawURL.EncodedLen CookieLen) with 22%nat.
    change (RawURL.EncodedLen SignatureSize) with 86%nat. unfold MaxBindLen. lia.
Qed.

(** The bind a buddy builds for any ticket the server can mint (a payload
    of up to 512 bytes, a 22-character session id, a 16-byte cookie) survives
    the wire: it stays under the relay's datagram cap and per-field bounds
    and parses back to exactly the fields that were sent; a challenge parses
    back to its cookie, and neither kind of datagram parses as the other. *)
Theorem bind_wire_roundtrip c token cookie :
  cred_ok c -> slen cookie = CookieLen -> base64urlOnly token = true -> slen token = 22%nat ->
  let b := BindCred_bind (Some c) token (RawURL.EncodeToString cookie) cookie in
  ParseBind (MarshalBind b) = Some b /\ ParseChallenge (MarshalBind b) = None /\
  ParseChallenge (MarshalChallenge cookie) = Some cookie /\
  ParseBind (MarshalChallenge cookie) = None.
Proof.
  intros Hc Hk Ht Hl b.
  pose proof (cred_bind_wf _ _ _ Hc Hk Ht Hl) as [Hw Hs].
  pose proof (ParseBind_MarshalBind _ Hw Hs) as Hp. split_and!; try done.
  - by eapply bind_not_challenge.
  - by apply ParseChallenge_Marshal.
  - destruct (ParseBind (MarshalChallenge cookie)) eqn:E; [| done].
    apply bind_not_challenge in E. by rewrite ParseChallenge_Marshal in E.
Qed.
End Datagrams.

Definition sample_cred : BindCred :=
  mkBindCred (render (Payload_json sample_ticket))
    (@ed_sign Toy.toy_ed "server" (signedBytes (render (Payload_json sample_ticket)))) "ephemeral".

Lemma sample_cred_ok : cred_ok sample_cred.
Proof.
  split; [| apply (@sig_size Toy.toy_ed Toy.toy_ed_laws)].
  apply Payload_size, sample_ticket_wf.
Qed.

Lemma bind_wire_roundtrip_witness :
  let b := @BindCred_bind Toy.toy_ed (Some sample_cred) (SID sample_ticket)
             (RawURL.EncodeToString "cookie-16-bytes!") "cookie-16-bytes!" in
  ParseBind (MarshalBind b) = Some b.
Proof.
  apply (@bind_wire_roundtrip Toy.toy_ed Toy.toy_ed_laws sample_cred (SID sample_ticket) "cookie-16-bytes!").
  - apply sample_cred_ok.
  - reflexivity.
  - vm_compute. reflexivity.
  - vm_compute. reflexivity.
Defined.

(** ** What the client discloses and when it succeeds *)

Section ClientProofs.
Context `{Ed25519}.

(** A datagram [BindLeg] may send: the plain bind, or a bind answering a
    challenge that arrived from the relay's address. *)
Definition licensed (relayAddr : UDPAddr) (token : string) (cred : option BindCred)
  (ins : list LegInput) (req : string) : Prop :=
  req = MarshalBind (mkBind token "" "" "" "") \/
  exists i pkt src c, In i ins /\ li_read i = Some (pkt, src) /\ sameAddr src relayAddr = true /\
    ParseChallenge pkt = Some c /\
    req = MarshalBind (BindCred_bind cred token (RawURL.EncodeToString c) c).

Definition acked (relayAddr : UDPAddr) (token : string) (i : LegInput) : Prop :=
  exists pkt src b, li_read i = Some (pkt, src) /\ sameAddr src relayAddr = true /\
    ParseBind pkt = Some b /\ b_SessionToken b = token.

Lemma licensed_mono ra token cred ins ins' req :
  (forall i, In i ins -> In i ins') -> licensed ra token cred ins req -> licensed ra token cred ins' req.
Proof. intros Hi [-> | (i & ? & ? & ? & ? & ?)]; [by left | right; eauto 10]. Qed.

Lemma leg_read_spec ra token cred seen st i pkt src :
  licensed ra token cred seen (l_req st) -> In i seen ->
  li_read i = Some (pkt, src) -> sameAddr src ra = true ->
  match leg_read cred token st pkt (li_after i) with
  | LWaiting st' => licensed ra token cred seen (l_req st')
  | LDone (Ok _) => acked ra token i
  | LDone (Err _) => False
  end.
Proof.
  intros Hst Hin Hr Hs. unfold leg_read. destruct (ParseChallenge pkt) as [c |] eqn:Ec.
  - destruct (negb _); [| done]. right. eauto 10.
  - destruct (ParseBind pkt) as [b |] eqn:Eb; [| done].
    destruct (String.eqb_spec (b_SessionToken b) token); [| done]. by exists pkt, src, b.
Qed.

Lemma BindLeg_loop_spec ra token cred deadline ins : forall seen st out status,
  BindLeg_loop ra token cred deadline st ins = (out, status) ->
  licensed ra token cred seen (l_req st) ->
  Forall (licensed ra token cred (seen ++ ins)) out /\
  match status with
  | LDone (Ok _) => exists i, In i ins /\ acked ra token i /\ li_now i < deadline
  | LDone (Err _) => exists i, In i ins /\ deadline <= li_now i
  | LWaiting _ => True
  end.
Proof.
  induction ins as [| i ins IH]; intros seen st out status Hl Hst; cbn [BindLeg_loop] in Hl.
  { by simplify_eq. }
  destruct (negb (li_now i <? deadline)) eqn:Ed.
  { simplify_eq. split; [constructor |]. exists i. split; [by left | breflect; lia]. }
  set (o1 := if negb (li_now i <? l_next st) then [l_req st] else []) in *.
  assert (Ho1 : Forall (licensed ra token cred (seen ++ i :: ins)) o1).
  { unfold o1. destruct (negb (li_now i <? l_next st)); [apply Forall_singleton | constructor].
    eapply licensed_mono; [| done]. intros. apply in_or_app. by left. }
  set (st1 := if negb (li_now i <? l_next st) then _ else st) in *.
  assert (Hst1 : licensed ra token cred (seen ++ [i]) (l_req st1)).
  { eapply licensed_mono with (ins := seen); [intros; apply in_or_app; by left |].
    unfold st1. destruct (negb (li_now i <? l_next st)); exact Hst. }
  assert (K : forall st2, licensed ra token cred (seen ++ [i]) (l_req st2) ->
    (let '(o, r) := BindLeg_loop ra token cred deadline st2 ins in (o1 ++ o, r)) = (out, status) ->
    Forall (licensed ra token cred (seen ++ i :: ins)) out /\
    match status with
    | LDone (Ok _) => exists j, In j (i :: ins) /\ acked ra token j /\ li_now j < deadline
    | LDone (Err _) => exists j, In j (i :: ins) /\ deadline <= li_now j
    | LWaiting _ => True
    end).
  { intros st2 H2 E. destruct (BindLeg_loop _ _ _ _ st2 ins) as [o r] eqn:EL. simplify_eq.
    destruct (IH _ _ _ _ EL H2) as [Ho Hr]. rewrite <- app_assoc in Ho. split; [by apply Forall_app |].
    destruct status as [| [|]]; [done | |]; destruct Hr as (j & ? & ?); exists j; (split; [by right | done]). }
  destruct (li_read i) as [[pkt src] |] eqn:Er; [| by eapply K].
  destruct (sameAddr src ra) eqn:Ea; cbn [negb] in Hl; [| by eapply K].
  pose proof (leg_read_spec ra token cred (seen ++ [i]) st1 i pkt src Hst1
    ltac:(apply in_or_app; right; by left) Er Ea) as Hread.
  destruct (leg_read _ _ _ _ _) as [st2 | [u | e]]; [by eapply K | | done].
  simplify_eq. split; [done |]. exists i. split; [by left |]. split; [done | breflect; lia].
Qed.

(** [BindLeg] sends nothing but the plain bind of its token and binds that
    answer a challenge received from the relay's own address: the ticket and
    the proof of possession leave the buddy only for an address that proved
    reachable.  It reports success only after an acknowledgement of its token
    from that address before the deadline, and fails only at the deadline. *)
Theorem bindleg_discloses_on_challenge ra token timeout cred start ins :
  let '(out, status) := BindLeg ra token timeout cred start ins in
  Forall (licensed ra token cred ins) out /\
  match status with
  | LDone (Ok _) => exists i, In i ins /\ acked ra token i /\ li_now i < start + timeout
  | LDone (Err _) => exists i, In i ins /\ start + timeout <= li_now i
  | LWaiting _ => True
  end.
Proof.
  destruct (BindLeg ra token timeout cred start ins) as [out status] eqn:E.
  apply (BindLeg_loop_spec _ _ _ _ _ [] _ _ _ E). by left.
Qed.

(** The bind handshake as it goes when the relay answers: the plain bind, the
    relay's challenge, the bind with the credentials, the acknowledgement. *)
Lemma BindLeg_completes ra token cred start timeout t c ack b :
  slen c = CookieLen -> ParseBind ack = Some b -> b_SessionToken b = token ->
  sameAddr ra ra = true -> start <= t < start + timeout ->
  BindLeg ra token timeout cred start
    [mkLegInput start (Some (MarshalChallenge c, ra)) t; mkLegInput t (Some (ack, ra)) t]
  = ([MarshalBind (mkBind token "" "" "" "");
      MarshalBind (BindCred_bind cred token (RawURL.EncodeToString c) c)], LDone (Ok tt)).
Proof.
  intros Hc Hb Ht Hs Hr. unfold BindLeg. cbn [BindLeg_loop li_now li_read li_after l_next].
  assert ((start <? start + timeout) = true) as -> by (apply Z.ltb_lt; lia).
  assert ((t <? start + timeout) = true) as -> by (apply Z.ltb_lt; lia).
  rewrite Z.ltb_irrefl, Hs. cbn [negb]. unfold leg_read at 1.
  rewrite ParseChallenge_Marshal by done. cbn [l_cookie l_req].
  assert (String.eqb (RawURL.EncodeToString c) "" = false) as ->.
  { apply String.eqb_neq. intros E. apply (f_equal slen) in E.
    rewrite RawURL_encoded_len, Hc in E. done. }
  cbn [negb l_next l_req l_cookie]. rewrite Z.ltb_irrefl. cbn [negb]. unfold leg_read.
  rewrite (bind_not_challenge _ _ Hb), Hb, Ht, String.eqb_refl. done.
Qed.
End ClientProofs.

(** ** The fallback chain *)

Definition is_relayed (p : Path) : bool := match pt_Kind p with Relayed => true | _ => false end.

(** The relays the server offered and its own. *)
Definition relay_endpoints (offers : list Message) (serverRelay : string) : list string :=
  filter (fun e => e <> "") (map m_RelayEndpoint offers ++ [serverRelay]).

Lemma chain_relays offers serverRelay :
  map pt_RelayEndpoint
    (flat_map (fun o =>
       if String.eqb (m_RelayEndpoint o) "" then []
       else [mkPath Relayed ("known relay " ⊕ m_RelayEndpoint o) [] (m_RelayEndpoint o) ""]) offers ++
     (if negb (String.eqb serverRelay "")
      then [mkPath Relayed "handshake server as relay" [] serverRelay ""] else []))
  = relay_endpoints offers serverRelay.
Proof.
  unfold relay_endpoints. rewrite map_app, filter_app. f_equal.
  - induction offers as [| o l IH]; simpl; [done |].
    destruct (String.eqb_spec (m_RelayEndpoint o) "") as [E | E].
    + rewrite filter_cons_False by (by intros []). exact IH.
    + rewrite filter_cons_True by done. simpl. by f_equal.
  - destruct (String.eqb_spec serverRelay "") as [E | E]; simpl.
    + by rewrite filter_cons_False by (by intros []).
    + by rewrite filter_cons_True by done.
Qed.

(** The chain a buddy walks is: the punch to the partner's live candidates
    when there are any; then every relay with an endpoint, the ones offered for
    this pair in the order offered and the server's own last; then the cached
    candidates, and these only when the live roster gave none.  Nothing else is
    on it, so no path is ever tried with an empty target. *)
Theorem chain_priority partner offers serverRelay cached :
  exists direct relays last,
    Chain partner offers serverRelay cached = direct ++ relays ++ last /\
    map pt_Candidates direct = filter (fun cs => cs <> []) [p_Candidates partner] /\
    map pt_RelayEndpoint relays = relay_endpoints offers serverRelay /\
    map pt_Candidates last =
      (if decide (p_Candidates partner = [])
       then filter (fun cs => cs <> []) (option_list (p_Candidates <$> cached)) else []) /\
    Forall (fun p => pt_Kind p = Direct) (direct ++ last) /\
    Forall (fun p => pt_Kind p = Relayed) relays.
Proof.
  eexists _, _, _. split; [unfold Chain; rewrite (app_assoc (flat_map _ _)); reflexivity |].
  rewrite chain_relays. split_and!; try done.
  - by destruct (p_Candidates partner).
  - destruct cached as [c |]; simpl; [| by case_decide].
    destruct (p_Candidates partner); simpl; [| done]. by destruct (p_Candidates c).
  - apply Forall_app. split; [destruct (p_Candidates partner); by repeat constructor |].
    destruct cached; [case_match |]; by repeat constructor.
  - apply Forall_app. split; [| destruct (negb _); by repeat constructor].
    induction offers as [| o l IH]; simpl; [constructor |].
    destruct (String.eqb _ _); simpl; [done | by constructor].
Qed.
