(* ===== verification/RelayServer.v ===== *)
(** * The relay server ([internal/relay/server.go], [tickets.go]): the program

    The blind forwarder: the check order a bind goes through, ticket and
    network mode, the tables of sessions, legs and addresses, the data path
    and the reaper.  The clock reading of each handler is an argument; the
    datagrams and log lines it emits are returned in order.  A leg's
    forwarding record is shared between the leg and the address index, so the
    records live in a store and both hold its key. *)

From S2P Require Import Prelude Base64 Sha256 Json NetAddr Crypto Protocol Ticket RelayWire.
From S2P Require RateLimit.

Definition defaultMaxSessions : Z := 4096.
Definition maxLegsPerSes : nat := 2.
Definition defaultMaxLegsPerIP : Z := 64.
Definition rlGlobalRate : QArith_base.Q := QArith_base.inject_Z 1000.
Definition rlSrcRate : QArith_base.Q := QArith_base.inject_Z 50.
Definition rlMaxSources : Z := 8192.
Definition sigGlobalRate : QArith_base.Q := QArith_base.inject_Z 200.
Definition maxSigInFlight : nat := 32.
Definition reserveRate : QArith_base.Q := QArith_base.inject_Z 20.
Definition reservePerSIDRate : QArith_base.Q := QArith_base.inject_Z 4.
Definition reserveMaxSIDs : Z := 1024.
Definition pendingPairTimeout : Z := 60 * second.
Definition statsInterval : Z := 60 * second.
Definition cookieEpoch : Z := 30 * second.

(** ** State *)

Record leg := mkLeg {
  addr : UDPAddr;
  fwd_ref : nat;      (* the [*fwd] *)
  acctKey : string;
  name : string;
  epk : string;
}.

Record fwd := mkFwd { peer : option UDPAddr; seen : Z }.

Record session := mkSession {
  token : string;
  legs : list leg;
  paired : bool;
  created : Z;
}.

(** What [s.mu] guards, the address index and the store of [fwd] records. *)
Record Table := mkTable {
  sessions : gmap string session;
  legsPerIP : gmap string Z;
  byAddr : gmap string nat;
  fwds : gmap nat fwd;
  next_ref : nat;
}.

Record Config := mkConfig {
  ttl : Z;
  allowed : list Prefix;
  cookieKey : string;
  maxSessions : Z;
  maxLegsPerIP : Z;
  pendingPair : Z;
  serverKeys : list string;
  relayID : string;
  debug : bool;
}.

Record Stats := mkStats {
  statPaired : Z; statChallenged : Z; statRejected : Z;
  statHoard : Z; statTicket : Z; statVerify : Z;
}.

(** A verification goroutine that has been started and has not finished. *)
Record Job := mkJob { j_bind : Bind; j_src : UDPAddr; j_acct : string; j_cookie : string }.

Record Server := mkServer {
  cfg : Config;
  bindRL : RateLimit.Limiter;
  sigRL : RateLimit.Limiter;
  reserveRL : RateLimit.Limiter;
  inFlight : list Job;
  tab : Table;
  stats : Stats;
  hoardWarned : gmap string Z;
  rejectWarned : gmap string Z;
}.

(** *** What a handler emits *)

Inductive LogLine :=
| LegCapHit (src : option string)
| TicketRejected (sid leg reason : string) (src : option string)
| WindowRejected (sid leg : string)
| SessionPaired (sid : string)
| SessionPairedAddrs (a b : UDPAddr)
| LegMigrated (sid leg : string)
| SessionClosed
| StatsLine (st : Stats).

Inductive Out := Send (pkt : string) (dst : UDPAddr) | Log (l : LogLine).

(** *** Field updates *)

Definition with_sessions (t : Table) m := mkTable m (legsPerIP t) (byAddr t) (fwds t) (next_ref t).
Definition with_legsPerIP (t : Table) m := mkTable (sessions t) m (byAddr t) (fwds t) (next_ref t).
Definition with_byAddr (t : Table) m := mkTable (sessions t) (legsPerIP t) m (fwds t) (next_ref t).
Definition with_fwds (t : Table) m := mkTable (sessions t) (legsPerIP t) (byAddr t) m (next_ref t).
Definition with_next (t : Table) n := mkTable (sessions t) (legsPerIP t) (byAddr t) (fwds t) n.

Definition with_bindRL (s : Server) x :=
  mkServer (cfg s) x (sigRL s) (reserveRL s) (inFlight s) (tab s) (stats s) (hoardWarned s) (rejectWarned s).
Definition with_sigRL (s : Server) x :=
  mkServer (cfg s) (bindRL s) x (reserveRL s) (inFlight s) (tab s) (stats s) (hoardWarned s) (rejectWarned s).
Definition with_reserveRL (s : Server) x :=
  mkServer (cfg s) (bindRL s) (sigRL s) x (inFlight s) (tab s) (stats s) (hoardWarned s) (rejectWarned s).
Definition with_inFlight (s : Server) x :=
  mkServer (cfg s) (bindRL s) (sigRL s) (reserveRL s) x (tab s) (stats s) (hoardWarned s) (rejectWarned s).
Definition with_tab (s : Server) x :=
  mkServer (cfg s) (bindRL s) (sigRL s) (reserveRL s) (inFlight s) x (stats s) (hoardWarned s) (rejectWarned s).
Definition with_stats (s : Server) x :=
  mkServer (cfg s) (bindRL s) (sigRL s) (reserveRL s) (inFlight s) (tab s) x (hoardWarned s) (rejectWarned s).
Definition with_hoardWarned (s : Server) x :=
  mkServer (cfg s) (bindRL s) (sigRL s) (reserveRL s) (inFlight s) (tab s) (stats s) x (rejectWarned s).
Definition with_rejectWarned (s : Server) x :=
  mkServer (cfg s) (bindRL s) (sigRL s) (reserveRL s) (inFlight s) (tab s) (stats s) (hoardWarned s) x.

Definition zero_stats : Stats := mkStats 0 0 0 0 0 0.
Definition add_paired (s : Server) := let t := stats s in with_stats s
  (mkStats (statPaired t + 1) (statChallenged t) (statRejected t) (statHoard t) (statTicket t) (statVerify t)).
Definition add_challenged (s : Server) := let t := stats s in with_stats s
  (mkStats (statPaired t) (statChallenged t + 1) (statRejected t) (statHoard t) (statTicket t) (statVerify t)).
Definition add_rejected (s : Server) := let t := stats s in with_stats s
  (mkStats (statPaired t) (statChallenged t) (statRejected t + 1) (statHoard t) (statTicket t) (statVerify t)).
Definition add_hoard (s : Server) := let t := stats s in with_stats s
  (mkStats (statPaired t) (statChallenged t) (statRejected t) (statHoard t + 1) (statTicket t) (statVerify t)).
Definition add_ticket (s : Server) := let t := stats s in with_stats s
  (mkStats (statPaired t) (statChallenged t) (statRejected t) (statHoard t) (statTicket t + 1) (statVerify t)).
Definition add_verify (s : Server) := let t := stats s in with_stats s
  (mkStats (statPaired t) (statChallenged t) (statRejected t) (statHoard t) (statTicket t) (statVerify t + 1)).

(** ** Construction *)

(** [Config] of the package, as the operator sets it. *)
Record Options := mkOptions {
  o_TTL : Z; o_ServerKeys : list string; o_RelayID : string; o_AllowCIDRs : list Prefix;
  o_MaxSessions : Z; o_MaxLegsPerIP : Z; o_Debug : bool;
}.

(** [New]; [key] is the random cookie key. *)
Definition New (o : Options) (key : string) (now : Z) : Server :=
  mkServer
    (mkConfig (o_TTL o) (o_AllowCIDRs o) key
       (if o_MaxSessions o <=? 0 then defaultMaxSessions else o_MaxSessions o)
       (if o_MaxLegsPerIP o <=? 0 then defaultMaxLegsPerIP else o_MaxLegsPerIP o)
       pendingPairTimeout (o_ServerKeys o) (o_RelayID o) (o_Debug o))
    (RateLimit.New rlGlobalRate rlSrcRate rlMaxSources now)
    (RateLimit.NewGlobal sigGlobalRate now)
    (RateLimit.New reserveRate reservePerSIDRate reserveMaxSIDs now)
    [] (mkTable ∅ ∅ ∅ ∅ 0) zero_stats ∅ ∅.

Definition ticketMode (c : Config) : bool := negb (length (serverKeys c) =? 0)%nat.

(** ** Cookies *)

Definition cookie_input (src : UDPAddr) (epoch : Z) : string :=
  be_bytes 8 epoch ⊕ To16 (IPof src) ⊕ be_bytes 2 (Port src).

Definition computeCookie (c : Config) (src : UDPAddr) (epoch : Z) : string :=
  take_s CookieLen (hmac_sha256 (cookieKey c) (cookie_input src epoch)).

(** [time.Now().UnixNano() / int64(cookieEpoch)] *)
Definition epoch_of (now : Z) : Z := Z.quot now cookieEpoch.

Definition freshCookie (c : Config) (src : UDPAddr) (now : Z) : string := computeCookie c src (epoch_of now).

Definition validCookie (c : Config) (b64 : string) (src : UDPAddr) (now : Z) : option string :=
  if String.eqb b64 "" then None else
  match RawURL.DecodeString b64 with
  | None => None
  | Some got =>
      if negb (slen got =? CookieLen)%nat then None
      else if String.eqb got (computeCookie c src (epoch_of now)) ||
              String.eqb got (computeCookie c src (epoch_of now - 1))
      then Some got else None
  end.

(** ** Throttled log lines *)

Definition throttleLocked (now : Z) (reason : string) (s : Server) : bool * Server :=
  match rejectWarned s !! reason with
  | Some last => if now - last <? statsInterval then (false, s) else
      if (64 <=? size (rejectWarned s))%nat then (false, s)
      else (true, with_rejectWarned s (<[reason := now]> (rejectWarned s)))
  | None =>
      if (64 <=? size (rejectWarned s))%nat then (false, s)
      else (true, with_rejectWarned s (<[reason := now]> (rejectWarned s)))
  end.

Definition rejectTicket (now : Z) (reason sid leg : string) (src : UDPAddr) (s : Server) : Server * list Out :=
  let s := add_ticket s in
  let '(ok, s) := throttleLocked now reason s in
  if ok then
    (s, [Log (TicketRejected (ShortSID sid) leg reason
                (if debug (cfg s) then Some (IP_String (IPof src)) else None))])
  else (s, []).

Definition rejectWindow (now : Z) (p : Payload) (s : Server) : Server * list Out :=
  let s := add_ticket s in
  let '(ok, s) := throttleLocked now (reason_text ReasonWindow) s in
  if ok then (s, [Log (WindowRejected (ShortSID (SID p)) (Leg p))]) else (s, []).

Definition warnHoardLocked (now : Z) (acct : string) (s : Server) : Server * list Out :=
  let fresh (t : Z) := now - t <? statsInterval in
  if (match hoardWarned s !! acct with Some last => fresh last | None => false end) then (s, []) else
  let full s := maxSessions (cfg s) <=? Z.of_nat (size (hoardWarned s)) in
  let s := if full s
           then with_hoardWarned s (filter (fun kt => fresh kt.2 = true) (hoardWarned s)) else s in
  if full s then (s, []) else
  (with_hoardWarned s (<[acct := now]> (hoardWarned s)),
   [Log (LegCapHit (if debug (cfg s) then Some acct else None))]).

(** ** The tables *)

Definition legs_held (t : Table) (acct : string) : Z := default 0 (legsPerIP t !! acct).

(** [s.legsPerIP[acct]++] *)
Definition chargeIP (acct : string) (t : Table) : Table :=
  with_legsPerIP t (<[acct := legs_held t acct + 1]> (legsPerIP t)).

Definition releaseIPLocked (acct : string) (t : Table) : Table :=
  if legs_held t acct <=? 1 then with_legsPerIP t (delete acct (legsPerIP t))
  else with_legsPerIP t (<[acct := legs_held t acct - 1]> (legsPerIP t)).

Definition load_fwd (t : Table) (r : nat) : fwd := default (mkFwd None 0) (fwds t !! r).

(** [f.peer.Store(a)] and [f.seen.Store(now)] *)
Definition store_peer (r : nat) (a : option UDPAddr) (t : Table) : Table :=
  with_fwds t (<[r := mkFwd a (seen (load_fwd t r))]> (fwds t)).
Definition store_seen (r : nat) (now : Z) (t : Table) : Table :=
  with_fwds t (<[r := mkFwd (peer (load_fwd t r)) now]> (fwds t)).

(** [&fwd{}] *)
Definition alloc_fwd (t : Table) : nat * Table :=
  (next_ref t, with_next (with_fwds t (<[next_ref t := mkFwd None 0]> (fwds t))) (S (next_ref t))).

Definition put_session (ses : session) (t : Table) : Table :=
  with_sessions t (<[token ses := ses]> (sessions t)).
Definition drop_session (tok : string) (t : Table) : Table :=
  with_sessions t (delete tok (sessions t)).
Definition index_addr (a : UDPAddr) (r : nat) (t : Table) : Table :=
  with_byAddr t (<[UDPAddr_String a := r]> (byAddr t)).
Definition unindex_addr (a : UDPAddr) (t : Table) : Table :=
  with_byAddr t (delete (UDPAddr_String a) (byAddr t)).

(** The partner pointers of a session with two legs; nothing otherwise. *)
Definition publish_peers (ses : session) (t : Table) : Table :=
  match legs ses with
  | [l0; l1] => store_peer (fwd_ref l1) (Some (addr l0)) (store_peer (fwd_ref l0) (Some (addr l1)) t)
  | _ => t
  end.

Definition dropIfEmptyLocked (new : bool) (ses : session) (t : Table) : Table :=
  if new && (length (legs ses) =? 0)%nat then drop_session (token ses) t else t.

(** [ses.legs = append(ses.legs, l)] with a fresh [fwd], its index entry and its
    charge. *)
Definition append_leg (ses : session) (src : UDPAddr) (acct nm key : string) (t : Table)
  : nat * session * Table :=
  let '(r, t) := alloc_fwd t in
  let ses := mkSession (token ses) (legs ses ++ [mkLeg src r acct nm key]) (paired ses) (created ses) in
  (r, ses, chargeIP acct (index_addr src r (put_session ses t))).

Definition set_paired (ses : session) : session := mkSession (token ses) (legs ses) true (created ses).

Definition ack (tok : string) (dst : UDPAddr) : Out := Send (MarshalBind (mkBind tok "" "" "" "")) dst.

(** ** Network mode *)

(** The session of a bind: found, or created and put in the table; [None] when
    the relay is at capacity. *)
Definition find_or_create (now : Z) (tok : string) (s : Server) : option (session * bool * Server) :=
  match sessions (tab s) !! tok with
  | Some ses => Some (ses, false, s)
  | None =>
      if maxSessions (cfg s) <=? Z.of_nat (size (sessions (tab s))) then None
      else let ses := mkSession tok [] false now in Some (ses, true, with_tab s (put_session ses (tab s)))
  end.

Definition on_tab (f : Table -> Table) (s : Server) : Server := with_tab s (f (tab s)).

Definition bindNetworkMode (now : Z) (src : UDPAddr) (acct tok : string) (s : Server) : Server * list Out :=
  match find_or_create now tok s with
  | None => (add_rejected s, [])
  | Some (ses, new, s) =>
      match find (fun l => String.eqb (UDPAddr_String (addr l)) (UDPAddr_String src)) (legs ses) with
      | Some found => (on_tab (store_seen (fwd_ref found) now) s, [ack tok src])
      | None =>
          if (maxLegsPerSes <=? length (legs ses))%nat then
            (on_tab (dropIfEmptyLocked new ses) (add_rejected s), [])
          else if maxLegsPerIP (cfg s) <=? legs_held (tab s) acct then
            let '(s, o) := warnHoardLocked now acct (add_hoard (add_rejected s)) in
            (on_tab (dropIfEmptyLocked new ses) s, o)
          else
            let '(r, ses, t) := append_leg ses src acct "" "" (tab s) in
            let s := with_tab s t in
            match legs ses with
            | [l0; l1] =>
                let ses := set_paired ses in
                (on_tab (fun t => store_seen r now (publish_peers ses (put_session ses t))) (add_paired s),
                 [Log (SessionPairedAddrs (addr l0) (addr l1)); ack tok src])
            | _ => (on_tab (store_seen r now) s, [ack tok src])
            end
      end
  end.

(** ** Ticket mode: allocation *)

Definition reasonNoTicket : string := "no ticket presented (this relay verifies tickets)".
Definition reasonEncoding : string := "ticket fields are not well-formed base64url".
Definition reasonSIDClaim : string := "bind names a different session than its ticket".
Definition reasonBudget : string := "verification budget exhausted".
Definition reasonInFlight : string := "too many verifications already in flight".
Definition reasonLegTaken : string := "leg already held by another ephemeral key".
Definition reasonLegCap : string := "session or source is at its leg cap".
Definition reasonCapacity : string := "relay is at capacity".
Definition reasonMigration : string := "address migration refused".

Definition pairLocked (ses : session) (s : Server) : session * Server * list Out :=
  if negb (length (legs ses) =? 2)%nat then (ses, s, [])
  else
    let ses := set_paired ses in
    (ses, on_tab (fun t => publish_peers ses (put_session ses t)) (add_paired s),
     [Log (SessionPaired (ShortSID (token ses)))]).

(** The first leg with a given name, and the list with that leg replaced. *)
Definition find_leg (nm : string) (ls : list leg) : option leg := find (fun l => String.eqb (name l) nm) ls.
Fixpoint replace_leg (nm : string) (l' : leg) (ls : list leg) : list leg :=
  match ls with
  | [] => []
  | l :: r => if String.eqb (name l) nm then l' :: r else l :: replace_leg nm l' r
  end.

Definition set_legs (ses : session) (ls : list leg) : session :=
  mkSession (token ses) ls (paired ses) (created ses).

(** The address migration at the end of [bindTicketed]. *)
Definition migrate (now : Z) (ses : session) (held : leg) (src : UDPAddr) (acct : string) (t : Table) : Table :=
  let t := unindex_addr (addr held) t in
  let t := if negb (String.eqb (acctKey held) acct)
           then chargeIP acct (releaseIPLocked (acctKey held) t) else t in
  let held' := mkLeg src (fwd_ref held) acct (name held) (epk held) in
  let ses' := set_legs ses (replace_leg (name held) held' (legs ses)) in
  let t := index_addr src (fwd_ref held) (put_session ses' t) in
  store_seen (fwd_ref held) now (publish_peers ses' t).

Definition bindTicketed (now : Z) (p : Payload) (src : UDPAddr) (acct : string) (s : Server)
  : Server * list Out :=
  let sid := SID p in
  match find_or_create now sid s with
  | None => rejectTicket now reasonCapacity sid (Leg p) src (add_rejected s)
  | Some (ses, new, s) =>
      match find_leg (Leg p) (legs ses) with
      | None =>
          if (maxLegsPerSes <=? length (legs ses))%nat then
            rejectTicket now reasonLegCap sid (Leg p) src
              (add_rejected (on_tab (dropIfEmptyLocked new ses) s))
          else if maxLegsPerIP (cfg s) <=? legs_held (tab s) acct then
            let '(s, o1) := warnHoardLocked now acct (add_hoard s) in
            let '(s, o2) := rejectTicket now reasonLegCap sid (Leg p) src
                              (add_rejected (on_tab (dropIfEmptyLocked new ses) s)) in
            (s, o1 ++ o2)
          else
            let '(r, ses, t) := append_leg ses src acct (Leg p) (EPK p) (tab s) in
            let '(ses, s, o) := pairLocked ses (with_tab s t) in
            (on_tab (store_seen r now) s, o ++ [ack sid src])
      | Some held =>
          if negb (String.eqb (epk held) (EPK p)) then
            rejectTicket now reasonLegTaken sid (Leg p) src
              (add_rejected (on_tab (dropIfEmptyLocked new ses) s))
          else if String.eqb (UDPAddr_String (addr held)) (UDPAddr_String src) then
            (on_tab (store_seen (fwd_ref held) now) s, [ack sid src])
          else if negb (String.eqb (acctKey held) acct) && (maxLegsPerIP (cfg s) <=? legs_held (tab s) acct) then
            rejectTicket now reasonMigration sid (Leg p) src (add_rejected s)
          else
            (on_tab (migrate now ses held src acct) s,
             [Log (LegMigrated (ShortSID sid) (Leg p)); ack sid src])
      end
  end.

(** ** Ticket mode: admission and verification *)

Section Server.
Context `{Ed25519}.

(** The three base64url fields, with the two signature sizes. *)
Definition decode_ticket_fields (b : Bind) : option (string * string * string) :=
  payload ← RawURL.DecodeString (b_Ticket b);
  sig ← RawURL.DecodeString (b_TicketSig b);
  if negb (slen sig =? SignatureSize)%nat then None else
  bindSig ← RawURL.DecodeString (b_BindSig b);
  if negb (slen bindSig =? SignatureSize)%nat then None else
  Some (payload, sig, bindSig).

(** A refusal: [rejectTicket] with a reason, session id and leg, or
    [rejectWindow] with the payload. *)
Inductive Refusal := RTicket (reason sid leg : string) | RWindow (p : Payload).

(** The checks of [verifyTicketBind] after the decoding, in order. *)
Definition check_ticket (c : Config) (tok payload sig bindSig cookie : string) (now : Z)
  : result Refusal Payload :=
  guard! Verify (serverKeys c) payload sig else (RTicket (reason_text ReasonSignature) tok "") in
  match Parse payload with
  | Err e => Err (RTicket (reason_text e) tok "")
  | Ok p =>
      guard! is_ok (CheckWindow p now) else (RWindow p) in
      guard! is_ok (CheckRelay p (relayID c)) else (RTicket (reason_text ReasonRelay) (SID p) (Leg p)) in
      guard! String.eqb tok (SID p) else (RTicket reasonSIDClaim (SID p) (Leg p)) in
      match EphPub p with
      | None => Err (RTicket (reason_text ReasonMalformed) (SID p) (Leg p))
      | Some epk =>
          guard! is_ok (VerifyBind epk payload sig cookie bindSig)
            else (RTicket (reason_text ReasonProof) (SID p) (Leg p)) in
          Ok p
      end
  end.

Definition refuse (now : Z) (r : Refusal) (src : UDPAddr) (s : Server) : Server * list Out :=
  match r with
  | RTicket reason sid lg => rejectTicket now reason sid lg src s
  | RWindow p => rejectWindow now p s
  end.

Definition verifyTicketBind (now : Z) (j : Job) (s : Server) : Server * list Out :=
  match decode_ticket_fields (j_bind j) with
  | None => rejectTicket now reasonEncoding (b_SessionToken (j_bind j)) "" (j_src j) s
  | Some (payload, sig, bindSig) =>
      let s := add_verify s in
      match check_ticket (cfg s) (b_SessionToken (j_bind j)) payload sig bindSig (j_cookie j) now with
      | Err r => refuse now r (j_src j) s
      | Ok p => bindTicketed now p (j_src j) (j_acct j) s
      end
  end.

Definition halfOpen (sid : string) (t : Table) : bool :=
  match sessions t !! sid with Some ses => (length (legs ses) =? 1)%nat | None => false end.

(** The budget a bind draws from: the reserve when its session is half open,
    the global one otherwise or when the reserve is spent. *)
Definition draw_budget (now : Z) (sid : string) (s : Server) : bool * Server :=
  let '(admitted, s) :=
    if halfOpen sid (tab s)
    then let '(ok, l) := RateLimit.Allow now sid (reserveRL s) in (ok, with_reserveRL s l)
    else (false, s) in
  if admitted then (true, s)
  else let '(ok, l) := RateLimit.AllowGlobal now (sigRL s) in (ok, with_sigRL s l).

Definition admitTicketBind (now : Z) (b : Bind) (src : UDPAddr) (acct cookie : string) (s : Server)
  : Server * list Out :=
  if String.eqb (b_Ticket b) "" || String.eqb (b_TicketSig b) "" || String.eqb (b_BindSig b) "" then
    rejectTicket now reasonNoTicket (b_SessionToken b) "" src s
  else
    let sid := b_SessionToken b in
    let '(ok, s) := draw_budget now sid s in
    if negb ok then rejectTicket now reasonBudget sid "" src (add_rejected s)
    else if (maxSigInFlight <=? length (inFlight s))%nat then
      rejectTicket now reasonInFlight sid "" src (add_rejected s)
    else (with_inFlight s (inFlight s ++ [mkJob b src acct cookie]), []).

(** ** The packet handlers *)

Definition bind (now : Z) (b : Bind) (src : UDPAddr) (reqLen : nat) (s : Server) : Server * list Out :=
  if negb (cidrAllowed (allowed (cfg s)) (IPof src)) then (add_rejected s, []) else
  let acct := FromIP (IPof src) in
  let '(ok, l) := RateLimit.Allow now acct (bindRL s) in
  let s := with_bindRL s l in
  if negb ok then (add_rejected s, []) else
  match validCookie (cfg s) (b_Cookie b) src now with
  | None =>
      let chal := MarshalChallenge (freshCookie (cfg s) src now) in
      (add_challenged s, if (slen chal <? reqLen)%nat then [Send chal src] else [])
  | Some cookie =>
      if ticketMode (cfg s) then admitTicketBind now b src acct cookie s
      else bindNetworkMode now src acct (b_SessionToken b) s
  end.

Definition forward (now : Z) (src : UDPAddr) (pkt : string) (s : Server) : Server * list Out :=
  match byAddr (tab s) !! UDPAddr_String src with
  | None => (s, [])
  | Some r =>
      (on_tab (store_seen r now) s,
       match peer (load_fwd (tab s) r) with Some dst => [Send pkt dst] | None => [] end)
  end.

(** One datagram of [Run]'s loop. *)
Definition packet (now : Z) (pkt : string) (src : UDPAddr) (s : Server) : Server * list Out :=
  match ParseBind pkt with
  | Some b => bind now b src (slen pkt) s
  | None => forward now src pkt s
  end.

(** ** The reaper *)

(** Forget a leg: its index entry and its charge. *)
Definition forget_leg (t : Table) (l : leg) : Table := releaseIPLocked (acctKey l) (unindex_addr (addr l) t).

Definition idle (now ttl : Z) (t : Table) (l : leg) : bool := ttl <? now - seen (load_fwd t (fwd_ref l)).

Definition reap_session (now : Z) (c : Config) (tok : string) (t : Table) : Table * list Out :=
  match sessions t !! tok with
  | None => (t, [])
  | Some ses =>
      if negb (paired ses) && (pendingPair c <? now - created ses) then
        (drop_session tok (foldl forget_leg t (legs ses)), [])
      else
        let kept := List.filter (fun l => negb (idle now (ttl c) t l)) (legs ses) in
        let t1 := foldl forget_leg t (List.filter (idle now (ttl c) t) (legs ses)) in
        let t2 := with_sessions t1 (<[tok := set_legs ses kept]> (sessions t1)) in
        match kept with
        | [] => (drop_session tok t2, if paired ses then [Log SessionClosed] else [])
        | [l] => (store_peer (fwd_ref l) None t2, [])
        | _ => (t2, [])
        end
  end.

Fixpoint reap_sessions (now : Z) (c : Config) (order : list string) (t : Table) : Table * list Out :=
  match order with
  | [] => (t, [])
  | tok :: order' =>
      let '(t1, o1) := reap_session now c tok t in
      let '(t2, o2) := reap_sessions now c order' t1 in
      (t2, o1 ++ o2)
  end.

(** One tick of [reap]; [order] is the order in which the loop visits the
    session map. *)
Definition reap (now : Z) (order : list string) (s : Server) : Server * list Out :=
  let '(t, o) := reap_sessions now (cfg s) order (tab s) in
  let recent (kt : string * Z) := now - kt.2 < statsInterval in
  (with_rejectWarned (with_hoardWarned (with_tab s t)
     (filter recent (hoardWarned s))) (filter recent (rejectWarned s)), o).

(** One tick of [statsLoop]; [panics] is the process-wide count since the
    previous one. *)
Definition statsTick (panics : Z) (s : Server) : Server * list Out :=
  let t := stats s in
  (with_stats s zero_stats,
   if (statPaired t =? 0) && (statChallenged t =? 0) && (statRejected t =? 0) &&
      (statHoard t =? 0) && (statTicket t =? 0) && (statVerify t =? 0) && (panics =? 0)
   then [] else [Log (StatsLine t)]).

(** ** Runs *)

Inductive Event :=
| EvPacket (now : Z) (pkt : string) (src : UDPAddr)
| EvVerify (now : Z) (n : nat)      (* the [n]-th verification in flight runs *)
| EvReap (now : Z) (order : list string)
| EvStats (panics : Z).

Definition step (e : Event) (s : Server) : Server * list Out :=
  match e with
  | EvPacket now pkt src => packet now pkt src s
  | EvVerify now n =>
      match inFlight s !! n with
      | None => (s, [])
      | Some j => verifyTicketBind now j (with_inFlight s (delete n (inFlight s)))
      end
  | EvReap now order => reap now order s
  | EvStats panics => statsTick panics s
  end.

Fixpoint run (es : list Event) (s : Server) : Server * list Out :=
  match es with
  | [] => (s, [])
  | e :: es' =>
      let '(s1, o1) := step e s in
      let '(s2, o2) := run es' s1 in
      (s2, o1 ++ o2)
  end.
End Server.
