(* ===== verification/RelayInv.v ===== *)
(** * The relay server: the table invariant

    What holds of the session table, the per-source counts, the address index
    and the forwarding records after every operation, and that each operation
    keeps it. *)

From S2P Require Import Prelude Sha256 NetAddr Crypto Ticket RelayWire RelayServer.

(** ** All legs of a table *)

Definition legs_of (m : gmap string session) : list leg := concat (legs <$> (map_to_list m).*2).

Lemma elem_legs_of m l : l ∈ legs_of m <-> exists tok ses, m !! tok = Some ses /\ l ∈ legs ses.
Proof.
  unfold legs_of. rewrite list_elem_of_In, in_concat. split.
  - intros (ls & Hls & Hl). apply list_elem_of_In, list_elem_of_fmap in Hls as (ses & -> & Hs).
    apply list_elem_of_fmap in Hs as ([tok ses'] & -> & Hs%elem_of_map_to_list).
    exists tok, ses'. split; [done | by apply list_elem_of_In].
  - intros (tok & ses & Hs%elem_of_map_to_list & Hl). exists (legs ses).
    split; [| by apply list_elem_of_In]. apply list_elem_of_In, list_elem_of_fmap.
    exists ses. split; [done |]. apply list_elem_of_fmap. by exists (tok, ses).
Qed.

Lemma legs_of_fresh m tok ses :
  m !! tok = None -> legs_of (<[tok := ses]> m) ≡ₚ legs ses ++ legs_of m.
Proof.
  intros H. unfold legs_of. rewrite (map_to_list_insert m tok ses H). reflexivity.
Qed.

Lemma legs_of_insert m tok ses :
  legs_of (<[tok := ses]> m) ≡ₚ legs ses ++ legs_of (delete tok m).
Proof. rewrite <- insert_delete_eq. apply legs_of_fresh, lookup_delete_eq. Qed.

Lemma legs_of_split m tok :
  legs_of m ≡ₚ from_option legs [] (m !! tok) ++ legs_of (delete tok m).
Proof.
  destruct (m !! tok) as [ses |] eqn:E; simpl.
  - rewrite <- legs_of_insert, insert_id by done. done.
  - by rewrite delete_id.
Qed.

Lemma legs_of_empty : legs_of ∅ = [].
Proof. reflexivity. Qed.

(** ** The parts of the invariant, each over the list of all legs *)

Definition held_by (acct : string) (l : leg) : bool := String.eqb (acctKey l) acct.

(** The per-source counts mirror the legs, with no entry at zero. *)
Definition mirrors (m : gmap string Z) (L : list leg) : Prop :=
  forall acct, m !! acct =
    (if (count_if (held_by acct) L =? 0)%nat then None else Some (Z.of_nat (count_if (held_by acct) L))).

(** Every index entry names the forwarding record of a leg at that address. *)
Definition indexes (b : gmap string nat) (L : list leg) : Prop :=
  forall a r, b !! a = Some r -> exists l, l ∈ L /\ UDPAddr_String (addr l) = a /\ fwd_ref l = r.

Definition peer_at (t : Table) (r : nat) : option UDPAddr := peer (load_fwd t r).

(** One leg forwards nowhere; two legs forward to each other. *)
Definition legs_ok (pa : nat -> option UDPAddr) (ls : list leg) : Prop :=
  match ls with
  | [l] => pa (fwd_ref l) = None
  | [l0; l1] => pa (fwd_ref l0) = Some (addr l1) /\ pa (fwd_ref l1) = Some (addr l0)
  | _ => False
  end.

Record tab_inv (c : Config) (t : Table) : Prop := {
  ti_token : map_Forall (fun tok ses => token ses = tok) (sessions t);
  ti_cap : Z.of_nat (size (sessions t)) <= Z.max 0 (maxSessions c);
  ti_legs : map_Forall (fun _ ses => legs_ok (peer_at t) (legs ses)) (sessions t);
  ti_names : ticketMode c = true -> map_Forall (fun _ ses => NoDup (name <$> legs ses)) (sessions t);
  ti_refs : NoDup (fwd_ref <$> legs_of (sessions t));
  ti_next : Forall (fun l => (fwd_ref l < next_ref t)%nat) (legs_of (sessions t));
  ti_count : mirrors (legsPerIP t) (legs_of (sessions t));
  ti_ipcap : forall acct, Z.of_nat (count_if (held_by acct) (legs_of (sessions t)))
                          <= Z.max 0 (maxLegsPerIP c);
  ti_index : indexes (byAddr t) (legs_of (sessions t));
}.

#[export] Instance mirrors_perm m : Proper ((≡ₚ) ==> iff) (mirrors m).
Proof.
  intros L K HP. unfold mirrors.
  split; intros H acct; rewrite H, (count_if_Permutation _ _ _ HP); reflexivity.
Qed.

#[export] Instance indexes_perm b : Proper ((≡ₚ) ==> iff) (indexes b).
Proof.
  intros L K HP. unfold indexes.
  split; intros H a r Hb; destruct (H a r Hb) as (l & Hl & ?); exists l; (split; [| done]); by rewrite HP in * || rewrite <- HP.
Qed.

Lemma mirrors_held t L acct :
  mirrors (legsPerIP t) L -> legs_held t acct = Z.of_nat (count_if (held_by acct) L).
Proof.
  intros H. unfold legs_held. rewrite H. destruct (_ =? 0)%nat eqn:E; simpl; [breflect; lia | done].
Qed.

(** *** Charging and releasing *)

Lemma charge_mirrors t L l :
  mirrors (legsPerIP t) L -> mirrors (legsPerIP (chargeIP (acctKey l) t)) (l :: L).
Proof.
  intros H acct. unfold chargeIP. cbn [legsPerIP with_legsPerIP count_if]. unfold held_by at 1 3.
  destruct (String.eqb_spec (acctKey l) acct) as [<- | Hne].
  - rewrite lookup_insert_eq, (mirrors_held _ _ _ H). cbn. f_equal. lia.
  - rewrite lookup_insert_ne by done. apply H.
Qed.

Lemma release_mirrors t L l :
  mirrors (legsPerIP t) (l :: L) -> mirrors (legsPerIP (releaseIPLocked (acctKey l) t)) L.
Proof.
  intros H acct. unfold releaseIPLocked. rewrite (mirrors_held _ _ _ H).
  cbn [count_if]. assert (held_by (acctKey l) l = true) as -> by apply String.eqb_refl.
  specialize (H acct). cbn [count_if] in H. unfold held_by at 1 3 in H.
  destruct (Z.leb_spec (Z.of_nat (1 + count_if (held_by (acctKey l)) L)) 1) as [Hle | Hgt];
    cbn [legsPerIP with_legsPerIP]; destruct (String.eqb_spec (acctKey l) acct) as [Heq | Hne]; try subst acct.
  - rewrite lookup_delete_eq. destruct (Nat.eqb_spec (count_if (held_by (acctKey l)) L) 0); [done | lia].
  - rewrite lookup_delete_ne by done. exact H.
  - rewrite lookup_insert_eq. destruct (Nat.eqb_spec (count_if (held_by (acctKey l)) L) 0); [lia |].
    f_equal. cbn [Nat.add]. lia.
  - rewrite lookup_insert_ne by done. exact H.
Qed.

Lemma unindex_indexes b L l :
  indexes b (l :: L) -> indexes (delete (UDPAddr_String (addr l)) b) L.
Proof.
  intros H a r Hb. apply lookup_delete_Some in Hb as [Hne Hb].
  destruct (H a r Hb) as (l' & [-> | Hl]%elem_of_cons & Ha & Hr); [congruence | eauto].
Qed.

Lemma index_indexes b L l :
  indexes b L -> indexes (<[UDPAddr_String (addr l) := fwd_ref l]> b) (l :: L).
Proof.
  intros H a r Hb. apply lookup_insert_Some in Hb as [[<- <-] | [_ Hb]].
  - exists l. split; [by left | done].
  - destruct (H a r Hb) as (l' & Hl & ?). exists l'. split; [by right | done].
Qed.

(** *** Forwarding records *)

Lemma peer_at_seen t r now r' : peer_at (store_seen r now t) r' = peer_at t r'.
Proof.
  unfold peer_at, store_seen, load_fwd at 1. cbn [fwds with_fwds].
  destruct (decide (r = r')) as [<- | Hne].
  - by rewrite lookup_insert_eq.
  - by rewrite lookup_insert_ne.
Qed.

Lemma peer_at_store t r a r' :
  peer_at (store_peer r a t) r' = if decide (r' = r) then a else peer_at t r'.
Proof.
  unfold peer_at, store_peer, load_fwd at 1. cbn [fwds with_fwds].
  destruct (decide (r' = r)) as [-> | Hne].
  - by rewrite lookup_insert_eq.
  - by rewrite lookup_insert_ne.
Qed.

Lemma legs_ok_ext pa pa' ls :
  (forall l, l ∈ ls -> pa' (fwd_ref l) = pa (fwd_ref l)) -> legs_ok pa ls -> legs_ok pa' ls.
Proof.
  intros H. destruct ls as [| l0 [| l1 [| l2 ls]]]; simpl; try done.
  - rewrite H by set_solver. done.
  - rewrite !H by set_solver. done.
Qed.

Lemma tab_inv_seen c t r now : tab_inv c t -> tab_inv c (store_seen r now t).
Proof.
  intros [? ? Hl ? ? ? ? ? ?]. split; try done.
  intros tok ses Hs. eapply legs_ok_ext; [| exact (Hl tok ses Hs)].
  intros l _. apply peer_at_seen.
Qed.

(** ** Claiming a leg *)

(** What the accepting paths of [bindNetworkMode] and [bindTicketed] do to the
    table when the leg is free. *)
Definition claim (now : Z) (ses : session) (src : UDPAddr) (acct nm key : string) (t : Table) : Table :=
  let '(r, ses, t) := append_leg ses src acct nm key t in
  store_seen r now
    (match legs ses with
     | [_; _] => publish_peers (set_paired ses) (put_session (set_paired ses) t)
     | _ => t
     end).

Record claimed (ses : session) (new : leg) (t t' : Table) : Prop := {
  cl_sessions : exists ses', token ses' = token ses /\ legs ses' = legs ses ++ [new] /\
                  sessions t' = <[token ses := ses']> (sessions t);
  cl_legsPerIP : legsPerIP t' = legsPerIP (chargeIP (acctKey new) t);
  cl_byAddr : byAddr t' = <[UDPAddr_String (addr new) := fwd_ref new]> (byAddr t);
  cl_next : next_ref t' = S (next_ref t);
  cl_other : forall r, r ≠ fwd_ref new -> r ∉ (fwd_ref <$> legs ses) -> peer_at t' r = peer_at t r;
  cl_legs : legs_ok (peer_at t') (legs ses ++ [new]);
}.

Lemma claim_fields now ses src acct nm key t :
  (length (legs ses) < maxLegsPerSes)%nat ->
  Forall (fun l => (fwd_ref l < next_ref t)%nat) (legs ses) ->
  claimed ses (mkLeg src (next_ref t) acct nm key) t (claim now ses src acct nm key t).
Proof.
  intros Hlen Hnext. unfold claim, append_leg, alloc_fwd. destruct ses as [tok ls pd cr].
  cbn [legs token] in *. destruct ls as [| l0 [| l1 ls]]; [| | unfold maxLegsPerSes in Hlen; simpl in Hlen; lia].
  - cbn [app legs]. split; cbn [addr acctKey fwd_ref]; try done.
    + exists (mkSession tok [mkLeg src (next_ref t) acct nm key] pd cr). by split_and!.
    + intros r Hr _. rewrite peer_at_seen. unfold peer_at, load_fwd. cbn. by rewrite lookup_insert_ne.
    + cbn [app legs legs_ok fwd_ref]. rewrite peer_at_seen. unfold peer_at, load_fwd. cbn.
      by rewrite lookup_insert_eq.
  - rewrite Forall_singleton in Hnext. cbn [app legs set_paired publish_peers token].
    split; cbn [addr acctKey fwd_ref]; try done.
    + exists (mkSession tok [l0; mkLeg src (next_ref t) acct nm key] true cr).
      split_and!; [done | done | cbn; by rewrite insert_insert_eq].
    + intros r Hr Hin. rewrite peer_at_seen, !peer_at_store.
      rewrite !decide_False by (cbn [fwd_ref]; set_solver).
      unfold peer_at, load_fwd. cbn. by rewrite lookup_insert_ne.
    + cbn [app legs legs_ok fwd_ref addr]. rewrite !peer_at_seen, !peer_at_store. cbn [fwd_ref addr].
      rewrite (decide_False (P := fwd_ref l0 = next_ref t)) by lia.
      rewrite !decide_True by done. done.
Qed.

(** The session a bind claims a leg of: in the table, or new with room for it. *)
Definition claimable (c : Config) (t : Table) (ses : session) : Prop :=
  sessions t !! token ses = Some ses \/
  (sessions t !! token ses = None /\ legs ses = [] /\ Z.of_nat (size (sessions t)) < maxSessions c).

Lemma claimable_legs c t ses :
  claimable c t ses -> legs_of (sessions t) ≡ₚ legs ses ++ legs_of (delete (token ses) (sessions t)).
Proof.
  intros [H | (H & Hl & _)]; rewrite (legs_of_split (sessions t) (token ses)) at 1; rewrite H; simpl;
    [done | by rewrite Hl].
Qed.

Lemma claimed_inv c ses new t t' :
  tab_inv c t -> claimable c t ses -> claimed ses new t t' ->
  fwd_ref new = next_ref t -> legs_held t (acctKey new) < maxLegsPerIP c ->
  (ticketMode c = true -> name new ∉ (name <$> legs ses)) ->
  tab_inv c t'.
Proof.
  intros [Htok Hcap Hlegs Hnames Hrefs Hnext Hcount Hip Hidx] Hcl
    [(ses' & Ht' & Hl' & Hs') Hleg Hby Hnx Hoth Hok] Hnew Hroom Hnm.
  pose proof (claimable_legs _ _ _ Hcl) as HP.
  assert (HP' : legs_of (sessions t') ≡ₚ new :: legs_of (sessions t)).
  { rewrite Hs', legs_of_insert, Hl', HP. rewrite <- app_assoc. simpl. by rewrite Permutation_middle. }
  assert (Hfresh : forall l, l ∈ legs_of (sessions t) -> fwd_ref l ≠ fwd_ref new).
  { intros l Hl. rewrite Forall_forall in Hnext. specialize (Hnext l Hl). lia. }
  split.
  - rewrite Hs'. apply map_Forall_insert_2; [by rewrite Ht' | done].
  - rewrite Hs'. destruct Hcl as [H | (H & _ & Hsz)].
    + rewrite map_size_insert, H. done.
    + rewrite map_size_insert, H. simpl. lia.
  - rewrite Hs'. intros tok s. rewrite lookup_insert_Some. intros [[<- <-] | [Hne Hs]].
    + by rewrite Hl'.
    + eapply legs_ok_ext; [| exact (Hlegs tok s Hs)]. intros l Hl. apply Hoth.
      * apply Hfresh, elem_legs_of. eauto.
      * intros (l2 & E & Hl2)%list_elem_of_fmap.
        rewrite HP, fmap_app in Hrefs. apply NoDup_app in Hrefs as (_ & Hd & _).
        apply (Hd (fwd_ref l)); [rewrite E; by apply list_elem_of_fmap_2 |].
        apply list_elem_of_fmap_2, elem_legs_of. exists tok, s. split; [| done].
        by rewrite lookup_delete_ne.
  - intros Htm. rewrite Hs'. apply map_Forall_insert_2; [| by apply Hnames].
    rewrite Hl', fmap_app. apply NoDup_app. split_and!.
    + destruct Hcl as [H | (_ & -> & _)]; [by apply (Hnames Htm (token ses)) | constructor].
    + intros x Hx ->%list_elem_of_singleton. by apply Hnm.
    + apply NoDup_singleton.
  - rewrite HP'. simpl. apply NoDup_cons. split; [| done].
    intros (l & E & Hl)%list_elem_of_fmap. by apply (Hfresh l).
  - rewrite HP', Hnx. apply Forall_cons. split; [lia |].
    eapply Forall_impl; [exact Hnext |]. simpl. lia.
  - rewrite HP', Hleg. by apply charge_mirrors.
  - intros acct. rewrite (count_if_Permutation _ _ _ HP'). cbn [count_if].
    unfold held_by at 1. destruct (String.eqb_spec (acctKey new) acct) as [<- | Hne]; [| apply Hip].
    rewrite (mirrors_held _ _ _ Hcount) in Hroom. lia.
  - rewrite HP', Hby. by apply index_indexes.
Qed.

(** ** Forgetting legs *)

Lemma forget_legs ls : forall t L,
  mirrors (legsPerIP t) (ls ++ L) -> indexes (byAddr t) (ls ++ L) ->
  let t' := foldl forget_leg t ls in
  sessions t' = sessions t /\ fwds t' = fwds t /\ next_ref t' = next_ref t /\
  mirrors (legsPerIP t') L /\ indexes (byAddr t') L.
Proof.
  induction ls as [| l ls IH]; intros t L Hm Hi; cbn [foldl app] in *; [done |].
  assert (E : forall x, sessions (forget_leg t l) = sessions t /\ fwds (forget_leg t l) = fwds t /\
            next_ref (forget_leg t l) = next_ref t /\
            byAddr (forget_leg t l) = delete (UDPAddr_String (addr l)) (byAddr t) /\ x = x :> unit).
  { intros x. unfold forget_leg, releaseIPLocked. by destruct (_ <=? _). }
  destruct (E tt) as (E1 & E2 & E3 & E4 & _).
  destruct (IH (forget_leg t l) L) as (H1 & H2 & H3 & H4).
  - apply (release_mirrors (unindex_addr (addr l) t)). exact Hm.
  - rewrite E4. by apply unindex_indexes.
  - split_and!; try apply H4; congruence.
Qed.

Lemma filter_split_perm {A} (p : A -> bool) l :
  l ≡ₚ List.filter p l ++ List.filter (fun x => negb (p x)) l.
Proof.
  induction l as [| x l IH]; simpl; [done |]. destruct (p x); simpl; [by rewrite <- IH |].
  rewrite <- Permutation_middle. by rewrite <- IH.
Qed.

(** A table with fewer legs, its counts and index following. *)
Lemma shrink_inv c t t' gone :
  tab_inv c t -> legs_of (sessions t) ≡ₚ gone ++ legs_of (sessions t') ->
  map_Forall (fun tok ses => token ses = tok) (sessions t') ->
  (size (sessions t') <= size (sessions t))%nat ->
  map_Forall (fun _ ses => legs_ok (peer_at t') (legs ses)) (sessions t') ->
  (ticketMode c = true -> map_Forall (fun _ ses => NoDup (name <$> legs ses)) (sessions t')) ->
  next_ref t' = next_ref t ->
  mirrors (legsPerIP t') (legs_of (sessions t')) -> indexes (byAddr t') (legs_of (sessions t')) ->
  tab_inv c t'.
Proof.
  intros [Htok Hcap Hlegs Hnames Hrefs Hnext Hcount Hip Hidx] HP Ht Hs Hl Hn Hnx Hm Hi.
  split; try done.
  - lia.
  - rewrite HP, fmap_app in Hrefs. by apply NoDup_app in Hrefs as (_ & _ & ?).
  - rewrite HP in Hnext. apply Forall_app in Hnext as [_ Hnext]. by rewrite Hnx.
  - intros acct. specialize (Hip acct). rewrite (count_if_Permutation _ _ _ HP), count_if_app in Hip. lia.
Qed.

(** Dropping a whole session. *)
Lemma drop_inv c t t' tok ses :
  tab_inv c t -> sessions t !! tok = Some ses -> sessions t' = delete tok (sessions t) ->
  fwds t' = fwds t -> next_ref t' = next_ref t ->
  mirrors (legsPerIP t') (legs_of (delete tok (sessions t))) ->
  indexes (byAddr t') (legs_of (delete tok (sessions t))) -> tab_inv c t'.
Proof.
  intros HI Hses Hs Hf Hn Hm Hi. pose proof HI as [Htok _ Hlegs Hnames _ _ _ _ _].
  apply (shrink_inv c t t' (legs ses)); rewrite ?Hs; try done.
  - by rewrite (legs_of_split _ tok), Hses.
  - by apply map_Forall_delete.
  - apply map_size_delete_le.
  - apply map_Forall_delete. intros k s Hk. eapply legs_ok_ext; [| exact (Hlegs k s Hk)].
    intros l _. unfold peer_at, load_fwd. by rewrite Hf.
  - intros Htm. by apply map_Forall_delete, Hnames.
Qed.

Lemma other_session_refs t tok ses tok' ses' l l' :
  NoDup (fwd_ref <$> legs_of (sessions t)) ->
  sessions t !! tok = Some ses -> sessions t !! tok' = Some ses' -> tok <> tok' ->
  l ∈ legs ses -> l' ∈ legs ses' -> fwd_ref l <> fwd_ref l'.
Proof.
  intros Hnd H H' Hne Hl Hl' E. rewrite (legs_of_split _ tok), H, fmap_app in Hnd.
  apply NoDup_app in Hnd as (_ & Hd & _). apply (Hd (fwd_ref l)).
  - by apply list_elem_of_fmap_2.
  - rewrite E. apply list_elem_of_fmap_2, elem_legs_of. exists tok', ses'.
    by rewrite lookup_delete_ne.
Qed.

(** Keeping one leg of a session, which then forwards nowhere. *)
Lemma keep_one_inv c t t' tok ses l gone :
  tab_inv c t -> sessions t !! tok = Some ses -> legs ses ≡ₚ gone ++ [l] ->
  sessions t' = <[tok := set_legs ses [l]]> (sessions t) -> next_ref t' = next_ref t ->
  (forall r, peer_at t' r = if decide (r = fwd_ref l) then None else peer_at t r) ->
  mirrors (legsPerIP t') (legs_of (sessions t')) -> indexes (byAddr t') (legs_of (sessions t')) ->
  tab_inv c t'.
Proof.
  intros HI Hses HPl Hs Hn Hp Hm Hi. pose proof HI as [Htok _ Hlegs Hnames Hrefs _ _ _ _].
  assert (Hl : l ∈ legs ses) by (rewrite HPl; set_solver).
  apply (shrink_inv c t t' gone); rewrite ?Hs in *; try done.
  - rewrite (legs_of_split _ tok), Hses, legs_of_insert. simpl. rewrite HPl, <- app_assoc. done.
  - apply map_Forall_insert_2; [exact (Htok tok ses Hses) | done].
  - rewrite map_size_insert, Hses. done.
  - intros k s Hk. apply lookup_insert_Some in Hk as [[<- <-] | [Hne Hk]].
    + cbn. rewrite Hp, decide_True by done. done.
    + eapply legs_ok_ext; [| exact (Hlegs k s Hk)]. intros l' Hl'. rewrite Hp, decide_False; [done |].
      intros E. by eapply (other_session_refs t tok ses k s l l').
  - intros Htm. apply map_Forall_insert_2; [apply NoDup_singleton | by apply Hnames].
Qed.

Lemma filter_none {A} (p : A -> bool) l :
  List.filter p l = [] -> List.filter (fun x => negb (p x)) l = l.
Proof. induction l as [| x l IH]; simpl; [done |]. destruct (p x); simpl; [done |]. intros. by f_equal; auto. Qed.

Lemma legs_ok_length pa ls : legs_ok pa ls -> (1 <= length ls <= 2)%nat.
Proof. destruct ls as [| ? [| ? [| ? ?]]]; simpl; try done; lia. Qed.

Lemma set_legs_id ses : set_legs ses (legs ses) = ses.
Proof. by destruct ses. Qed.

Lemma reap_session_inv c now tok t : tab_inv c t -> tab_inv c (reap_session now c tok t).1.
Proof.
  intros HI. unfold reap_session. destruct (sessions t !! tok) as [ses |] eqn:Hses; [| done].
  pose proof HI as [Htok _ Hlegs Hnames _ _ Hcount _ Hidx].
  assert (HL : legs_of (sessions t) ≡ₚ legs ses ++ legs_of (delete tok (sessions t)))
    by (by rewrite (legs_of_split _ tok) at 1; rewrite Hses).
  destruct (_ && _); cbn [fst].
  - rewrite HL in Hcount, Hidx.
    destruct (forget_legs _ _ _ Hcount Hidx) as (E1 & E2 & E3 & E4 & E5).
    eapply drop_inv; [exact HI | exact Hses | cbn; by rewrite E1 | done | done | done | done].
  - pose proof (filter_split_perm (idle now (ttl c) t) (legs ses)) as HPk.
    pose proof (filter_none (idle now (ttl c) t) (legs ses)) as Hall.
    set (gone := List.filter (idle now (ttl c) t) (legs ses)) in *.
    set (kept := List.filter (fun x => negb _) (legs ses)) in *.
    rewrite HL, HPk, <- app_assoc in Hcount, Hidx.
    destruct (forget_legs _ _ _ Hcount Hidx) as (E1 & E2 & E3 & E4 & E5).
    destruct kept as [| l [| l1 rest]]; cbn [fst].
    + eapply drop_inv; [exact HI | exact Hses | | done | done | done | done].
      cbn. by rewrite E1, delete_insert_eq.
    + eapply keep_one_inv; [exact HI | exact Hses | exact HPk | cbn; by rewrite E1 | done | | |].
      * intros r. rewrite peer_at_store. unfold peer_at, load_fwd. cbn. by rewrite E2.
      * cbn. by rewrite E1, legs_of_insert.
      * cbn. by rewrite E1, legs_of_insert.
    + assert (gone = []) as Hg.
      { pose proof (legs_ok_length _ _ (Hlegs tok ses Hses)). apply Permutation_length in HPk.
        rewrite length_app in HPk. destruct gone; [done | simpl in HPk; lia]. }
      rewrite (Hall Hg), set_legs_id, Hg. cbn [foldl]. rewrite insert_id by done.
      by destruct t.
Qed.

(** ** Migration *)

Lemma find_leg_split nm ls held :
  find_leg nm ls = Some held ->
  name held = nm /\ exists pre post, ls = pre ++ held :: post /\
    forall h', replace_leg nm h' ls = pre ++ h' :: post.
Proof.
  unfold find_leg. induction ls as [| l ls IH]; simpl; [done |].
  destruct (String.eqb_spec (name l) nm) as [Hn | Hn].
  - intros [= ->]. split; [done |]. by exists [], ls.
  - intros H. destruct (IH H) as (Hh & pre & post & -> & Hr). split; [done |].
    exists (l :: pre), post. split; [done |]. intros h'. simpl. by rewrite Hr.
Qed.

Lemma find_leg_None nm ls : find_leg nm ls = None -> nm ∉ (name <$> ls).
Proof.
  intros H. unfold find_leg in H. intros (l & -> & Hl)%list_elem_of_fmap.
  apply list_elem_of_In, (List.find_none _ _ H) in Hl. by rewrite String.eqb_refl in Hl.
Qed.

(** Partner pointers after [publish_peers], for legs that had consistent ones up
    to their addresses. *)
Lemma publish_legs_ok ses t :
  NoDup (fwd_ref <$> legs ses) ->
  (forall l, legs ses = [l] -> peer_at t (fwd_ref l) = None) ->
  (1 <= length (legs ses) <= 2)%nat ->
  legs_ok (peer_at (publish_peers ses t)) (legs ses) /\
  forall r, r ∉ (fwd_ref <$> legs ses) -> peer_at (publish_peers ses t) r = peer_at t r.
Proof.
  intros Hnd H1 Hlen. unfold publish_peers.
  destruct (legs ses) as [| l0 [| l1 [| l2 ls]]]; simpl in *; try lia.
  - split; [by apply H1 | done].
  - apply NoDup_cons in Hnd as [Hd _]. split.
    + rewrite !peer_at_store. rewrite (decide_True (P := fwd_ref l1 = fwd_ref l1)) by done.
      rewrite (decide_False (P := fwd_ref l0 = fwd_ref l1)) by set_solver. by rewrite decide_True.
    + intros r Hr. rewrite !peer_at_store, !decide_False by set_solver. done.
Qed.

Record migrated (ses : session) (held held' : leg) (t t' : Table) : Prop := {
  mg_sessions : sessions t' = <[token ses := set_legs ses (replace_leg (name held) held' (legs ses))]> (sessions t);
  mg_legsPerIP : forall R, mirrors (legsPerIP t) (held :: R) -> mirrors (legsPerIP t') (held' :: R);
  mg_byAddr : byAddr t' = <[UDPAddr_String (addr held') := fwd_ref held']>
                            (delete (UDPAddr_String (addr held)) (byAddr t));
  mg_next : next_ref t' = next_ref t;
  mg_peers : exists t0, fwds t0 = fwds t /\ forall r, peer_at t' r =
    peer_at (publish_peers (set_legs ses (replace_leg (name held) held' (legs ses))) t0) r;
}.

Lemma same_acct_mirrors m l l' R : acctKey l' = acctKey l -> mirrors m (l :: R) -> mirrors m (l' :: R).
Proof.
  intros E H acct. assert (Hh : held_by acct l' = held_by acct l) by (unfold held_by; by rewrite E).
  rewrite H. cbn [count_if]. by rewrite Hh.
Qed.

Lemma publish_peers_frame ses t :
  sessions (publish_peers ses t) = sessions t /\ legsPerIP (publish_peers ses t) = legsPerIP t /\
  byAddr (publish_peers ses t) = byAddr t /\ next_ref (publish_peers ses t) = next_ref t.
Proof. unfold publish_peers. by destruct (legs ses) as [| ? [| ? [| ? ?]]]. Qed.

Lemma migrate_fields now ses held src acct t :
  migrated ses held (mkLeg src (fwd_ref held) acct (name held) (epk held)) t
    (migrate now ses held src acct t).
Proof.
  set (held' := mkLeg _ _ _ _ _). unfold migrate. cbv zeta. fold held'.
  set (ses' := set_legs ses _). set (t1 := if negb _ then _ else _).
  assert (F : sessions t1 = sessions t /\ byAddr t1 = delete (UDPAddr_String (addr held)) (byAddr t) /\
          fwds t1 = fwds t /\ next_ref t1 = next_ref t).
  { unfold t1, releaseIPLocked. destruct (negb _); [| done]. by destruct (_ <=? _). }
  destruct F as (F1 & F2 & F3 & F4).
  destruct (publish_peers_frame ses' (index_addr src (fwd_ref held) (put_session ses' t1))) as (G1 & G2 & G3 & G4).
  split.
  - cbn [store_seen with_fwds sessions]. rewrite G1. cbn. by rewrite F1.
  - intros R HR. cbn [store_seen with_fwds legsPerIP]. rewrite G2. cbn [index_addr put_session with_byAddr with_sessions legsPerIP].
    unfold t1. destruct (String.eqb_spec (acctKey held) acct) as [E | E]; cbn [negb].
    + by eapply same_acct_mirrors.
    + apply (charge_mirrors _ _ held'), release_mirrors. exact HR.
  - cbn [store_seen with_fwds byAddr]. rewrite G3. cbn. by rewrite F2.
  - cbn [store_seen with_fwds next_ref]. by rewrite G4.
  - exists (index_addr src (fwd_ref held) (put_session ses' t1)). split; [done |].
    intros r. apply peer_at_seen.
Qed.

Lemma migrated_inv c ses held held' t t' :
  tab_inv c t -> sessions t !! token ses = Some ses -> find_leg (name held) (legs ses) = Some held ->
  migrated ses held held' t t' ->
  fwd_ref held' = fwd_ref held -> name held' = name held ->
  (acctKey held' = acctKey held \/ legs_held t (acctKey held') < maxLegsPerIP c) ->
  tab_inv c t'.
Proof.
  intros [Htok Hcap Hlegs Hnames Hrefs Hnext Hcount Hip Hidx] Hses Hf
    [Hs Hm Hb Hn (t0 & Hf0 & Hp)] Hr Hnm Hroom.
  destruct (find_leg_split _ _ _ Hf) as (_ & pre & post & El & Hrep). rewrite Hrep in *.
  set (R := pre ++ post ++ legs_of (delete (token ses) (sessions t))).
  assert (HP : legs_of (sessions t) ≡ₚ held :: R).
  { rewrite (legs_of_split _ (token ses)), Hses. simpl. rewrite El, <- app_assoc. simpl.
    by rewrite <- Permutation_middle. }
  assert (HP' : legs_of (sessions t') ≡ₚ held' :: R).
  { rewrite Hs, legs_of_insert. simpl. rewrite <- app_assoc. simpl. by rewrite <- Permutation_middle. }
  assert (Hrefs' : (fwd_ref <$> pre ++ held' :: post) = (fwd_ref <$> legs ses))
    by (rewrite El, !fmap_app; simpl; by rewrite Hr).
  assert (Hpub : legs_ok (peer_at t') (pre ++ held' :: post) /\
            forall r, r ∉ (fwd_ref <$> legs ses) -> peer_at t' r = peer_at t r).
  { destruct (publish_legs_ok (set_legs ses (pre ++ held' :: post)) t0) as [P1 P2].
    - cbn [legs set_legs]. rewrite Hrefs'. rewrite (legs_of_split _ (token ses)), Hses, fmap_app in Hrefs.
      by apply NoDup_app in Hrefs as (? & _ & _).
    - cbn [legs set_legs]. intros l E. pose proof (Hlegs _ _ Hses) as Hok. cbn beta in Hok. rewrite El in Hok.
      destruct pre as [| ? [| ? ?]]; simplify_eq/=. rewrite Hr. unfold peer_at, load_fwd in *. by rewrite Hf0.
    - pose proof (legs_ok_length _ _ (Hlegs _ _ Hses)) as Hlen. cbn [legs set_legs].
      apply (f_equal length) in Hrefs'. rewrite !length_fmap in Hrefs'. lia.
    - cbn [legs set_legs] in P1, P2. split; [eapply legs_ok_ext; [| exact P1]; intros; apply Hp |].
      intros r Hnr. rewrite Hp, P2 by (by rewrite Hrefs'). unfold peer_at, load_fwd. by rewrite Hf0. }
  destruct Hpub as [P1 P2].
  split.
  - rewrite Hs. by apply map_Forall_insert_2.
  - rewrite Hs, map_size_insert, Hses. done.
  - rewrite Hs. intros k s Hk. apply lookup_insert_Some in Hk as [[<- <-] | [Hne Hk]]; [exact P1 |].
    eapply legs_ok_ext; [| exact (Hlegs k s Hk)]. intros l Hl. apply P2.
    intros (l2 & E & Hl2)%list_elem_of_fmap. by eapply (other_session_refs t (token ses) ses k s l2 l).
  - intros Htm. rewrite Hs. apply map_Forall_insert_2; [| by apply Hnames].
    pose proof (Hnames Htm _ _ Hses) as Hnd. cbn beta in Hnd. rewrite El, fmap_app in Hnd. cbn [legs set_legs].
    rewrite fmap_app. cbn [fmap list_fmap] in *. by rewrite Hnm.
  - rewrite HP in Hrefs. rewrite HP'. cbn [fmap list_fmap] in *. by rewrite Hr.
  - rewrite HP in Hnext. rewrite HP', Hn. apply Forall_cons in Hnext as [? ?]. apply Forall_cons. by rewrite Hr.
  - rewrite HP in Hcount. rewrite HP'. by apply Hm.
  - intros acct. specialize (Hip acct). rewrite (count_if_Permutation _ _ _ HP'). rewrite (count_if_Permutation _ _ _ HP) in Hip.
    cbn [count_if] in *. destruct (String.eqb_spec (acctKey held') acct) as [E | E]; unfold held_by at 1.
    + destruct Hroom as [E' | Hroom]; [unfold held_by at 1 in Hip; by rewrite <- E' in Hip |].
      rewrite E, (mirrors_held _ _ _ Hcount), (count_if_Permutation _ _ _ HP) in Hroom. cbn [count_if] in Hroom.
      destruct (String.eqb _ _); destruct (held_by acct held); lia.
    + apply String.eqb_neq in E. rewrite E. lia.
  - rewrite HP in Hidx. rewrite HP', Hb. by apply index_indexes, unindex_indexes.
Qed.
