(* ===== verification/RelayProps.v ===== *)
(** * The relay server: its guarantees

    Every handler is a sequence of table steps that keep the invariant, and
    every run from an empty relay: is bounded whatever is sent to it, creates
    state only for addresses that echoed a cookie and (in ticket mode) only for
    holders of a ticket and its ephemeral key, and delivers data only from one
    leg of a session to the other. *)

From S2P Require Import Prelude Base64 Sha256 Json NetAddr Crypto Protocol Ticket RelayWire RelayServer RelayInv.
From S2P Require RateLimit.

(** ** Table steps *)

(** A step of the tables, labelled with the legs (session, leg) it introduces. *)
Inductive tstep (c : Config) : Table -> list (string * leg) -> Table -> Prop :=
| ts_refl t : tstep c t [] t
| ts_seen t r now : tstep c t [] (store_seen r now t)
| ts_claim t ses src acct nm key now :
    claimable c t ses -> (length (legs ses) < maxLegsPerSes)%nat -> legs_held t acct < maxLegsPerIP c ->
    (ticketMode c = true -> nm ∉ (name <$> legs ses)) ->
    tstep c t [(token ses, mkLeg src (next_ref t) acct nm key)] (claim now ses src acct nm key t)
| ts_migrate t ses held src acct now :
    sessions t !! token ses = Some ses -> find_leg (name held) (legs ses) = Some held ->
    (acct = acctKey held \/ legs_held t acct < maxLegsPerIP c) ->
    tstep c t [(token ses, mkLeg src (fwd_ref held) acct (name held) (epk held))]
      (migrate now ses held src acct t)
| ts_reap t now tok : tstep c t [] (reap_session now c tok t).1.

Lemma claimable_next c t ses :
  tab_inv c t -> claimable c t ses -> Forall (fun l => (fwd_ref l < next_ref t)%nat) (legs ses).
Proof.
  intros HI Hc. pose proof (ti_next _ _ HI) as Hn. rewrite (claimable_legs _ _ _ Hc) in Hn.
  by apply Forall_app in Hn as [? _].
Qed.

Lemma tstep_inv c t labs t' : tstep c t labs t' -> tab_inv c t -> tab_inv c t'.
Proof.
  intros [ | | u ses src acct nm key now Hc Hl Hh Hn | u ses held src acct now Hs Hf Ha | ] HI.
  - done.
  - by apply tab_inv_seen.
  - eapply claimed_inv; [exact HI | exact Hc | apply claim_fields; [done | by eapply claimable_next] | ..]; done.
  - eapply migrated_inv; [exact HI | exact Hs | exact Hf | apply migrate_fields | ..]; done.
  - by apply reap_session_inv.
Qed.

Definition has_leg (t : Table) (tok : string) (l : leg) : Prop :=
  exists ses, sessions t !! tok = Some ses /\ l ∈ legs ses.

Lemma forget_sessions ls t : sessions (foldl forget_leg t ls) = sessions t.
Proof.
  revert t. induction ls as [| l ls IH]; intros t; simpl; [done |]. rewrite IH.
  unfold forget_leg, releaseIPLocked. by destruct (_ <=? _).
Qed.

Lemma reap_session_legs c now tok t k l :
  has_leg (reap_session now c tok t).1 k l -> has_leg t k l.
Proof.
  unfold reap_session. destruct (sessions t !! tok) as [ses |] eqn:Hses; [| done].
  destruct (_ && _); cbn [fst].
  { intros (s & Hs & Hl). cbn in Hs. rewrite forget_sessions in Hs.
    apply lookup_delete_Some in Hs as [_ Hs]. by exists s. }
  set (kept := List.filter _ (legs ses)).
  assert (K : forall s, (<[tok := set_legs ses kept]> (sessions t)) !! k = Some s -> l ∈ legs s -> has_leg t k l).
  { intros s Hs Hl. apply lookup_insert_Some in Hs as [[<- <-] | [_ Hs]]; [| by exists s].
    exists ses. split; [done |]. cbn in Hl. unfold kept in Hl.
    apply list_elem_of_In in Hl. apply filter_In in Hl as [Hl _]. by apply list_elem_of_In. }
  destruct kept as [| l0 [| l1 rest]] eqn:Ek; cbn [fst]; intros (s & Hs & Hl); cbn in Hs;
    rewrite forget_sessions in Hs.
  - apply lookup_delete_Some in Hs as [Hne Hs]. rewrite lookup_insert_ne in Hs by done. by exists s.
  - by eapply K.
  - by eapply K.
Qed.

(** The only legs a step can introduce are the ones it is labelled with. *)
Lemma tstep_legs c t labs t' tok l :
  tab_inv c t -> tstep c t labs t' -> has_leg t' tok l -> has_leg t tok l \/ (tok, l) ∈ labs.
Proof.
  intros HI Ht. revert HI.
  destruct Ht as [ u | u r now | u ses src acct nm key now Hc Hl Hh Hn | u ses held src acct now Hs Hf Ha | u now k ];
    intros HI Hin.
  - by left.
  - by left.
  - destruct (claim_fields now ses src acct nm key u Hl (claimable_next _ _ _ HI Hc))
      as [(ses' & _ & Hl' & Hs') _ _ _ _ _].
    destruct Hin as (s & Hsl & Hel). rewrite Hs' in Hsl.
    apply lookup_insert_Some in Hsl as [[<- <-] | [_ Hsl]]; [| left; by exists s].
    rewrite Hl' in Hel. apply elem_of_app in Hel as [Hel | ->%list_elem_of_singleton]; [| right; by left].
    left. destruct Hc as [Hc | (_ & E & _)]; [by exists ses |]. rewrite E in Hel. by apply not_elem_of_nil in Hel.
  - destruct (migrate_fields now ses held src acct u) as [Hs' _ _ _ _].
    destruct (find_leg_split _ _ _ Hf) as (_ & pre & post & El & Hrep).
    destruct Hin as (s & Hsl & Hel). rewrite Hs', Hrep in Hsl.
    apply lookup_insert_Some in Hsl as [[<- <-] | [_ Hsl]]; [| left; by exists s].
    cbn in Hel. apply elem_of_app in Hel as [Hel | [-> | Hel]%elem_of_cons].
    + left. exists ses. split; [done |]. rewrite El. set_solver.
    + right. by left.
    + left. exists ses. split; [done |]. rewrite El. set_solver.
  - left. by eapply reap_session_legs.
Qed.

(** ** What the handlers leave alone *)

(** Configuration, budgets, verifications in flight and the verification
    counter unchanged; the two log latches within their bounds. *)
Record frame (s s' : Server) : Prop := {
  fr_cfg : cfg s' = cfg s;
  fr_inFlight : inFlight s' = inFlight s;
  fr_bindRL : bindRL s' = bindRL s;
  fr_sigRL : sigRL s' = sigRL s;
  fr_reserveRL : reserveRL s' = reserveRL s;
  fr_verify : statVerify (stats s') = statVerify (stats s);
  fr_reject : (size (rejectWarned s') <= Nat.max 64 (size (rejectWarned s)))%nat;
  fr_hoard : Z.of_nat (size (hoardWarned s')) <=
             Z.max (maxSessions (cfg s)) (Z.of_nat (size (hoardWarned s)));
}.

#[export] Instance frame_refl : Reflexive frame.
Proof. intros s. split; try done; lia. Qed.

#[export] Instance frame_trans : Transitive frame.
Proof.
  intros s s' s'' [H1 H2 H3 H4 H5 H6 H7 H8] [K1 K2 K3 K4 K5 K6 K7 K8].
  split; try congruence; [lia |]. rewrite H1 in K8. lia.
Qed.

Lemma frame_on_tab f s : frame s (on_tab f s).
Proof. split; try done; simpl; lia. Qed.

Lemma throttle_frame now reason s ok s' :
  throttleLocked now reason s = (ok, s') -> frame s s' /\ tab s' = tab s.
Proof.
  intros E. split.
  - split; unfold throttleLocked in E; repeat case_match; simplify_eq; try done; try lia;
      cbn [rejectWarned hoardWarned with_rejectWarned]; breflect;
      pose proof (map_size_insert_le (rejectWarned s) reason now); lia.
  - unfold throttleLocked in E. by repeat case_match; simplify_eq.
Qed.

Definition only_logs (o : list Out) : Prop := Forall (fun x => exists l, x = Log l) o.

Lemma rejectTicket_frame now reason sid lg src s s' o :
  rejectTicket now reason sid lg src s = (s', o) -> frame s s' /\ tab s' = tab s /\ only_logs o.
Proof.
  unfold rejectTicket. destruct (throttleLocked _ _ _) as [ok s1] eqn:E.
  apply throttle_frame in E as [Hf Ht].
  assert (frame s s1) by (etransitivity; [| exact Hf]; split; try done; simpl; lia).
  destruct ok; intros [= <- <-]; split_and!; try done; repeat constructor. eauto.
Qed.

Lemma rejectWindow_frame now p s s' o :
  rejectWindow now p s = (s', o) -> frame s s' /\ tab s' = tab s /\ only_logs o.
Proof.
  unfold rejectWindow. destruct (throttleLocked _ _ _) as [ok s1] eqn:E.
  apply throttle_frame in E as [Hf Ht].
  assert (frame s s1) by (etransitivity; [| exact Hf]; split; try done; simpl; lia).
  destruct ok; intros [= <- <-]; split_and!; try done; repeat constructor. eauto.
Qed.

Lemma warnHoard_frame now acct s s' o :
  warnHoardLocked now acct s = (s', o) -> frame s s' /\ tab s' = tab s /\ only_logs o.
Proof.
  unfold warnHoardLocked. cbv zeta.
  match goal with |- context [if ?b then (s, []) else _] => destruct b end.
  { intros [= <- <-]. split_and!; [reflexivity | done | constructor]. }
  match goal with |- context [if ?b then with_hoardWarned s ?f else s] =>
    set (s1 := if b then with_hoardWarned s f else s) end.
  assert (H1 : frame s s1 /\ tab s1 = tab s).
  { unfold s1. destruct (_ <=? _); [| done]. split; [| done]. split; try done; [simpl; lia |].
    cbn [hoardWarned with_hoardWarned].
    pose proof (map_size_filter_le (fun kt : string * Z => (now - kt.2 <? statsInterval) = true) (hoardWarned s)).
    lia. }
  destruct H1 as [Hf Ht]. destruct (maxSessions (cfg s1) <=? _) eqn:E; intros [= <- <-].
  - split_and!; [done | done | constructor].
  - breflect. split_and!; [| done | repeat constructor; eauto].
    etransitivity; [exact Hf |]. split; try done; [simpl; lia |].
    cbn [hoardWarned with_hoardWarned]. pose proof (map_size_insert_le (hoardWarned s1) acct now). lia.
Qed.

(** ** Binding a leg *)

Lemma claim_put now ses ses0 src acct nm key t :
  token ses0 = token ses -> claim now ses src acct nm key (put_session ses0 t) = claim now ses src acct nm key t.
Proof.
  intros E. unfold claim, append_leg, alloc_fwd, put_session, with_next, with_fwds, with_sessions.
  cbn [sessions legsPerIP byAddr fwds next_ref token]. by rewrite E, insert_insert_eq.
Qed.

Lemma drop_put ses t :
  sessions t !! token ses = None -> legs ses = [] -> dropIfEmptyLocked true ses (put_session ses t) = t.
Proof.
  intros H El. unfold dropIfEmptyLocked. rewrite El. unfold drop_session, put_session, with_sessions. cbn.
  rewrite delete_insert_id by done. by destruct t.
Qed.

Lemma find_or_create_spec now tok s ses new s1 :
  tab_inv (cfg s) (tab s) -> find_or_create now tok s = Some (ses, new, s1) ->
  token ses = tok /\ claimable (cfg s) (tab s) ses /\ frame s s1 /\
  legs_held (tab s1) = legs_held (tab s) /\
  (forall src acct nm key, claim now ses src acct nm key (tab s1) = claim now ses src acct nm key (tab s)) /\
  dropIfEmptyLocked new ses (tab s1) = tab s /\
  (legs ses <> [] -> s1 = s /\ sessions (tab s) !! tok = Some ses).
Proof.
  intros HI. unfold find_or_create. destruct (sessions (tab s) !! tok) as [ses0 |] eqn:E.
  - intros [= <- <- <-]. pose proof (ti_token _ _ HI tok ses0 E) as Ht. cbn beta in Ht.
    split_and!; try done. left. by rewrite Ht.
  - destruct (_ <=? _) eqn:Ec; [done |]. intros [= <- <- <-]. breflect.
    split_and!; try done.
    + right. done.
    + apply frame_on_tab.
    + intros. by apply claim_put.
    + by apply drop_put.
Qed.

Definition out_ok (tok : string) (src : UDPAddr) (x : Out) : Prop := (exists l, x = Log l) \/ x = ack tok src.

Lemma out_ack tok src : Forall (out_ok tok src) [ack tok src].
Proof. apply Forall_singleton. by right. Qed.
Lemma out_log tok src l o : Forall (out_ok tok src) o -> Forall (out_ok tok src) (Log l :: o).
Proof. intros. apply Forall_cons. split; [left; eauto | done]. Qed.

(** The outcome of a bind that passed its checks: at most one table step, which
    introduces only a leg of this session at this address; log lines and
    acknowledgements to that address are all it emits. *)
Definition bind_outcome (s : Server) (tok : string) (src : UDPAddr) (P : leg -> Prop)
  (r : Server * list Out) : Prop :=
  exists labs, tstep (cfg s) (tab s) labs (tab r.1) /\
    Forall (fun x => x.1 = tok /\ addr x.2 = src /\ P x.2) labs /\
    frame s r.1 /\ Forall (out_ok tok src) r.2.

Lemma outcome_refused s tok src P s' o :
  frame s s' -> tab s' = tab s -> only_logs o -> bind_outcome s tok src P (s', o).
Proof.
  intros Hf Ht Ho. exists []. cbn [fst snd]. rewrite Ht. split_and!; [constructor | constructor | done |].
  eapply Forall_impl; [exact Ho |]. intros x Hx. by left.
Qed.

Lemma outcome_reject s s1 tok src P now reason sid lg src' :
  frame s s1 -> tab s1 = tab s -> bind_outcome s tok src P (rejectTicket now reason sid lg src' s1).
Proof.
  intros Hf Ht. destruct (rejectTicket now reason sid lg src' s1) as [s' o] eqn:E.
  apply rejectTicket_frame in E as (Hf' & Ht' & Ho). apply outcome_refused; [by etransitivity | congruence | done].
Qed.

Lemma frame_rejected s s1 : frame s s1 -> frame s (add_rejected s1).
Proof. intros. etransitivity; [done |]. split; try done; simpl; lia. Qed.
Lemma frame_hoarded s s1 : frame s s1 -> frame s (add_hoard s1).
Proof. intros. etransitivity; [done |]. split; try done; simpl; lia. Qed.
Lemma frame_paired s s1 : frame s s1 -> frame s (add_paired s1).
Proof. intros. etransitivity; [done |]. split; try done; simpl; lia. Qed.
Lemma frame_in_tab s s1 f : frame s s1 -> frame s (on_tab f s1).
Proof. intros. etransitivity; [done |]. apply frame_on_tab. Qed.
Lemma frame_with_tab s s1 t : frame s s1 -> frame s (with_tab s1 t).
Proof. intros. etransitivity; [done |]. split; try done; simpl; lia. Qed.
Create HintDb relay.
#[export] Hint Resolve frame_with_tab frame_rejected frame_hoarded frame_paired frame_in_tab frame_on_tab : relay.
#[export] Hint Extern 1 (frame ?s ?s) => reflexivity : relay.

Lemma bindNetworkMode_outcome now src acct tok s :
  tab_inv (cfg s) (tab s) -> ticketMode (cfg s) = false ->
  bind_outcome s tok src (fun l => acctKey l = acct) (bindNetworkMode now src acct tok s).
Proof.
  intros HI Hm. unfold bindNetworkMode.
  destruct (find_or_create now tok s) as [[[ses new] s1] |] eqn:Ef.
  2:{ apply outcome_refused; [auto with relay | done | constructor]. }
  destruct (find_or_create_spec _ _ _ _ _ _ HI Ef) as (Ht & Hc & Hfr & Hh & Hcl & Hd & Hex).
  destruct (find _ (legs ses)) as [found |] eqn:Efound.
  { destruct Hex as [-> _]; [intros E; by rewrite E in Efound |].
    exists []. split_and!; [apply ts_seen | constructor | apply frame_on_tab | apply out_ack]. }
  destruct (maxLegsPerSes <=? _)%nat eqn:E1.
  { apply outcome_refused; [auto with relay | cbn; done | constructor]. }
  rewrite Hh. rewrite (fr_cfg _ _ Hfr). destruct (maxLegsPerIP (cfg s) <=? _) eqn:E2.
  { destruct (warnHoardLocked _ _ _) as [s2 o2] eqn:Ew. apply warnHoard_frame in Ew as (Hw1 & Hw2 & Hw3).
    apply outcome_refused; [| cbn; rewrite Hw2; done | done].
    etransitivity; [| apply frame_on_tab]. etransitivity; [| exact Hw1]. auto with relay. }
  breflect. specialize (Hcl src acct "" "").
  assert (Hstep : tstep (cfg s) (tab s) [(tok, mkLeg src (next_ref (tab s)) acct "" "")]
                    (claim now ses src acct "" "" (tab s1))).
  { rewrite Hcl, <- Ht. apply ts_claim; try done. by rewrite Hm. }
  destruct ses as [tk ls pd cr]. cbn [legs token] in *.
  destruct ls as [| l0 [| l1 ls]]; [| | unfold maxLegsPerSes in E1; simpl in E1; lia].
  - exists [(tok, mkLeg src (next_ref (tab s)) acct "" "")].
    split_and!; [exact Hstep | by repeat constructor | cbn; auto with relay | apply out_ack].
  - exists [(tok, mkLeg src (next_ref (tab s)) acct "" "")].
    split_and!; [exact Hstep | by repeat constructor | cbn [fst]; etransitivity; [exact Hfr |] |].
    + split; try done; simpl; lia.
    + apply out_log, out_ack.
Qed.

Lemma bindTicketed_outcome now p src acct s :
  tab_inv (cfg s) (tab s) ->
  bind_outcome s (SID p) src (fun l => acctKey l = acct /\ name l = Leg p /\ epk l = EPK p)
    (bindTicketed now p src acct s).
Proof.
  intros HI. unfold bindTicketed.
  destruct (find_or_create now (SID p) s) as [[[ses new] s1] |] eqn:Ef.
  2:{ apply outcome_reject; [auto with relay | done]. }
  destruct (find_or_create_spec _ _ _ _ _ _ HI Ef) as (Ht & Hc & Hfr & Hh & Hcl & Hd & Hex).
  destruct (find_leg (Leg p) (legs ses)) as [held |] eqn:El.
  - destruct (find_leg_split _ _ _ El) as (Hn & _).
    destruct Hex as [-> Hs]; [intros E; by rewrite E in El |].
    destruct (String.eqb_spec (epk held) (EPK p)) as [He | He]; cbn [negb].
    2:{ apply outcome_reject; [auto 6 with relay | done]. }
    destruct (String.eqb _ _).
    { exists []. split_and!; [apply ts_seen | constructor | apply frame_on_tab | apply out_ack]. }
    destruct (negb (String.eqb (acctKey held) acct) && _) eqn:Ea.
    { apply outcome_reject; [auto with relay | done]. }
    exists [(SID p, mkLeg src (fwd_ref held) acct (name held) (epk held))].
    split_and!; [| by repeat constructor | apply frame_on_tab | apply out_log, out_ack].
    rewrite <- Ht. apply ts_migrate; [by rewrite Ht | by rewrite Hn |].
    apply andb_false_iff in Ea as [Ea | Ea]; breflect; [left | right]; done.
  - destruct (maxLegsPerSes <=? _)%nat eqn:E1.
    { apply outcome_reject; [auto 6 with relay | done]. }
    rewrite Hh, (fr_cfg _ _ Hfr). destruct (maxLegsPerIP (cfg s) <=? _) eqn:E2.
    { destruct (warnHoardLocked _ _ _) as [s2 o1] eqn:Ew. apply warnHoard_frame in Ew as (Hw1 & Hw2 & Hw3).
      destruct (rejectTicket _ _ _ _ _ _) as [s3 o2] eqn:Er. apply rejectTicket_frame in Er as (Hr1 & Hr2 & Hr3).
      apply outcome_refused; [| rewrite Hr2; cbn; by rewrite Hw2 | by apply Forall_app].
      etransitivity; [| exact Hr1]. apply frame_rejected, frame_in_tab. etransitivity; [| exact Hw1].
      auto with relay. }
    breflect. specialize (Hcl src acct (Leg p) (EPK p)).
    assert (Hstep : tstep (cfg s) (tab s) [(SID p, mkLeg src (next_ref (tab s)) acct (Leg p) (EPK p))]
                      (claim now ses src acct (Leg p) (EPK p) (tab s1))).
    { rewrite Hcl, <- Ht. apply ts_claim; try done. intros _. by apply find_leg_None. }
    destruct ses as [tk ls pd cr]. cbn [legs token] in *.
    exists [(SID p, mkLeg src (next_ref (tab s)) acct (Leg p) (EPK p))].
    destruct ls as [| l0 [| l1 ls]]; [| | unfold maxLegsPerSes in E1; simpl in E1; lia];
      (split_and!; [exact Hstep | by repeat constructor | cbn; auto 6 with relay |]);
      [apply out_ack | apply out_log, out_ack].
Qed.

(** ** Sequences of table steps *)

Inductive tsteps (c : Config) : Table -> list (string * leg) -> Table -> Prop :=
| tss_nil t : tsteps c t [] t
| tss_cons t l t1 ls t2 : tstep c t l t1 -> tsteps c t1 ls t2 -> tsteps c t (l ++ ls) t2.

Lemma tsteps_one c t l t' : tstep c t l t' -> tsteps c t l t'.
Proof. intros H. rewrite <- (app_nil_r l). econstructor; [done | constructor]. Qed.

Lemma tsteps_inv c t labs t' : tsteps c t labs t' -> tab_inv c t -> tab_inv c t'.
Proof. induction 1; [done |]. intros. apply IHtsteps. by eapply tstep_inv. Qed.

Lemma tsteps_legs c t labs t' tok l :
  tsteps c t labs t' -> tab_inv c t -> has_leg t' tok l -> has_leg t tok l \/ (tok, l) ∈ labs.
Proof.
  induction 1 as [| t ls t1 ls' t2 Hs _ IH]; [by left |]. intros HI Hl.
  destruct (IH (tstep_inv _ _ _ _ Hs HI) Hl) as [H | H]; [| right; set_solver].
  destruct (tstep_legs _ _ _ _ _ _ HI Hs H); [by left | right; set_solver].
Qed.

(** What one event does: a sequence of steps that introduces no leg, or one
    step. *)
Definition tmoves (c : Config) (t : Table) (labs : list (string * leg)) (t' : Table) : Prop :=
  tsteps c t labs t' /\ (labs = [] \/ tstep c t labs t').

Lemma tmoves_nil c t t' : tsteps c t [] t' -> tmoves c t [] t'.
Proof. intros H. split; [done | by left]. Qed.
Lemma tmoves_refl c t : tmoves c t [] t.
Proof. apply tmoves_nil. constructor. Qed.
Lemma tmoves_one c t labs t' : tstep c t labs t' -> tmoves c t labs t'.
Proof. intros H. split; [by apply tsteps_one | by right]. Qed.
#[export] Hint Resolve tmoves_refl : relay.

Lemma reap_sessions_tsteps now c order t : tsteps c t [] (reap_sessions now c order t).1.
Proof.
  revert t. induction order as [| tok order IH]; intros t; simpl; [constructor |].
  destruct (reap_session now c tok t) as [t1 o1] eqn:E. specialize (IH t1).
  destruct (reap_sessions now c order t1) as [t2 o2]. cbn [fst] in *.
  apply (tss_cons c t [] t1 [] t2); [| done]. assert (t1 = (reap_session now c tok t).1) as -> by (by rewrite E).
  apply ts_reap.
Qed.

Lemma reap_sessions_logs now c order t : only_logs (reap_sessions now c order t).2.
Proof.
  revert t. induction order as [| tok order IH]; intros t; simpl; [constructor |].
  destruct (reap_session now c tok t) as [t1 o1] eqn:E. specialize (IH t1).
  destruct (reap_sessions now c order t1) as [t2 o2]. cbn [snd] in *. apply Forall_app. split; [| done].
  unfold reap_session in E. repeat case_match; simplify_eq; repeat constructor. eauto.
Qed.

(** ** The server invariant *)

Definition limiter_bounded (cap : Z) (l : RateLimit.Limiter) : Prop :=
  RateLimit.maxSources l = cap /\ Z.of_nat (size (RateLimit.perSrc l)) <= cap.

Record srv_inv (s : Server) : Prop := {
  si_tab : tab_inv (cfg s) (tab s);
  si_jobs : (length (inFlight s) <= maxSigInFlight)%nat;
  si_reject : (size (rejectWarned s) <= 64)%nat;
  si_hoard : Z.of_nat (size (hoardWarned s)) <= Z.max 0 (maxSessions (cfg s));
  si_bindRL : limiter_bounded rlMaxSources (bindRL s);
  si_reserveRL : limiter_bounded reserveMaxSIDs (reserveRL s);
}.

Lemma Allow_limiter_bounded cap now src l ok l' :
  0 <= cap -> RateLimit.Allow now src l = (ok, l') -> limiter_bounded cap l -> limiter_bounded cap l'.
Proof.
  intros Hc H [Hm Hs]. pose proof (RateLimit.Allow_params _ _ _ _ _ H) as (_ & _ & _ & _ & Hm').
  pose proof (RateLimit.Allow_bounded _ _ _ _ _ H) as Hb. split; [congruence |]. lia.
Qed.

(** A handler that framed everything but the tables. *)
Lemma framed_inv s s' labs :
  srv_inv s -> frame s s' -> tsteps (cfg s) (tab s) labs (tab s') -> srv_inv s'.
Proof.
  intros [H1 H2 H3 H4 H5 H6] [F1 F2 F3 F4 F5 F6 F7 F8] Hs.
  split; rewrite ?F1, ?F2, ?F3, ?F5; try done; [by eapply tsteps_inv | lia | lia].
Qed.

Section Runs.
Context `{Ed25519}.

(** What a step may do, relative to the addresses and tickets it checked. *)

(** The address, one the relay serves, whose cookie this event validated. *)
Definition validated (s : Server) (e : Event) : list UDPAddr :=
  match e with
  | EvPacket now pkt src =>
      match ParseBind pkt with
      | Some b =>
          if negb (cidrAllowed (allowed (cfg s)) (IPof src)) then []
          else match validCookie (cfg s) (b_Cookie b) src now with Some _ => [src] | None => [] end
      | None => []
      end
  | _ => []
  end.

(** The ticket this event verified, with the address that presented it. *)
Definition authorised (s : Server) (e : Event) : list (Payload * UDPAddr) :=
  match e with
  | EvVerify now n =>
      match inFlight s !! n with
      | Some j =>
          match decode_ticket_fields (j_bind j) with
          | Some (payload, sig, bindSig) =>
              match check_ticket (cfg s) (b_SessionToken (j_bind j)) payload sig bindSig (j_cookie j) now with
              | Ok p => [(p, j_src j)]
              | Err _ => []
              end
          | None => []
          end
      | None => []
      end
  | _ => []
  end.

Definition leg_licensed (s : Server) (e : Event) (x : string * leg) : Prop :=
  (ticketMode (cfg s) = false /\ addr x.2 ∈ validated s e) \/
  (exists p, (p, addr x.2) ∈ authorised s e /\ SID p = x.1 /\ name x.2 = Leg p /\ epk x.2 = EPK p).

Definition job_licensed (s : Server) (e : Event) (j : Job) : Prop :=
  j_src j ∈ validated s e /\
  exists now, validCookie (cfg s) (b_Cookie (j_bind j)) (j_src j) now = Some (j_cookie j).

Record step_ok (s : Server) (e : Event) (s' : Server) : Prop := {
  so_cfg : cfg s' = cfg s;
  so_tab : exists labs, tmoves (cfg s) (tab s) labs (tab s') /\ Forall (leg_licensed s e) labs;
  so_jobs : forall j, j ∈ inFlight s' -> j ∈ inFlight s \/ job_licensed s e j;
  so_inv : srv_inv s';
}.

Lemma framed_step_ok s e s' labs :
  srv_inv s -> frame s s' -> tmoves (cfg s) (tab s) labs (tab s') -> Forall (leg_licensed s e) labs ->
  step_ok s e s'.
Proof.
  intros HI Hf Hs Hl. split; [by destruct Hf | by exists labs | | by eapply framed_inv; [..| apply Hs]].
  intros j. rewrite (fr_inFlight _ _ Hf). by left.
Qed.

(** A change to the budgets only. *)
Lemma step_ok_pre s s1 e s' :
  cfg s1 = cfg s -> tab s1 = tab s -> (forall j, j ∈ inFlight s1 -> j ∈ inFlight s) ->
  validated s1 e = validated s e -> authorised s1 e = authorised s e ->
  step_ok s1 e s' -> step_ok s e s'.
Proof.
  intros Hc Ht Hj Hv Ha [H1 (labs & H2 & H3) H4 H5]. rewrite Hc, Ht in *. split; try done.
  - exists labs. split; [done |]. eapply Forall_impl; [exact H3 |].
    unfold leg_licensed. rewrite Hc, Hv, Ha. done.
  - intros j Hin. destruct (H4 j Hin) as [? | Hl]; [left; auto | right].
    unfold job_licensed in *. by rewrite Hv, Hc in Hl.
Qed.
End Runs.

Section Steps.
Context `{Ed25519}.

Lemma outcome_ok s e tok src P r :
  srv_inv s -> bind_outcome s tok src P r ->
  (forall l, addr l = src -> P l -> leg_licensed s e (tok, l)) -> step_ok s e r.1.
Proof.
  intros HI (labs & Hs & Hl & Hf & _) Hlic. eapply framed_step_ok; [done | done | by apply tmoves_one |].
  eapply Forall_impl; [exact Hl |]. intros [k l] (E & Ha & HP). cbn in E. subst k. by apply Hlic.
Qed.

Lemma reject_ok s e now reason sid lg src :
  srv_inv s -> step_ok s e (rejectTicket now reason sid lg src s).1.
Proof.
  intros HI. destruct (rejectTicket now reason sid lg src s) as [s' o] eqn:E.
  apply rejectTicket_frame in E as (Hf & Ht & _). eapply framed_step_ok with (labs := []); try done.
  cbn [fst]. rewrite Ht. auto with relay.
Qed.

Lemma budget_inv s s1 :
  srv_inv s -> cfg s1 = cfg s -> tab s1 = tab s -> inFlight s1 = inFlight s ->
  rejectWarned s1 = rejectWarned s -> hoardWarned s1 = hoardWarned s ->
  limiter_bounded rlMaxSources (bindRL s1) -> limiter_bounded reserveMaxSIDs (reserveRL s1) -> srv_inv s1.
Proof. intros [] E1 E2 E3 E4 E5 ? ?. split; rewrite ?E1, ?E2, ?E3, ?E4, ?E5; done. Qed.

Lemma draw_budget_spec now sid s ok s1 :
  draw_budget now sid s = (ok, s1) -> srv_inv s ->
  srv_inv s1 /\ cfg s1 = cfg s /\ tab s1 = tab s /\ inFlight s1 = inFlight s /\ stats s1 = stats s.
Proof.
  unfold draw_budget. intros E HI.
  assert (G : forall s0, srv_inv s0 -> let '(o, l) := RateLimit.AllowGlobal now (sigRL s0) in
            srv_inv (with_sigRL s0 l)).
  { intros s0 H0. destruct (RateLimit.AllowGlobal _ _). eapply budget_inv; [exact H0 | ..]; done || apply H0. }
  destruct (halfOpen sid (tab s)).
  - destruct (RateLimit.Allow now sid (reserveRL s)) as [ok1 l1] eqn:Ea.
    assert (H1 : srv_inv (with_reserveRL s l1)).
    { eapply budget_inv; [exact HI | ..]; try done; [apply HI |].
      eapply Allow_limiter_bounded; [| exact Ea | apply HI]. done. }
    destruct ok1; [by simplify_eq |]. specialize (G _ H1).
    destruct (RateLimit.AllowGlobal _ _). simplify_eq. by split_and!.
  - specialize (G _ HI). destruct (RateLimit.AllowGlobal _ _). simplify_eq. by split_and!.
Qed.

Lemma admit_ok now pkt b src acct cookie s :
  srv_inv s -> ParseBind pkt = Some b -> cidrAllowed (allowed (cfg s)) (IPof src) = true ->
  validCookie (cfg s) (b_Cookie b) src now = Some cookie ->
  step_ok s (EvPacket now pkt src) (admitTicketBind now b src acct cookie s).1.
Proof.
  intros HI Hb Hcidr Hv. unfold admitTicketBind. destruct (_ || _); [by apply reject_ok |].
  destruct (draw_budget now _ s) as [ok s1] eqn:Ed.
  destruct (draw_budget_spec _ _ _ _ _ Ed HI) as (H1 & Hc & Ht & Hj & _).
  assert (Hrej : srv_inv (add_rejected s1)) by (eapply budget_inv; [exact H1 | ..]; done || apply H1).
  apply (step_ok_pre s s1); try done.
  { intros j. by rewrite Hj. } { unfold validated. by rewrite Hc. }
  destruct (negb ok).
  { apply (step_ok_pre s1 (add_rejected s1)); try done. by apply reject_ok. }
  destruct (_ <=? _)%nat eqn:El.
  { apply (step_ok_pre s1 (add_rejected s1)); try done. by apply reject_ok. }
  cbn [fst]. breflect. split; try done.
  - exists []. split; [cbn; rewrite Hc, Ht; apply tmoves_refl | constructor].
  - intros j [Hin | ->%list_elem_of_singleton]%elem_of_app; [by left | right].
    split; [| exists now; cbn; by rewrite Hc]. unfold validated. rewrite Hb, Hc, Hcidr, Hv. by left.
  - destruct H1. split; try done. cbn. rewrite length_app. cbn. lia.
Qed.

Lemma packet_ok now pkt src s : srv_inv s -> step_ok s (EvPacket now pkt src) (packet now pkt src s).1.
Proof.
  intros HI. unfold packet. destruct (ParseBind pkt) as [b |] eqn:Hb.
  - unfold bind. destruct (cidrAllowed _ _) eqn:Hcidr; cbn [negb].
    2:{ eapply (framed_step_ok _ _ _ []); [done | cbn [fst]; auto with relay | apply tmoves_refl | constructor]. }
    destruct (RateLimit.Allow now _ (bindRL s)) as [ok l] eqn:Ea.
    assert (H1 : srv_inv (with_bindRL s l)).
    { eapply budget_inv; [exact HI | ..]; try done; [| apply HI].
      eapply Allow_limiter_bounded; [| exact Ea | apply HI]. done. }
    apply (step_ok_pre s (with_bindRL s l)); try done.
    destruct (negb ok).
    { eapply (framed_step_ok _ _ _ []); [done | cbn [fst]; auto with relay | apply tmoves_refl | constructor]. }
    destruct (validCookie _ _ _ _) as [cookie |] eqn:Hv.
    2:{ eapply (framed_step_ok _ _ _ []); [done | | apply tmoves_refl | constructor].
        split; try done; simpl; lia. }
    destruct (ticketMode (cfg (with_bindRL s l))) eqn:Hm; [by apply admit_ok |].
    eapply outcome_ok; [done | by apply bindNetworkMode_outcome; [apply H1 |] |].
    intros l0 Ha _. left. split; [done |]. unfold validated. cbn [snd]. change (allowed (cfg (with_bindRL s l))) with (allowed (cfg s)). rewrite Ha, Hb, Hcidr, Hv. by left.
  - unfold forward. destruct (byAddr (tab s) !! _).
    + eapply (framed_step_ok _ _ _ []); [done | apply frame_on_tab | apply tmoves_one, ts_seen | constructor].
    + eapply (framed_step_ok _ _ _ []); [done | reflexivity | apply tmoves_refl | constructor].
Qed.
End Steps.

Section Reachable.
Context `{Ed25519}.

Lemma derived_step_ok s s1 e s' labs :
  cfg s1 = cfg s -> tab s1 = tab s -> (forall j, j ∈ inFlight s1 -> j ∈ inFlight s) -> srv_inv s1 ->
  frame s1 s' -> tmoves (cfg s) (tab s) labs (tab s') -> Forall (leg_licensed s e) labs -> step_ok s e s'.
Proof.
  intros Hc Ht Hj H1 Hf Hs Hl. split.
  - rewrite <- Hc. apply Hf.
  - by exists labs.
  - intros j. rewrite (fr_inFlight _ _ Hf). auto.
  - eapply framed_inv; [exact H1 | exact Hf |]. rewrite Hc, Ht. apply Hs.
Qed.

Lemma refuse_frame now r src s s' o :
  refuse now r src s = (s', o) -> frame s s' /\ tab s' = tab s /\ only_logs o.
Proof. destruct r; [apply rejectTicket_frame | apply rejectWindow_frame]. Qed.

Lemma verify_ok s now n j :
  srv_inv s -> inFlight s !! n = Some j ->
  step_ok s (EvVerify now n) (verifyTicketBind now j (with_inFlight s (delete n (inFlight s)))).1.
Proof.
  intros HI Hj. set (s1 := with_inFlight s (delete n (inFlight s))).
  assert (H1 : srv_inv s1).
  { destruct HI. split; try done. cbn. rewrite length_delete by eauto. lia. }
  assert (Hin : forall x, x ∈ inFlight s1 -> x ∈ inFlight s) by (intros x; apply list_subseteq_delete).
  assert (H2 : srv_inv (add_verify s1)) by (eapply budget_inv; [exact H1 | ..]; done || apply H1).
  unfold verifyTicketBind. destruct (decode_ticket_fields (j_bind j)) as [[[payload sig] bindSig] |] eqn:Ed.
  2:{ destruct (rejectTicket _ _ _ _ _ _) as [s' o] eqn:E. apply rejectTicket_frame in E as (Hf & Ht & _).
      apply (derived_step_ok s s1 _ _ []); try done. cbn [fst]. rewrite Ht. auto with relay. }
  change (cfg (add_verify s1)) with (cfg s).
  destruct (check_ticket _ _ _ _ _ _ _) as [p | r] eqn:Ec.
  - destruct (bindTicketed_outcome now p (j_src j) (j_acct j) _ (si_tab _ H2)) as (labs & Hs & Hl & Hf & _).
    apply (derived_step_ok s (add_verify s1) _ _ labs); try done; [by apply tmoves_one |].
    eapply Forall_impl; [exact Hl |]. intros [k l] (Ek & Ha & _ & Hn & He). cbn [fst snd] in *. right.
    exists p. unfold authorised. cbn [snd fst]. rewrite Ha, Hj, Ed, Ec. split_and!; [by left | done..].
  - destruct (refuse _ _ _ _) as [s' o] eqn:E. apply refuse_frame in E as (Hf & Ht & _).
    apply (derived_step_ok s (add_verify s1) _ _ []); try done. cbn [fst]. rewrite Ht. auto with relay.
Qed.

Lemma step_step_ok s e : srv_inv s -> step_ok s e (step e s).1.
Proof.
  intros HI. destruct e as [now pkt src | now n | now order | panics]; cbn [step].
  - by apply packet_ok.
  - destruct (inFlight s !! n) as [j |] eqn:Hj; [by apply verify_ok |].
    apply (derived_step_ok s s _ _ []); try done; apply tmoves_refl.
  - unfold reap. pose proof (reap_sessions_tsteps now (cfg s) order (tab s)) as Hs.
    destruct (reap_sessions now (cfg s) order (tab s)) as [t o]. cbn [fst] in *.
    apply (derived_step_ok s s _ _ []); try done; [| by apply tmoves_nil].
    split; try done; cbn [rejectWarned hoardWarned with_rejectWarned with_hoardWarned].
    + pose proof (map_size_filter_le (fun kt : string * Z => now - kt.2 < statsInterval) (rejectWarned s)). lia.
    + pose proof (map_size_filter_le (fun kt : string * Z => now - kt.2 < statsInterval) (hoardWarned s)). lia.
  - apply (derived_step_ok s (statsTick panics s).1 _ _ []); try done; [| apply tmoves_refl].
    eapply budget_inv; [exact HI | ..]; done || apply HI.
Qed.

(** ** Runs *)

(** The cookies and the tickets validated over a run. *)
Fixpoint validated_in (es : list Event) (s : Server) : list UDPAddr :=
  match es with [] => [] | e :: es' => validated s e ++ validated_in es' (step e s).1 end.
Fixpoint authorised_in (es : list Event) (s : Server) : list (Payload * UDPAddr) :=
  match es with [] => [] | e :: es' => authorised s e ++ authorised_in es' (step e s).1 end.

(** Everything in the tables and in flight goes back to a validated cookie. *)
Record provenance (s : Server) (V : list UDPAddr) (A : list (Payload * UDPAddr)) : Prop := {
  pv_jobs : Forall (fun j => j_src j ∈ V /\
    exists now, validCookie (cfg s) (b_Cookie (j_bind j)) (j_src j) now = Some (j_cookie j)) (inFlight s);
  pv_legs : forall tok l, has_leg (tab s) tok l -> addr l ∈ V;
  pv_auth : forall p a, (p, a) ∈ A -> a ∈ V;
  pv_ticket : ticketMode (cfg s) = true -> forall tok l, has_leg (tab s) tok l ->
    exists p, (p, addr l) ∈ A /\ SID p = tok /\ name l = Leg p /\ epk l = EPK p;
}.

Lemma authorised_source s V A e p a :
  provenance s V A -> (p, a) ∈ authorised s e -> a ∈ V.
Proof.
  intros [Hj _ _ _] Hin. destruct e as [| now n | |]; try by apply not_elem_of_nil in Hin.
  cbn in Hin. destruct (inFlight s !! n) as [j |] eqn:Ej; [| by apply not_elem_of_nil in Hin].
  repeat case_match; try by apply not_elem_of_nil in Hin.
  apply list_elem_of_singleton in Hin as [= -> ->]. rewrite Forall_forall in Hj.
  by apply Hj, (list_elem_of_lookup_2 _ n).
Qed.

Lemma step_provenance s V A e :
  srv_inv s -> provenance s V A ->
  provenance (step e s).1 (V ++ validated s e) (A ++ authorised s e).
Proof.
  intros HI HP. destruct (step_step_ok s e HI) as [Hc (labs & Hs & Hl) Hj _].
  pose proof (authorised_source s V A e) as Hau. pose proof HP as [P1 P2 P3 P4].
  assert (Hlegs : forall tok l, has_leg (tab (step e s).1) tok l ->
            has_leg (tab s) tok l \/ leg_licensed s e (tok, l)).
  { intros tok l Hin. destruct (tsteps_legs _ _ _ _ _ _ (proj1 Hs) (si_tab _ HI) Hin) as [? | Hin2]; [by left |].
    rewrite Forall_forall in Hl. right. by apply Hl. }
  split.
  - rewrite Hc. apply Forall_forall. intros j Hin.
    destruct (Hj j Hin) as [Hj' | [Hj' Hk]]; [| split; [set_solver | done]].
    rewrite Forall_forall in P1. destruct (P1 j Hj') as [? ?]. split; [set_solver | done].
  - intros tok l Hin. destruct (Hlegs tok l Hin) as [Hin' | [[_ Hv] | (p & Hp & _)]].
    + specialize (P2 tok l Hin'). set_solver.
    + set_solver.
    + specialize (Hau p _ HP Hp). set_solver.
  - intros p a [Hp | Hp]%elem_of_app; [specialize (P3 p a Hp) | specialize (Hau p a HP Hp)]; set_solver.
  - rewrite Hc. intros Hm tok l Hin. destruct (Hlegs tok l Hin) as [Hin' | [[Hm' _] | (p & Hp & ?)]].
    + destruct (P4 Hm tok l Hin') as (p & Hp & ?). exists p. split; [set_solver | done].
    + congruence.
    + exists p. split; [set_solver | done].
Qed.

Lemma run_cons e es s : run (e :: es) s = ((run es (step e s).1).1, (step e s).2 ++ (run es (step e s).1).2).
Proof. cbn. destruct (step e s) as [s1 o1]. cbn. by destruct (run es s1). Qed.

Lemma run_ok es : forall s V A,
  srv_inv s -> provenance s V A ->
  srv_inv (run es s).1 /\ provenance (run es s).1 (V ++ validated_in es s) (A ++ authorised_in es s) /\
  cfg (run es s).1 = cfg s.
Proof.
  induction es as [| e es IH]; intros s V A HI HP; [by rewrite !app_nil_r |].
  rewrite run_cons. cbn [fst validated_in authorised_in].
  destruct (step_step_ok s e HI) as [Hc _ _ HI'].
  destruct (IH _ _ _ HI' (step_provenance s V A e HI HP)) as (H1 & H2 & H3).
  rewrite <- !app_assoc in H2. split_and!; [done | done | congruence].
Qed.

Lemma run_inv es : forall s, srv_inv s -> srv_inv (run es s).1 /\ cfg (run es s).1 = cfg s.
Proof.
  induction es as [| e es IH]; intros s HI; [done |]. rewrite run_cons. cbn [fst].
  destruct (step_step_ok s e HI) as [Hc _ _ HI']. destruct (IH _ HI'). split; [done | congruence].
Qed.

Lemma empty_tab_inv c : tab_inv c (mkTable ∅ ∅ ∅ ∅ 0).
Proof.
  split; cbn [sessions legsPerIP byAddr]; rewrite ?legs_of_empty.
  - apply map_Forall_empty.
  - rewrite map_size_empty. lia.
  - apply map_Forall_empty.
  - intros _. apply map_Forall_empty.
  - constructor.
  - constructor.
  - intros acct. by rewrite lookup_empty.
  - intros acct. cbn. lia.
  - intros a r Hr. by rewrite lookup_empty in Hr.
Qed.

Lemma New_inv o key now : srv_inv (New o key now).
Proof.
  split; [apply empty_tab_inv | cbn; lia | | | by split | by split]; cbn; rewrite map_size_empty; lia.
Qed.

Lemma New_provenance o key now : provenance (New o key now) [] [].
Proof.
  split; [constructor | | |].
  - intros tok l (ses & Hs & _). cbn [sessions tab New] in Hs. by rewrite lookup_empty in Hs.
  - intros p a Hp. by apply not_elem_of_nil in Hp.
  - intros _ tok l (ses & Hs & _). cbn [sessions tab New] in Hs. by rewrite lookup_empty in Hs.
Qed.

Lemma reachable_ok o key now es :
  let s := (run es (New o key now)).1 in
  srv_inv s /\ provenance s (validated_in es (New o key now)) (authorised_in es (New o key now)) /\
  cfg s = cfg (New o key now).
Proof. apply (run_ok es _ [] []); [apply New_inv | apply New_provenance]. Qed.
End Reachable.
