(* ===== verification/RelayTheorems.v ===== *)
(** * The relay server: the theorems

    Statements over every run of the relay from its construction, whatever
    datagrams arrive and however verifications, reaps and packets interleave. *)

From S2P Require Import Prelude Base64 Sha256 Json NetAddr Crypto Protocol Ticket.
From S2P Require Import RelayWire RelayServer RelayInv RelayProps.
From S2P Require RateLimit.

(** ** Bounds *)

Lemma legs_of_length m :
  map_Forall (fun _ ses => (length (legs ses) <= 2)%nat) m -> (length (legs_of m) <= 2 * size m)%nat.
Proof.
  intros Hm. unfold legs_of. rewrite <- length_map_to_list.
  assert (Hl : Forall (fun kv => (length (legs kv.2) <= 2)%nat) (map_to_list m)).
  { apply Forall_forall. intros [k ses] Hin%elem_of_map_to_list. exact (Hm k ses Hin). }
  induction Hl as [| [k ses] l Hx Hl IH]; cbn [fmap list_fmap concat length] in *; [lia |].
  rewrite length_app. cbn [snd] in *. lia.
Qed.

Lemma byAddr_size c t : tab_inv c t -> (size (byAddr t) <= length (legs_of (sessions t)))%nat.
Proof.
  intros HI. rewrite <- size_dom.
  transitivity (size (list_to_set ((fun l => UDPAddr_String (addr l)) <$> legs_of (sessions t)) : gset string)).
  - apply subseteq_size. intros a Ha. apply elem_of_dom in Ha as [r Hr].
    destruct (ti_index _ _ HI a r Hr) as (l & Hl & <- & _). apply elem_of_list_to_set, list_elem_of_fmap. eauto.
  - etransitivity; [apply list_to_set_size_le |]. by rewrite length_fmap.
Qed.

Lemma New_maxSessions o key now : 0 < maxSessions (cfg (New o key now)).
Proof. cbn. destruct (_ <=? 0) eqn:E; [done | by apply Z.leb_gt in E]. Qed.
Lemma New_maxLegsPerIP o key now : 0 < maxLegsPerIP (cfg (New o key now)).
Proof. cbn. destruct (_ <=? 0) eqn:E; [done | by apply Z.leb_gt in E]. Qed.

Section Theorems.
Context `{Ed25519}.

(** C1. Every table an attacker can grow is bounded: in every state a relay
    reaches, whatever datagrams it received, sessions stay under their
    ceiling and hold one or two legs, the address index stays under twice
    that ceiling, no source holds more legs than its budget (and the count
    kept for it is the number it really holds), and verifications in flight,
    rate-limiter tables and log latches stay under their caps. *)
Theorem relay_bounded o key now0 es :
  let s := (run es (New o key now0)).1 in
  let c := cfg (New o key now0) in
  Z.of_nat (size (sessions (tab s))) <= maxSessions c /\
  map_Forall (fun _ ses => (1 <= length (legs ses) <= maxLegsPerSes)%nat) (sessions (tab s)) /\
  Z.of_nat (size (byAddr (tab s))) <= 2 * maxSessions c /\
  (forall acct, legs_held (tab s) acct = Z.of_nat (count_if (held_by acct) (legs_of (sessions (tab s)))) /\
                legs_held (tab s) acct <= maxLegsPerIP c) /\
  (length (inFlight s) <= maxSigInFlight)%nat /\
  Z.of_nat (size (RateLimit.perSrc (bindRL s))) <= rlMaxSources /\
  Z.of_nat (size (RateLimit.perSrc (reserveRL s))) <= reserveMaxSIDs /\
  (size (rejectWarned s) <= 64)%nat /\ Z.of_nat (size (hoardWarned s)) <= maxSessions c.
Proof.
  intros s c. destruct (reachable_ok o key now0 es) as ([HT HJ HR HH HB HV] & _ & Hc).
  fold s c in HT, HJ, HR, HH, HB, HV, Hc. rewrite Hc in HT, HH.
  pose proof (New_maxSessions o key now0) as Hms. pose proof (New_maxLegsPerIP o key now0) as Hml.
  fold c in Hms, Hml.
  assert (Hlegs : map_Forall (fun _ ses => (1 <= length (legs ses) <= maxLegsPerSes)%nat) (sessions (tab s))).
  { eapply map_Forall_impl; [exact (ti_legs _ _ HT) |]. intros k ses. apply legs_ok_length. }
  pose proof (ti_cap _ _ HT). pose proof (byAddr_size _ _ HT).
  assert ((length (legs_of (sessions (tab s))) <= 2 * size (sessions (tab s)))%nat).
  { apply legs_of_length. eapply map_Forall_impl; [exact Hlegs |]. cbn. unfold maxLegsPerSes. lia. }
  split_and!; try done; try lia; try apply HB; try apply HV.
  intros acct. rewrite (mirrors_held _ _ _ (ti_count _ _ HT)). split; [done |].
  pose proof (ti_ipcap _ _ HT acct). lia.
Qed.

(** ** Where datagrams go *)

(** A record found through the index and its partner pointer are those of the
    two legs of one session. *)
Lemma forward_partner c t src r dst :
  tab_inv c t -> byAddr t !! UDPAddr_String src = Some r -> peer_at t r = Some dst ->
  exists tok ses l l', sessions t !! tok = Some ses /\ (legs ses = [l; l'] \/ legs ses = [l'; l]) /\
    UDPAddr_String (addr l) = UDPAddr_String src /\ dst = addr l'.
Proof.
  intros HI Hb Hp. destruct (ti_index _ _ HI _ _ Hb) as (l & Hl & Ha & Hr).
  apply elem_legs_of in Hl as (tok & ses & Hs & Hl). pose proof (ti_legs _ _ HI tok ses Hs) as Hok.
  cbn beta in Hok. exists tok, ses, l. rewrite <- Hr in Hp.
  destruct (legs ses) as [| l0 [| l1 [| l2 ls]]]; try done; cbn in Hok.
  - apply list_elem_of_singleton in Hl as ->. congruence.
  - apply elem_of_cons in Hl as [-> | ->%list_elem_of_singleton]; destruct Hok as [H0 H1].
    + exists l1. split_and!; [done | by left | done | congruence].
    + exists l0. split_and!; [done | by right | done | congruence].
Qed.

(** C14. Data goes from one leg of a session to the other and nowhere else:
    whatever the relay forwards is the datagram itself, unchanged, to the
    partner of a leg bound at the sender's address. *)
Theorem relay_forwards_to_partner o key now0 es now pkt src q dst :
  let s := (run es (New o key now0)).1 in
  Send q dst ∈ (forward now src pkt s).2 ->
  q = pkt /\ exists tok ses l l', sessions (tab s) !! tok = Some ses /\
    (legs ses = [l; l'] \/ legs ses = [l'; l]) /\
    UDPAddr_String (addr l) = UDPAddr_String src /\ dst = addr l'.
Proof.
  intros s. destruct (reachable_ok o key now0 es) as (HI & _ & _). fold s in HI.
  unfold forward. destruct (byAddr (tab s) !! UDPAddr_String src) as [r |] eqn:Eb; cbn [snd].
  - destruct (peer (load_fwd (tab s) r)) as [d |] eqn:Ep.
    + intros [= -> ->]%list_elem_of_singleton. split; [done |].
      eapply forward_partner; [apply HI | exact Eb | exact Ep].
    + by intros ?%not_elem_of_nil.
  - by intros ?%not_elem_of_nil.
Qed.

Lemma only_logs_no_send o pkt dst : only_logs o -> Send pkt dst ∈ o -> False.
Proof. intros Ho Hin. unfold only_logs in Ho. rewrite Forall_forall in Ho. by destruct (Ho _ Hin). Qed.

Lemma outcome_sends s tok src P r pkt dst :
  bind_outcome s tok src P r -> Send pkt dst ∈ r.2 -> dst = src.
Proof.
  intros (labs & _ & _ & _ & Ho) Hin. rewrite Forall_forall in Ho.
  destruct (Ho _ Hin) as [[l E] | E]; [done |]. by injection E.
Qed.

Lemma admit_no_send now b src acct cookie s : only_logs (admitTicketBind now b src acct cookie s).2.
Proof.
  assert (R : forall reason sid lg s0, only_logs (rejectTicket now reason sid lg src s0).2).
  { intros. destruct (rejectTicket _ _ _ _ _ _) eqn:E. by apply rejectTicket_frame in E as (_ & _ & ?). }
  unfold admitTicketBind. destruct (_ || _); [apply R |].
  destruct (draw_budget _ _ _) as [ok s1]. destruct (negb ok); [apply R |].
  destruct (_ <=? _)%nat; [apply R | constructor].
Qed.

(** What a datagram from [src] may make the relay send. *)
Lemma packet_sends s V A now req src pkt dst :
  srv_inv s -> provenance s V A -> Send pkt dst ∈ (packet now req src s).2 ->
  (dst = src /\ pkt = MarshalChallenge (freshCookie (cfg s) src now) /\ (slen pkt < slen req)%nat) \/
  dst ∈ V ++ validated s (EvPacket now req src).
Proof.
  intros HI HP. unfold packet, validated. destruct (ParseBind req) as [b |] eqn:Eb.
  - unfold bind. destruct (negb (cidrAllowed _ _)); [by intros ?%not_elem_of_nil |].
    destruct (RateLimit.Allow now _ (bindRL s)) as [ok l] eqn:Ea.
    destruct (negb ok); [by intros ?%not_elem_of_nil |]. cbn [cfg with_bindRL].
    destruct (validCookie (cfg s) (b_Cookie b) src now) as [cookie |] eqn:Ev.
    + destruct (ticketMode (cfg s)) eqn:Hm.
      * intros Hin. by apply only_logs_no_send in Hin; [| apply admit_no_send].
      * intros Hin. right. assert (dst = src) as ->; [| set_solver].
        eapply outcome_sends; [| exact Hin].
        apply (bindNetworkMode_outcome now src _ _ (with_bindRL s l)); [exact (si_tab _ HI) | exact Hm].
    + destruct (_ <? _)%nat eqn:El; [| by intros ?%not_elem_of_nil].
      intros [= -> ->]%list_elem_of_singleton. left. by apply Nat.ltb_lt in El.
  - unfold forward. destruct (byAddr (tab s) !! UDPAddr_String src) as [r |] eqn:Er; [| by intros ?%not_elem_of_nil].
    cbn [snd]. destruct (peer (load_fwd (tab s) r)) as [d |] eqn:Ep; [| by intros ?%not_elem_of_nil].
    intros [= -> ->]%list_elem_of_singleton. right. rewrite app_nil_r.
    destruct (forward_partner _ _ _ _ _ (si_tab _ HI) Er Ep) as (tok & ses & l & l' & Hs & Hl & _ & ->).
    apply (pv_legs _ _ _ HP tok). exists ses. split; [done |]. destruct Hl as [-> | ->]; set_solver.
Qed.

Lemma verify_sends s (V : list UDPAddr) now j pkt dst :
  srv_inv s -> Forall (fun j => j_src j ∈ V) (j :: inFlight s) -> Send pkt dst ∈ (verifyTicketBind now j s).2 -> dst ∈ V.
Proof.
  intros HI HV. apply Forall_cons in HV as [Hj _]. unfold verifyTicketBind.
  destruct (decode_ticket_fields _) as [[[payload sig] bs] |].
  - destruct (check_ticket _ _ _ _ _ _ _) as [p | r].
    + intros Hin. assert (dst = j_src j) as ->; [| done].
      eapply outcome_sends; [| exact Hin].
      apply (bindTicketed_outcome now p _ _ (add_verify s)). exact (si_tab _ HI).
    + destruct (refuse _ _ _ _) eqn:E. apply refuse_frame in E as (_ & _ & Ho). intros Hin.
      by eapply only_logs_no_send in Hin.
  - destruct (rejectTicket _ _ _ _ _ _) eqn:E. apply rejectTicket_frame in E as (_ & _ & Ho). intros Hin.
    by eapply only_logs_no_send in Hin.
Qed.
(** The relay cannot be used as a reflector or an amplifier: in every
    state it reaches, a datagram it sends in answer to an event goes to an
    address that has echoed a cookie sent to it, or is the challenge itself,
    returned to the sender and strictly smaller than the datagram it
    answers. *)
Theorem relay_never_reflects o key now0 es e pkt dst :
  let s0 := New o key now0 in let s := (run es s0).1 in
  Send pkt dst ∈ (step e s).2 ->
  (exists now req, e = EvPacket now req dst /\ pkt = MarshalChallenge (freshCookie (cfg s) dst now) /\
                   (slen pkt < slen req)%nat) \/
  dst ∈ validated_in es s0 ++ validated s e.
Proof.
  intros s0 s. destruct (reachable_ok o key now0 es) as (HI & HP & _). fold s0 s in HI, HP.
  destruct e as [now req src | now n | now order | panics]; cbn [step].
  - intros Hin. destruct (packet_sends _ _ _ _ _ _ _ _ HI HP Hin) as [(-> & -> & Hl) | Hv]; [left; eauto | by right].
  - destruct (inFlight s !! n) as [j |] eqn:Ej; [| by intros ?%not_elem_of_nil].
    intros Hin. right. apply elem_of_app. left.
    eapply (verify_sends (with_inFlight s (delete n (inFlight s)))); [| | exact Hin].
    + destruct HI. split; try done. cbn. rewrite length_delete by eauto. lia.
    + pose proof (pv_jobs _ _ _ HP) as Hj. rewrite Forall_forall in Hj. apply Forall_cons. split.
      * by apply Hj, (list_elem_of_lookup_2 _ n).
      * apply Forall_forall. intros x Hx. apply Hj.
        exact (list_subseteq_delete _ _ _ Hx).
  - unfold reap. pose proof (reap_sessions_logs now (cfg s) order (tab s)) as Ho.
    destruct (reap_sessions _ _ _ _) as [t o']. intros Hin. exfalso. eapply only_logs_no_send; [exact Ho | exact Hin].
  - intros Hin. apply only_logs_no_send in Hin; [done |]. unfold statsTick. cbn [snd].
    destruct (_ && _); repeat constructor. eauto.
Qed.

(** ** Who gets state *)

Lemma check_ticket_sound c tok payload sig bindSig cookie now p :
  check_ticket c tok payload sig bindSig cookie now = Ok p ->
  Verify (serverKeys c) payload sig = true /\ Parse payload = Ok p /\ CheckWindow p now = Ok tt /\
  CheckRelay p (relayID c) = Ok tt /\ tok = SID p /\
  exists k, EphPub p = Some k /\ VerifyBind k payload sig cookie bindSig = Ok tt.
Proof.
  unfold check_ticket. intros E. repeat case_match; simplify_eq.
  repeat match goal with H : is_ok ?r = true |- _ =>
    let u := fresh "u" in destruct r as [u |] eqn:?; [destruct u | done]; clear H end.
  breflect. split_and!; try done. eauto.
Qed.

Lemma authorised_in_inv es : forall s p a,
  (p, a) ∈ authorised_in es s ->
  exists es1 e es2, es = es1 ++ e :: es2 /\ (p, a) ∈ authorised (run es1 s).1 e.
Proof.
  induction es as [| e es IH]; intros s p a; cbn [authorised_in]; [by intros ?%not_elem_of_nil |].
  intros [Hin | Hin]%elem_of_app.
  - by exists [], e, es.
  - destruct (IH _ _ _ Hin) as (es1 & e1 & es2 & -> & Ha). exists (e :: es1), e1, es2.
    by rewrite run_cons.
Qed.

(** Whoever echoed a cookie is in a network the relay serves. *)
Lemma validated_allowed es : forall s a, srv_inv s -> a ∈ validated_in es s -> cidrAllowed (allowed (cfg s)) (IPof a) = true.
Proof.
  induction es as [| e es IH]; intros s a HI; cbn [validated_in]; [by intros ?%not_elem_of_nil |].
  intros [Hin | Hin]%elem_of_app.
  - destruct e as [now pkt src | | |]; try by apply not_elem_of_nil in Hin. unfold validated in Hin.
    destruct (ParseBind pkt); [| by apply not_elem_of_nil in Hin]. destruct (cidrAllowed _ (IPof src)) eqn:E; cbn [negb] in Hin; [| by apply not_elem_of_nil in Hin].
    destruct (validCookie _ _ _ _); [by apply list_elem_of_singleton in Hin as -> | by apply not_elem_of_nil in Hin].
  - destruct (step_step_ok s e HI) as [Hc _ _ HI']. rewrite <- Hc. by apply IH.
Qed.

Lemma legs_allowed o key now0 es tok l :
  let s0 := New o key now0 in has_leg (tab (run es s0).1) tok l -> cidrAllowed (o_AllowCIDRs o) (IPof (addr l)) = true.
Proof.
  intros s0 Hl. destruct (reachable_ok o key now0 es) as (_ & HP & _).
  apply (validated_allowed es s0); [apply New_inv |]. exact (pv_legs _ _ _ HP tok l Hl).
Qed.

(** Every leg of a ticketed relay goes back to a verification. *)
Lemma ticket_legs_checked o key now0 es tok l :
  let s0 := New o key now0 in
  ticketMode (cfg s0) = true -> has_leg (tab (run es s0).1) tok l ->
  exists es1 es2 now n j payload sig bindSig p k now',
    es = es1 ++ EvVerify now n :: es2 /\ inFlight (run es1 s0).1 !! n = Some j /\
    j_src j = addr l /\ decode_ticket_fields (j_bind j) = Some (payload, sig, bindSig) /\
    Verify (serverKeys (cfg s0)) payload sig = true /\ Parse payload = Ok p /\
    CheckWindow p now = Ok tt /\ CheckRelay p (relayID (cfg s0)) = Ok tt /\
    SID p = tok /\ Leg p = name l /\ EPK p = epk l /\ EphPub p = Some k /\
    VerifyBind k payload sig (j_cookie j) bindSig = Ok tt /\
    validCookie (cfg s0) (b_Cookie (j_bind j)) (addr l) now' = Some (j_cookie j).
Proof.
  intros s0 Hm Hl. destruct (reachable_ok o key now0 es) as (_ & HP & Hc). fold s0 in HP, Hc.
  destruct (pv_ticket _ _ _ HP ltac:(by rewrite Hc) tok l Hl) as (p & Hp & Hs & Hn & He).
  destruct (authorised_in_inv _ _ _ _ Hp) as (es1 & e & es2 & -> & Ha).
  destruct (reachable_ok o key now0 es1) as (_ & HP1 & Hc1). fold s0 in HP1, Hc1.
  destruct e as [| now n | |]; try by apply not_elem_of_nil in Ha.
  unfold authorised in Ha. destruct (inFlight (run es1 s0).1 !! n) as [j |] eqn:Ej; [| by apply not_elem_of_nil in Ha].
  destruct (decode_ticket_fields (j_bind j)) as [[[payload sig] bindSig] |] eqn:Ed; [| by apply not_elem_of_nil in Ha].
  destruct (check_ticket _ _ _ _ _ _ _) as [p' | r] eqn:Ec; [| by apply not_elem_of_nil in Ha].
  apply list_elem_of_singleton in Ha as [= <- Ea]. rewrite Hc1 in Ec.
  apply check_ticket_sound in Ec as (H1 & H2 & H3 & H4 & H5 & k & H6 & H7).
  pose proof (pv_jobs _ _ _ HP1) as Hj. rewrite Forall_forall in Hj.
  destruct (Hj j (list_elem_of_lookup_2 _ _ _ Ej)) as [_ [now' Hv]]. rewrite Hc1, <- Ea in Hv.
  exists es1, es2, now, n, j, payload, sig, bindSig, p, k, now'. by split_and!.
Qed.

(** C2. In ticket mode nothing is bound without the full chain of checks: for
    every leg in every reachable state there is an earlier verification, of a
    bind from that leg's own address, of a ticket signed by one of the
    configured server keys, well formed, inside its validity window, issued
    for this relay, naming this session and this leg, together with a proof
    of possession by the key the leg is held under, over a cookie that was
    valid for that address. *)
Theorem ticket_legs_authorised o key now0 es tok l :
  let s0 := New o key now0 in
  ticketMode (cfg s0) = true -> has_leg (tab (run es s0).1) tok l ->
  exists es1 es2 now n j payload sig bindSig p k now',
    es = es1 ++ EvVerify now n :: es2 /\ inFlight (run es1 s0).1 !! n = Some j /\
    j_src j = addr l /\ decode_ticket_fields (j_bind j) = Some (payload, sig, bindSig) /\
    Verify (serverKeys (cfg s0)) payload sig = true /\ Parse payload = Ok p /\
    CheckWindow p now = Ok tt /\ CheckRelay p (relayID (cfg s0)) = Ok tt /\
    SID p = tok /\ Leg p = name l /\ EPK p = epk l /\ EphPub p = Some k /\
    VerifyBind k payload sig (j_cookie j) bindSig = Ok tt /\
    validCookie (cfg s0) (b_Cookie (j_bind j)) (addr l) now' = Some (j_cookie j).
Proof. apply ticket_legs_checked. Qed.
End Theorems.

Section State.
Context `{Ed25519}.

(** A bind without a valid cookie costs the relay nothing: no session, leg,
    index entry or count is created or changed, no verification is started or
    counted, no verification budget is spent; and the only datagram it can
    draw is the challenge to its own source address, sent only when strictly
    smaller than the bind. *)
Theorem unvalidated_bind_is_stateless now pkt src b s :
  ParseBind pkt = Some b -> validCookie (cfg s) (b_Cookie b) src now = None ->
  let '(s', o) := packet now pkt src s in
  tab s' = tab s /\ inFlight s' = inFlight s /\ sigRL s' = sigRL s /\ reserveRL s' = reserveRL s /\
  statVerify (stats s') = statVerify (stats s) /\
  (o = [] \/ (o = [Send (MarshalChallenge (freshCookie (cfg s) src now)) src] /\
              (slen (MarshalChallenge (freshCookie (cfg s) src now)) < slen pkt)%nat)).
Proof.
  intros Hb Hv. unfold packet, bind. rewrite Hb.
  destruct (negb (cidrAllowed _ _)); [by split_and!; try left |].
  destruct (RateLimit.Allow now _ (bindRL s)) as [ok l].
  destruct (negb ok); [by split_and!; try left |]. cbn [cfg with_bindRL]. rewrite Hv.
  split_and!; try done. destruct (_ <? _)%nat eqn:E; [| by left]. right. by apply Nat.ltb_lt in E.
Qed.

(** ** Who keeps a leg *)

Lemma same_leg c t tok l l' :
  tab_inv c t -> ticketMode c = true -> has_leg t tok l -> has_leg t tok l' -> name l = name l' -> l = l'.
Proof.
  intros HI Hm (ses & Hs & Hl) (ses' & Hs' & Hl') E. rewrite Hs in Hs'. injection Hs' as <-.
  eapply NoDup_fmap_inj; [exact (ti_names _ _ HI Hm tok ses Hs) | done..].
Qed.

Lemma tstep_owner c t labs t' tok l l' :
  tab_inv c t -> ticketMode c = true -> tstep c t labs t' ->
  has_leg t tok l -> has_leg t' tok l' -> name l = name l' -> epk l = epk l'.
Proof.
  intros HI Hm Hs Hl Hl' Hn. destruct (tstep_legs _ _ _ _ _ _ HI Hs Hl') as [Hold | Hnew].
  { by rewrite (same_leg _ _ _ _ _ HI Hm Hl Hold Hn). }
  revert HI Hl. destruct Hs as [ | | u ses src acct nm key now Hc Hlen Hh Hnm | u ses held src acct now Hs Hf Ha | ];
    try by apply not_elem_of_nil in Hnew.
  - intros HI (ses' & Hs' & Hin). apply list_elem_of_singleton in Hnew as [= -> ->]. cbn in Hn.
    exfalso. apply (Hnm Hm). destruct Hc as [Hc | (Hc & _)]; [| congruence]. simplify_eq.
    apply list_elem_of_fmap. by exists l.
  - intros HI Hl. apply list_elem_of_singleton in Hnew as [= -> ->]. cbn in Hn |- *.
    destruct (find_leg_split _ _ _ Hf) as (_ & pre & post & El & _).
    assert (Hh : has_leg u (token ses) held) by (exists ses; split; [done |]; rewrite El; set_solver).
    by rewrite (same_leg _ _ _ _ _ HI Hm Hl Hh Hn).
Qed.

(** A leg cannot be taken over: in ticket mode, as long as a session keeps a
    leg of a given name, no event (a bind with another valid ticket included)
    changes the ephemeral key that leg is held under.  The holder's address
    may move; its key may not. *)
Theorem leg_owner_stable o key now0 es e tok l l' :
  let s := (run es (New o key now0)).1 in
  ticketMode (cfg (New o key now0)) = true ->
  has_leg (tab s) tok l -> has_leg (tab (step e s).1) tok l' -> name l = name l' -> epk l = epk l'.
Proof.
  intros s Hm Hl Hl' Hn. destruct (reachable_ok o key now0 es) as (HI & _ & Hc). fold s in HI, Hc.
  rewrite <- Hc in Hm. destruct (step_step_ok s e HI) as [_ (labs & [Hs Hone] & _) _ _].
  destruct Hone as [-> | Hone].
  - destruct (tsteps_legs _ _ _ _ _ _ Hs (si_tab _ HI) Hl') as [Hold | Hin]; [| by apply not_elem_of_nil in Hin].
    by rewrite (same_leg _ _ _ _ _ (si_tab _ HI) Hm Hl Hold Hn).
  - by eapply tstep_owner; [apply HI | ..].
Qed.

(** ** Expiry *)

(** A session that a reap at [now] leaves: paired or young, and with no idle leg. *)
Definition fresh_session (now : Z) (c : Config) (t : Table) (ses : session) : Prop :=
  (paired ses = true \/ now - created ses <= pendingPair c) /\
  Forall (fun l => now - seen (load_fwd t (fwd_ref l)) <= ttl c) (legs ses).

Lemma forget_fwds ls t : fwds (foldl forget_leg t ls) = fwds t.
Proof.
  revert t. induction ls as [| l ls IH]; intros t; simpl; [done |]. rewrite IH.
  unfold forget_leg, releaseIPLocked. by destruct (_ <=? _).
Qed.

Lemma seen_store_peer r a t r' : seen (load_fwd (store_peer r a t) r') = seen (load_fwd t r').
Proof.
  unfold store_peer, load_fwd at 1. cbn [fwds with_fwds]. destruct (decide (r = r')) as [<- | Hne].
  - by rewrite lookup_insert_eq.
  - by rewrite lookup_insert_ne.
Qed.

Lemma reap_session_seen now c tok t r :
  seen (load_fwd (reap_session now c tok t).1 r) = seen (load_fwd t r).
Proof.
  unfold reap_session. destruct (sessions t !! tok) as [ses |]; [| done].
  destruct (_ && _); cbn [fst].
  { unfold load_fwd. cbn. by rewrite forget_fwds. }
  destruct (List.filter _ (legs ses)) as [| l [| l1 rest]]; cbn [fst]; rewrite ?seen_store_peer;
    unfold load_fwd; cbn; by rewrite forget_fwds.
Qed.

Lemma reap_session_other now c tok t k :
  k <> tok -> sessions (reap_session now c tok t).1 !! k = sessions t !! k.
Proof.
  intros Hne. unfold reap_session. destruct (sessions t !! tok) as [ses |]; [| done].
  destruct (_ && _); cbn [fst].
  { cbn. rewrite lookup_delete_ne by done. by rewrite forget_sessions. }
  destruct (List.filter _ (legs ses)) as [| l [| l1 rest]]; cbn;
    rewrite ?lookup_delete_ne by done; rewrite lookup_insert_ne by done; by rewrite forget_sessions.
Qed.

Lemma reap_session_fresh now c tok t ses' :
  sessions (reap_session now c tok t).1 !! tok = Some ses' -> fresh_session now c t ses'.
Proof.
  unfold reap_session. destruct (sessions t !! tok) as [ses |] eqn:Hs; [| by cbn; rewrite Hs].
  destruct (negb (paired ses) && _) eqn:E; cbn [fst].
  { cbn. by rewrite lookup_delete_eq. }
  assert (K : ses' = set_legs ses (List.filter (fun l => negb (idle now (ttl c) t l)) (legs ses)) ->
              fresh_session now c t ses').
  { intros ->. split.
    - cbn. apply andb_false_iff in E as [E | E]; breflect; [left | right; lia].
      by destruct (paired ses).
    - apply Forall_forall. intros l Hl. cbn in Hl. apply list_elem_of_In, filter_In in Hl as [_ Hl].
      unfold idle in Hl. breflect. lia. }
  destruct (List.filter _ (legs ses)) as [| l [| l1 rest]]; cbn.
  - by rewrite lookup_delete_eq.
  - rewrite lookup_insert_eq. intros [= <-]. by apply K.
  - rewrite lookup_insert_eq. intros [= <-]. by apply K.
Qed.

Lemma reap_sessions_fresh now c order : forall t,
  (forall r, seen (load_fwd (reap_sessions now c order t).1 r) = seen (load_fwd t r)) /\
  forall tok ses, sessions (reap_sessions now c order t).1 !! tok = Some ses ->
    (tok ∈ order /\ fresh_session now c t ses) \/ (tok ∉ order /\ sessions t !! tok = Some ses).
Proof.
  induction order as [| k order IH]; intros t; cbn [reap_sessions].
  { split; [done |]. intros tok ses Hs. right. split; [apply not_elem_of_nil | done]. }
  pose proof (reap_session_seen now c k t) as Hseen1. pose proof (reap_session_other now c k t) as Hoth.
  pose proof (reap_session_fresh now c k t) as Hfr.
  destruct (reap_session now c k t) as [t1 o1]. destruct (IH t1) as [Hseen2 Hs2].
  destruct (reap_sessions now c order t1) as [t2 o2]. cbn [fst] in *.
  split; [intros r; by rewrite Hseen2 |]. intros tok ses Hs.
  destruct (Hs2 tok ses Hs) as [[Hin Hf] | [Hni Ht1]].
  - left. split; [by right |]. destruct Hf as [Hp Hl]. split; [done |].
    eapply Forall_impl; [exact Hl |]. intros l Hx. cbn beta in *. by rewrite <- Hseen1.
  - destruct (decide (tok = k)) as [-> | Hne].
    + left. split; [by left | by apply Hfr].
    + right. split; [set_solver | by rewrite <- Hoth].
Qed.

(** After a reap that visited every session, no session is left that has
    stayed half open past the absolute pairing timeout, whatever traffic it
    carried, and no leg that has been silent longer than the TTL. *)
Theorem reap_expires now order s :
  (forall tok, is_Some (sessions (tab s) !! tok) -> tok ∈ order) ->
  forall tok ses, sessions (tab (reap now order s).1) !! tok = Some ses ->
    (paired ses = true \/ now - created ses <= pendingPair (cfg s)) /\
    Forall (fun l => now - seen (load_fwd (tab (reap now order s).1) (fwd_ref l)) <= ttl (cfg s)) (legs ses).
Proof.
  intros Hord tok ses. unfold reap. pose proof (reap_sessions_fresh now (cfg s) order (tab s)) as [Hseen Hs].
  destruct (reap_sessions _ _ _ _) as [t o]. cbn [fst tab with_tab with_hoardWarned with_rejectWarned] in *.
  intros Ht. destruct (Hs tok ses Ht) as [[_ [Hp Hl]] | [Hni Hold]].
  - split; [done |]. eapply Forall_impl; [exact Hl |]. intros l Hx. cbn beta in *. by rewrite Hseen.
  - destruct Hni. apply Hord. eauto.
Qed.
End State.

(** ** Cookies *)

Section Cookies.
(** Two different inputs with the same truncated MAC under one key. *)
Definition mac_collision (k x y : string) : Prop :=
  x <> y /\ take_s CookieLen (hmac_sha256 k x) = take_s CookieLen (hmac_sha256 k y).

Definition valid_source (a : UDPAddr) : Prop := valid_ip (IPof a) /\ 0 <= Port a < 65536.

Lemma To16_len ip : valid_ip ip -> slen (To16 ip) = 16%nat.
Proof.
  intros [H | H]; unfold To16; rewrite H; [| done]. cbn. by rewrite H.
Qed.

Lemma cookie_input_inj a b ea eb :
  valid_source a -> valid_source b -> 0 <= ea < 2 ^ 63 -> 0 <= eb < 2 ^ 63 ->
  cookie_input a ea = cookie_input b eb ->
  To16 (IPof a) = To16 (IPof b) /\ Port a = Port b /\ ea = eb.
Proof.
  intros [Va Pa] [Vb Pb] Ha Hb E. unfold cookie_input in E.
  apply app_cancel_len in E as [E1 E]; [| by rewrite !slen_be_bytes].
  apply app_cancel_len in E as [E2 E3]; [| by rewrite !To16_len].
  apply be_bytes_inj in E1; [| lia..]. apply be_bytes_inj in E3; [| lia..]. done.
Qed.

Lemma computeCookie_inj c a b ea eb :
  valid_source a -> valid_source b -> 0 <= ea < 2 ^ 63 -> 0 <= eb < 2 ^ 63 ->
  computeCookie c a ea = computeCookie c b eb ->
  (To16 (IPof a) = To16 (IPof b) /\ Port a = Port b /\ ea = eb) \/
  mac_collision (cookieKey c) (cookie_input a ea) (cookie_input b eb).
Proof.
  intros Va Vb Ha Hb E. destruct (decide (cookie_input a ea = cookie_input b eb)) as [Ei | Ei].
  - left. by apply cookie_input_inj.
  - right. by split.
Qed.

Lemma validCookie_inv c b64 src now k :
  validCookie c b64 src now = Some k ->
  RawURL.DecodeString b64 = Some k /\
  exists e, (e = epoch_of now \/ e = epoch_of now - 1) /\ k = computeCookie c src e.
Proof.
  unfold validCookie. intros E. repeat case_match; simplify_eq. split; [done |].
  match goal with H : _ || _ = true |- _ => apply orb_true_iff in H as [H | H]; apply String.eqb_eq in H end;
    eauto.
Qed.

(** A cookie proves the full source address and a recent time: unless the
    truncated HMAC collides on the two inputs at hand, a cookie accepted from
    one address is never accepted from another (another port of the same host
    included), and it stops being accepted within two epochs, that is, less
    than sixty seconds after the first epoch it is accepted in began. *)
Theorem cookie_binds_address c b64 a b now1 now2 ka kb :
  valid_source a -> valid_source b ->
  cookieEpoch <= now1 <= int64_max -> cookieEpoch <= now2 <= int64_max ->
  validCookie c b64 a now1 = Some ka -> validCookie c b64 b now2 = Some kb ->
  (To16 (IPof a) = To16 (IPof b) /\ Port a = Port b /\ Z.abs (epoch_of now1 - epoch_of now2) <= 1) \/
  exists e1 e2, (e1 = epoch_of now1 \/ e1 = epoch_of now1 - 1) /\
    (e2 = epoch_of now2 \/ e2 = epoch_of now2 - 1) /\
    mac_collision (cookieKey c) (cookie_input a e1) (cookie_input b e2).
Proof.
  intros Va Vb H1 H2 (E1 & e1 & He1 & ->)%validCookie_inv (E2 & e2 & He2 & ->)%validCookie_inv.
  assert (E : computeCookie c a e1 = computeCookie c b e2) by congruence.
  assert (R : forall now, cookieEpoch <= now <= int64_max -> 1 <= epoch_of now < 2 ^ 62).
  { intros now Hn. unfold epoch_of, cookieEpoch, int64_max, second in *.
    rewrite Z.quot_div_nonneg by lia. split; [apply Z.div_le_lower_bound; lia | apply Z.div_lt_upper_bound; lia]. }
  specialize (R now1 H1) as R1. specialize (R now2 H2) as R2.
  destruct (computeCookie_inj c a b e1 e2 Va Vb ltac:(lia) ltac:(lia) E) as [(Hi & Hp & <-) | Hc].
  - left. split_and!; [done | done | lia].
  - right. by exists e1, e2.
Qed.
End Cookies.
