(* ===== verification/RelayComplete.v ===== *)
(** * The relay server: completeness and a worked run

    An honest buddy is served: the bind it builds from a ticket the server
    signed is accepted while there is room, and completes the pair.  A complete
    run of two buddies pairing through a ticket-mode relay, evaluated. *)

From S2P Require Import Prelude Base64 Sha256 Json NetAddr Crypto Protocol Ticket.
From S2P Require Import RelayWire RelayServer RelayInv RelayProps RelayTheorems.
From S2P Require RateLimit.

(** ** An honest bind is accepted *)

(** The session a ticket names has room for its leg. *)
Definition leg_free (c : Config) (t : Table) (p : Payload) : Prop :=
  match sessions t !! SID p with
  | None => Z.of_nat (size (sessions t)) < maxSessions c
  | Some ses => exists l0, legs ses = [l0] /\ name l0 <> Leg p
  end.

Lemma bindTicketed_claims now p src acct s :
  tab_inv (cfg s) (tab s) -> leg_free (cfg s) (tab s) p -> legs_held (tab s) acct < maxLegsPerIP (cfg s) ->
  exists s' o ses, bindTicketed now p src acct s = (s', o) /\ ack (SID p) src ∈ o /\
    token ses = SID p /\ claimable (cfg s) (tab s) ses /\ (length (legs ses) < maxLegsPerSes)%nat /\
    (forall ses0, sessions (tab s) !! SID p = Some ses0 -> ses = ses0) /\
    tab s' = claim now ses src acct (Leg p) (EPK p) (tab s).
Proof.
  intros HI Hfree Hroom. unfold bindTicketed. unfold leg_free in Hfree.
  assert (Hf : exists ses new s1, find_or_create now (SID p) s = Some (ses, new, s1) /\
            find_leg (Leg p) (legs ses) = None /\ (length (legs ses) < maxLegsPerSes)%nat /\
            forall ses0, sessions (tab s) !! SID p = Some ses0 -> ses = ses0).
  { unfold find_or_create. destruct (sessions (tab s) !! SID p) as [ses |].
    - destruct Hfree as (l0 & El & Hn). exists ses, false, s. rewrite El. cbn.
      apply String.eqb_neq in Hn. rewrite Hn. unfold maxLegsPerSes. split_and!; [done | done | lia | congruence].
    - destruct (_ <=? _) eqn:E; [breflect; lia |]. eexists _, _, _.
      split_and!; [done | done | cbn; unfold maxLegsPerSes; lia | done]. }
  destruct Hf as (ses & new & s1 & Hf & Hn & Hlen & Hses). rewrite Hf, Hn.
  destruct (find_or_create_spec _ _ _ _ _ _ HI Hf) as (Ht & Hc & Hfr & Hh & Hcl & _).
  destruct (maxLegsPerSes <=? _)%nat eqn:E1; [breflect; lia |].
  rewrite Hh, (fr_cfg _ _ Hfr). destruct (maxLegsPerIP (cfg s) <=? _) eqn:E2; [breflect; lia |].
  destruct ses as [tk ls pd cr]. cbn [legs token] in *.
  destruct ls as [| l0 [| l1 ls]]; [| | unfold maxLegsPerSes in Hlen; cbn in Hlen; lia].
  - eexists _, _, (mkSession tk [] pd cr). split; [cbn; reflexivity |].
    split_and!; [set_solver | exact Ht | exact Hc | done | done | rewrite <- Hcl; reflexivity].
  - eexists _, _, (mkSession tk [l0] pd cr). split; [cbn; reflexivity |].
    split_and!; [set_solver | exact Ht | exact Hc | done | done | rewrite <- Hcl; reflexivity].
Qed.

(** The leg is claimed, and nothing but the table changes. *)
Lemma honest_claim s now p src acct :
  tab_inv (cfg s) (tab s) -> leg_free (cfg s) (tab s) p -> legs_held (tab s) acct < maxLegsPerIP (cfg s) ->
  exists s' o ses, bindTicketed now p src acct s = (s', o) /\ ack (SID p) src ∈ o /\ frame s s' /\ tab_inv (cfg s') (tab s') /\
    token ses = SID p /\ claimable (cfg s) (tab s) ses /\ (forall ses0, sessions (tab s) !! SID p = Some ses0 -> ses = ses0) /\
    claimed ses (mkLeg src (next_ref (tab s)) acct (Leg p) (EPK p)) (tab s) (tab s').
Proof.
  intros HI Hfree Hroom.
  destruct (bindTicketed_claims now p src acct s HI Hfree Hroom) as (s' & o & ses & Hb & Ho & Ht & Hc & Hlen & Hses & Htab).
  assert (Hf : frame s s').
  { pose proof (bindTicketed_outcome now p src acct s HI) as Hout. rewrite Hb in Hout. by destruct Hout as (labs & _ & _ & Hf & _). }
  exists s', o, ses. pose proof (claim_fields now ses src acct (Leg p) (EPK p) (tab s) Hlen (claimable_next _ _ _ HI Hc)) as Hcl.
  rewrite <- Htab in Hcl. split_and!; try done. rewrite (fr_cfg _ _ Hf).
  eapply claimed_inv; [exact HI | exact Hc | exact Hcl | done | done |]. intros _.
  unfold leg_free in Hfree. destruct (sessions (tab s) !! SID p) as [ses0 |] eqn:E0.
  - rewrite (Hses _ eq_refl). destruct Hfree as (l0 & -> & Hn). cbn. intros Heq%list_elem_of_singleton. congruence.
  - destruct Hc as [Hc | (_ & -> & _)]; [rewrite Ht, E0 in Hc; done | apply not_elem_of_nil].
Qed.

Section Honest.
Context `{Ed25519Laws}.

Lemma decode_honest payload sig eph sid c64 cookie :
  slen sig = SignatureSize ->
  decode_ticket_fields (BindCred_bind (Some (mkBindCred payload sig eph)) sid c64 cookie)
  = Some (payload, sig, SignBind eph payload sig cookie).
Proof.
  intros Hs. unfold decode_ticket_fields. cbn [BindCred_bind b_Ticket b_TicketSig b_BindSig cred_Payload cred_Sig cred_Eph].
  rewrite !RawURL_decode_encode. cbn [mbind option_bind]. rewrite Hs. unfold SignBind. by rewrite sig_size.
Qed.

Lemma check_honest c payload sig eph cookie now p :
  Verify (serverKeys c) payload sig = true -> Parse payload = Ok p -> CheckWindow p now = Ok tt ->
  RID p = relayID c -> relayID c <> "" -> EPK p = RawURL.EncodeToString (pub_of eph) ->
  check_ticket c (SID p) payload sig (SignBind eph payload sig cookie) cookie now = Ok p.
Proof.
  intros C1 C2 C3 C4 C5 C6. unfold check_ticket. rewrite C1, C2, C3. cbn [is_ok].
  unfold CheckRelay. apply String.eqb_neq in C5. rewrite C5, C4, String.eqb_refl. cbn [orb negb is_ok].
  rewrite String.eqb_refl, (EphPub_canonical p (pub_of eph)) by (done || apply pub_size).
  unfold VerifyBind, SignBind. rewrite pub_size, sig_size, sig_verifies. done.
Qed.

Lemma honest_verify s now p priv eph src acct cookie :
  tab_inv (cfg s) (tab s) -> In (pub_of priv) (serverKeys (cfg s)) -> ticket_wf p ->
  RID p = relayID (cfg s) -> EPK p = RawURL.EncodeToString (pub_of eph) -> CheckWindow p now = Ok tt ->
  leg_free (cfg s) (tab s) p -> legs_held (tab s) acct < maxLegsPerIP (cfg s) ->
  exists payload sig s' o ses, Sign priv p = Ok (payload, sig) /\
    verifyTicketBind now
      (mkJob (BindCred_bind (Some (mkBindCred payload sig eph)) (SID p) (RawURL.EncodeToString cookie) cookie)
         src acct cookie) s = (s', o) /\
    ack (SID p) src ∈ o /\ cfg s' = cfg s /\ tab_inv (cfg s') (tab s') /\ token ses = SID p /\
    claimable (cfg s) (tab s) ses /\ (forall ses0, sessions (tab s) !! SID p = Some ses0 -> ses = ses0) /\
    claimed ses (mkLeg src (next_ref (tab s)) acct (Leg p) (EPK p)) (tab s) (tab s').
Proof.
  intros HI Hk Hw Hr He Hwin Hfree Hroom.
  destruct (Sign_accepted priv p _ Hw Hk) as (payload & sig & Hs & Hv & Hp & _ & Hsig).
  destruct (honest_claim (add_verify s) now p src acct HI Hfree Hroom) as (s' & o & ses & Hb & Ho & Hf & HI' & Ht & Hc & Hses & Hcl).
  exists payload, sig, s', o, ses. split; [done |].
  assert (relayID (cfg s) <> "") as Hrid.
  { intros E. rewrite E in Hr. destruct Hw as [_ Hrv _ _ _ _ _ _]. by rewrite Hr in Hrv. }
  split; [| split_and!; try done; apply (fr_cfg _ _ Hf)].
  unfold verifyTicketBind. cbn [j_bind j_src j_acct j_cookie]. rewrite decode_honest by done.
  change (b_SessionToken (BindCred_bind _ _ _ _)) with (SID p).
  by rewrite (check_honest (cfg (add_verify s))) by done.
Qed.

(** An honest buddy is served.  For every ticket the server mints for this
    relay and every ephemeral key it was minted against, the bind built from
    them over the relay's cookie is accepted while the ticket is in its window
    and there is room: the leg is bound at the sender's address under that
    key and acknowledged; and when the partner's leg was already there, the
    pair is complete: data from the sender goes to the partner at once. *)
Theorem honest_ticket_bind_accepted s now p priv eph src acct cookie :
  srv_inv s -> In (pub_of priv) (serverKeys (cfg s)) -> ticket_wf p ->
  RID p = relayID (cfg s) -> EPK p = RawURL.EncodeToString (pub_of eph) -> CheckWindow p now = Ok tt ->
  leg_free (cfg s) (tab s) p -> legs_held (tab s) acct < maxLegsPerIP (cfg s) ->
  exists payload sig s' o, Sign priv p = Ok (payload, sig) /\
    verifyTicketBind now
      (mkJob (BindCred_bind (Some (mkBindCred payload sig eph)) (SID p) (RawURL.EncodeToString cookie) cookie)
         src acct cookie) s = (s', o) /\
    ack (SID p) src ∈ o /\
    has_leg (tab s') (SID p) (mkLeg src (next_ref (tab s)) acct (Leg p) (EPK p)) /\
    forall ses l0, sessions (tab s) !! SID p = Some ses -> legs ses = [l0] ->
      forall now' pkt, (forward now' src pkt s').2 = [Send pkt (addr l0)].
Proof.
  intros HI Hk Hw Hr He Hwin Hfree Hroom.
  destruct (honest_verify s now p priv eph src acct cookie (si_tab _ HI) Hk Hw Hr He Hwin Hfree Hroom)
    as (payload & sig & s' & o & ses & Hs & Hv & Ho & _ & _ & Ht & _ & Hses & [(ses' & _ & Hl' & Hs') _ Hby _ _ Hok]).
  exists payload, sig, s', o. split; [done |]. split; [done |]. split; [done |]. split.
  { exists ses'. rewrite Hs', <- Ht, lookup_insert_eq. split; [done |]. rewrite Hl'. set_solver. }
  intros ses0 l0 Hs0 Hl0 now' pkt. rewrite (Hses ses0 Hs0), Hl0 in Hok. cbn in Hok. destruct Hok as [_ Hok].
  unfold forward. rewrite Hby. cbn [addr fwd_ref]. rewrite lookup_insert_eq. cbn [snd].
  unfold peer_at in Hok. by rewrite Hok.
Qed.
End Honest.

(** ** From the datagram to the bound leg *)

Lemma freshCookie_len c src now : slen (freshCookie c src now) = CookieLen.
Proof. unfold freshCookie, computeCookie. by rewrite slen_take, slen_hmac. Qed.

Lemma validCookie_fresh c src now :
  validCookie c (RawURL.EncodeToString (freshCookie c src now)) src now = Some (freshCookie c src now).
Proof.
  unfold validCookie. pose proof (freshCookie_len c src now) as Hl.
  destruct (String.eqb_spec (RawURL.EncodeToString (freshCookie c src now)) "") as [E | _].
  { apply (f_equal slen) in E. rewrite RawURL_encoded_len, Hl in E. done. }
  rewrite RawURL_decode_encode, Hl. cbn [Nat.eqb negb]. unfold freshCookie at 1. by rewrite String.eqb_refl.
Qed.

(** The bind of an honest buddy that echoes the relay's cookie. *)
Definition honest_bind `{Ed25519} (c : Config) (priv eph : string) (p : Payload) (src : UDPAddr) (now : Z) : Bind :=
  let payload := render (Payload_json p) in
  let cookie := freshCookie c src now in
  BindCred_bind (Some (mkBindCred payload (ed_sign priv (signedBytes payload)) eph)) (SID p)
    (RawURL.EncodeToString cookie) cookie.

Definition net_bind (c : Config) (tok : string) (src : UDPAddr) (now : Z) : Bind :=
  mkBind tok (RawURL.EncodeToString (freshCookie c src now)) "" "" "".

Lemma net_bind_wf c tok src now :
  base64urlOnly tok = true -> slen tok = 22%nat ->
  bind_wf (net_bind c tok src now) /\ (bind_text_len (net_bind c tok src now) + 46 <= MaxBindLen)%nat.
Proof.
  intros Ht Hl. assert (Hc : slen (RawURL.EncodeToString (freshCookie c src now)) = 22%nat)
    by (rewrite RawURL_encoded_len, freshCookie_len; reflexivity).
  unfold bind_text_len, net_bind, MaxBindLen. cbn [b_SessionToken b_Cookie b_Ticket b_TicketSig b_BindSig].
  rewrite Hl, Hc. split; [| cbn; lia].
  split; cbn [b_SessionToken b_Cookie b_Ticket b_TicketSig b_BindSig]; rewrite ?Hl, ?Hc;
    try apply RawURL_encode_alphabet; try done;
    unfold MinSessionTokenLen, MaxFieldLen, maxTicketB64, maxSigB64; cbn; lia.
Qed.

Section Path.
Context `{Ed25519Laws}.

(** A well-formed bind with a current cookie, admitted by the address filter and
    the rate limiter, reaches the mode's handler. *)
Lemma packet_validated s now b src l :
  ParseBind (MarshalBind b) = Some b -> b_Cookie b = RawURL.EncodeToString (freshCookie (cfg s) src now) ->
  cidrAllowed (allowed (cfg s)) (IPof src) = true ->
  RateLimit.Allow now (FromIP (IPof src)) (bindRL s) = (true, l) ->
  packet now (MarshalBind b) src s =
    if ticketMode (cfg s)
    then admitTicketBind now b src (FromIP (IPof src)) (freshCookie (cfg s) src now) (with_bindRL s l)
    else bindNetworkMode now src (FromIP (IPof src)) (b_SessionToken b) (with_bindRL s l).
Proof.
  intros Hp Hc Ha Hl. unfold packet. rewrite Hp. unfold bind. rewrite Ha, Hl. cbn [negb cfg with_bindRL].
  by rewrite Hc, validCookie_fresh.
Qed.

Lemma honest_bind_parses c priv eph p src now :
  ticket_wf p -> ParseBind (MarshalBind (honest_bind c priv eph p src now)) = Some (honest_bind c priv eph p src now).
Proof.
  intros Hw. destruct (ValidID_alphabet _ (tw_sid p Hw)) as [Hb Hl].
  destruct (cred_bind_wf (mkBindCred (render (Payload_json p)) (ed_sign priv (signedBytes (render (Payload_json p)))) eph)
              (SID p) (freshCookie c src now)) as [W1 W2].
  - split; [by apply Payload_size | apply sig_size].
  - apply freshCookie_len.
  - done.
  - done.
  - by apply ParseBind_MarshalBind.
Qed.

(** Two events of an idle ticket-mode relay: the bind arrives and is verified. *)
Lemma ticket_path s now p priv eph src l s2 :
  ticketMode (cfg s) = true -> inFlight s = [] -> cidrAllowed (allowed (cfg s)) (IPof src) = true ->
  RateLimit.Allow now (FromIP (IPof src)) (bindRL s) = (true, l) ->
  draw_budget now (SID p) (with_bindRL s l) = (true, s2) ->
  In (pub_of priv) (serverKeys (cfg s)) -> ticket_wf p -> RID p = relayID (cfg s) ->
  EPK p = RawURL.EncodeToString (pub_of eph) -> CheckWindow p now = Ok tt ->
  run [EvPacket now (MarshalBind (honest_bind (cfg s) priv eph p src now)) src; EvVerify now 0] s
  = bindTicketed now p src (FromIP (IPof src)) (add_verify s2).
Proof.
  intros Hm Hj Ha Hl Hd Hk Hw Hr He Hwin.
  assert (D : inFlight s2 = [] /\ cfg s2 = cfg s).
  { unfold draw_budget in Hd. repeat case_match; simplify_eq; done. }
  destruct D as [Hj2 Hc2].
  assert (Hrid : relayID (cfg s) <> "").
  { intros E. rewrite E in Hr. pose proof (tw_rid p Hw) as Hrv. by rewrite Hr in Hrv. }
  destruct (Sign_accepted priv p _ Hw Hk) as (payload & sig & Hs & Hv & Hp & _ & Hsig).
  assert (payload = render (Payload_json p) /\ sig = ed_sign priv (signedBytes (render (Payload_json p)))) as [-> ->]
    by (unfold Sign in Hs; case_match; by simplify_eq).
  cbn [run step]. rewrite (packet_validated s now _ src l), Hm; [| by apply honest_bind_parses | done | done | done].
  unfold admitTicketBind.
  assert (N : forall x, (0 < slen x)%nat -> String.eqb (RawURL.EncodeToString x) "" = false).
  { intros x Hx. apply String.eqb_neq. intros E. assert (x = "") by (by apply RawURL_encode_inj).
    subst x. cbn in Hx. lia. }
  destruct (Payload_size p Hw) as [Hps _].
  set (hb := honest_bind (cfg s) priv eph p src now).
  assert (F : String.eqb (b_Ticket hb) "" = false /\ String.eqb (b_TicketSig hb) "" = false /\
              String.eqb (b_BindSig hb) "" = false).
  { split_and!; apply N; cbn [cred_Payload cred_Sig]; unfold SignBind; rewrite ?sig_size; unfold SignatureSize; (done || lia). }
  destruct F as (-> & -> & ->). change (b_SessionToken hb) with (SID p). cbn [orb].
  rewrite Hd, Hj2. cbn [negb length maxSigInFlight Nat.leb app with_inFlight inFlight lookup list_lookup].
  set (s3 := with_inFlight _ _).
  assert (E3 : s3 = s2) by (destruct s2; unfold s3; cbn in *; by subst).
  rewrite E3. unfold verifyTicketBind. cbn [j_bind j_src j_acct j_cookie].
  unfold hb, honest_bind. rewrite decode_honest by done. change (cfg (add_verify s2)) with (cfg s2). rewrite Hc2.
  change (b_SessionToken (BindCred_bind _ _ _ _)) with (SID p).
  rewrite check_honest by done. destruct (bindTicketed _ _ _ _ _) as [s4 o4].
  by rewrite app_nil_r.
Qed.
(** The same, to the claimed leg. *)
Lemma ticket_path_claims s now p priv eph src l s2 :
  tab_inv (cfg s) (tab s) -> ticketMode (cfg s) = true -> inFlight s = [] -> cidrAllowed (allowed (cfg s)) (IPof src) = true ->
  RateLimit.Allow now (FromIP (IPof src)) (bindRL s) = (true, l) -> draw_budget now (SID p) (with_bindRL s l) = (true, s2) ->
  In (pub_of priv) (serverKeys (cfg s)) -> ticket_wf p -> RID p = relayID (cfg s) ->
  EPK p = RawURL.EncodeToString (pub_of eph) -> CheckWindow p now = Ok tt ->
  leg_free (cfg s) (tab s) p -> legs_held (tab s) (FromIP (IPof src)) < maxLegsPerIP (cfg s) ->
  exists s' o ses, run [EvPacket now (MarshalBind (honest_bind (cfg s) priv eph p src now)) src; EvVerify now 0] s = (s', o) /\
    ack (SID p) src ∈ o /\ frame (add_verify s2) s' /\ tab_inv (cfg s') (tab s') /\ token ses = SID p /\ claimable (cfg s) (tab s) ses /\
    (forall ses0, sessions (tab s) !! SID p = Some ses0 -> ses = ses0) /\
    claimed ses (mkLeg src (next_ref (tab s)) (FromIP (IPof src)) (Leg p) (EPK p)) (tab s) (tab s').
Proof.
  intros HI Hm Hj Ha Hl Hd Hk Hw Hr He Hwin Hfree Hroom.
  assert (D : tab s2 = tab s /\ cfg s2 = cfg s) by (unfold draw_budget in Hd; repeat case_match; by simplify_eq).
  destruct D as [Et Ec]. rewrite (ticket_path s now p priv eph src l s2) by done.
  rewrite <- Et, <- Ec in HI, Hfree, Hroom |- *. by apply (honest_claim (add_verify s2)).
Qed.
End Path.

(** ** Evaluating runs of honest binds

    A script of honest binds and other events, the events it stands for, and an
    evaluator that skips the cryptography; [fast_run_sound] says it computes
    what the relay does. *)

Section Script.
Context `{Ed25519Laws}.

Inductive Script :=
| SNet (tok : string) (src : UDPAddr) (now : Z)
| STicket (priv eph : string) (p : Payload) (src : UDPAddr) (now : Z)
| SOther (e : Event).

Definition events_of (c : Config) (x : Script) : list Event :=
  match x with
  | SNet tok src now => [EvPacket now (MarshalBind (net_bind c tok src now)) src]
  | STicket priv eph p src now =>
      [EvPacket now (MarshalBind (honest_bind c priv eph p src now)) src; EvVerify now 0]
  | SOther e => [e]
  end.

Definition script_ok (c : Config) (x : Script) : Prop :=
  match x with
  | SNet tok _ _ => base64urlOnly tok = true /\ slen tok = 22%nat
  | STicket priv eph p _ _ =>
      ticket_wf p /\ In (pub_of priv) (serverKeys c) /\ EPK p = RawURL.EncodeToString (pub_of eph)
  | SOther _ => True
  end.

Definition fast (x : Script) (s : Server) : option (Server * list Out) :=
  match x with
  | SNet tok src now =>
      if ticketMode (cfg s) || negb (cidrAllowed (allowed (cfg s)) (IPof src)) then None else
      let '(ok, l) := RateLimit.Allow now (FromIP (IPof src)) (bindRL s) in
      if ok then Some (bindNetworkMode now src (FromIP (IPof src)) tok (with_bindRL s l)) else None
  | STicket _ _ p src now =>
      if negb (ticketMode (cfg s)) || negb (cidrAllowed (allowed (cfg s)) (IPof src)) ||
         negb (length (inFlight s) =? 0)%nat || negb (String.eqb (RID p) (relayID (cfg s))) ||
         negb (is_ok (CheckWindow p now)) then None else
      let '(ok, l) := RateLimit.Allow now (FromIP (IPof src)) (bindRL s) in
      let '(ok2, s2) := draw_budget now (SID p) (with_bindRL s l) in
      if ok && ok2 then Some (bindTicketed now p src (FromIP (IPof src)) (add_verify s2)) else None
  | SOther e => Some (step e s)
  end.

Lemma fast_sound x s r :
  fast x s = Some r -> script_ok (cfg s) x -> run (events_of (cfg s) x) s = r.
Proof.
  destruct x as [tok src now | priv eph p src now | e]; cbn [fast script_ok events_of]; intros E Hok.
  - destruct (ticketMode (cfg s)) eqn:Hm; [done |].
    destruct (cidrAllowed _ _) eqn:Ha; [| done]. cbn [orb negb] in E.
    destruct (RateLimit.Allow _ _ _) as [ok l] eqn:El. destruct ok; [| done]. simplify_eq.
    destruct Hok as [Ht Hl]. destruct (net_bind_wf (cfg s) tok src now Ht Hl) as [W1 W2].
    cbn [run step]. rewrite (packet_validated s now _ src l), Hm; try done; [| by apply ParseBind_MarshalBind].
    cbn [net_bind b_SessionToken]. destruct (bindNetworkMode _ _ _ _ _). by rewrite app_nil_r.
  - destruct (_ || negb (is_ok _)) eqn:Eg; [done |]. breflect.
    destruct (RateLimit.Allow _ _ _) as [ok l] eqn:El. destruct (draw_budget _ _ _) as [ok2 s2] eqn:Ed.
    destruct ok, ok2; try done. cbn [andb] in E. injection E as <-. destruct Hok as (Hw & Hk & He).
    apply (ticket_path s now p priv eph src l s2); try done.
    + by apply nil_length_inv.
    + destruct (CheckWindow p now) as [[] |]; done.
  - simplify_eq. cbn [run]. destruct (step e s). by rewrite app_nil_r.
Qed.

Fixpoint fast_run (xs : list Script) (s : Server) : option (Server * list Out) :=
  match xs with
  | [] => Some (s, [])
  | x :: xs' =>
      match fast x s with
      | None => None
      | Some (s1, o1) =>
          match fast_run xs' s1 with None => None | Some (s2, o2) => Some (s2, o1 ++ o2) end
      end
  end.

Lemma run_app es1 es2 s :
  run (es1 ++ es2) s =
  ((run es2 (run es1 s).1).1, (run es1 s).2 ++ (run es2 (run es1 s).1).2).
Proof.
  revert s. induction es1 as [| e es IH]; intros s; cbn [app].
  - cbn. by destruct (run es2 s).
  - rewrite !run_cons, IH. cbn. by rewrite app_assoc.
Qed.

Lemma fast_run_sound c xs : forall s r,
  srv_inv s -> cfg s = c -> Forall (script_ok c) xs -> fast_run xs s = Some r ->
  run (concat (events_of c <$> xs)) s = r.
Proof.
  induction xs as [| x xs IH]; intros s r HI Hc Hok E; cbn in E |- *; [by simplify_eq |].
  apply Forall_cons in Hok as [Hx Hxs]. destruct (fast x s) as [[s1 o1] |] eqn:Ex; [| done].
  destruct (fast_run xs s1) as [[s2 o2] |] eqn:Er; [| done]. simplify_eq.
  pose proof (fast_sound _ _ _ Ex Hx) as Hrun. rewrite run_app, Hrun. cbn [fst snd].
  assert (I1 : srv_inv s1 /\ cfg s1 = cfg s).
  { pose proof (run_inv (events_of (cfg s) x) s HI) as [? ?]. by rewrite Hrun in *. }
  destruct I1. by rewrite (IH s1 (s2, o2)) by congruence.
Qed.
End Script.

(** ** A run *)

Module Demo.
#[local] Existing Instance Toy.toy_ed.
#[local] Existing Instance Toy.toy_ed_laws.

Definition relay_id : string := RID sample_ticket.
Definition opts : Options := mkOptions (120 * second) [Toy.pad32 "server"] relay_id [] 0 0 false.
Definition t0 : Z := of_unix 1700000010.
Abbreviation s0 := (New opts "cookie-key" t0).

Definition ipv4 (a b c d : Z) : IP :=
  String (byte_of a) (String (byte_of b) (String (byte_of c) (String (byte_of d) ""))).
Definition alice : UDPAddr := mkUDPAddr (ipv4 203 0 113 7) 40001.
Definition bob : UDPAddr := mkUDPAddr (ipv4 198 51 100 9) 40002.

Definition ticket_for (lg eph : string) : Payload :=
  mkPayload 1 relay_id (SID sample_ticket) lg (RawURL.EncodeToString (Toy.pad32 eph)) 1700000000 1700000120
    (Nonce sample_ticket).

Lemma ticket_for_wf lg eph : lg = LegA \/ lg = LegB -> ticket_wf (ticket_for lg eph).
Proof.
  intros Hl. destruct sample_ticket_wf as [_ Hr Hs Hn _ _ Hi Hx].
  split; [reflexivity | exact Hr | exact Hs | exact Hn | exact Hl | | exact Hi | exact Hx].
  exists (Toy.pad32 eph). split; [apply Toy.pad32_len | reflexivity].
Qed.

(** Alice and Bob bind with their tickets. *)
Definition alice_binds : Script := STicket "server" "eph-alice" (ticket_for "a" "eph-alice") alice t0.
Definition bob_binds : Script := STicket "server" "eph-bob" (ticket_for "b" "eph-bob") bob t0.

Lemma alice_ok : script_ok (cfg s0) alice_binds.
Proof. split; [apply ticket_for_wf; by left | split; [by left | reflexivity]]. Qed.
Lemma bob_ok : script_ok (cfg s0) bob_binds.
Proof. split; [apply ticket_for_wf; by right | split; [by left | reflexivity]]. Qed.

Definition half_open : list Event := concat (events_of (cfg s0) <$> [alice_binds]).
Definition pairing : list Event := concat (events_of (cfg s0) <$> [alice_binds; bob_binds]).
Definition data : string := "a QUIC packet".

Definition half_open_result := Eval vm_compute in default (s0, []) (fast_run [alice_binds] s0).
Definition pairing_result := Eval vm_compute in default (s0, []) (fast_run [alice_binds; bob_binds] s0).

Lemma half_open_run : run half_open s0 = half_open_result.
Proof.
  unfold half_open. apply (fast_run_sound (cfg s0) [alice_binds] s0 half_open_result); [apply New_inv | reflexivity | |].
  - apply Forall_singleton, alice_ok.
  - vm_compute. reflexivity.
Qed.

Lemma pairing_run : run pairing s0 = pairing_result.
Proof.
  unfold pairing. apply (fast_run_sound (cfg s0) [alice_binds; bob_binds] s0 pairing_result); [apply New_inv | reflexivity | |].
  - apply Forall_cons. split; [exact alice_ok | apply Forall_singleton, bob_ok].
  - vm_compute. reflexivity.
Qed.

Abbreviation paired_state := ((run pairing s0).1).
Abbreviation half_open_state := ((run half_open s0).1).

Lemma has_leg_at t tok n l :
  (sessions t !! tok ≫= fun ses => legs ses !! n) = Some l -> has_leg t tok l.
Proof.
  intros (ses & Hs & Hl)%bind_Some. exists ses. split; [done |]. by eapply list_elem_of_lookup_2.
Qed.

Definition alice_leg : leg := mkLeg alice 0 "203.0.113.7" "a" (EPK (ticket_for "a" "eph-alice")).

Lemma alice_bound : has_leg (tab paired_state) (SID sample_ticket) alice_leg.
Proof. rewrite pairing_run. apply (has_leg_at _ _ 0). vm_compute. reflexivity. Qed.

(** The pair is logged by its short session id, each leg acknowledged, and data
    goes through. *)
Example demo_outputs :
  (run pairing s0).2 =
    [ack (SID sample_ticket) alice; Log (SessionPaired (ShortSID (SID sample_ticket))); ack (SID sample_ticket) bob].
Proof. rewrite pairing_run. vm_compute. reflexivity. Qed.

Lemma demo_forward : (forward t0 alice data paired_state).2 = [Send data bob].
Proof. rewrite pairing_run. vm_compute. reflexivity. Qed.

(** *** The theorems at this run *)

Lemma relay_forwards_to_partner_witness :
  data = data /\ exists tok ses l l', sessions (tab paired_state) !! tok = Some ses /\
    (legs ses = [l; l'] \/ legs ses = [l'; l]) /\
    UDPAddr_String (addr l) = UDPAddr_String alice /\ bob = addr l'.
Proof.
  apply (relay_forwards_to_partner opts "cookie-key" t0 pairing t0 data alice data bob).
  rewrite demo_forward. left.
Defined.

Lemma relay_never_reflects_witness :
  (exists now req, EvPacket t0 data alice = EvPacket now req bob /\
     data = MarshalChallenge (freshCookie (cfg paired_state) bob now) /\ (slen data < slen req)%nat) \/
  bob ∈ validated_in pairing s0 ++ validated paired_state (EvPacket t0 data alice).
Proof.
  apply (relay_never_reflects opts "cookie-key" t0 pairing (EvPacket t0 data alice) data bob).
  assert (E : (step (EvPacket t0 data alice) paired_state).2 = [Send data bob])
    by (rewrite pairing_run; vm_compute; reflexivity).
  rewrite E. left.
Defined.

Lemma ticket_legs_authorised_witness :
  exists es1 es2 now n j payload sig bindSig p k now',
    pairing = es1 ++ EvVerify now n :: es2 /\ inFlight (run es1 s0).1 !! n = Some j /\
    j_src j = addr alice_leg /\ decode_ticket_fields (j_bind j) = Some (payload, sig, bindSig) /\
    Verify (serverKeys (cfg s0)) payload sig = true /\ Parse payload = Ok p /\
    CheckWindow p now = Ok tt /\ CheckRelay p (relayID (cfg s0)) = Ok tt /\
    SID p = SID sample_ticket /\ Leg p = name alice_leg /\ EPK p = epk alice_leg /\ EphPub p = Some k /\
    VerifyBind k payload sig (j_cookie j) bindSig = Ok tt /\
    validCookie (cfg s0) (b_Cookie (j_bind j)) (addr alice_leg) now' = Some (j_cookie j).
Proof.
  apply (ticket_legs_authorised opts "cookie-key" t0 pairing (SID sample_ticket) alice_leg).
  - reflexivity.
  - exact alice_bound.
Defined.

(** Data from Alice keeps her leg, under her key. *)
Lemma leg_owner_stable_witness : epk alice_leg = EPK (ticket_for "a" "eph-alice").
Proof.
  apply (leg_owner_stable opts "cookie-key" t0 pairing (EvPacket t0 data alice) (SID sample_ticket) alice_leg
           (mkLeg alice 0 "203.0.113.7" "a" (EPK (ticket_for "a" "eph-alice")))).
  - reflexivity.
  - exact alice_bound.
  - rewrite pairing_run. apply (has_leg_at _ _ 0). vm_compute. reflexivity.
  - reflexivity.
Defined.

Definition plain_bind : string := MarshalBind (mkBind (SID sample_ticket) "" "" "" "").

Lemma unvalidated_bind_is_stateless_witness :
  let '(s', o) := packet t0 plain_bind alice s0 in
  tab s' = tab s0 /\ inFlight s' = inFlight s0 /\ sigRL s' = sigRL s0 /\ reserveRL s' = reserveRL s0 /\
  statVerify (stats s') = statVerify (stats s0) /\
  (o = [] \/ (o = [Send (MarshalChallenge (freshCookie (cfg s0) alice t0)) alice] /\
              (slen (MarshalChallenge (freshCookie (cfg s0) alice t0)) < slen plain_bind)%nat)).
Proof.
  apply (unvalidated_bind_is_stateless t0 plain_bind alice (mkBind (SID sample_ticket) "" "" "" "") s0).
  - vm_compute. reflexivity.
  - reflexivity.
Defined.

Lemma paired_survives :
  is_Some (sessions (tab (reap t0 [SID sample_ticket] paired_state).1) !! SID sample_ticket).
Proof. rewrite pairing_run. vm_compute. eauto. Qed.

Lemma reap_expires_witness :
  exists ses, sessions (tab (reap t0 [SID sample_ticket] paired_state).1) !! SID sample_ticket = Some ses /\
    (paired ses = true \/ t0 - created ses <= pendingPair (cfg paired_state)) /\
    Forall (fun l => t0 - seen (load_fwd (tab (reap t0 [SID sample_ticket] paired_state).1) (fwd_ref l))
                       <= ttl (cfg paired_state)) (legs ses).
Proof.
  destruct paired_survives as [ses Hses]. exists ses. split; [exact Hses |]. revert Hses.
  apply (reap_expires t0 [SID sample_ticket] paired_state). intros tok [ses' Hs].
  assert (E : (map_to_list (sessions (tab paired_state))).*1 = [SID sample_ticket])
    by (rewrite pairing_run; vm_compute; reflexivity).
  rewrite <- E. apply list_elem_of_fmap. exists (tok, ses'). split; [done |]. by apply elem_of_map_to_list.
Defined.

Lemma cookie_binds_address_witness :
  (To16 (IPof alice) = To16 (IPof alice) /\ Port alice = Port alice /\ Z.abs (epoch_of t0 - epoch_of t0) <= 1) \/
  exists e1 e2, (e1 = epoch_of t0 \/ e1 = epoch_of t0 - 1) /\ (e2 = epoch_of t0 \/ e2 = epoch_of t0 - 1) /\
    mac_collision (cookieKey (cfg s0)) (cookie_input alice e1) (cookie_input alice e2).
Proof.
  assert (V : valid_source alice) by (split; [by left | split; vm_compute; [discriminate | reflexivity]]).
  assert (R : cookieEpoch <= t0 <= int64_max) by (split; vm_compute; discriminate).
  apply (cookie_binds_address (cfg s0) (RawURL.EncodeToString (freshCookie (cfg s0) alice t0)) alice alice t0 t0
           (freshCookie (cfg s0) alice t0) (freshCookie (cfg s0) alice t0) V V R R); apply validCookie_fresh.
Defined.

(** Bob's bind on the relay that already holds Alice's leg. *)
Lemma honest_ticket_bind_accepted_witness :
  exists payload sig s' o, Sign "server" (ticket_for "b" "eph-bob") = Ok (payload, sig) /\
    verifyTicketBind t0
      (mkJob (BindCred_bind (Some (mkBindCred payload sig "eph-bob")) (SID (ticket_for "b" "eph-bob"))
                (RawURL.EncodeToString "cookie-16-bytes!") "cookie-16-bytes!") bob "198.51.100.9" "cookie-16-bytes!")
      half_open_state = (s', o) /\
    ack (SID (ticket_for "b" "eph-bob")) bob ∈ o /\
    has_leg (tab s') (SID (ticket_for "b" "eph-bob"))
      (mkLeg bob (next_ref (tab half_open_state)) "198.51.100.9" (Leg (ticket_for "b" "eph-bob"))
         (EPK (ticket_for "b" "eph-bob"))) /\
    forall ses l0, sessions (tab half_open_state) !! SID (ticket_for "b" "eph-bob") = Some ses -> legs ses = [l0] ->
      forall now' pkt, (forward now' bob pkt s').2 = [Send pkt (addr l0)].
Proof.
  apply (honest_ticket_bind_accepted half_open_state t0 (ticket_for "b" "eph-bob")
           "server" "eph-bob" bob "198.51.100.9" "cookie-16-bytes!").
  - apply run_inv, New_inv.
  - rewrite half_open_run. left. reflexivity.
  - apply ticket_for_wf. by right.
  - rewrite half_open_run. reflexivity.
  - reflexivity.
  - vm_compute. reflexivity.
  - rewrite half_open_run. unfold leg_free.
    assert (E : legs <$> (sessions (tab half_open_result.1) !! SID (ticket_for "b" "eph-bob")) = Some [alice_leg])
      by (vm_compute; reflexivity).
    destruct (sessions (tab half_open_result.1) !! _) as [ses |]; [| discriminate].
    apply (inj Some) in E. exists alice_leg. split; [exact E | discriminate].
  - rewrite half_open_run. vm_compute. reflexivity.
Defined.

(** *** One address under two sessions *)

Definition net_opts : Options := mkOptions (120 * second) [] "" [] 0 0 false.
Abbreviation n0 := (New net_opts "cookie-key" 0).
Definition old_tok : string := "old-session-token-0000".
Definition new_tok : string := "new-session-token-0000".

(** Alice binds under an old token that never pairs, then pairs with Bob under a
    new one; the half-open session expires while the pair is active; she then
    re-binds. *)
Definition two_script : list Script :=
  [SNet old_tok alice 0; SNet new_tok alice 0; SNet new_tok bob 0;
   SOther (EvReap (61 * second) [old_tok; new_tok]); SNet new_tok alice (61 * second)].
Definition two_sessions : list Event := concat (events_of (cfg n0) <$> two_script).
Definition two_result := Eval vm_compute in default (n0, []) (fast_run two_script n0).

Lemma two_run : run two_sessions n0 = two_result.
Proof.
  unfold two_sessions. apply (fast_run_sound (cfg n0) two_script n0 two_result); [apply New_inv | reflexivity | |].
  - unfold two_script. repeat (apply Forall_cons; split; [cbn [script_ok]; try split; (exact I || reflexivity) |]).
    constructor.
  - vm_compute. reflexivity.
Qed.

(** The address index holds one entry per address, but the reaper deletes an
    expired leg's entry without checking that it is still that leg's: when one
    address held legs of two sessions, expiring the old one cuts the live
    session's forwarding (data from Alice is dropped although both legs are
    bound), and the acknowledged re-bind from the same address does not
    restore it. *)
Theorem reap_cuts_live_session :
  let s := (run two_sessions n0).1 in
  (exists l l', legs <$> (sessions (tab s) !! new_tok) = Some [l; l'] /\ addr l = alice /\ addr l' = bob) /\
  last (run two_sessions n0).2 = Some (ack new_tok alice) /\
  (forward (61 * second) alice data s).2 = [] /\ (forward (61 * second) bob data s).2 = [Send data alice].
Proof.
  cbv zeta. rewrite two_run. split.
  - exists (mkLeg alice 1 "203.0.113.7" "" ""), (mkLeg bob 2 "198.51.100.9" "" ""). split_and!; vm_compute; reflexivity.
  - split_and!; vm_compute; reflexivity.
Qed.
End Demo.
