(* ===== verification/HsRegistry.v ===== *)
(** * The rendezvous registry of the handshake server

    [internal/role/handshake.go]: what the server keeps in memory between two
    registrations.  A registry maps each pairing token to a bucket of at most
    two peers, with four side tables (public keys seen, warning latches, relay
    session ids).  Go guards it with one mutex that every operation takes for
    its whole body, so the interleavings of concurrent requests are the
    sequences of operations [reg_op] below; the order in which Go ranges over a
    map is an argument where it matters. *)

From S2P Require Import Prelude Base64 Sha256 Json NetAddr Crypto Protocol Ticket.

(** [time.Time{}]: January 1 of the year 1. *)
Definition zeroTime : Z := -62135596800 * second.

Definition maxTokens : Z := 4096.
Definition maxIDsPerToken : Z := 2.
Definition maxCandsPerPeer : Z := 8.
Definition evictSample : nat := 8.

Record hsPeer := mkHsPeer {
  hp_id : string;
  hp_pubkey : string;
  hp_virtualIP : string;
  hp_name : string;
  hp_cands : gmap string Candidate;
  hp_seen : Z;
}.

Record hsRegistry := mkHsRegistry {
  waiting : gmap string (gmap string hsPeer);
  seenPKs : gmap string (gset string);
  pairedLogged : gset string;
  sids : gmap string string;
  intruderWarned : gset string;
  hr_ttl : Z;
}.

(** The audit counters the handlers bump, and the lines they log.  A line
    carries the values Go formats into it; a token appears only as its tag. *)
Inductive Counter :=
| CPaired | CRateLimited | CDropped | CNewPubKey | CSquatRejected | CReplay | CKeyMismatch | CEnrollLimited.

Inductive LogLine :=
| LIntruder (event tokenTag : string) (ip : IP) (key id : string)
| LReplay (tokenTag : string) (ip : IP) (key id detail : string)
| LPaired (tokenTag idA keyA idB keyB : string) (candsA candsB : Z)
| LPendingKey (key tokenTag pubkey : string)
| LPendingCode (key codeHash pubkey : string)
| LAllowlistMissing (dropped : Z)
| LAllowlistUnreadable (kept : Z)
| LReloadFailed
| LReloaded (restored : bool) (count : Z)
| LStats (paired limited dropped enroll newPK squat replay mismatch panics : Z).

Inductive Out := Bump (c : Counter) | Log (l : LogLine).

(** ** Peers *)

(** [hsPeer.observe]: at the cap a new endpoint is ignored, but the peer still
    counts as seen. *)
Definition observe (now : Z) (src : UDPAddr) (p : hsPeer) : hsPeer :=
  let key := UDPAddr_String src in
  let cands := if bool_decide (hp_cands p !! key = None) && (maxCandsPerPeer <=? Z.of_nat (size (hp_cands p)))
               then hp_cands p
               else <[key := mkCandidate key (bool_decide (To4 (IPof src) = None))]> (hp_cands p) in
  mkHsPeer (hp_id p) (hp_pubkey p) (hp_virtualIP p) (hp_name p) cands now.

Definition cand_le (a b : Candidate) : Prop := str_ltb (c_Addr b) (c_Addr a) = false.
#[export] Instance cand_le_dec : RelDecision cand_le.
Proof. intros a b. unfold cand_le. apply _. Defined.

Definition candidates (p : hsPeer) : list Candidate :=
  merge_sort cand_le (map_to_list (hp_cands p)).*2.

Definition asProtocolPeer (relay : string) (p : hsPeer) : Peer :=
  mkPeer (hp_id p) (hp_pubkey p) (hp_virtualIP p) (hp_name p) (candidates p) relay (unix (hp_seen p)).

(** ** Registry operations *)

Definition newHSRegistry (ttl : Z) : hsRegistry := mkHsRegistry ∅ ∅ ∅ ∅ ∅ ttl.

Definition with_waiting (r : hsRegistry) w :=
  mkHsRegistry w (seenPKs r) (pairedLogged r) (sids r) (intruderWarned r) (hr_ttl r).
Definition with_seenPKs (r : hsRegistry) w :=
  mkHsRegistry (waiting r) w (pairedLogged r) (sids r) (intruderWarned r) (hr_ttl r).
Definition with_pairedLogged (r : hsRegistry) w :=
  mkHsRegistry (waiting r) (seenPKs r) w (sids r) (intruderWarned r) (hr_ttl r).
Definition with_sids (r : hsRegistry) w :=
  mkHsRegistry (waiting r) (seenPKs r) (pairedLogged r) w (intruderWarned r) (hr_ttl r).
Definition with_intruderWarned (r : hsRegistry) w :=
  mkHsRegistry (waiting r) (seenPKs r) (pairedLogged r) (sids r) w (hr_ttl r).

(** The five deletes that release a token. *)
Definition forget_token (tok : string) (r : hsRegistry) : hsRegistry :=
  mkHsRegistry (delete tok (waiting r)) (delete tok (seenPKs r)) (pairedLogged r ∖ {[tok]})
    (delete tok (sids r)) (intruderWarned r ∖ {[tok]}) (hr_ttl r).

Definition warnIntruderLocked (token : string) (line : LogLine) (r : hsRegistry) : hsRegistry * list Out :=
  if bool_decide (token ∈ intruderWarned r) then (r, [])
  else if maxTokens <=? Z.of_nat (size (intruderWarned r)) then (r, [])
  else (with_intruderWarned r ({[token]} ∪ intruderWarned r), [Log line]).

(** [bucketSeen]: the freshest sighting in a bucket. *)
Definition bucketSeen (bucket : gmap string hsPeer) : Z :=
  foldr (fun p newest => if newest <? hp_seen p then hp_seen p else newest) zeroTime (map_to_list bucket).*2.

(** The scan of [evictStalestLocked] over the buckets Go's map iteration yields
    first: [best] is the victim so far with its age. *)
Fixpoint stalest (w : gmap string (gmap string hsPeer)) (order : list string) (best : option (string * Z))
    : option (string * Z) :=
  match order with
  | [] => best
  | tok :: rest =>
      match w !! tok with
      | None => stalest w rest best
      | Some bucket =>
          let age := bucketSeen bucket in
          stalest w rest (match best with
                          | None => Some (tok, age)
                          | Some (_, oldest) => if age <? oldest then Some (tok, age) else best
                          end)
      end
  end.

Definition evictStalestLocked (order : list string) (r : hsRegistry) : option hsRegistry :=
  match stalest (waiting r) (take evictSample order) None with
  | None => None
  | Some (victim, _) => Some (forget_token victim r)
  end.

(** The bucket of a token, created on first use. *)
Definition open_bucket (order : list string) (tok : string) (r : hsRegistry) : option hsRegistry :=
  match waiting r !! tok with
  | Some _ => Some r
  | None =>
      r' ← (if maxTokens <=? Z.of_nat (size (waiting r)) then evictStalestLocked order r else Some r);
      Some (with_waiting r' (<[tok := ∅]> (waiting r')))
  end.

(** The loop of [upsert] that expires the others and takes the first live one.
    A bucket never holds more than two ids ([registry_bounded]), so the order
    of the list does not matter. *)
Fixpoint find_partner (now ttl : Z) (self : string) (l : list (string * hsPeer)) (bucket : gmap string hsPeer)
    : option hsPeer * gmap string hsPeer :=
  match l with
  | [] => (None, bucket)
  | (other, p) :: rest =>
      if String.eqb other self then find_partner now ttl self rest bucket
      else if ttl <? now - hp_seen p then find_partner now ttl self rest (delete other bucket)
      else (Some p, bucket)
  end.

Definition set_if (c : bool) (new old : string) : string := if c then new else old.

Section Registry.
(** [logTag]: the keyed tag a token is logged under. *)
Context (logTag : string -> string).

Definition keyTag (pubB64 : string) : string :=
  if (slen pubB64 <? 8)%nat then pubB64 else take_s 8 pubB64.

(** The intrusion detection of [upsert]: which keys a token has seen. *)
Definition note_pubkey (m : Message) (src : UDPAddr) (r : hsRegistry) : hsRegistry * list Out :=
  if String.eqb (m_PubKey m) "" then (r, [])
  else
    let known := default ∅ (seenPKs r !! m_Token m) in
    if bool_decide (m_PubKey m ∈ known) || (maxIDsPerToken + 1 <=? Z.of_nat (size known))
    then (with_seenPKs r (<[m_Token m := known]> (seenPKs r)), [])
    else
      let r1 := with_seenPKs r (<[m_Token m := {[m_PubKey m]} ∪ known]> (seenPKs r)) in
      if maxIDsPerToken <=? Z.of_nat (size known) then
        let '(r2, o) := warnIntruderLocked (m_Token m)
          (LIntruder "new-pubkey" (logTag (m_Token m)) (IPof src) (keyTag (m_PubKey m)) (m_ID m)) r1 in
        (r2, Bump CNewPubKey :: o)
      else (r1, []).

(** The fields a registration overwrites. *)
Definition refresh (now : Z) (m : Message) (src : UDPAddr) (p : hsPeer) : hsPeer :=
  observe now src
    (mkHsPeer (hp_id p)
       (set_if (negb (String.eqb (m_PubKey m) "")) (m_PubKey m) (hp_pubkey p))
       (set_if (negb (String.eqb (m_VirtualIP m) "")) (m_VirtualIP m) (hp_virtualIP p))
       (set_if (negb (String.eqb (m_Name m) "") && ValidName (m_Name m)) (m_Name m) (hp_name p))
       (hp_cands p) (hp_seen p)).

Definition upsert (now : Z) (order : list string) (m : Message) (src : UDPAddr) (r : hsRegistry)
    : hsRegistry * option (hsPeer * option hsPeer) * list Out :=
  match open_bucket order (m_Token m) r with
  | None => (r, None, [])
  | Some r1 =>
      let bucket := default ∅ (waiting r1 !! m_Token m) in
      if bool_decide (bucket !! m_ID m = None) && (maxIDsPerToken <=? Z.of_nat (size bucket)) then
        let '(r2, o) := warnIntruderLocked (m_Token m)
          (LIntruder "squat-rejected" (logTag (m_Token m)) (IPof src) (keyTag (m_PubKey m)) (m_ID m)) r1 in
        (r2, None, Bump CSquatRejected :: o)
      else
        let self0 := default (mkHsPeer (m_ID m) "" "" "" ∅ zeroTime) (bucket !! m_ID m) in
        let '(r2, o) := note_pubkey m src r1 in
        let self := refresh now m src self0 in
        let b1 := <[m_ID m := self]> bucket in
        let '(partner, b2) := find_partner now (hr_ttl r) (m_ID m) (map_to_list b1) b1 in
        let r3 := with_waiting r2 (<[m_Token m := b2]> (waiting r2)) in
        let r4 := match partner with
                  | None => with_pairedLogged r3 (pairedLogged r3 ∖ {[m_Token m]})
                  | Some _ => r3
                  end in
        (r4, Some (self, partner), o)
  end.

End Registry.

Definition notePaired (token : string) (r : hsRegistry) : bool * hsRegistry :=
  if bool_decide (token ∈ pairedLogged r) then (false, r)
  else if maxTokens <=? Z.of_nat (size (pairedLogged r)) then (false, r)
  else (true, with_pairedLogged r ({[token]} ∪ pairedLogged r)).

(** [sidFor]: [rand] is what [ticket.NewID] reads, [None] when it fails. *)
Definition sidFor (rand : option string) (token : string) (r : hsRegistry) : option string * hsRegistry :=
  match sids r !! token with
  | Some sid => (Some sid, r)
  | None =>
      if maxTokens <=? Z.of_nat (size (sids r)) then (None, r)
      else match rand with
           | None => (None, r)
           | Some raw => (Some (NewID raw), with_sids r (<[token := NewID raw]> (sids r)))
           end
  end.

(** One tick of [hsRegistry.reap]. *)
Definition live (now ttl : Z) (bucket : gmap string hsPeer) : gmap string hsPeer :=
  filter (fun kp => now - hp_seen kp.2 <= ttl) bucket.

Definition dead_tokens (now : Z) (r : hsRegistry) : gset string :=
  dom (filter (fun tb => live now (hr_ttl r) tb.2 = ∅) (waiting r)).

Definition reap (now : Z) (r : hsRegistry) : hsRegistry :=
  let dead := dead_tokens now r in
  mkHsRegistry
    (live now (hr_ttl r) <$> filter (fun tb => live now (hr_ttl r) tb.2 <> ∅) (waiting r))
    (filter (fun tb => tb.1 ∉ dead) (seenPKs r))
    (pairedLogged r ∖ dead)
    (filter (fun tb => tb.1 ∉ dead) (sids r))
    (intruderWarned r ∖ dead) (hr_ttl r).

(** ** Interleavings

    Each operation runs under the registry's mutex, so whatever the server's
    goroutines do, the registry sees a sequence of these. *)

Inductive reg_op :=
| OpUpsert (now : Z) (order : list string) (m : Message) (src : UDPAddr)
| OpNotePaired (token : string)
| OpSidFor (rand : option string) (token : string)
| OpReap (now : Z).

Definition reg_step (logTag : string -> string) (op : reg_op) (r : hsRegistry) : hsRegistry :=
  match op with
  | OpUpsert now order m src => (upsert logTag now order m src r).1.1
  | OpNotePaired tok => (notePaired tok r).2
  | OpSidFor rand tok => (sidFor rand tok r).2
  | OpReap now => reap now r
  end.

Definition reg_run (logTag : string -> string) (ops : list reg_op) (r : hsRegistry) : hsRegistry :=
  fold_left (fun r op => reg_step logTag op r) ops r.

(** ** The invariant *)

Record peer_inv (id : string) (p : hsPeer) : Prop := {
  pi_id : hp_id p = id;
  pi_cands : Z.of_nat (size (hp_cands p)) <= maxCandsPerPeer;
  pi_keys : map_Forall (fun k c => c_Addr c = k) (hp_cands p);
}.

Record bucket_inv (b : gmap string hsPeer) : Prop := {
  bi_size : Z.of_nat (size b) <= maxIDsPerToken;
  bi_peers : map_Forall peer_inv b;
}.

(** [hole]: the token whose bucket [upsert] has created and not filled yet. *)
Record reg_inv (hole : option string) (r : hsRegistry) : Prop := {
  ri_waiting : Z.of_nat (size (waiting r)) <= maxTokens;
  ri_buckets : map_Forall (fun _ b => bucket_inv b) (waiting r);
  ri_nonempty : map_Forall (fun tok b => b = ∅ -> hole = Some tok) (waiting r);
  ri_seen_dom : dom (seenPKs r) ⊆ dom (waiting r);
  ri_seen : map_Forall (fun _ ks => Z.of_nat (size ks) <= maxIDsPerToken + 1) (seenPKs r);
  ri_intruder : intruderWarned r ⊆ dom (waiting r);
  ri_paired : Z.of_nat (size (pairedLogged r)) <= maxTokens;
  ri_sids : Z.of_nat (size (sids r)) <= maxTokens;
}.

Lemma observe_inv now src id p : peer_inv id p -> peer_inv id (observe now src p).
Proof.
  intros [Hid Hc Hk]. split; cbn; [done | |].
  - case_bool_decide as E; simpl; [case_if H; breflect; [done |] |].
    + rewrite map_size_insert, E. lia.
    + destruct (hp_cands p !! UDPAddr_String src) eqn:E'; [| done]. by rewrite map_size_insert, E'.
  - destruct (_ && _); [done |]. by apply map_Forall_insert_2.
Qed.

Lemma refresh_inv now m src id p : peer_inv id p -> peer_inv id (refresh now m src p).
Proof. intros [Hid Hc Hk]. by apply observe_inv. Qed.

Lemma fresh_peer_inv id : peer_inv id (mkHsPeer id "" "" "" ∅ zeroTime).
Proof. split; cbn [hp_id hp_cands]; [done | by rewrite map_size_empty | apply map_Forall_empty]. Qed.

(** What the partner loop removes and returns. *)
Lemma find_partner_spec now ttl self l b p b' :
  find_partner now ttl self l b = (p, b') ->
  b' ⊆ b /\ b' !! self = b !! self /\
  (match p with
   | Some q => exists other, other <> self /\ (other, q) ∈ l /\ now - hp_seen q <= ttl
   | None => forall other q, (other, q) ∈ l -> other <> self -> ttl < now - hp_seen q
   end).
Proof.
  revert b. induction l as [| [other q] l IH]; intros b; cbn [find_partner].
  - intros [= <- <-]. split_and!; [done | done |]. intros ? ? ?%not_elem_of_nil. done.
  - destruct (String.eqb_spec other self) as [-> | Hne].
    + intros H. destruct (IH _ H) as (Hs & Hl & Hp). split_and!; [done | done |]. destruct p as [q' |].
      * destruct Hp as (o & ? & ? & ?). exists o. split_and!; [done | by right | done].
      * intros o q' [[= -> ->] | Hin]%elem_of_cons Ho; [done | by eapply Hp].
    + destruct (ttl <? _) eqn:E; breflect.
      * intros H. destruct (IH _ H) as (Hs & Hl & Hp). split_and!.
        -- etransitivity; [exact Hs | apply delete_subseteq].
        -- by rewrite Hl, lookup_delete_ne.
        -- destruct p as [q' |].
           ++ destruct Hp as (o & ? & ? & ?). exists o. split_and!; [done | by right | done].
           ++ intros o q' [[= -> ->] | Hin]%elem_of_cons Ho; [done | by eapply Hp].
      * intros [= <- <-]. split_and!; [done | done |]. exists other. split_and!; [done | by left | lia].
Qed.

Lemma bucket_inv_subset b b' : b' ⊆ b -> bucket_inv b -> bucket_inv b'.
Proof.
  intros Hs [Hn Hp]. split.
  - pose proof (map_subseteq_size b' b Hs). lia.
  - intros k p Hk. apply Hp. by eapply lookup_weaken.
Qed.

Lemma new_inv ttl : reg_inv None (newHSRegistry ttl).
Proof.
  unfold newHSRegistry. split; cbn [waiting seenPKs pairedLogged sids intruderWarned];
    first [by intros ? ? ?%lookup_empty_Some | set_solver | vm_compute; discriminate].
Qed.

Lemma forget_token_inv hole tok r : reg_inv hole r -> reg_inv hole (forget_token tok r).
Proof.
  intros [Hw Hb Hn Hd Hs Hi Hp Hx]. split; cbn.
  - pose proof (map_size_delete_le (waiting r) tok). lia.
  - by apply map_Forall_delete.
  - by apply map_Forall_delete.
  - set_solver.
  - by apply map_Forall_delete.
  - set_solver.
  - pose proof (subseteq_size (pairedLogged r ∖ {[tok]}) (pairedLogged r) ltac:(set_solver)). lia.
  - pose proof (map_size_delete_le (sids r) tok). lia.
Qed.

Lemma stalest_spec w order best v :
  stalest w order best = Some v -> best = Some v \/ (v.1 ∈ order /\ is_Some (w !! v.1)).
Proof.
  revert best. induction order as [| tok rest IH]; intros best; cbn [stalest]; [by left |].
  destruct (w !! tok) as [b |] eqn:E.
  - intros H. destruct (IH _ H) as [Hb | [Hin Hw]]; [| right; split; [by right | done]].
    destruct best as [[t o] |].
    + destruct (_ <? _); simplify_eq; [right | by left]. split; [by left | eauto].
    + simplify_eq. right. split; [by left | eauto].
  - intros H. destruct (IH _ H) as [Hb | [Hin Hw]]; [by left | right; split; [by right | done]].
Qed.

Lemma evict_inv hole order r r' :
  reg_inv hole r -> evictStalestLocked order r = Some r' ->
  reg_inv hole r' /\ exists victim, is_Some (waiting r !! victim) /\ r' = forget_token victim r.
Proof.
  unfold evictStalestLocked. intros Hr. destruct (stalest _ _ _) as [[v age] |] eqn:E; [| done].
  intros [= <-]. split; [by apply forget_token_inv |]. exists v. split; [| done].
  by destruct (stalest_spec _ _ _ _ E) as [? | [_ ?]].
Qed.

Lemma open_bucket_inv order tok r r' :
  reg_inv None r -> open_bucket order tok r = Some r' ->
  reg_inv (Some tok) r' /\ is_Some (waiting r' !! tok) /\ hr_ttl r' = hr_ttl r.
Proof.
  unfold open_bucket. intros Hr. destruct (waiting r !! tok) as [b |] eqn:E.
  { intros [= <-]. split_and!; [| by eauto | done]. destruct Hr. split; try done.
    intros k b' Hk He. by specialize (ri_nonempty0 k b' Hk He). }
  assert (G : forall r1, reg_inv None r1 -> waiting r1 !! tok = None ->
            Z.of_nat (size (waiting r1)) < maxTokens -> hr_ttl r1 = hr_ttl r ->
            reg_inv (Some tok) (with_waiting r1 (<[tok := ∅]> (waiting r1)))).
  { intros r1 [Hw Hb Hn Hd Hs Hi Hp Hx] Ht Hlt _. split; cbn; try done.
    - rewrite map_size_insert, Ht. lia.
    - apply map_Forall_insert_2; [| done]. split; [by rewrite map_size_empty | apply map_Forall_empty].
    - apply map_Forall_insert_2; [done |]. intros k b Hk He. by specialize (Hn k b Hk He).
    - set_solver.
    - set_solver. }
  destruct (_ <=? _) eqn:Ec; cbn [mbind option_bind]; breflect.
  - destruct (evictStalestLocked order r) as [r1 |] eqn:Ee; [| done]. cbn. intros [= <-].
    destruct (evict_inv _ _ _ _ Hr Ee) as (Hr1 & v & Hv & ->). split_and!.
    + apply G; [done | | | done]; cbn.
      * rewrite lookup_delete_None. by right.
      * pose proof (ri_waiting _ _ Hr). rewrite (map_size_delete_Some _ _ Hv).
        assert (size (waiting r) <> 0%nat); [| lia]. intros Hz%map_size_empty_inv. rewrite Hz in Hv. by destruct Hv.
    + cbn. rewrite lookup_insert_eq. eauto.
    + done.
  - intros [= <-]. split_and!; [apply G; done || lia | | done]. cbn. rewrite lookup_insert_eq. eauto.
Qed.

Lemma warn_inv hole tok line r r' o :
  reg_inv hole r -> is_Some (waiting r !! tok) -> warnIntruderLocked tok line r = (r', o) ->
  reg_inv hole r' /\ waiting r' = waiting r /\ pairedLogged r' = pairedLogged r /\ sids r' = sids r /\
  hr_ttl r' = hr_ttl r.
Proof.
  unfold warnIntruderLocked. intros Hr Ht. repeat case_match; intros [= <- <-]; split_and!; try done.
  destruct Hr. split; try done. cbn. apply union_subseteq. split; [| done].
  apply singleton_subseteq_l, elem_of_dom. done.
Qed.

Lemma note_pubkey_inv tag hole m src r r' o :
  reg_inv hole r -> is_Some (waiting r !! m_Token m) -> note_pubkey tag m src r = (r', o) ->
  reg_inv hole r' /\ waiting r' = waiting r /\ pairedLogged r' = pairedLogged r /\ sids r' = sids r /\
  hr_ttl r' = hr_ttl r.
Proof.
  unfold note_pubkey. intros Hr Ht. destruct (String.eqb _ _); [by intros [= <- <-] |].
  set (known := default ∅ (seenPKs r !! m_Token m)).
  assert (Hk : Z.of_nat (size known) <= maxIDsPerToken + 1).
  { subst known. destruct (seenPKs r !! m_Token m) as [ks |] eqn:E; [| done]. by apply (ri_seen _ _ Hr) in E. }
  assert (G : forall ks, Z.of_nat (size ks) <= maxIDsPerToken + 1 ->
            reg_inv hole (with_seenPKs r (<[m_Token m := ks]> (seenPKs r)))).
  { intros ks Hs. destruct Hr. split; try done; cbn.
    - rewrite dom_insert_L. apply union_subseteq. split; [| done].
      by apply singleton_subseteq_l, elem_of_dom.
    - by apply map_Forall_insert_2. }
  destruct (bool_decide _ || _) eqn:Eb.
  { intros [= <- <-]. split_and!; try done. by apply G. }
  apply orb_false_iff in Eb as [Hn Hlt]. breflect. apply bool_decide_eq_false in Hn.
  assert (Hs : Z.of_nat (size ({[m_PubKey m]} ∪ known)) <= maxIDsPerToken + 1).
  { rewrite size_union by set_solver. rewrite size_singleton. lia. }
  destruct (_ <=? _).
  - destruct (warnIntruderLocked _ _ _) as [r2 o2] eqn:Ew. intros [= <- <-].
    apply (warn_inv hole) in Ew; [| by apply G | done]. done.
  - intros [= <- <-]. split_and!; try done. by apply G.
Qed.

Lemma find_partner_inv now ttl self l b p b' :
  bucket_inv b -> is_Some (b !! self) -> find_partner now ttl self l b = (p, b') ->
  bucket_inv b' /\ b' <> ∅.
Proof.
  intros Hb Hs H. apply find_partner_spec in H as (Hsub & Hl & _). split.
  - by eapply bucket_inv_subset.
  - intros ->. rewrite <- Hl in Hs. rewrite lookup_empty in Hs. by destruct Hs.
Qed.

Definition self_before (m : Message) (b : gmap string hsPeer) : hsPeer :=
  default (mkHsPeer (m_ID m) "" "" "" ∅ zeroTime) (b !! m_ID m).

(** What a successful [upsert] did. *)
Inductive upserted (now : Z) (order : list string) (m : Message) (src : UDPAddr) (r r' : hsRegistry)
    (self : hsPeer) (partner : option hsPeer) : Prop :=
| Upserted (mid : hsRegistry) (bucket after : gmap string hsPeer)
    (up_open : open_bucket order (m_Token m) r = Some mid)
    (up_found : waiting mid !! m_Token m = Some bucket)
    (up_room : bucket !! m_ID m = None -> Z.of_nat (size bucket) < maxIDsPerToken)
    (up_self : self = refresh now m src (self_before m bucket))
    (up_loop : find_partner now (hr_ttl r) (m_ID m) (map_to_list (<[m_ID m := self]> bucket))
                 (<[m_ID m := self]> bucket) = (partner, after))
    (up_waiting : waiting r' = <[m_Token m := after]> (waiting mid))
    (up_sids : sids r' = sids mid).

Lemma fill_bucket_inv tok b r :
  reg_inv (Some tok) r -> is_Some (waiting r !! tok) -> bucket_inv b -> b <> ∅ ->
  reg_inv None (with_waiting r (<[tok := b]> (waiting r))).
Proof.
  intros [Hw Hb Hn Hd Hs Hi Hp Hx] Ht Hbi Hne. split; cbn; try done.
  - rewrite map_size_insert. by destruct Ht as [? ->].
  - by apply map_Forall_insert_2.
  - intros k b' Hk He. destruct (decide (k = tok)) as [-> | Hkt].
    + rewrite lookup_insert_eq in Hk. by simplify_eq.
    + rewrite lookup_insert_ne in Hk by done. specialize (Hn k b' Hk He). congruence.
  - rewrite dom_insert_L. set_solver.
  - rewrite dom_insert_L. set_solver.
Qed.

Lemma clear_latch_inv tok r : reg_inv None r -> reg_inv None (with_pairedLogged r (pairedLogged r ∖ {[tok]})).
Proof.
  intros []. split; try done. cbn.
  pose proof (subseteq_size (pairedLogged r ∖ {[tok]}) (pairedLogged r) ltac:(set_solver)). lia.
Qed.

Lemma self_before_inv m b : bucket_inv b -> peer_inv (m_ID m) (self_before m b).
Proof.
  intros Hb. unfold self_before. destruct (b !! m_ID m) eqn:E; [by apply (bi_peers _ Hb) in E | apply fresh_peer_inv].
Qed.

Lemma add_self_inv m b p :
  bucket_inv b -> (b !! m_ID m = None -> Z.of_nat (size b) < maxIDsPerToken) -> peer_inv (m_ID m) p ->
  bucket_inv (<[m_ID m := p]> b).
Proof.
  intros [Hn Hp] Hroom Hpi. split.
  - rewrite map_size_insert. destruct (b !! m_ID m); [done | specialize (Hroom eq_refl); lia].
  - by apply map_Forall_insert_2.
Qed.

Lemma upsert_outcome tag now order m src r r' res o :
  reg_inv None r -> upsert tag now order m src r = (r', res, o) ->
  reg_inv None r' /\ hr_ttl r' = hr_ttl r /\
  match res with
  | Some (self, partner) => upserted now order m src r r' self partner
  | None => waiting r' = waiting r /\
            (open_bucket order (m_Token m) r = None \/
             exists b, waiting r !! m_Token m = Some b /\ b !! m_ID m = None /\ Z.of_nat (size b) = maxIDsPerToken)
  end.
Proof.
  intros Hr. unfold upsert. destruct (open_bucket order (m_Token m) r) as [r1 |] eqn:Eo.
  2: { intros [= <- <- <-]. split; [done |]. split; [done |]. split; [done | by left]. }
  destruct (open_bucket_inv _ _ _ _ Hr Eo) as (Hr1 & [b Hb] & Ht1). rewrite Hb. cbn [default from_option id].
  pose proof (ri_buckets _ _ Hr1 _ _ Hb) as Hbi. cbn beta in Hbi.
  destruct (bool_decide (b !! m_ID m = None) && _) eqn:Ec.
  - apply andb_true_iff in Ec as [Hid Hfull]. apply bool_decide_eq_true in Hid. breflect.
    destruct (warnIntruderLocked _ _ _) as [r2 o2] eqn:Ew. intros [= <- <- <-].
    assert (Hw : waiting r1 = waiting r /\ waiting r !! m_Token m = Some b).
    { unfold open_bucket in Eo. destruct (waiting r !! m_Token m) eqn:E; [by simplify_eq |].
      apply bind_Some in Eo as (r0 & _ & [= <-]). cbn in Hb. rewrite lookup_insert_eq in Hb.
      simplify_eq. by rewrite map_size_empty in Hfull. }
    destruct Hw as [Hw Hb0].
    assert (Hr1' : reg_inv None r1).
    { destruct Hr1, Hr. split; try done. intros k b' Hk He. rewrite Hw in Hk. by eapply ri_nonempty1. }
    apply (warn_inv None) in Ew as (? & Hw2 & ? & ? & ?); [| done | by rewrite Hb]. split; [done |]. split; [congruence |].
    split; [congruence |]. right. exists b. pose proof (bi_size _ Hbi). split_and!; [done | done | lia].
  - destruct (note_pubkey tag m src r1) as [r2 o2] eqn:En.
    destruct (find_partner _ _ _ _ _) as [partner b2] eqn:Ef. intros [= <- <- <-].
    assert (Hroom : b !! m_ID m = None -> Z.of_nat (size b) < maxIDsPerToken).
    { intros Hid. rewrite bool_decide_true in Ec by done. by apply Z.leb_gt in Ec. }
    apply (note_pubkey_inv _ (Some (m_Token m))) in En as (Hr2 & Hw2 & Hp2 & Hs2 & Ht2); [| done | by rewrite Hb].
    destruct (find_partner_inv _ _ _ _ _ _ _
                (add_self_inv _ _ _ Hbi Hroom (refresh_inv now m src _ _ (self_before_inv m b Hbi)))
                ltac:(rewrite lookup_insert_eq; eauto) Ef) as [Hb2 Hne].
    assert (H3 : reg_inv None (with_waiting r2 (<[m_Token m := b2]> (waiting r2)))).
    { apply fill_bucket_inv; [done | by rewrite Hw2, Hb | done | done]. }
    split_and!.
    + destruct partner; [done | exact (clear_latch_inv _ _ H3)].
    + destruct partner; cbn; congruence.
    + apply (Upserted _ _ _ _ _ _ _ _ r1 b b2); try done.
      * destruct partner; cbn; by rewrite Hw2.
      * destruct partner; cbn; by rewrite Hs2.
Qed.

Lemma notePaired_inv tok r : reg_inv None r -> reg_inv None (notePaired tok r).2.
Proof.
  intros Hr. unfold notePaired. case_bool_decide; [done |]. destruct (_ <=? _) eqn:E; [done |]. breflect.
  destruct Hr. split; try done. cbn. rewrite size_union by set_solver. rewrite size_singleton. lia.
Qed.

Lemma sidFor_inv rand tok r : reg_inv None r -> reg_inv None (sidFor rand tok r).2.
Proof.
  intros Hr. unfold sidFor. destruct (sids r !! tok) eqn:Es; [done |]. destruct (_ <=? _) eqn:E; [done |]. breflect.
  destruct rand; [| done]. destruct Hr. split; try done. cbn. rewrite map_size_insert, Es. lia.
Qed.

Lemma dead_elem now r tok :
  tok ∈ dead_tokens now r <-> exists b, waiting r !! tok = Some b /\ live now (hr_ttl r) b = ∅.
Proof.
  unfold dead_tokens. rewrite elem_of_dom. unfold is_Some.
  split; intros [b Hb]; exists b; [by apply map_lookup_filter_Some in Hb | by apply map_lookup_filter_Some].
Qed.

Lemma reap_waiting now r tok b' :
  waiting (reap now r) !! tok = Some b' <->
  exists b, waiting r !! tok = Some b /\ b' = live now (hr_ttl r) b /\ b' <> ∅.
Proof.
  cbn. rewrite lookup_fmap, fmap_Some. split.
  - intros (b & Hb%map_lookup_filter_Some & ->). cbn in Hb. naive_solver.
  - intros (b & Hb & -> & Hne). exists b. split; [| done]. by apply map_lookup_filter_Some.
Qed.

Lemma reap_inv now r : reg_inv None r -> reg_inv None (reap now r).
Proof.
  intros [Hw Hb Hn Hd Hs Hi Hp Hx].
  assert (Hdom : forall tok, is_Some (waiting r !! tok) -> tok ∉ dead_tokens now r ->
            tok ∈ dom (waiting (reap now r))).
  { intros tok [b Hb'] Hnd. apply elem_of_dom. exists (live now (hr_ttl r) b). apply reap_waiting.
    exists b. split_and!; [done | done |]. intros He. apply Hnd. rewrite dead_elem. eauto. }
  split.
  - cbn. rewrite map_size_fmap. pose proof (map_size_filter_le (fun tb => live now (hr_ttl r) tb.2 <> ∅) (waiting r)). lia.
  - intros tok b' (b & Hb' & -> & _)%reap_waiting. eapply bucket_inv_subset; [apply map_filter_subseteq | by apply Hb in Hb'].
  - intros tok b' (b & Hb' & -> & Hne)%reap_waiting He. done.
  - intros tok Ht. cbn [reap seenPKs] in Ht. apply elem_of_dom in Ht as [ks Hk].
    apply map_lookup_filter_Some in Hk as [Hk Hnd]. apply Hdom; [| done]. apply elem_of_dom, Hd, elem_of_dom. eauto.
  - intros tok ks [Hk _]%map_lookup_filter_Some. by apply (Hs tok).
  - intros tok Ht. cbn [reap intruderWarned] in Ht. apply elem_of_difference in Ht as [Ht Hnd].
    apply Hdom; [| done]. by apply elem_of_dom, Hi.
  - cbn [reap pairedLogged]. pose proof (subseteq_size (pairedLogged r ∖ dead_tokens now r) (pairedLogged r) ltac:(set_solver)). lia.
  - cbn [reap sids]. pose proof (map_size_filter_le (fun tb => tb.1 ∉ dead_tokens now r) (sids r)). lia.
Qed.

Lemma reg_step_inv tag op r : reg_inv None r -> reg_inv None (reg_step tag op r).
Proof.
  intros Hr. destruct op as [now order m src | tok | rand tok | now]; cbn [reg_step].
  - destruct (upsert _ _ _ _ _ _) as [[r' res] o] eqn:E. by apply upsert_outcome in E as [? _].
  - by apply notePaired_inv.
  - by apply sidFor_inv.
  - by apply reap_inv.
Qed.

Lemma reg_run_inv tag ops r : reg_inv None r -> reg_inv None (reg_run tag ops r).
Proof.
  revert r. induction ops as [| op ops IH]; intros r Hr; [done |]. apply IH. by apply reg_step_inv.
Qed.

Lemma reg_reachable_inv tag ops ttl : reg_inv None (reg_run tag ops (newHSRegistry ttl)).
Proof. apply reg_run_inv, new_inv. Qed.

(** The registry's memory is bounded whatever is registered and however the
    concurrent requests, the ticket issuer and the reaper interleave: at most
    4096 tokens, one or two ids per token, eight endpoints per id, three keys
    remembered per token, and 4096 entries in each latch and in the session id
    table; the key memory and the intrusion latch name only tokens that are
    waiting. *)
Theorem registry_bounded tag ops ttl :
  let r := reg_run tag ops (newHSRegistry ttl) in
  Z.of_nat (size (waiting r)) <= maxTokens /\
  (forall tok b, waiting r !! tok = Some b ->
     1 <= Z.of_nat (size b) <= maxIDsPerToken /\
     forall id p, b !! id = Some p -> hp_id p = id /\ Z.of_nat (size (hp_cands p)) <= maxCandsPerPeer) /\
  (forall tok ks, seenPKs r !! tok = Some ks ->
     is_Some (waiting r !! tok) /\ Z.of_nat (size ks) <= maxIDsPerToken + 1) /\
  intruderWarned r ⊆ dom (waiting r) /\
  Z.of_nat (size (pairedLogged r)) <= maxTokens /\ Z.of_nat (size (sids r)) <= maxTokens.
Proof.
  intros r. destruct (reg_reachable_inv tag ops ttl) as [Hw Hb Hn Hd Hs Hi Hp Hx]. fold r in Hw, Hb, Hn, Hd, Hs, Hi, Hp, Hx.
  split_and!; try done.
  - intros tok b Ht. destruct (Hb _ _ Ht) as [Hsz Hpi]. split.
    + split; [| done]. assert (size b <> 0%nat); [| lia]. intros ->%map_size_empty_inv. by specialize (Hn _ _ Ht eq_refl).
    + intros id p Hip. by destruct (Hpi _ _ Hip).
  - intros tok ks Hk. split; [apply elem_of_dom, Hd, elem_of_dom; eauto | by apply (Hs tok)].
Qed.

(** ** Pairing *)

Lemma two_keys (b : gmap string hsPeer) self id1 id2 :
  Z.of_nat (size b) <= maxIDsPerToken -> is_Some (b !! self) -> is_Some (b !! id1) -> is_Some (b !! id2) ->
  id1 <> self -> id2 <> self -> id1 = id2.
Proof.
  intros Hs H0 H1 H2 N1 N2. destruct (decide (id1 = id2)) as [-> | Hne]; [done |]. exfalso.
  assert (Hsub : {[self; id1; id2]} ⊆ dom b).
  { intros x Hx. apply elem_of_dom. set_unfold in Hx. naive_solver. }
  apply subseteq_size in Hsub. rewrite size_dom in Hsub.
  rewrite !size_union, !size_singleton in Hsub by set_solver. unfold maxIDsPerToken in Hs. lia.
Qed.

(** The bucket [upsert] finds is the one the token had, or a fresh one. *)
Lemma open_bucket_lookup order tok r r' b :
  open_bucket order tok r = Some r' -> waiting r' !! tok = Some b -> b = default ∅ (waiting r !! tok).
Proof.
  unfold open_bucket. destruct (waiting r !! tok) eqn:E.
  - intros [= <-] H. by rewrite E in H; simplify_eq.
  - intros (r0 & _ & [= <-])%bind_Some. cbn. rewrite lookup_insert_eq. by intros [= <-].
Qed.

Lemma stalest_some w order best :
  (best <> None \/ exists tok, tok ∈ order /\ is_Some (w !! tok)) -> stalest w order best <> None.
Proof.
  revert best. induction order as [| tok rest IH]; intros best; cbn [stalest].
  - intros [? | (? & ?%not_elem_of_nil & _)]; done.
  - intros H. destruct (w !! tok) as [b |] eqn:E.
    + apply IH. left. destruct best as [[? ?] |]; [by destruct (_ <? _) | done].
    + apply IH. destruct H as [? | (t & [-> | Hin]%elem_of_cons & Ht)]; [by left | | right; eauto].
      rewrite E in Ht. by destruct Ht.
Qed.

(** A full table never refuses a new token: the sample always holds a victim. *)
Lemma open_bucket_total order tok r :
  order ≡ₚ (map_to_list (waiting r)).*1 -> open_bucket order tok r <> None.
Proof.
  intros Ho. unfold open_bucket. destruct (waiting r !! tok); [done |].
  destruct (_ <=? _) eqn:E; [| done]. breflect. unfold evictStalestLocked.
  assert (Hs : stalest (waiting r) (take evictSample order) None <> None).
  { apply stalest_some. right. destruct order as [| t rest].
    - apply Permutation_nil, (f_equal length) in Ho. rewrite length_fmap, length_map_to_list in Ho.
      cbn in Ho. unfold maxTokens in *. lia.
    - exists t. split; [by left |]. assert (t ∈ (map_to_list (waiting r)).*1) as Hin by (rewrite <- Ho; by left).
      apply list_elem_of_fmap in Hin as ([k b] & -> & Hk%elem_of_map_to_list). eauto. }
  by destruct (stalest _ _ _) as [[v a] |].
Qed.

Lemma refresh_fields now m src p :
  hp_id (refresh now m src p) = hp_id p /\ hp_seen (refresh now m src p) = now /\
  (m_PubKey m <> "" -> hp_pubkey (refresh now m src p) = m_PubKey m) /\
  (m_VirtualIP m <> "" -> hp_virtualIP (refresh now m src p) = m_VirtualIP m).
Proof.
  unfold refresh, observe, set_if. cbn. split_and!; try done; intros Hne.
  - by destruct (String.eqb_spec (m_PubKey m) "").
  - by destruct (String.eqb_spec (m_VirtualIP m) "").
Qed.

(** Pairing is exact.  A registration is refused only when its token already
    holds two other ids (a full table makes room instead); otherwise the sender
    is recorded as seen now under its own id, and its partner is the other id of
    the same token if that one was seen within the TTL, and nobody else. *)
Theorem upsert_pairs tag ops ttl now order m src :
  let r := reg_run tag ops (newHSRegistry ttl) in
  let bucket := default ∅ (waiting r !! m_Token m) in
  order ≡ₚ (map_to_list (waiting r)).*1 ->
  match (upsert tag now order m src r).1.2 with
  | None => bucket !! m_ID m = None /\ Z.of_nat (size bucket) = maxIDsPerToken
  | Some (self, partner) =>
      hp_id self = m_ID m /\ hp_seen self = now /\ (m_PubKey m <> "" -> hp_pubkey self = m_PubKey m) /\
      forall p, partner = Some p <->
        exists id, id <> m_ID m /\ bucket !! id = Some p /\ now - hp_seen p <= hr_ttl r
  end.
Proof.
  intros r bucket Ho. pose proof (reg_reachable_inv tag ops ttl : reg_inv None r) as Hr.
  destruct (upsert tag now order m src r) as [[r' res] o] eqn:E.
  apply upsert_outcome in E as (_ & _ & H); [| done]. cbn [fst snd]. destruct res as [[self partner] |].
  - destruct H as [mid b after Hopen Hfound Hroom Hself Hloop _ _].
    assert (b = bucket) as -> by (by eapply open_bucket_lookup).
    destruct (open_bucket_inv _ _ _ _ Hr Hopen) as (Hmid & _ & _).
    pose proof (ri_buckets _ _ Hmid _ _ Hfound) as Hb. cbn beta in Hb.
    pose proof (self_before_inv m _ Hb) as Hsb.
    destruct (refresh_fields now m src (self_before m bucket)) as (Hid & Hseen & Hpk & _). rewrite <- Hself in Hid, Hseen, Hpk.
    split_and!; [by rewrite Hid, (pi_id _ _ Hsb) | done | done |].
    assert (Hb1 : bucket_inv (<[m_ID m := self]> bucket)).
    { apply add_self_inv; [done | done |]. rewrite Hself. by apply refresh_inv. }
    apply find_partner_spec in Hloop as (_ & _ & Hp). intros p. split.
    + intros ->. destruct Hp as (other & Hne & Hin%elem_of_map_to_list & Hl). rewrite lookup_insert_ne in Hin by done. eauto.
    + intros (id & Hne & Hbk & Hl). assert (Hbk' : <[m_ID m := self]> bucket !! id = Some p) by (by rewrite lookup_insert_ne).
      destruct partner as [q |].
      * destruct Hp as (other & Hne' & Hin%elem_of_map_to_list & _).
        assert (id = other) as ->; [| congruence].
        eapply (two_keys _ (m_ID m)); [apply Hb1 | rewrite lookup_insert_eq | | | |]; eauto.
      * apply elem_of_map_to_list in Hbk'. specialize (Hp _ _ Hbk' Hne). lia.
  - destruct H as [_ [H | (b & Hb & ? & ?)]]; [by apply open_bucket_total in H |].
    subst bucket. rewrite Hb. done.
Qed.

(** The entries after an [upsert] are those before it, or the sender's. *)
Lemma upsert_entries tag now order m src r r' res o tok b id p :
  reg_inv None r -> upsert tag now order m src r = (r', res, o) ->
  waiting r' !! tok = Some b -> b !! id = Some p ->
  (exists b0, waiting r !! tok = Some b0 /\ b0 !! id = Some p) \/
  (tok = m_Token m /\ id = m_ID m /\ exists partner, res = Some (p, partner)).
Proof.
  intros Hr Hu Hb Hp. apply upsert_outcome in Hu as (_ & _ & Hu); [| done]. destruct res as [[self partner] |].
  2: { destruct Hu as [Hw _]. rewrite Hw in Hb. eauto. }
  destruct Hu as [mid bucket after Hopen Hfound _ Hself Hloop Hwait _]. rewrite Hwait in Hb.
  destruct (decide (tok = m_Token m)) as [-> | Hne].
  - rewrite lookup_insert_eq in Hb. injection Hb as <-. apply find_partner_spec in Hloop as (Hsub & _).
    pose proof (lookup_weaken _ _ _ _ Hp Hsub) as Hp'. destruct (decide (id = m_ID m)) as [-> | Hid].
    + rewrite lookup_insert_eq in Hp'. injection Hp' as <-. right. eauto.
    + rewrite lookup_insert_ne in Hp' by done. rewrite (open_bucket_lookup _ _ _ _ _ Hopen Hfound) in Hp'. left.
      destruct (waiting r !! m_Token m) as [b0 |]; [| done]. eauto.
  - rewrite lookup_insert_ne in Hb by done. left. exists b. split; [| done].
    unfold open_bucket in Hopen. destruct (waiting r !! m_Token m); [by injection Hopen as <- |].
    apply bind_Some in Hopen as (r0 & He & [= <-]). cbn in Hb. rewrite lookup_insert_ne in Hb by done.
    destruct (_ <=? _); [| by injection He as <-].
    destruct (evict_inv _ _ _ _ Hr He) as (_ & v & _ & ->). cbn in Hb. by apply lookup_delete_Some in Hb as [_ ?].
Qed.

(** ** Relay session ids *)

Lemma reg_step_sid tag op r tok sid :
  reg_inv None r -> sids r !! tok = Some sid -> is_Some (waiting (reg_step tag op r) !! tok) ->
  sids (reg_step tag op r) !! tok = Some sid.
Proof.
  intros Hr Hs Hw. destruct op as [now order m src | tok' | rand tok' | now]; cbn [reg_step] in *.
  - destruct (upsert _ _ _ _ _ _) as [[r' res] o] eqn:E. cbn [fst] in *.
    assert (Hold := E). apply upsert_outcome in E as (_ & _ & H); [| done]. destruct res as [[self partner] |].
    + destruct H as [mid b after Hopen _ _ _ _ Hwait Hsids]. rewrite Hsids. rewrite Hwait in Hw.
      unfold open_bucket in Hopen. destruct (waiting r !! m_Token m) eqn:Em; [by simplify_eq |].
      apply bind_Some in Hopen as (r0 & He & [= <-]). cbn in *. destruct (_ <=? _); [| by simplify_eq].
      destruct (evict_inv _ _ _ _ Hr He) as (_ & v & Hv & ->). cbn in *.
      rewrite lookup_delete_ne; [done |]. intros ->.
      rewrite insert_insert_eq in Hw. rewrite lookup_insert_ne, lookup_delete_eq in Hw; [by destruct Hw |].
      intros Heq. rewrite <- Heq, Em in Hv. by destruct Hv.
    + unfold upsert in Hold. destruct (open_bucket _ _ _) as [r1 |] eqn:Eo; [| by simplify_eq].
      destruct H as [Hw' [H | (b & Hb & Hid & Hsz)]]; [done |].
      unfold open_bucket in Eo. rewrite Hb in Eo. simplify_eq. rewrite Hb in Hold. cbn [default from_option id] in Hold.
      rewrite Hid, Hsz in Hold. cbn in Hold.
      destruct (warnIntruderLocked _ _ _) as [r2 o2] eqn:Ew. simplify_eq.
      apply (warn_inv None) in Ew as (_ & _ & _ & -> & _); eauto.
  - unfold notePaired. by repeat case_match.
  - unfold sidFor. destruct (sids r !! tok') as [s' |] eqn:E; [done |]. repeat case_match; try done.
    cbn. rewrite lookup_insert_ne; [done |]. intros ->. congruence.
  - cbn. apply map_lookup_filter_Some. split; [done |]. cbn. rewrite dead_elem. intros (b & Hb & He).
    destruct Hw as [b' (b0 & Hb0 & -> & Hne)%reap_waiting]. congruence.
Qed.

(** Both buddies of a pairing are given the same relay session: once a token
    has a session id, every later request for that token gets the same one, for
    as long as the token keeps waiting, whatever other operations interleave. *)
Theorem sid_agreement tag ops ttl rand tok sid ops' rand' :
  let r := reg_run tag ops (newHSRegistry ttl) in
  (sidFor rand tok r).1 = Some sid ->
  (forall k, is_Some (waiting (reg_run tag (take k ops') (sidFor rand tok r).2) !! tok)) ->
  (sidFor rand' tok (reg_run tag ops' (sidFor rand tok r).2)).1 = Some sid.
Proof.
  intros r H1 Hw. set (r1 := (sidFor rand tok r).2) in *.
  assert (Hs : sids r1 !! tok = Some sid).
  { subst r1. unfold sidFor in *. destruct (sids r !! tok) eqn:E; [by simplify_eq/= |].
    repeat case_match; try done. cbn in *. by rewrite lookup_insert_eq. }
  assert (Hr1 : reg_inv None r1) by apply sidFor_inv, reg_reachable_inv.
  assert (G : sids (reg_run tag ops' r1) !! tok = Some sid); [| by unfold sidFor; rewrite G].
  clear H1. clearbody r1. revert r1 Hs Hr1 Hw. induction ops' as [| op ops' IH]; intros r1 Hs Hr1 Hw; [done |].
  apply IH.
  - apply reg_step_sid; [done | done |]. exact (Hw 1%nat).
  - by apply reg_step_inv.
  - intros k. exact (Hw (S k)).
Qed.

Lemma reap_keeps_orphan now r tok sid :
  waiting r !! tok = None -> sids r !! tok = Some sid ->
  waiting (reap now r) !! tok = None /\ sids (reap now r) !! tok = Some sid.
Proof.
  intros Hw Hs. split.
  - destruct (waiting (reap now r) !! tok) eqn:E; [| done]. apply reap_waiting in E as (b & Hb & _). congruence.
  - cbn. apply map_lookup_filter_Some. split; [done |]. cbn. rewrite dead_elem. intros (b & Hb & _). congruence.
Qed.

Module RegDemo.
Definition tag (s : string) : string := s.
Definition at_ (n : Z) : UDPAddr := mkUDPAddr (v4_in_6 ⊕ String (byte_of 203) (String (byte_of 0) (String (byte_of 113) (String (byte_of n) "")))) 40000.
Definition reg_msg (id pk : string) : Message :=
  mkMessage TypeRegister Version "tok" "" "buddy" id pk "" "" 0 "" "" "" "" [] "" None "" "" "" "" "" "" "".
Definition pair_ops : list reg_op :=
  [OpUpsert 0 [] (reg_msg "alice" "ka") (at_ 1); OpUpsert 0 ["tok"] (reg_msg "bob" "kb") (at_ 2)].

Lemma upsert_pairs_witness :
  exists self p, (upsert tag 5 ["tok"] (reg_msg "alice" "ka") (at_ 1) (reg_run tag pair_ops (newHSRegistry 10))).1.2
                 = Some (self, Some p) /\ hp_id self = "alice" /\ hp_seen self = 5.
Proof.
  pose proof (upsert_pairs tag pair_ops 10 5 ["tok"] (reg_msg "alice" "ka") (at_ 1)) as H. cbv zeta in H.
  assert (Hp : ["tok"] ≡ₚ (map_to_list (waiting (reg_run tag pair_ops (newHSRegistry 10)))).*1)
    by (vm_compute; reflexivity).
  specialize (H Hp).
  destruct (upsert _ _ _ _ _ _).1.2 as [[self [p |]] |] eqn:E.
  - exists self, p. destruct H as (Hid & Hs & _). split_and!; [reflexivity | exact Hid | exact Hs].
  - exfalso. vm_compute in E. discriminate E.
  - exfalso. vm_compute in E. discriminate E.
Defined.

Lemma sid_agreement_witness :
  (sidFor (Some "0123456789abcdef") "tok"
     (reg_run tag [OpUpsert 1 ["tok"] (reg_msg "alice" "ka") (at_ 3)]
        (sidFor (Some "fedcba9876543210") "tok" (reg_run tag pair_ops (newHSRegistry 10))).2)).1
  = Some (NewID "fedcba9876543210").
Proof.
  apply (sid_agreement tag pair_ops 10 (Some "fedcba9876543210") "tok" (NewID "fedcba9876543210")).
  - vm_compute. reflexivity.
  - intros [| [| k]]; vm_compute; eexists; reflexivity.
Defined.

(** A session id can outlive its token for good.  [sidFor] takes the
    registry's lock again after [upsert] has released it; when the token is
    evicted or reaped in between, the id is recorded for a token that is no
    longer waiting, and no later reap removes it: the table of session ids is
    bounded, but it does not live exactly as long as the bucket. *)
Theorem sid_outlives_token :
  exists ops tok sid, let r := reg_run tag ops (newHSRegistry 10) in
    waiting r !! tok = None /\
    forall times, sids (reg_run tag (OpReap <$> times) r) !! tok = Some sid.
Proof.
  exists (pair_ops ++ [OpReap 11; OpSidFor (Some "0123456789abcdef") "tok"]), "tok", (NewID "0123456789abcdef").
  cbv zeta. set (r := reg_run _ _ _).
  assert (Hw : waiting r !! "tok" = None) by (vm_compute; reflexivity).
  assert (Hs : sids r !! "tok" = Some (NewID "0123456789abcdef")) by (vm_compute; reflexivity).
  split; [exact Hw |]. intros times. clearbody r. revert r Hw Hs.
  induction times as [| t times IH]; intros r Hw Hs; [exact Hs |].
  destruct (reap_keeps_orphan t r _ _ Hw Hs) as [Hw' Hs']. exact (IH _ Hw' Hs').
Qed.
End RegDemo.
