(* ===== verification/Authz.v ===== *)
(** * The client allowlist of the handshake server

    [internal/role/authz.go]: approval mode.  The first half is the text file
    the operator edits ([readAuthorized], [ApproveKey], [RevokeKey],
    [ListKeys]); the second is the running server's copy with its replay
    caches and enrollment tables.  The file system is an argument: what [Open]
    or [Stat] returned, and the contents read.  One clock value stands for the
    calls of [time.Now] within an operation; Go's unspecified map order is the
    argument [order]. *)

From S2P Require Import Prelude Base64 Sha256 Json NetAddr Crypto Protocol Ticket HsRegistry.
From S2P Require RateLimit.

Definition pendingTTL : Z := 30 * minute.
Definition logDedupWindow : Z := 30 * second.
Definition maxLoggedKeys : Z := 1024.
Definition maxPending : Z := 1024.
Definition maxReplayRegs : Z := 4096.
Definition maxPreAuthRegs : Z := 4096.
Definition regSkew : Z := 60 * second.
Definition regReplayWindow : Z := 2 * regSkew.
Definition maxAuthorizedKeys : Z := 1024.
Definition statErrorWindow : Z := 5 * minute.
Definition rlEnrollGlobalRate : QArith_base.Q := QArith_base.inject_Z 20.
Definition rlEnrollSrcRate : QArith_base.Q := QArith_base.inject_Z 2.
Definition rlEnrollMaxSources : Z := 1024.

(** ** Text

    [strings.Fields] splits at runs of Unicode white space.  Every white-space
    rune of UTF-8 is recognised by its bytes: [space_width] is how many bytes
    of it start here, 0 when none does. *)

Definition nl : Ascii.ascii := Eval vm_compute in byte_of 10.
Definition cr : Ascii.ascii := Eval vm_compute in byte_of 13.
Definition nl_s : string := String nl "".

Definition ascii_space (c : Ascii.ascii) : bool := between 9 13 c || (byte_val c =? 32).

Definition space_width (s : string) : nat :=
  match s with
  | String a r =>
      if ascii_space a then 1%nat
      else match r with
           | String b r' =>
               if (byte_val a =? 0xC2) && ((byte_val b =? 0x85) || (byte_val b =? 0xA0)) then 2%nat
               else match r' with
                    | String c _ =>
                        let cp := (byte_val a * 256 + byte_val b) * 256 + byte_val c in
                        if (cp =? 0xE19A80) || ((0xE28080 <=? cp) && (cp <=? 0xE2808A)) || (cp =? 0xE280A8) ||
                           (cp =? 0xE280A9) || (cp =? 0xE280AF) || (cp =? 0xE2819F) || (cp =? 0xE38080)
                        then 3%nat else 0%nat
                    | _ => 0%nat
                    end
           | _ => 0%nat
           end
  | _ => 0%nat
  end.

Definition flush (cur : string) (fs : list string) : list string :=
  if String.eqb cur "" then fs else cur :: fs.

(** [cur] is the field being read, [skip] the rest of a white-space rune. *)
Fixpoint fields_go (skip : nat) (cur : string) (s : string) : list string :=
  match s with
  | EmptyString => flush cur []
  | String c r =>
      match skip with
      | S k => fields_go k cur r
      | O => match space_width s with
             | O => fields_go 0 (cur ⊕ String c "") r
             | S k => flush cur (fields_go k "" r)
             end
      end
  end.

Definition Fields (s : string) : list string := fields_go 0 "" s.

(** [bufio.ScanLines]: a line loses one trailing carriage return, an empty
    last piece is no line, and a line of 64 KiB stops the scan with an error. *)
Definition MaxScanTokenSize : Z := 65536.

Fixpoint dropCR (s : string) : string :=
  match s with
  | EmptyString => ""
  | String c EmptyString => if Ascii.eqb c cr then "" else s
  | String c r => String c (dropCR r)
  end.

Fixpoint drop_last_empty (l : list string) : list string :=
  match l with
  | [] => []
  | [s] => if String.eqb s "" then [] else [s]
  | s :: r => s :: drop_last_empty r
  end.

Definition too_long (s : string) : bool := MaxScanTokenSize <=? Z.of_nat (slen s).

Fixpoint until_long (l : list string) : list string * bool :=
  match l with
  | [] => ([], false)
  | s :: r => if too_long s then ([], true)
              else let '(ls, e) := until_long r in (dropCR s :: ls, e)
  end.

Definition scan_lines (s : string) : list string * bool := until_long (drop_last_empty (split_on nl s)).

(** ** The allowlist file *)

Inductive FileErr := NotExist | OtherErr | TooLong.

Definition validPubKey (b64 : string) : bool :=
  match Std.DecodeString b64 with
  | Some raw => (slen raw =? PublicKeySize)%nat
  | None => false
  end.

(** One line: the key and the label it carries, if it is an entry.  Go trims
    the line first, which removes only what [Fields] skips anyway. *)
Definition line_entry (line : string) : option (string * string) :=
  match Fields line with
  | [] => None
  | key :: label =>
      if has_prefix "#" key then None
      else if validPubKey key then Some (key, join " " label) else None
  end.

(** The loop of [readAuthorized]; the flag says whether the cap stopped it. *)
Fixpoint read_lines (ls : list string) (keys : gmap string string) : gmap string string * bool :=
  match ls with
  | [] => (keys, false)
  | l :: rest =>
      match line_entry l with
      | None => read_lines rest keys
      | Some (k, label) =>
          let keys' := <[k := label]> keys in
          if maxAuthorizedKeys <=? Z.of_nat (size keys') then (keys', true) else read_lines rest keys'
      end
  end.

(** What opening the file gives: its contents and modification time. *)
Abbreviation FileView := (result FileErr (string * Z)).

Definition readAuthorized (f : FileView) : result FileErr (gmap string string * Z) :=
  match f with
  | Err e => Err e
  | Ok (contents, mtime) =>
      let '(ls, err) := scan_lines contents in
      let '(keys, capped) := read_lines ls ∅ in
      if negb capped && err then Err TooLong else Ok (keys, mtime)
  end.

(** ** The operator's commands *)

Inductive AdminErr := BadKey | LockFailed | ReadFailed (e : FileErr).

Inductive Approval := AlreadyApproved | Appended (contents : string).

Definition file_contents (f : FileView) : string :=
  match f with Ok (c, _) => c | Err _ => "" end.

Definition ApproveKey (lock_ok : bool) (f : FileView) (key label : string) : result AdminErr Approval :=
  if negb (validPubKey key) then Err BadKey
  else if negb lock_ok then Err LockFailed
  else
    let append := Ok (Appended (file_contents f ⊕ key ⊕
                        (if String.eqb label "" then "" else " " ⊕ label) ⊕ nl_s)) in
    match readAuthorized f with
    | Ok (keys, _) => if bool_decide (is_Some (keys !! key)) then Ok AlreadyApproved else append
    | Err NotExist => append
    | Err e => Err (ReadFailed e)
    end.

Definition str_le (a b : string) : Prop := str_ltb b a = false.
#[export] Instance str_le_dec : RelDecision str_le.
Proof. intros a b. unfold str_le. apply _. Defined.

(** The lines [ListKeys] prints. *)
Definition ListKeys (f : FileView) : result FileErr (list string) :=
  match readAuthorized f with
  | Err NotExist => Ok ["(no authorized clients yet)"]
  | Err e => Err e
  | Ok (keys, _) =>
      let ordered := merge_sort str_le (map_to_list keys).*1 in
      Ok (match ordered with
          | [] => ["(no authorized clients yet)"]
          | _ => (fun k => k ⊕ " " ⊕ default "" (keys !! k)) <$> ordered
          end)
  end.

Inductive Revocation := NotInList | Rewritten (removed : nat) (contents : string).

Definition names_key (key line : string) : bool :=
  match Fields line with k :: _ => String.eqb k key | [] => false end.

Definition RevokeKey (lock_ok : bool) (f : FileView) (key : string) : result AdminErr Revocation :=
  if negb lock_ok then Err LockFailed
  else match f with
       | Err e => Err (ReadFailed e)
       | Ok (contents, _) =>
           let '(ls, err) := scan_lines contents in
           if err then Err (ReadFailed TooLong)
           else
             let kept := List.filter (fun l => negb (names_key key l)) ls in
             let removed := (length ls - length kept)%nat in
             if (removed =? 0)%nat then Ok NotInList
             else
               let out := join nl_s kept in
               Ok (Rewritten removed (if String.eqb out "" then "" else out ⊕ nl_s))
       end.

(** ** The running server's allowlist *)

Record pendingEntry := mkPending { pe_Key : string; pe_Seen : Z }.

Record authorizer := mkAuthorizer {
  selfPriv : string;
  enroll : RateLimit.Limiter;
  keys : gmap string string;
  mtime : Z;
  logged : gmap string Z;
  pend : gmap string pendingEntry;
  recentRegs : gmap string Z;
  preAuthRegs : gmap string Z;
  approvedAt : gmap string Z;
  missing : bool;
  lastStatWarn : Z;
}.

Definition with_allowlist (a : authorizer) ks ap mt miss :=
  mkAuthorizer (selfPriv a) (enroll a) ks mt (logged a) (pend a) (recentRegs a) (preAuthRegs a) ap miss (lastStatWarn a).
Definition with_enroll (a : authorizer) l :=
  mkAuthorizer (selfPriv a) l (keys a) (mtime a) (logged a) (pend a) (recentRegs a) (preAuthRegs a) (approvedAt a)
    (missing a) (lastStatWarn a).
Definition with_logged (a : authorizer) l :=
  mkAuthorizer (selfPriv a) (enroll a) (keys a) (mtime a) l (pend a) (recentRegs a) (preAuthRegs a) (approvedAt a)
    (missing a) (lastStatWarn a).
Definition with_pend (a : authorizer) l :=
  mkAuthorizer (selfPriv a) (enroll a) (keys a) (mtime a) (logged a) l (recentRegs a) (preAuthRegs a) (approvedAt a)
    (missing a) (lastStatWarn a).
Definition with_regs (a : authorizer) rec pre :=
  mkAuthorizer (selfPriv a) (enroll a) (keys a) (mtime a) (logged a) (pend a) rec pre (approvedAt a)
    (missing a) (lastStatWarn a).
Definition with_lastStatWarn (a : authorizer) t :=
  mkAuthorizer (selfPriv a) (enroll a) (keys a) (mtime a) (logged a) (pend a) (recentRegs a) (preAuthRegs a)
    (approvedAt a) (missing a) t.

(** [load]: the approval moment of a key is kept if it was known, is now if
    the key is new, and is unconstrained for keys found at start. *)
Definition approval_moments (initial : bool) (now : Z) (known : gmap string Z) (ks : gmap string string)
    : gmap string Z :=
  map_imap (fun k _ => Some (if initial then zeroTime else default now (known !! k))) ks.

Definition load (initial : bool) (now : Z) (f : FileView) (a : authorizer) : result FileErr authorizer :=
  match readAuthorized f with
  | Err NotExist => Ok (with_allowlist a ∅ ∅ zeroTime true)
  | Err e => Err e
  | Ok (ks, mt) => Ok (with_allowlist a ks (approval_moments initial now (approvedAt a) ks) mt (missing a))
  end.

Definition newAuthorizer (priv : string) (now : Z) (f : FileView) : result FileErr authorizer :=
  load true now f
    (mkAuthorizer priv (RateLimit.New rlEnrollGlobalRate rlEnrollSrcRate rlEnrollMaxSources now)
       ∅ zeroTime ∅ ∅ ∅ ∅ ∅ false zeroTime).

Definition reload (now : Z) (f : FileView) (a : authorizer) : result FileErr authorizer := load false now f a.

Definition freshSinceApproval (pubkey : string) (ts : Z) (a : authorizer) : bool :=
  match approvedAt a !! pubkey with
  | None => true
  | Some t => (t =? zeroTime) || negb (of_unix ts <? t - second)
  end.

Definition allowed (pubkey : string) (a : authorizer) : bool := bool_decide (is_Some (keys a !! pubkey)).

Definition count (a : authorizer) : Z := Z.of_nat (size (keys a)).

Definition noteStatError (now : Z) (a : authorizer) : authorizer * list Out :=
  if now - lastStatWarn a <? statErrorWindow then (a, [])
  else (with_lastStatWarn a now, [Log (LAllowlistUnreadable (count a))]).

(** [noteMissing] leaves [approvedAt] as it is. *)
Definition noteMissing (a : authorizer) : authorizer * list Out :=
  (with_allowlist a ∅ (approvedAt a) zeroTime true,
   if missing a then [] else [Log (LAllowlistMissing (count a))]).

(** [pollOnce]: [stat] is what [os.Stat] returned, [f] what opening the file
    gives a moment later. *)
Definition pollOnce (now : Z) (stat : result FileErr Z) (f : FileView) (a : authorizer) : authorizer * list Out :=
  match stat with
  | Err NotExist => noteMissing a
  | Err _ => noteStatError now a
  | Ok mt =>
      let changed := negb (mt =? mtime a) in
      let restored := missing a in
      let a1 := with_allowlist a (keys a) (approvedAt a) (mtime a) false in
      if negb changed then (a1, [])
      else match reload now f a1 with
           | Err _ => (a1, [Log LReloadFailed])
           | Ok a2 => (a2, [Log (LReloaded restored (count a2))])
           end
  end.

Definition allowEnroll (now : Z) (src : string) (a : authorizer) : bool * authorizer :=
  let '(ok, l) := RateLimit.Allow now src (enroll a) in (ok, with_enroll a l).

(** *** Enrollment *)

Definition pruneLoggedLocked (now : Z) (a : authorizer) : authorizer :=
  with_logged a (filter (fun kt => now - kt.2 < logDedupWindow) (logged a)).

Definition recently_logged (now : Z) (pubkey : string) (a : authorizer) : bool :=
  match logged a !! pubkey with
  | Some last => now - last <? logDedupWindow
  | None => false
  end.

Definition logPending (now : Z) (pubkey tokenHash : string) (a : authorizer) : authorizer * list Out :=
  if recently_logged now pubkey a then (a, [])
  else
    let a1 := if maxLoggedKeys <=? Z.of_nat (size (logged a)) then pruneLoggedLocked now a else a in
    if maxLoggedKeys <=? Z.of_nat (size (logged a1)) then (a1, [])
    else (with_logged a1 (<[pubkey := now]> (logged a1)),
          [Log (LPendingKey (keyTag pubkey) tokenHash pubkey)]).

(** [shortHash]: eight hexadecimal digits of the code's hash. *)
Definition shortHash (token : string) : string := hex (take_s 4 (sha256 token)).

Definition prunePendingLocked (now : Z) (a : authorizer) : authorizer :=
  with_pend a (filter (fun ke => now - pe_Seen ke.2 <= pendingTTL) (pend a)).

(** The part of [recordPending] under the lock, on the code's hash. *)
Definition note_enrollment (now : Z) (h key : string) (a : authorizer) : authorizer * list Out :=
  let taken := match pend a !! h with
               | Some e => negb (String.eqb (pe_Key e) key) && bool_decide (keys a !! pe_Key e = None)
               | None => false
               end in
  if taken then (a, [])
  else
    let isNew := match pend a !! h with Some e => negb (String.eqb (pe_Key e) key) | None => true end in
    let fresh := bool_decide (pend a !! h = None) in
    let a1 := if fresh && (maxPending <=? Z.of_nat (size (pend a))) then prunePendingLocked now a else a in
    if fresh && (maxPending <=? Z.of_nat (size (pend a1))) then (a1, [])
    else (with_pend a1 (<[h := mkPending key now]> (pend a1)),
          if isNew then [Log (LPendingCode (keyTag key) h key)] else []).

(** *** Replay caches *)

Definition regKey (pubkey nonce : string) : string := pubkey ⊕ nul ⊕ nonce.

(** The entry a scan in the given order finds oldest.  Keys the order leaves
    out come after it, so that every order Go may take is an instance. *)
Fixpoint oldest_from (m : gmap string Z) (order : list string) (best : option (string * Z)) : option (string * Z) :=
  match order with
  | [] => best
  | s :: rest =>
      oldest_from m rest
        (match m !! s, best with
         | None, _ => best
         | Some t, None => Some (s, t)
         | Some t, Some (_, t0) => if t <? t0 then Some (s, t) else best
         end)
  end.

Definition evict_oldest (order : list string) (m : gmap string Z) : gmap string Z :=
  match oldest_from m (order ++ (map_to_list m).*1) None with
  | Some (s, _) => delete s m
  | None => m
  end.

Definition fresh_regs (now : Z) (m : gmap string Z) : gmap string Z :=
  filter (fun kt => now - kt.2 < regReplayWindow) m.

Definition evictOldestRegLocked (order : list string) (a : authorizer) : authorizer :=
  with_regs a (evict_oldest order (recentRegs a)) (preAuthRegs a).

Definition pruneRegsLocked (now : Z) (a : authorizer) : authorizer :=
  with_regs a (fresh_regs now (recentRegs a)) (fresh_regs now (preAuthRegs a)).

Definition seen_within (now : Z) (k : string) (m : gmap string Z) : bool :=
  match m !! k with Some t => now - t <? regReplayWindow | None => false end.

Definition replayed (now : Z) (order : list string) (pubkey nonce : string) (a : authorizer) : bool * authorizer :=
  if String.eqb pubkey "" || String.eqb nonce "" then (false, a)
  else
    let k := regKey pubkey nonce in
    if seen_within now k (recentRegs a) || seen_within now k (preAuthRegs a) then (true, a)
    else
      let a1 := if maxReplayRegs <=? Z.of_nat (size (recentRegs a)) then pruneRegsLocked now a else a in
      let a2 := if maxReplayRegs <=? Z.of_nat (size (recentRegs a1)) then evictOldestRegLocked order a1 else a1 in
      (false, with_regs a2 (<[k := now]> (recentRegs a2)) (preAuthRegs a2)).

Definition recordPreAuth (now : Z) (order : list string) (pubkey nonce : string) (a : authorizer) : authorizer :=
  if String.eqb pubkey "" || String.eqb nonce "" then a
  else
    let k := regKey pubkey nonce in
    if bool_decide (is_Some (preAuthRegs a !! k)) then a
    else
      let full (m : gmap string Z) := maxPreAuthRegs <=? Z.of_nat (size m) in
      let p0 := preAuthRegs a in
      let p1 := if full p0 then fresh_regs now p0 else p0 in
      let p2 := if full p1 then evict_oldest order p1 else p1 in
      with_regs a (recentRegs a) (<[k := now]> p2).

Section Sealed.
Context `{Ed25519} `{Box}.

Definition recordPending (now : Z) (codeEnc key : string) (a : authorizer) : authorizer * list Out :=
  if String.eqb codeEnc "" then (a, [])
  else match OpenCode codeEnc (selfPriv a) with
       | Err _ => (a, [])
       | Ok code => if String.eqb code "" then (a, []) else note_enrollment now (shortHash code) key a
       end.
End Sealed.
