(* ===== verification/AuthzFile.v ===== *)
(** * The allowlist file: reading, approving, revoking

    Theorems about the text half of [Authz]: what the operator's commands do to
    the file, as the server will read it. *)

From S2P Require Import Prelude Base64 Sha256 Json NetAddr Crypto Protocol Ticket HsRegistry Authz.

(** ** Fields and lines *)

(** A character that no white-space rune contains or starts with. *)
Definition solid (c : Ascii.ascii) : bool := is_ascii c && negb (ascii_space c).

Lemma space_width_solid c r : solid c = true -> space_width (String c r) = 0%nat.
Proof.
  unfold solid, is_ascii. intros H. apply andb_true_iff in H as [Ha Hs]. apply Z.ltb_lt in Ha.
  apply negb_true_iff in Hs. unfold space_width. rewrite Hs. destruct r as [| b r]; [done |].
  pose proof (byte_val_range b). replace (byte_val c =? 0xC2) with false by (symmetry; apply Z.eqb_neq; lia). cbn [andb].
  destruct r as [| d r]; [done |]. pose proof (byte_val_range d). cbv zeta.
  repeat match goal with |- context [?x =? ?y] => replace (x =? y) with false by (symmetry; apply Z.eqb_neq; lia) end.
  replace (0xE28080 <=? (byte_val c * 256 + byte_val b) * 256 + byte_val d) with false
    by (symmetry; apply Z.leb_gt; lia). done.
Qed.

Lemma fields_word w : forall cur rest,
  all_chars solid w = true -> fields_go 0 cur (w ⊕ rest) = fields_go 0 (cur ⊕ w) rest.
Proof.
  induction w as [| c w IH]; intros cur rest; cbn [all_chars String.append]; [by rewrite app_empty_r |].
  intros H. apply andb_true_iff in H as [Hc Hw]. cbn [fields_go]. rewrite space_width_solid by done.
  rewrite IH by done. by rewrite app_assoc_s.
Qed.

Lemma space_width_cr s : space_width (s ⊕ String cr "") = match s with "" => 1%nat | _ => space_width s end.
Proof.
  destruct s as [| a [| b [| c s]]]; [reflexivity | | | reflexivity]; cbn [String.append]; unfold space_width.
  - destruct (ascii_space a); [done |]. rewrite andb_false_r. done.
  - destruct (ascii_space a); [done |]. destruct (_ && _); [done |].
    pose proof (byte_val_range a). pose proof (byte_val_range b). cbv zeta. change (byte_val cr) with 13.
    repeat match goal with |- context [?x =? ?y] => replace (x =? y) with false by (symmetry; apply Z.eqb_neq; lia) end.
    cbn [orb]. destruct (0xE28080 <=? _) eqn:E; [| done]. cbn [andb].
    replace (_ <=? 0xE2808A) with false; [done |]. symmetry. apply Z.leb_gt. apply Z.leb_le in E. lia.
Qed.

Lemma fields_go_cr s : forall skip cur, fields_go skip cur (s ⊕ String cr "") = fields_go skip cur s.
Proof.
  induction s as [| c s IH]; intros skip cur.
  - cbn. destruct skip; [| done]. change (space_width (String cr "")) with 1%nat. unfold flush. by destruct (String.eqb cur "").
  - destruct skip as [| k]; [| exact (IH k cur)].
    change (fields_go 0 cur (String c s ⊕ String cr "")) with
      (match space_width (String c s ⊕ String cr "") with
       | O => fields_go 0 (cur ⊕ String c "") (s ⊕ String cr "")
       | S k => flush cur (fields_go k "" (s ⊕ String cr "")) end).
    rewrite space_width_cr. cbn [fields_go]. destruct (space_width (String c s)); by rewrite IH.
Qed.

Lemma dropCR_cases s : dropCR s = s \/ s = dropCR s ⊕ String cr "".
Proof.
  induction s as [| c [| d s] IH]; [by left | |].
  - cbn. destruct (Ascii.eqb_spec c cr) as [-> | ?]; [by right | by left].
  - change (dropCR (String c (String d s))) with (String c (dropCR (String d s))).
    destruct IH as [E | E]; [left; by rewrite E | right]. cbn [String.append]. by rewrite <- E.
Qed.

Lemma Fields_dropCR s : Fields (dropCR s) = Fields s.
Proof.
  destruct (dropCR_cases s) as [-> | H]; [done |]. rewrite H at 2. unfold Fields. by rewrite fields_go_cr.
Qed.

Lemma contains_char_dropCR c s : contains_char c s = false -> contains_char c (dropCR s) = false.
Proof.
  destruct (dropCR_cases s) as [-> | H]; [done |]. rewrite H at 1. rewrite contains_char_app.
  by intros [? _]%orb_false_iff.
Qed.

Lemma slen_dropCR s : (slen (dropCR s) <= slen s)%nat.
Proof. destruct (dropCR_cases s) as [-> | H]; [done |]. rewrite H at 2. rewrite slen_app. lia. Qed.

Lemma split_on_pieces sep s : Forall (fun x => contains_char sep x = false) (split_on sep s).
Proof.
  induction s as [| c s IH]; cbn; [by repeat constructor |]. destruct (Ascii.eqb_spec c sep) as [-> | Hne].
  - by constructor.
  - destruct (split_on sep s) as [| x l]; [by constructor; [cbn; apply orb_false_iff; split; [by apply Ascii.eqb_neq |] |] |].
    inv IH. constructor; [| done]. cbn. apply orb_false_iff. split; [by apply Ascii.eqb_neq | done].
Qed.

Lemma split_on_sep sep s t : split_on sep (s ⊕ String sep t) = split_on sep s ++ split_on sep t.
Proof.
  induction s as [| c s IH]; cbn; [by rewrite Ascii.eqb_refl |]. rewrite IH. destruct (Ascii.eqb c sep); [done |].
  destruct (split_on sep s) as [| x l] eqn:E; [| done]. by destruct s; cbn in E; repeat case_match.
Qed.

Lemma split_join ls :
  ls <> [] -> Forall (fun x => contains_char nl x = false) ls -> split_on nl (join nl_s ls) = ls.
Proof.
  intros Hne H. induction H as [| x l Hx Hl IH]; [done |]. destruct l as [| y l]; [by apply split_on_nosep |].
  change (join nl_s (x :: y :: l)) with (x ⊕ String nl (join nl_s (y :: l))).
  rewrite split_on_sep, split_on_nosep by done. cbn [app]. f_equal. by apply IH.
Qed.

Lemma drop_last_empty_snoc l : drop_last_empty (l ++ [""]) = l.
Proof. induction l as [| x [| y l] IH]; [done | done |]. cbn [app drop_last_empty]. by f_equal. Qed.

Lemma drop_last_empty_sub l : drop_last_empty l ⊆ l.
Proof.
  induction l as [| x [| y l] IH]; [done | |].
  - cbn. destruct (String.eqb x ""); set_solver.
  - change (drop_last_empty (x :: y :: l)) with (x :: drop_last_empty (y :: l)). set_solver.
Qed.

Lemma until_long_ok l ls :
  until_long l = (ls, false) <-> Forall (fun s => too_long s = false) l /\ ls = dropCR <$> l.
Proof.
  revert ls. induction l as [| s l IH]; intros ls; cbn.
  - split; [by intros [= <-] | by intros [_ ->]].
  - destruct (too_long s) eqn:E; [split; [done | intros [[? _]%Forall_cons _]; congruence] |].
    destruct (until_long l) as [ls' e]. split.
    + intros [= <- ->]. destruct (proj1 (IH ls') eq_refl) as [? ->]. by split; [constructor |].
    + intros [[_ Hl]%Forall_cons ->]. by pose proof (proj2 (IH _) (conj Hl eq_refl)) as [= -> ->].
Qed.

Lemma until_long_app l x :
  Forall (fun s => too_long s = false) l -> too_long x = false ->
  until_long (l ++ [x]) = (dropCR <$> l ++ [x], false).
Proof. intros Hl Hx. apply until_long_ok. split; [| done]. apply Forall_app. split; [done | by constructor]. Qed.

(** ** Entries *)

Lemma line_entry_dropCR l : line_entry (dropCR l) = line_entry l.
Proof. unfold line_entry. by rewrite Fields_dropCR. Qed.

Lemma read_lines_dropCR ls m : read_lines (dropCR <$> ls) m = read_lines ls m.
Proof.
  revert m. induction ls as [| l ls IH]; intros m; [done |]. cbn [fmap list_fmap read_lines].
  rewrite line_entry_dropCR. destruct (line_entry l) as [[k lbl] |]; [| apply IH].
  destruct (_ <=? _); [done | apply IH].
Qed.

Lemma read_lines_app ls l m m' :
  read_lines ls m = (m', false) -> read_lines (ls ++ [l]) m = read_lines [l] m'.
Proof.
  revert m. induction ls as [| x ls IH]; intros m; [by intros [= ->] |]. cbn [app read_lines].
  destruct (line_entry x) as [[k lbl] |]; [| apply IH]. destruct (_ <=? _); [done | apply IH].
Qed.

Lemma read_lines_capped ls m m' :
  read_lines ls m = (m', true) -> maxAuthorizedKeys <= Z.of_nat (size m').
Proof.
  revert m. induction ls as [| x ls IH]; intros m; [done |]. cbn [read_lines].
  destruct (line_entry x) as [[k lbl] |]; [| apply IH]. destruct (_ <=? _) eqn:E; [| apply IH].
  intros [= <-]. by apply Z.leb_le.
Qed.

Lemma read_lines_bound ls m :
  Z.of_nat (size m) < maxAuthorizedKeys -> Z.of_nat (size (read_lines ls m).1) <= maxAuthorizedKeys.
Proof.
  revert m. induction ls as [| x ls IH]; intros m Hm; [by apply Z.lt_le_incl |]. cbn [read_lines].
  destruct (line_entry x) as [[k lbl] |]; [| by apply IH].
  destruct (_ <=? _) eqn:E; [| apply Z.leb_gt in E; by apply IH].
  cbn [fst]. rewrite map_size_insert. destruct (m !! k); unfold id; lia.
Qed.

Lemma line_entry_names key l k lbl : line_entry l = Some (k, lbl) -> names_key key l = String.eqb k key.
Proof. unfold line_entry, names_key. repeat case_match; intros [= <- <-]; done. Qed.

(** Dropping the lines of a key drops its entry, and nothing else. *)
Lemma read_lines_without key ls m m' :
  read_lines ls m = (m', false) ->
  read_lines (List.filter (fun l => negb (names_key key l)) ls) (delete key m) = (delete key m', false).
Proof.
  revert m. induction ls as [| l ls IH]; intros m; [by intros [= ->] |]. cbn [read_lines List.filter].
  destruct (line_entry l) as [[k lbl] |] eqn:El.
  - rewrite (line_entry_names key l k lbl El). destruct (_ <=? _) eqn:Ec; [done |]. intros H. apply IH in H.
    destruct (String.eqb_spec k key) as [-> | Hne]; cbn [negb].
    + by rewrite delete_insert_eq in H.
    + cbn [read_lines]. rewrite El, <- delete_insert_ne by done.
      pose proof (map_size_delete_le (<[k := lbl]> m) key). apply Z.leb_gt in Ec.
      destruct (_ <=? _) eqn:Ec'; [apply Z.leb_le in Ec'; lia | done].
  - intros H. apply IH in H. destruct (negb _); [| done]. cbn [read_lines]. by rewrite El.
Qed.

Lemma read_lines_fresh key ls m :
  (forall l, l ∈ ls -> names_key key l = false) -> m !! key = None -> (read_lines ls m).1 !! key = None.
Proof.
  revert m. induction ls as [| l ls IH]; intros m Hl Hm; [done |]. cbn [read_lines].
  destruct (line_entry l) as [[k lbl] |] eqn:El; [| apply IH; set_solver].
  assert (k <> key).
  { intros ->. pose proof (Hl l ltac:(by left)) as Hn. rewrite (line_entry_names _ _ _ _ El), String.eqb_refl in Hn. done. }
  destruct (_ <=? _); [cbn [fst]; by rewrite lookup_insert_ne |]. apply IH; [set_solver | by rewrite lookup_insert_ne].
Qed.

(** What a successful read of an uncapped file says about its lines. *)
Lemma readAuthorized_lines c mt ks :
  readAuthorized (Ok (c, mt)) = Ok (ks, mt) -> Z.of_nat (size ks) < maxAuthorizedKeys ->
  let ps := drop_last_empty (split_on nl c) in
  Forall (fun s => too_long s = false) ps /\ scan_lines c = (dropCR <$> ps, false) /\ read_lines ps ∅ = (ks, false).
Proof.
  intros H Hlt ps. unfold readAuthorized in H. destruct (scan_lines c) as [ls err] eqn:Es.
  destruct (read_lines ls ∅) as [m capped] eqn:Er. destruct capped.
  { cbn in H. simplify_eq. apply read_lines_capped in Er. lia. }
  cbn [negb andb] in H. destruct err; [done |]. simplify_eq.
  apply until_long_ok in Es as [Hl ->]. split_and!; [done | done |]. by rewrite read_lines_dropCR in Er.
Qed.

(** A file made of these lines reads as those lines do. *)
Lemma readAuthorized_of c mt ps ks capped :
  drop_last_empty (split_on nl c) = ps -> Forall (fun s => too_long s = false) ps ->
  read_lines ps ∅ = (ks, capped) -> readAuthorized (Ok (c, mt)) = Ok (ks, mt).
Proof.
  intros Hp Hl Hr. unfold readAuthorized, scan_lines. rewrite Hp, (proj2 (until_long_ok ps _) (conj Hl eq_refl)).
  rewrite read_lines_dropCR, Hr. by rewrite andb_false_r.
Qed.

(** ** Revoking *)

Lemma filter_dropCR key ls :
  List.filter (fun l => negb (names_key key l)) (dropCR <$> ls) =
  dropCR <$> List.filter (fun l => negb (names_key key l)) ls.
Proof.
  induction ls as [| l ls IH]; [done |]. cbn [fmap list_fmap List.filter].
  assert (names_key key (dropCR l) = names_key key l) as -> by (unfold names_key; by rewrite Fields_dropCR).
  destruct (negb _); [apply (f_equal (cons (dropCR l))) |]; exact IH.
Qed.

(** The text [RevokeKey] writes splits back into the lines it kept. *)
Lemma rewritten_lines (ks : list string) m :
  Forall (fun x => contains_char nl x = false) ks ->
  let out := join nl_s ks in
  let ps := drop_last_empty (split_on nl (if String.eqb out "" then "" else out ⊕ nl_s)) in
  read_lines ps m = read_lines ks m /\ ps ⊆ ks.
Proof.
  intros H. cbv zeta. destruct (String.eqb_spec (join nl_s ks) "") as [E | E].
  - split; [| by intros ? ?%not_elem_of_nil]. destruct ks as [| x [| y ks]]; [done | |].
    + cbn in E. subst x. done.
    + exfalso. destruct x; discriminate E.
  - destruct (decide (ks = [])) as [-> | Hne]; [done |].
    change nl_s with (String nl ""). rewrite split_on_sep. change (String nl "") with nl_s.
    rewrite split_join by done. change (split_on nl "") with [""]. by rewrite drop_last_empty_snoc.
Qed.

(** [revoke] takes effect: on an allowlist the server reads in full, it
    either reports that the key is not listed, and it is not, or rewrites the
    file so that the server then reads exactly the same entries without the
    revoked key, whatever comments, blank lines, duplicates, labels or line
    endings the file holds. *)
Theorem revoke_removes_exactly c mt key ks mt' :
  readAuthorized (Ok (c, mt)) = Ok (ks, mt) -> Z.of_nat (size ks) < maxAuthorizedKeys ->
  match RevokeKey true (Ok (c, mt)) key with
  | Ok NotInList => ks !! key = None
  | Ok (Rewritten _ c') => readAuthorized (Ok (c', mt')) = Ok (delete key ks, mt')
  | Err _ => False
  end.
Proof.
  intros Hr Hlt. destruct (readAuthorized_lines _ _ _ Hr Hlt) as (Hlong & Hs & Hrd).
  unfold RevokeKey. cbn [negb]. rewrite Hs. rewrite filter_dropCR.
  set (ps := drop_last_empty (split_on nl c)) in *.
  set (kept := List.filter (fun l => negb (names_key key l)) ps).
  rewrite !length_fmap. destruct (_ =? 0)%nat eqn:E.
  - apply Nat.eqb_eq in E. replace ks with (read_lines ps ∅).1 by (by rewrite Hrd).
    apply read_lines_fresh; [| done]. intros l Hl.
    pose proof (List.filter_length_le (fun l => negb (names_key key l)) ps).
    assert (Hall : forallb (fun l => negb (names_key key l)) ps = true).
    { apply List.filter_length_forallb. fold kept. subst kept. lia. }
    rewrite forallb_forall in Hall. by apply negb_true_iff, Hall, list_elem_of_In.
  - assert (Hnl : Forall (fun x => contains_char nl x = false) (dropCR <$> kept)).
    { apply Forall_fmap. apply Forall_forall. intros x Hx. apply contains_char_dropCR.
      pose proof (split_on_pieces nl c) as Hp. rewrite Forall_forall in Hp. apply Hp.
      apply drop_last_empty_sub. apply list_elem_of_In. apply list_elem_of_In in Hx. by apply List.filter_In in Hx as [? _]. }
    destruct (rewritten_lines (dropCR <$> kept) ∅ Hnl) as [Hrl Hsub].
    eapply readAuthorized_of; [reflexivity | |].
    + apply Forall_forall. intros x Hx. apply Hsub, list_elem_of_fmap in Hx as (y & -> & Hy).
      apply list_elem_of_In, List.filter_In in Hy as [Hy _]. apply list_elem_of_In in Hy.
      rewrite Forall_forall in Hlong. specialize (Hlong y Hy). unfold too_long in *.
      pose proof (slen_dropCR y). apply Z.leb_gt in Hlong. apply Z.leb_gt. lia.
    + rewrite Hrl, read_lines_dropCR. rewrite <- (delete_empty key). by apply read_lines_without.
Qed.

(** ** Approving *)

Lemma solid_char n : 0 <= n < 64 -> solid (b64_char encodeStd n) = true.
Proof.
  intros Hn. assert (forallb (fun k => solid (b64_char encodeStd k)) sextets = true) as H by reflexivity.
  rewrite forallb_forall in H. by apply H, sextets_complete.
Qed.

Lemma Std_encode_solid s : all_chars solid (Std.EncodeToString s) = true.
Proof.
  unfold Std.EncodeToString. induction s as [| a | a b | a b c s IH] using string_ind3; [done | | |];
    cbn [encode String.append all_chars pad1 pad2]; rewrite !solid_char by apply sextet_range; try done.
Qed.

Lemma Std_encode_head s : slen s <> 0%nat -> exists n r, 0 <= n < 64 /\ Std.EncodeToString s = String (b64_char encodeStd n) r.
Proof.
  unfold Std.EncodeToString. destruct s as [| a [| b [| c s]]]; [done | | |]; intros _; cbn [encode String.append];
    eexists _, _; (split; [apply sextet_range | reflexivity]).
Qed.

Lemma not_hash n r : 0 <= n < 64 -> has_prefix "#" (String (b64_char encodeStd n) r) = false.
Proof.
  intros Hn. assert (forallb (fun k => negb (Ascii.eqb "#" (b64_char encodeStd k))) sextets = true) as H by reflexivity.
  rewrite forallb_forall in H. specialize (H n (sextets_complete n Hn)). apply negb_true_iff in H.
  cbn [has_prefix]. by rewrite H.
Qed.

Definition entry_line (key label : string) : string := key ⊕ (if String.eqb label "" then "" else " " ⊕ label).

Lemma entry_line_read pub label :
  slen pub = PublicKeySize ->
  line_entry (entry_line (PubKeyB64 pub) label) = Some (PubKeyB64 pub, join " " (Fields label)).
Proof.
  intros Hp. assert (Hf : Fields (entry_line (PubKeyB64 pub) label) = PubKeyB64 pub :: Fields label).
  { unfold Fields, entry_line. rewrite fields_word by apply Std_encode_solid. cbn [String.append].
    destruct (Std_encode_head pub ltac:(by rewrite Hp)) as (n & r & Hn & Hk). unfold PubKeyB64. rewrite Hk.
    destruct (String.eqb_spec label "") as [-> | Hne]; [done |]. done. }
  unfold line_entry. rewrite Hf. destruct (Std_encode_head pub ltac:(by rewrite Hp)) as (n & r & Hn & Hk).
  unfold PubKeyB64 at 1. rewrite Hk, not_hash by done.
  unfold validPubKey, PubKeyB64. by rewrite Std_decode_encode, Hp.
Qed.

(** A file that is absent, empty, or ends in a newline. *)
Definition terminated (f : FileView) : Prop :=
  f = Err NotExist \/ exists mt, f = Ok ("", mt) \/ exists c, f = Ok (c ⊕ nl_s, mt).

(** The entries a view gives the server: none when the file is absent. *)
Definition entries (f : FileView) : option (gmap string string) :=
  match readAuthorized f with
  | Ok (ks, _) => Some ks
  | Err NotExist => Some ∅
  | Err _ => None
  end.

Lemma appended_lines f ks :
  terminated f -> entries f = Some ks -> Z.of_nat (size ks) < maxAuthorizedKeys ->
  exists ps, Forall (fun s => too_long s = false) ps /\ read_lines ps ∅ = (ks, false) /\
    forall line, contains_char nl line = false ->
      drop_last_empty (split_on nl (file_contents f ⊕ line ⊕ nl_s)) = ps ++ [line].
Proof.
  assert (Hline : forall line, contains_char nl line = false -> split_on nl (line ⊕ nl_s) = [line; ""]).
  { intros line Hl. change nl_s with (String nl ""). by rewrite split_on_app. }
  unfold entries. intros Ht He Hlt. destruct (readAuthorized f) as [[ks' mt'] | e] eqn:Er; simplify_eq.
  - destruct Ht as [-> | (mt & [-> | [c ->]])]; [done | |].
    + assert (mt' = mt) as -> by (unfold readAuthorized in Er; repeat case_match; simplify_eq; done).
      destruct (readAuthorized_lines _ _ _ Er Hlt) as (? & _ & ?). exists []. split_and!; [done | done |].
      intros line Hl. cbn [file_contents String.append]. by rewrite Hline.
    + assert (mt' = mt) as -> by (unfold readAuthorized in Er; repeat case_match; simplify_eq; done).
      destruct (readAuthorized_lines _ _ _ Er Hlt) as (Hl & _ & Hr).
      assert (E : drop_last_empty (split_on nl (c ⊕ nl_s)) = split_on nl c).
      { change nl_s with (String nl ""). rewrite split_on_sep. change (split_on nl "") with [""]. apply drop_last_empty_snoc. }
      rewrite E in Hl, Hr. exists (split_on nl c). split_and!; [done | done |]. intros line Hnl. cbn [file_contents].
      rewrite app_assoc_s. change (nl_s ⊕ line ⊕ nl_s) with (String nl (line ⊕ nl_s)).
      rewrite split_on_sep, Hline by done. change [line; ""] with ([line] ++ [""]). by rewrite app_assoc, drop_last_empty_snoc.
  - destruct e; simplify_eq. destruct Ht as [-> | (mt & [-> | [c ->]])].
    + exists []. split_and!; [done | done |]. intros line Hl. cbn [file_contents String.append]. by rewrite Hline.
    + unfold readAuthorized in Er; repeat case_match; simplify_eq.
    + unfold readAuthorized in Er; repeat case_match; simplify_eq.
Qed.

(** [approve] takes effect: on a file that is absent, empty or ends in a
    newline, and holds fewer entries than the server reads, it either reports
    that the key is approved already, and it is, or appends a line after which
    the server reads the same entries and the new key with its label. *)
Theorem approve_adds_exactly f pub label ks mt' :
  terminated f -> entries f = Some ks -> Z.of_nat (size ks) < maxAuthorizedKeys ->
  slen pub = PublicKeySize -> contains_char nl label = false ->
  too_long (entry_line (PubKeyB64 pub) label) = false ->
  match ApproveKey true f (PubKeyB64 pub) label with
  | Ok AlreadyApproved => is_Some (ks !! PubKeyB64 pub)
  | Ok (Appended c') =>
      ks !! PubKeyB64 pub = None /\
      readAuthorized (Ok (c', mt')) = Ok (<[PubKeyB64 pub := join " " (Fields label)]> ks, mt')
  | Err _ => False
  end.
Proof.
  intros Ht He Hlt Hp Hlab Hlong.
  destruct (appended_lines f ks Ht He Hlt) as (ps & Hps & Hrd & Hsplit).
  assert (Hnl : contains_char nl (entry_line (PubKeyB64 pub) label) = false).
  { unfold entry_line. rewrite contains_char_app. apply orb_false_iff. split.
    - eapply contains_char_all; [apply Std_encode_solid | reflexivity].
    - destruct (String.eqb label ""); [done |]. by rewrite contains_char_app. }
  assert (Happ : ks !! PubKeyB64 pub = None ->
    readAuthorized (Ok (file_contents f ⊕ PubKeyB64 pub ⊕ (if String.eqb label "" then "" else " " ⊕ label) ⊕ nl_s, mt'))
    = Ok (<[PubKeyB64 pub := join " " (Fields label)]> ks, mt')).
  { intros Hn. replace (PubKeyB64 pub ⊕ (if String.eqb label "" then "" else " " ⊕ label) ⊕ nl_s)
      with (entry_line (PubKeyB64 pub) label ⊕ nl_s) by (unfold entry_line; by rewrite app_assoc_s).
    set (more := maxAuthorizedKeys <=? Z.of_nat (size (<[PubKeyB64 pub := join " " (Fields label)]> ks))).
    eapply (readAuthorized_of _ _ (ps ++ [entry_line (PubKeyB64 pub) label]) _ more).
    - by apply Hsplit.
    - apply Forall_app. split; [done | by constructor].
    - rewrite (read_lines_app _ _ _ _ Hrd). cbn [read_lines]. rewrite entry_line_read by done. cbv zeta. fold more.
      by destruct more. }
  unfold ApproveKey. assert (validPubKey (PubKeyB64 pub) = true) as ->.
  { unfold validPubKey, PubKeyB64. by rewrite Std_decode_encode, Hp. }
  cbn [negb]. unfold entries in He. destruct (readAuthorized f) as [[ks' mt] | [| |]]; simplify_eq.
  - case_bool_decide as Hb; [done |]. apply eq_None_not_Some in Hb. eauto.
  - split; [done | by apply Happ].
Qed.

Module FileDemo.
Definition pubA : string := "0123456789abcdef0123456789ABCDEF".
Definition pubB : string := "fedcba9876543210fedcba9876543210".
Definition listed : string := "# buddies" ⊕ nl_s ⊕ PubKeyB64 pubA ⊕ " nas  at home" ⊕ nl_s.

Lemma revoke_removes_exactly_witness :
  exists n c', RevokeKey true (Ok (listed, 1)) (PubKeyB64 pubA) = Ok (Rewritten n c') /\
    readAuthorized (Ok (c', 2)) = Ok (delete (PubKeyB64 pubA) {[PubKeyB64 pubA := "nas at home"]}, 2).
Proof.
  pose proof (revoke_removes_exactly listed 1 (PubKeyB64 pubA) {[PubKeyB64 pubA := "nas at home"]} 2) as H.
  assert (Hr : readAuthorized (Ok (listed, 1)) = Ok ({[PubKeyB64 pubA := "nas at home"]}, 1)) by (vm_compute; reflexivity).
  specialize (H Hr ltac:(vm_compute; reflexivity)).
  destruct (RevokeKey true (Ok (listed, 1)) (PubKeyB64 pubA)) as [[| n c'] | e] eqn:E.
  - exfalso. vm_compute in E. discriminate E.
  - exists n, c'. split; [reflexivity | exact H].
  - destruct H.
Defined.

Lemma approve_adds_exactly_witness :
  exists c', ApproveKey true (Ok (listed, 1)) (PubKeyB64 pubB) "pi" = Ok (Appended c') /\
    readAuthorized (Ok (c', 2)) =
    Ok (<[PubKeyB64 pubB := "pi"]> {[PubKeyB64 pubA := "nas at home"]}, 2).
Proof.
  pose proof (approve_adds_exactly (Ok (listed, 1)) pubB "pi" {[PubKeyB64 pubA := "nas at home"]} 2) as H.
  assert (Ht : terminated (Ok (listed, 1))).
  { right. exists 1. right. exists ("# buddies" ⊕ nl_s ⊕ PubKeyB64 pubA ⊕ " nas  at home"). vm_compute. reflexivity. }
  assert (He : entries (Ok (listed, 1)) = Some {[PubKeyB64 pubA := "nas at home"]}) by (vm_compute; reflexivity).
  specialize (H Ht He ltac:(vm_compute; reflexivity) eq_refl eq_refl ltac:(vm_compute; reflexivity)).
  destruct (ApproveKey true (Ok (listed, 1)) (PubKeyB64 pubB) "pi") as [[| c'] | e] eqn:E.
  - exfalso. vm_compute in E. discriminate E.
  - exists c'. split; [reflexivity | exact (proj2 H)].
  - destruct H.
Defined.

(** [approve] does not check that the file ends in a newline before it
    appends: on a list whose last line lacks one (an editor that leaves it
    out), the new entry is glued onto that line.  Here approving a second key
    reports success and leaves an allowlist the server reads as empty: the new
    key is not approved and the old one no longer is. *)
Theorem approve_glues_unterminated_line :
  exists c', readAuthorized (Ok (PubKeyB64 pubA, 1)) = Ok ({[PubKeyB64 pubA := ""]}, 1) /\
    ApproveKey true (Ok (PubKeyB64 pubA, 1)) (PubKeyB64 pubB) "" = Ok (Appended c') /\
    readAuthorized (Ok (c', 2)) = Ok (∅, 2).
Proof. exists (PubKeyB64 pubA ⊕ PubKeyB64 pubB ⊕ nl_s). split_and!; vm_compute; reflexivity. Qed.
End FileDemo.
