(* ===== verification/AuthzProps.v ===== *)
(** * The running allowlist: bounds, replay protection, fail-closed reload *)

From S2P Require Import Prelude Base64 Sha256 Json NetAddr Crypto Protocol Ticket HsRegistry Authz AuthzFile.
From S2P Require RateLimit.

(** ** Insertion into a replay cache

    Both caches grow the same way: a full cache is pruned of what has expired
    and, if it is still full, loses its oldest entry. *)

Definition cache_insert (cap now : Z) (order : list string) (k : string) (m : gmap string Z) : gmap string Z :=
  let full (m : gmap string Z) := cap <=? Z.of_nat (size m) in
  let m1 := if full m then fresh_regs now m else m in
  let m2 := if full m1 then evict_oldest order m1 else m1 in
  <[k := now]> m2.

Lemma replayed_cases now order pk nonce a :
  let k := regKey pk nonce in
  replayed now order pk nonce a = (false, a) /\ (pk = "" \/ nonce = "") \/
  replayed now order pk nonce a = (true, a) /\
    (seen_within now k (recentRegs a) = true \/ seen_within now k (preAuthRegs a) = true) \/
  seen_within now k (recentRegs a) = false /\ seen_within now k (preAuthRegs a) = false /\
  exists pre, (pre = preAuthRegs a \/ pre = fresh_regs now (preAuthRegs a)) /\
    replayed now order pk nonce a =
      (false, with_regs a (cache_insert maxReplayRegs now order k (recentRegs a)) pre).
Proof.
  intros k. unfold replayed. destruct (String.eqb_spec pk "") as [-> | Hp]; [by left; auto |].
  destruct (String.eqb_spec nonce "") as [-> | Hn]; [by left; auto |]. cbn [orb]. fold k.
  destruct (seen_within now k (recentRegs a)) eqn:E1; [by right; left; auto |].
  destruct (seen_within now k (preAuthRegs a)) eqn:E2; [by right; left; auto |]. cbn [orb]. right. right.
  split; [done |]. split; [done |]. unfold cache_insert, pruneRegsLocked, evictOldestRegLocked. cbv zeta.
  destruct (maxReplayRegs <=? Z.of_nat (size (recentRegs a))) eqn:Ef.
  - cbn [with_regs recentRegs preAuthRegs].
    exists (fresh_regs now (preAuthRegs a)). split; [by right |].
    by destruct (maxReplayRegs <=? Z.of_nat (size (fresh_regs now (recentRegs a)))).
  - exists (preAuthRegs a). split; [by left |]. by rewrite Ef.
Qed.

Lemma recordPreAuth_cases now order pk nonce a :
  let k := regKey pk nonce in
  recordPreAuth now order pk nonce a = a /\ (pk = "" \/ nonce = "" \/ is_Some (preAuthRegs a !! k)) \/
  preAuthRegs a !! k = None /\
  recordPreAuth now order pk nonce a =
    with_regs a (recentRegs a) (cache_insert maxPreAuthRegs now order k (preAuthRegs a)).
Proof.
  intros k. unfold recordPreAuth. destruct (String.eqb_spec pk "") as [-> | Hp]; [by left; auto |].
  destruct (String.eqb_spec nonce "") as [-> | Hn]; [by left; auto |]. cbn [orb]. fold k.
  case_bool_decide as E; [by left; auto |]. right. apply eq_None_not_Some in E. by split.
Qed.

Lemma oldest_from_spec m order best s t :
  oldest_from m order best = Some (s, t) ->
  (best = Some (s, t) \/ m !! s = Some t) /\
  (forall s' t', best = Some (s', t') -> t <= t') /\
  (forall s' t', s' ∈ order -> m !! s' = Some t' -> t <= t').
Proof.
  revert best. induction order as [| x rest IH]; intros best; cbn [oldest_from].
  - intros ->. split_and!; [by left | intros ? ? [= <- <-]; done | by intros ? ? ?%not_elem_of_nil].
  - intros H. destruct (IH _ H) as (Hb & Hmin & Hrest).
    destruct (m !! x) as [tx |] eqn:Ex; [destruct best as [[s0 t0] |]; [destruct (tx <? t0) eqn:El |] |].
    + apply Z.ltb_lt in El. pose proof (Hmin _ _ eq_refl). split_and!.
      * right. destruct Hb as [[= <- <-] | Hb]; done.
      * intros ? ? [= <- <-]. lia.
      * intros s' t' [-> | Hin]%elem_of_cons Hs'; [by simplify_eq | by eapply Hrest].
    + apply Z.ltb_ge in El. pose proof (Hmin _ _ eq_refl). split_and!; [done | done |].
      intros s' t' [-> | Hin]%elem_of_cons Hs'; [simplify_eq; lia | by eapply Hrest].
    + pose proof (Hmin _ _ eq_refl). split_and!; [right; destruct Hb as [[= <- <-] | Hb]; done | done |].
      intros s' t' [-> | Hin]%elem_of_cons Hs'; [by simplify_eq | by eapply Hrest].
    + split_and!; [done | done |]. intros s' t' [-> | Hin]%elem_of_cons Hs'; [congruence | by eapply Hrest].
Qed.

Lemma oldest_from_none m order best :
  oldest_from m order best = None -> best = None /\ forall s, s ∈ order -> m !! s = None.
Proof.
  revert best. induction order as [| x rest IH]; intros best; cbn [oldest_from].
  - intros ->. split; [done | by intros ? ?%not_elem_of_nil].
  - intros H. destruct (IH _ H) as [Hb Hr]. destruct (m !! x) eqn:Ex.
    + by destruct best as [[? ?] |]; [destruct (_ <? _) |].
    + split; [done |]. intros s [-> | ?]%elem_of_cons; auto.
Qed.

(** An eviction removes exactly one entry, and none is older than it. *)
Lemma evict_oldest_spec order m :
  m <> ∅ -> exists s t, m !! s = Some t /\ evict_oldest order m = delete s m /\
                        forall s' t', m !! s' = Some t' -> t <= t'.
Proof.
  intros Hne. unfold evict_oldest.
  assert (Hall : forall s t, m !! s = Some t -> s ∈ order ++ (map_to_list m).*1).
  { intros s t Hs. apply elem_of_app. right. apply list_elem_of_fmap. exists (s, t). split; [done |].
    by apply elem_of_map_to_list. }
  destruct (oldest_from m _ None) as [[s t] |] eqn:E.
  - apply oldest_from_spec in E as ([? | Hs] & _ & Hmin); [done |]. exists s, t. split_and!; [done | done |].
    intros s' t' Hs'. eapply Hmin; eauto.
  - apply oldest_from_none in E as [_ Hn]. destruct (map_choose m Hne) as (s & t & Hs).
    rewrite (Hn s (Hall _ _ Hs)) in Hs. done.
Qed.

(** [younger t m]: the entries no older than [t]. *)
Definition younger (t : Z) (m : gmap string Z) : Z := Z.of_nat (size (filter (fun kt => t <= kt.2) m)).

Lemma younger_subset t (m m' : gmap string Z) : m' ⊆ m -> younger t m' <= younger t m.
Proof.
  intros H. unfold younger. apply inj_le, map_subseteq_size. apply map_subseteq_spec. intros s x Hs.
  apply map_lookup_filter_Some in Hs as [Hs Ht]. apply map_lookup_filter_Some. split; [by eapply lookup_weaken | done].
Qed.

Lemma younger_insert t k v (m : gmap string Z) : younger t (<[k := v]> m) <= younger t m + 1.
Proof.
  unfold younger. destruct (decide (t <= v)) as [Hv | Hv].
  - rewrite map_filter_insert_True by done. rewrite map_size_insert. destruct (_ !! k); unfold id; lia.
  - rewrite map_filter_insert_False by done.
    pose proof (younger_subset t m (delete k m) (delete_subseteq _ _)) as H. unfold younger in H. lia.
Qed.

(** The map an insertion starts from is a part of the old one. *)
Lemma cache_insert_spec cap now order k m :
  0 < cap -> exists m2, m2 ⊆ m /\ cache_insert cap now order k m = <[k := now]> m2 /\
    (Z.of_nat (size m) <= cap -> Z.of_nat (size m2) < cap) /\
    forall s t, m !! s = Some t -> now - t < regReplayWindow -> younger t m < cap -> m2 !! s = Some t.
Proof.
  intros Hcap. unfold cache_insert. destruct (cap <=? Z.of_nat (size m)) eqn:E1.
  2: { exists m. rewrite E1. apply Z.leb_gt in E1. split_and!; [done | done | lia | done]. }
  assert (Hf : fresh_regs now m ⊆ m) by apply map_filter_subseteq.
  assert (Hk : forall s t, m !! s = Some t -> now - t < regReplayWindow -> fresh_regs now m !! s = Some t).
  { intros s t Hs Ht. by apply map_lookup_filter_Some. }
  destruct (cap <=? Z.of_nat (size (fresh_regs now m))) eqn:E2.
  - apply Z.leb_le in E2. destruct (evict_oldest_spec order (fresh_regs now m)) as (v & tv & Hv & -> & Hmin).
    { intros He. rewrite He, map_size_empty in E2. cbn in E2. lia. }
    exists (delete v (fresh_regs now m)). split_and!.
    + etransitivity; [apply delete_subseteq | done].
    + done.
    + intros Hs. rewrite map_size_delete_Some by eauto. pose proof (map_subseteq_size _ _ Hf). lia.
    + intros s t Hs Ht Hy. pose proof (Hk _ _ Hs Ht) as Hs'. rewrite lookup_delete_ne; [done |]. intros ->.
      assert (tv = t) as -> by congruence.
      assert (younger t (fresh_regs now m) = Z.of_nat (size (fresh_regs now m))) as Hall.
      { unfold younger. f_equal. f_equal. apply map_filter_id. intros s' t' Hst. by eapply Hmin. }
      pose proof (younger_subset t _ _ Hf). lia.
  - apply Z.leb_gt in E2. exists (fresh_regs now m). split_and!; [done | done | lia |]. intros; eauto.
Qed.

Lemma cache_insert_size cap now order k m :
  0 < cap -> Z.of_nat (size m) <= cap -> Z.of_nat (size (cache_insert cap now order k m)) <= cap.
Proof.
  intros Hc Hs. destruct (cache_insert_spec cap now order k m Hc) as (m2 & _ & -> & Hlt & _).
  specialize (Hlt Hs). rewrite map_size_insert. destruct (m2 !! k); unfold id; lia.
Qed.

Lemma cache_insert_younger cap now order k m t :
  0 < cap -> younger t (cache_insert cap now order k m) <= younger t m + 1.
Proof.
  intros Hc. destruct (cache_insert_spec cap now order k m Hc) as (m2 & Hs & -> & _ & _).
  pose proof (younger_insert t k now m2). pose proof (younger_subset t m m2 Hs). lia.
Qed.

(** ** Interleavings

    Each operation takes the authorizer's lock, so a run of the server is a
    sequence of these. *)

Inductive auth_op :=
| AReplayed (now : Z) (order : list string) (pubkey nonce : string)
| APreAuth (now : Z) (order : list string) (pubkey nonce : string)
| AEnroll (now : Z) (src : string)
| APending (now : Z) (codeHash key : string)
| ALogPending (now : Z) (pubkey tokenHash : string)
| APoll (now : Z) (stat : result FileErr Z) (f : FileView).

Definition auth_step (op : auth_op) (a : authorizer) : authorizer :=
  match op with
  | AReplayed now order pk nonce => (replayed now order pk nonce a).2
  | APreAuth now order pk nonce => recordPreAuth now order pk nonce a
  | AEnroll now src => (allowEnroll now src a).2
  | APending now h key => (note_enrollment now h key a).1
  | ALogPending now pk tok => (logPending now pk tok a).1
  | APoll now stat f => (pollOnce now stat f a).1
  end.

Definition auth_run (ops : list auth_op) (a : authorizer) : authorizer := fold_left (fun a op => auth_step op a) ops a.

Record auth_inv (a : authorizer) : Prop := {
  ai_keys : Z.of_nat (size (keys a)) <= maxAuthorizedKeys;
  ai_approved : Z.of_nat (size (approvedAt a)) <= maxAuthorizedKeys;
  ai_logged : Z.of_nat (size (logged a)) <= maxLoggedKeys;
  ai_pend : Z.of_nat (size (pend a)) <= maxPending;
  ai_recent : Z.of_nat (size (recentRegs a)) <= maxReplayRegs;
  ai_preauth : Z.of_nat (size (preAuthRegs a)) <= maxPreAuthRegs;
  ai_enroll : Z.of_nat (size (RateLimit.perSrc (enroll a))) <= rlEnrollMaxSources /\
              RateLimit.maxSources (enroll a) = rlEnrollMaxSources;
}.

Lemma readAuthorized_bound f ks mt : readAuthorized f = Ok (ks, mt) -> Z.of_nat (size ks) <= maxAuthorizedKeys.
Proof.
  unfold readAuthorized. destruct f as [[c m] | e]; [| done]. destruct (scan_lines c) as [ls err].
  destruct (read_lines ls ∅) as [ks' capped] eqn:E. destruct (negb capped && err); [done |]. intros [= <- <-].
  pose proof (read_lines_bound ls ∅) as H. rewrite E in H. by apply H.
Qed.

Lemma approval_moments_size initial now known ks : size (approval_moments initial now known ks) = size ks.
Proof.
  rewrite <- !size_dom. f_equal. apply set_eq. intros k. rewrite !elem_of_dom. unfold approval_moments.
  rewrite map_lookup_imap. unfold is_Some. destruct (ks !! k); cbn; split; intros [? ?]; eauto; done.
Qed.

Lemma with_allowlist_inv a ks ap mt miss :
  auth_inv a -> Z.of_nat (size ks) <= maxAuthorizedKeys -> Z.of_nat (size ap) <= maxAuthorizedKeys ->
  auth_inv (with_allowlist a ks ap mt miss).
Proof. intros [] Hk Ha. by split. Qed.

Lemma load_inv initial now f a a' : auth_inv a -> load initial now f a = Ok a' -> auth_inv a'.
Proof.
  unfold load. intros Ha. destruct (readAuthorized f) as [[ks mt] | e] eqn:E.
  - intros [= <-]. apply readAuthorized_bound in E. apply with_allowlist_inv; [done | done |].
    by rewrite approval_moments_size.
  - destruct e; try done. intros [= <-]. by apply with_allowlist_inv.
Qed.

Lemma pollOnce_inv now stat f a : auth_inv a -> auth_inv (pollOnce now stat f a).1.
Proof.
  intros Ha. unfold pollOnce. destruct stat as [mt | [| |]].
  - assert (H1 : auth_inv (with_allowlist a (keys a) (approvedAt a) (mtime a) false))
      by (apply with_allowlist_inv; apply Ha).
    destruct (negb (negb _)); [done |]. destruct (reload _ _ _) eqn:E; [| done]. by eapply load_inv.
  - unfold noteMissing. apply with_allowlist_inv; [done | done | apply Ha].
  - unfold noteStatError. destruct (_ <? _); [done |]. by destruct Ha.
  - unfold noteStatError. destruct (_ <? _); [done |]. by destruct Ha.
Qed.

Lemma logPending_inv now pk tok a : auth_inv a -> auth_inv (logPending now pk tok a).1.
Proof.
  intros Ha. unfold logPending. destruct (recently_logged now pk a); [done |].
  set (a1 := if maxLoggedKeys <=? Z.of_nat (size (logged a)) then pruneLoggedLocked now a else a).
  assert (H1 : auth_inv a1).
  { subst a1. destruct (_ <=? _); [| done]. destruct Ha. split; try done. cbn [pruneLoggedLocked with_logged logged].
    pose proof (map_size_filter_le (fun kt => now - kt.2 < logDedupWindow) (logged a)). lia. }
  destruct (_ <=? Z.of_nat (size (logged a1))) eqn:E; [done |]. apply Z.leb_gt in E.
  destruct H1. split; try done. cbn [fst with_logged logged]. rewrite map_size_insert.
  destruct (_ !! pk); unfold id; lia.
Qed.

Lemma note_enrollment_inv now h key a : auth_inv a -> auth_inv (note_enrollment now h key a).1.
Proof.
  intros Ha. unfold note_enrollment. cbv zeta. destruct (match pend a !! h with Some _ => _ | None => _ end); [done |].
  set (fresh := bool_decide (pend a !! h = None)).
  set (a1 := if fresh && (maxPending <=? Z.of_nat (size (pend a))) then prunePendingLocked now a else a).
  assert (H1 : auth_inv a1).
  { subst a1. destruct (fresh && _); [| done]. destruct Ha. split; try done. cbn [prunePendingLocked with_pend pend].
    pose proof (map_size_filter_le (fun ke => now - pe_Seen ke.2 <= pendingTTL) (pend a)). lia. }
  destruct (fresh && (maxPending <=? Z.of_nat (size (pend a1)))) eqn:E; [done |].
  destruct H1. split; try done. cbn [fst with_pend pend]. rewrite map_size_insert.
  destruct (pend a1 !! h) eqn:Eh; unfold id; [done |].
  destruct fresh eqn:Ef; [apply Z.leb_gt in E; lia |].
  subst a1. cbn [andb] in Eh. subst fresh. rewrite bool_decide_eq_false in Ef. done.
Qed.

Lemma auth_step_inv op a : auth_inv a -> auth_inv (auth_step op a).
Proof.
  intros Ha. destruct op as [now order pk nonce | now order pk nonce | now src | now h key | now pk tok | now stat f];
    cbn [auth_step].
  - destruct (replayed_cases now order pk nonce a) as [[-> _] | [[-> _] | (_ & _ & pre & Hpre & ->)]]; try done.
    destruct Ha. split; try done; cbn [snd with_regs recentRegs preAuthRegs].
    + by apply cache_insert_size.
    + destruct Hpre as [-> | ->]; [done |].
      pose proof (map_size_filter_le (fun kt => now - kt.2 < regReplayWindow) (preAuthRegs a)).
      unfold fresh_regs. lia.
  - destruct (recordPreAuth_cases now order pk nonce a) as [[-> _] | [_ ->]]; [done |].
    destruct Ha. split; try done. cbn [with_regs preAuthRegs]. by apply cache_insert_size.
  - unfold allowEnroll. destruct (RateLimit.Allow now src (enroll a)) as [ok l] eqn:E. destruct Ha. split; try done.
    cbn [snd with_enroll enroll]. destruct ai_enroll0 as [H1 H2].
    pose proof (RateLimit.Allow_params _ _ _ _ _ E) as Hp. pose proof (RateLimit.Allow_bounded _ _ _ _ _ E) as Hb.
    destruct Hp as (_ & _ & _ & _ & Hp). rewrite Hp, H2 in Hb.
    split; [| congruence]. unfold rlEnrollMaxSources in *. lia.
  - by apply note_enrollment_inv.
  - by apply logPending_inv.
  - by apply pollOnce_inv.
Qed.

Lemma auth_run_inv ops a : auth_inv a -> auth_inv (auth_run ops a).
Proof. revert a. induction ops as [| op ops IH]; intros a Ha; [done |]. by apply IH, auth_step_inv. Qed.

Lemma newAuthorizer_inv priv now f a : newAuthorizer priv now f = Ok a -> auth_inv a.
Proof. apply load_inv. by split. Qed.

(** The approval-mode tables are bounded whatever clients and operator do:
    at most 1024 approved keys, 1024 remembered log lines, 1024 pending
    enrollments, 4096 entries in each replay cache, and 1024 enrollment
    sources. *)
Theorem authorizer_bounded priv now f a ops :
  newAuthorizer priv now f = Ok a ->
  let a' := auth_run ops a in
  Z.of_nat (size (keys a')) <= maxAuthorizedKeys /\ Z.of_nat (size (approvedAt a')) <= maxAuthorizedKeys /\
  Z.of_nat (size (logged a')) <= maxLoggedKeys /\ Z.of_nat (size (pend a')) <= maxPending /\
  Z.of_nat (size (recentRegs a')) <= maxReplayRegs /\ Z.of_nat (size (preAuthRegs a')) <= maxPreAuthRegs /\
  Z.of_nat (size (RateLimit.perSrc (enroll a'))) <= rlEnrollMaxSources.
Proof.
  intros H a'. apply newAuthorizer_inv in H. destruct (auth_run_inv ops a H) as [? ? ? ? ? ? [? ?]].
  by split_and!.
Qed.

(** ** Replays *)

(** An operation whose clock reads between the two instants. *)
Definition op_time (op : auth_op) : option Z :=
  match op with
  | AReplayed now _ _ _ | APreAuth now _ _ _ => Some now
  | _ => None
  end.
Definition timed (lo hi : Z) (op : auth_op) : Prop :=
  match op_time op with Some t => lo <= t <= hi | None => True end.

Definition is_replayed (op : auth_op) : bool := match op with AReplayed _ _ _ _ => true | _ => false end.
Definition is_preauth (op : auth_op) : bool := match op with APreAuth _ _ _ _ => true | _ => false end.

Lemma seen_within_hit now k t (m : gmap string Z) :
  m !! k = Some t -> now - t < regReplayWindow -> seen_within now k m = true.
Proof. intros H Ht. unfold seen_within. rewrite H. by apply Z.ltb_lt. Qed.

(** Only a registration of an approved key changes [recentRegs]. *)
Lemma auth_step_recent op a : is_replayed op = false -> recentRegs (auth_step op a) = recentRegs a.
Proof.
  destruct op as [now order pk nonce | now order pk nonce | now src | now h key | now pk tok | now stat f]; [done | intros _..];
    cbn [auth_step].
  - by destruct (recordPreAuth_cases now order pk nonce a) as [[-> _] | [_ ->]].
  - unfold allowEnroll. by destruct (RateLimit.Allow _ _ _).
  - unfold note_enrollment. by repeat case_match.
  - unfold logPending. by repeat case_match.
  - unfold pollOnce, reload, load, noteMissing, noteStatError. repeat case_match; simplify_eq; done.
Qed.

Lemma remembered_recent pk nonce t0 t1 ops a :
  t1 - t0 < regReplayWindow -> recentRegs a !! regKey pk nonce = Some t0 -> Forall (timed t0 t1) ops ->
  younger t0 (recentRegs a) + Z.of_nat (count_if is_replayed ops) < maxReplayRegs ->
  recentRegs (auth_run ops a) !! regKey pk nonce = Some t0.
Proof.
  intros Hw. revert a. induction ops as [| op ops IH]; intros a Hk Ht Hy; [done |].
  apply Forall_cons in Ht as [Ht Hts]. cbn [auth_run fold_left]. cbn [count_if] in Hy.
  destruct (is_replayed op) eqn:Eop.
  2: { apply IH; rewrite ?auth_step_recent by done; try done; lia. }
  destruct op as [now order pk' nonce' | | | | |]; try done. cbn in Ht. cbn [auth_step].
  destruct (replayed_cases now order pk' nonce' a) as [[-> _] | [[-> _] | (Hs & _ & pre & _ & ->)]].
  - apply IH; [done | done | cbn [snd]; lia].
  - apply IH; [done | done | cbn [snd]; lia].
  - cbn [snd]. destruct (cache_insert_spec maxReplayRegs now order (regKey pk' nonce') (recentRegs a)) as (m2 & Hsub & Em & _ & Hkeep); [done |].
    apply IH; cbn [recentRegs with_regs].
    + rewrite Em. rewrite lookup_insert_ne; [apply Hkeep; try done; lia |].
      intros E. rewrite E in Hs. rewrite (seen_within_hit _ _ _ _ Hk) in Hs by lia. done.
    + done.
    + pose proof (cache_insert_younger maxReplayRegs now order (regKey pk' nonce') (recentRegs a) t0 ltac:(done)). lia.
Qed.

(** A captured registration of an approved buddy is refused: once its key
    and nonce were accepted, presenting them again within the replay window is
    detected, no matter how many registrations of unapproved keys, enrollments,
    log lines and allowlist reloads come in between, as long as fewer than 4096
    registrations of approved keys do. *)
Theorem replay_refused a0 t0 order pk nonce t1 ops order' :
  pk <> "" -> nonce <> "" ->
  (replayed t0 order pk nonce a0).1 = false ->
  t1 - t0 < regReplayWindow -> Forall (timed t0 t1) ops ->
  younger t0 (recentRegs (replayed t0 order pk nonce a0).2) + Z.of_nat (count_if is_replayed ops) < maxReplayRegs ->
  (replayed t1 order' pk nonce (auth_run ops (replayed t0 order pk nonce a0).2)).1 = true.
Proof.
  intros Hpk Hn H1 Hw Ht Hy.
  assert (Hk : recentRegs (replayed t0 order pk nonce a0).2 !! regKey pk nonce = Some t0).
  { destruct (replayed_cases t0 order pk nonce a0) as [[_ [? | ?]] | [[E _] | (_ & _ & pre & _ & E)]]; [done | done | |];
      rewrite E in *; [done |]. cbn [snd recentRegs with_regs]. unfold cache_insert. by rewrite lookup_insert_eq. }
  pose proof (remembered_recent _ _ _ _ _ _ Hw Hk Ht Hy) as Hk'.
  destruct (replayed_cases t1 order' pk nonce (auth_run ops (replayed t0 order pk nonce a0).2))
    as [[_ [? | ?]] | [[-> _] | (Hs & _)]]; try done.
  rewrite (seen_within_hit _ _ _ _ Hk' Hw) in Hs. done.
Qed.

Lemma auth_step_preauth op a :
  is_preauth op = false -> is_replayed op = false -> preAuthRegs (auth_step op a) = preAuthRegs a.
Proof.
  destruct op as [now order pk nonce | now order pk nonce | now src | now h key | now pk tok | now stat f]; [done | done | intros _ _..];
    cbn [auth_step].
  - unfold allowEnroll. by destruct (RateLimit.Allow _ _ _).
  - unfold note_enrollment. by repeat case_match.
  - unfold logPending. by repeat case_match.
  - unfold pollOnce, reload, load, noteMissing, noteStatError. repeat case_match; simplify_eq; done.
Qed.

Lemma remembered_preauth pk nonce t0 t1 ops a :
  t1 - t0 < regReplayWindow -> preAuthRegs a !! regKey pk nonce = Some t0 -> Forall (timed t0 t1) ops ->
  younger t0 (preAuthRegs a) + Z.of_nat (count_if is_preauth ops) < maxPreAuthRegs ->
  preAuthRegs (auth_run ops a) !! regKey pk nonce = Some t0.
Proof.
  intros Hw. revert a. induction ops as [| op ops IH]; intros a Hk Ht Hy; [done |].
  apply Forall_cons in Ht as [Ht Hts]. cbn [auth_run fold_left]. cbn [count_if] in Hy.
  destruct (is_preauth op) eqn:Ep; [| destruct (is_replayed op) eqn:Er].
  - destruct op as [| now order pk' nonce' | | | |]; try done. cbn in Ht. cbn [auth_step].
    destruct (recordPreAuth_cases now order pk' nonce' a) as [[-> _] | [Hn ->]].
    { apply IH; [done | done | lia]. }
    destruct (cache_insert_spec maxPreAuthRegs now order (regKey pk' nonce') (preAuthRegs a)) as (m2 & Hsub & Em & _ & Hkeep); [done |].
    apply IH; cbn [preAuthRegs with_regs].
    + rewrite Em. rewrite lookup_insert_ne; [apply Hkeep; try done; lia | intros E; congruence].
    + done.
    + pose proof (cache_insert_younger maxPreAuthRegs now order (regKey pk' nonce') (preAuthRegs a) t0 ltac:(done)). lia.
  - destruct op as [now order pk' nonce' | | | | |]; try done. cbn in Ht. cbn [auth_step].
    destruct (replayed_cases now order pk' nonce' a) as [[-> _] | [[-> _] | (_ & _ & pre & Hpre & ->)]];
      [by apply IH; cbn [snd] | by apply IH; cbn [snd] |].
    assert (Hfresh : fresh_regs now (preAuthRegs a) ⊆ preAuthRegs a) by apply map_filter_subseteq.
    pose proof (younger_subset t0 _ _ Hfresh).
    destruct Hpre as [-> | ->]; apply IH; cbn [snd preAuthRegs with_regs]; try done; try lia.
    apply map_lookup_filter_Some. split; [done | cbn; lia].
  - apply IH; rewrite ?auth_step_preauth by done; try done; lia.
Qed.

(** Approving a key does not open what was captured before: a registration
    presented while its key was still unapproved is refused as a replay after
    the approval, whatever reloads, enrollments and registrations of approved
    keys come in between, as long as fewer than 4096 other unapproved
    registrations were recorded and the replay window has not passed. *)
Theorem captured_before_approval_refused a0 t0 order pk nonce t1 ops order' :
  pk <> "" -> nonce <> "" -> preAuthRegs a0 !! regKey pk nonce = None ->
  let a1 := recordPreAuth t0 order pk nonce a0 in
  t1 - t0 < regReplayWindow -> Forall (timed t0 t1) ops ->
  younger t0 (preAuthRegs a1) + Z.of_nat (count_if is_preauth ops) < maxPreAuthRegs ->
  (replayed t1 order' pk nonce (auth_run ops a1)).1 = true.
Proof.
  intros Hpk Hn H0 a1 Hw Ht Hy.
  assert (Hk : preAuthRegs a1 !! regKey pk nonce = Some t0).
  { subst a1. destruct (recordPreAuth_cases t0 order pk nonce a0) as [[_ [? | [? | [? ?]]]] | [_ ->]]; try done; [congruence |].
    cbn [preAuthRegs with_regs]. unfold cache_insert. by rewrite lookup_insert_eq. }
  pose proof (remembered_preauth _ _ _ _ _ _ Hw Hk Ht Hy) as Hk'.
  destruct (replayed_cases t1 order' pk nonce (auth_run ops a1)) as [[_ [? | ?]] | [[-> _] | (_ & Hs & _)]]; try done.
  rewrite (seen_within_hit _ _ _ _ Hk' Hw) in Hs. done.
Qed.

(** ** Following the file *)

(** The allowlist in force follows the file, and fails closed.  When the file
    is gone nobody is allowed; when it cannot be examined nothing changes; when
    it changed and is readable, exactly the keys it lists are allowed, and for
    a key that had not been approved before, registrations stamped more than a
    second before this reload are refused. *)
Theorem poll_follows_file now stat f a :
  let a' := (pollOnce now stat f a).1 in
  match stat with
  | Err NotExist => forall k, allowed k a' = false
  | Err _ => keys a' = keys a /\ approvedAt a' = approvedAt a
  | Ok mt =>
      if mt =? mtime a then keys a' = keys a
      else match readAuthorized f with
           | Ok (ks, _) =>
               (forall k, allowed k a' = true <-> is_Some (ks !! k)) /\
               (forall k ts, is_Some (ks !! k) -> approvedAt a !! k = None -> now <> zeroTime ->
                  freshSinceApproval k ts a' = true <-> now - second <= of_unix ts)
           | Err NotExist => forall k, allowed k a' = false
           | Err _ => keys a' = keys a
           end
  end.
Proof.
  intros a'. subst a'. unfold pollOnce. destruct stat as [mt | [| |]].
  - destruct (mt =? mtime a) eqn:E; [done |]. cbn [negb]. unfold reload, load.
    destruct (readAuthorized f) as [[ks mt'] | [| |]]; [| done..]. cbn [fst].
    unfold allowed, freshSinceApproval. cbn [keys approvedAt with_allowlist]. split.
    + intros k. by rewrite bool_decide_eq_true.
    + intros k ts [lbl Hk] Hn Hz. unfold approval_moments. rewrite map_lookup_imap, Hk. cbn. rewrite Hn. cbn.
      destruct (Z.eqb_spec now zeroTime) as [-> | _]; [done |]. cbn [orb]. rewrite negb_true_iff, Z.ltb_ge. lia.
  - done.
  - unfold noteStatError. by destruct (_ <? _).
  - unfold noteStatError. by destruct (_ <? _).
Qed.

Module AuthzDemo.
Definition fresh0 : authorizer :=
  mkAuthorizer "priv" (RateLimit.New rlEnrollGlobalRate rlEnrollSrcRate rlEnrollMaxSources 0)
    ∅ 1 ∅ ∅ ∅ ∅ ∅ false zeroTime.
Definition traffic : list auth_op :=
  [APreAuth (5 * second) [] "mallory" "n1"; AReplayed (6 * second) [] "bob" "n2"; ALogPending 7 "mallory" "tag";
   APoll 8 (Ok 2) (Ok ("", 2))].

Lemma authorizer_bounded_witness :
  newAuthorizer "priv" 0 (Ok ("", 1)) = Ok fresh0 /\
  Z.of_nat (size (recentRegs (auth_run traffic fresh0))) <= maxReplayRegs.
Proof.
  assert (H : newAuthorizer "priv" 0 (Ok ("", 1)) = Ok fresh0) by (vm_compute; reflexivity).
  split; [exact H |]. pose proof (authorizer_bounded "priv" 0 (Ok ("", 1)) fresh0 traffic H) as Hb.
  destruct Hb as (_ & _ & _ & _ & Hr & _). exact Hr.
Defined.

Lemma replay_refused_witness :
  (replayed second [] "alice" "n0" fresh0).1 = false /\
  (replayed (100 * second) [] "alice" "n0" (auth_run traffic (replayed second [] "alice" "n0" fresh0).2)).1 = true.
Proof.
  split; [vm_compute; reflexivity |].
  apply (replay_refused fresh0 second [] "alice" "n0" (100 * second) traffic []);
    [discriminate | discriminate | vm_compute; reflexivity | vm_compute; reflexivity | | vm_compute; reflexivity].
  repeat constructor; vm_compute; discriminate.
Defined.

Lemma captured_before_approval_refused_witness :
  (replayed (100 * second) [] "alice" "n0" (auth_run traffic (recordPreAuth second [] "alice" "n0" fresh0))).1 = true.
Proof.
  apply (captured_before_approval_refused fresh0 second [] "alice" "n0" (100 * second) traffic []);
    [discriminate | discriminate | reflexivity | vm_compute; reflexivity | | vm_compute; reflexivity].
  repeat constructor; vm_compute; discriminate.
Defined.
End AuthzDemo.
