(* ===== verification/Handshake.v ===== *)
(** * The handshake server: one REGISTER, from bytes to reply

    [internal/role/handshake.go] above its registry: parsing and validating a
    registration, proving key ownership, the approval decision, pairing, the
    signed roster and the relay ticket.  A request is handled by
    [handleControlReq], which composes the registry ([HsRegistry]) and the
    allowlist ([Authz]) the way the code does; QUIC is the record [Request] it
    hands over and the list of [Response]s it gets back. *)

From S2P Require Import Prelude Base64 Sha256 Json NetAddr Crypto Protocol Ticket HsRegistry Authz.
From S2P Require RateLimit.

Definition maxCodeEncLen : nat := 512.
Definition rlGlobalRate : QArith_base.Q := QArith_base.inject_Z 1000.
Definition rlSrcRate : QArith_base.Q := QArith_base.inject_Z 50.
Definition rlMaxSources : Z := 8192.

(** [cidrAllowed]: an empty list admits every source. *)
Definition cidrAllowed (allowed : list Prefix) (ip : IP) : bool :=
  match allowed with
  | [] => true
  | _ => match AddrFromSlice ip with
         | None => false
         | Some a => existsb (fun p => Contains p (Unmap a)) allowed
         end
  end.

(** ** What the server tells a buddy about its relay *)

Record relayAdvert := mkRelayAdvert { endpoint : string; rid : string }.

Inductive AdvNotice := NQuiet | NTicketsWithoutEndpoint | NEndpointWithoutTickets | NTicketsOn.
Inductive AdvErr := BadRelayID (id : string).

Definition relayAdvertFor (relayEndpoint relayID : string) : result AdvErr (relayAdvert * AdvNotice) :=
  let adv := mkRelayAdvert relayEndpoint relayID in
  if negb (String.eqb relayID "") && negb (ValidID relayID) then Err (BadRelayID relayID)
  else if negb (String.eqb relayID "") && String.eqb relayEndpoint "" then Ok (adv, NTicketsWithoutEndpoint)
  else if String.eqb relayID "" && negb (String.eqb relayEndpoint "") then Ok (adv, NEndpointWithoutTickets)
  else if negb (String.eqb relayID "") then Ok (adv, NTicketsOn)
  else Ok (adv, NQuiet).

(** ** Counters *)

Record hsCounters := mkCounters {
  paired : Z; rateLimited : Z; dropped : Z; newPubKey : Z; squatRejected : Z; replay : Z; keyMismatch : Z;
  enrollLimited : Z; lastPanic : Z;
}.

Definition zero_counters : hsCounters := mkCounters 0 0 0 0 0 0 0 0 0.

Definition bump (c : Counter) (s : hsCounters) : hsCounters :=
  let '(mkCounters pa rl dr npk sq rp km el lp) := s in
  match c with
  | CPaired => mkCounters (pa + 1) rl dr npk sq rp km el lp
  | CRateLimited => mkCounters pa (rl + 1) dr npk sq rp km el lp
  | CDropped => mkCounters pa rl (dr + 1) npk sq rp km el lp
  | CNewPubKey => mkCounters pa rl dr (npk + 1) sq rp km el lp
  | CSquatRejected => mkCounters pa rl dr npk (sq + 1) rp km el lp
  | CReplay => mkCounters pa rl dr npk sq (rp + 1) km el lp
  | CKeyMismatch => mkCounters pa rl dr npk sq rp (km + 1) el lp
  | CEnrollLimited => mkCounters pa rl dr npk sq rp km (el + 1) lp
  end.

Definition count_out (s : hsCounters) (o : Out) : hsCounters := match o with Bump c => bump c s | Log _ => s end.

(** One tick of [logLoop]: the counters are reset and a line is logged unless
    nothing happened; [total] is the process's count of recovered panics. *)
Definition logTick (total : Z) (s : hsCounters) : hsCounters * list Out :=
  let pan := total - lastPanic s in
  let s' := mkCounters 0 0 0 0 0 0 0 0 total in
  if forallb (fun z => z =? 0)
       [paired s; rateLimited s; dropped s; newPubKey s; squatRejected s; replay s; keyMismatch s; enrollLimited s; pan]
  then (s', [])
  else (s', [Log (LStats (paired s) (rateLimited s) (dropped s) (enrollLimited s) (newPubKey s) (squatRejected s)
                    (replay s) (keyMismatch s) pan)]).

(** ** Structural checks *)

(** [validField]: non-empty, short enough, base64url only. *)
Definition validField (s : string) : bool :=
  negb (String.eqb s "") && (slen s <=? MaxFieldLen)%nat && all_chars is_b64url s.

Definition parseRegister (raw : string) : option Message :=
  m ← Message_unmarshal raw;
  if negb (String.eqb (m_Type m) TypeRegister) || negb (validField (m_ID m)) ||
     (MaxFieldLen <? slen (m_PubKey m))%nat || (maxCodeEncLen <? slen (m_CodeEnc m))%nat ||
     (MaxFieldLen <? slen (m_Nonce m))%nat then None
  else if String.eqb (m_TokenEnc m) "" || (maxCodeEncLen <? slen (m_TokenEnc m))%nat then None
  else Some m.

(** Base64 text of exactly [n] bytes. *)
Definition std_bytes (n : nat) (b64 : string) : option string :=
  raw ← Std.DecodeString b64; if (slen raw =? n)%nat then Some raw else None.

Definition requireV7Fields (m : Message) : bool :=
  ValidNonce (m_Nonce m) &&
  match std_bytes PublicKeySize (m_PubKey m) with
  | None => false
  | Some _ => bool_decide (is_Some (std_bytes SignatureSize (m_RegSig m)))
  end.

Definition replyIncompatible : Message :=
  mkMessage TypePeerList Version "" "" "" "" "" "" "" 0 "" "" "" "" [] "" None "" "" "" "" "" "" "".

Definition registrationMatchesTLSKey (m : Message) (clientKey : string) : bool :=
  if negb (slen clientKey =? PublicKeySize)%nat then false
  else match std_bytes PublicKeySize (m_PubKey m) with
       | None => false
       | Some claimed => String.eqb clientKey claimed
       end.

(** [deriveVIP]: the address is the key's, whatever was claimed.  The flag says
    whether the refusal is counted. *)
Definition deriveVIP (m : Message) : result bool Message :=
  if String.eqb (m_PubKey m) "" then Ok m
  else match DecodePubKey (m_PubKey m) with
       | Err _ => Err false
       | Ok pub =>
           let want := VirtualIPString pub in
           if negb (String.eqb (m_VirtualIP m) "") && negb (String.eqb (m_VirtualIP m) want) then Err true
           else Ok (with_vip m want)
       end.

(** [logTag], under the server's log key. *)
Definition logTag (key token : string) : string := hex (take_s 5 (hmac_sha256 key token)).

(** ** The server *)

Record HsConfig := mkHsConfig {
  hc_priv : string;
  hc_adv : relayAdvert;
  hc_allowed : list Prefix;
  hc_tokenLogKey : string;
}.

(** The operator's settings, less the socket address and the log level. *)
Record HandshakeConfig := mkHandshakeConfig {
  cf_Authorized : string;
  cf_TTL : Z;
  cf_RelayEndpoint : string;
  cf_RelayID : string;
  cf_AllowCIDRs : list Prefix;
}.

Inductive StartErr := StartKey (e : string) | StartAuthz (e : FileErr) | StartAdvert (e : AdvErr).

Record HsServer := mkHsServer {
  hs_reg : hsRegistry;
  hs_authz : option authorizer;
  hs_rl : RateLimit.Limiter;
  hs_stats : hsCounters;
}.

Record Request := mkRequest { rq_Remote : option UDPAddr; rq_Payload : string; rq_ClientKey : string }.

Inductive Response := RReply (body : option string) | RDrop (reason : string).

(** What a request meets that its bytes do not determine: the order in which Go
    walks its maps, and the random bytes drawn for the ticket. *)
Record Choice := mkChoice {
  ch_tokens : list string;
  ch_recent : list string;
  ch_preauth : list string;
  ch_sid : option string;
  ch_nonce : option string;
}.

Section Handshake.
Context `{Ed25519} `{Box}.

(** [resolveToken]: the token becomes cleartext, or the request is refused. *)
Definition resolveToken (m : Message) (priv : string) : option Message :=
  match OpenCode (m_TokenEnc m) priv with
  | Err _ => None
  | Ok tok => if validField tok then Some (with_token m tok) else None
  end.

(** [time.Since(time.Unix(ts, 0))] is exact here: Go saturates the difference
    far outside the window. *)
Definition verifyRegistration (now : Z) (m : Message) (skew : Z) : bool :=
  if negb (ValidNonce (m_Nonce m)) then false
  else
    let d := now - of_unix (m_Ts m) in
    if (skew <? d) || (d <? - skew) then false
    else match std_bytes PublicKeySize (m_PubKey m), std_bytes SignatureSize (m_RegSig m) with
         | Some pub, Some sig => ed_verify pub (RegistrationPayload m) sig
         | _, _ => false
         end.

Definition replay_line (key : string) (src : UDPAddr) (m : Message) (detail : string) : list Out :=
  [Bump CReplay; Log (LReplay (logTag key (m_Token m)) (IPof src) (keyTag (m_PubKey m)) (m_ID m) detail)].

(** The approval half of [pairRegister]; [true] lets the registration through. *)
Definition authorize (logKey : string) (now : Z) (ch : Choice) (src : UDPAddr) (m : Message) (a : authorizer)
    : bool * authorizer * list Out :=
  if negb (allowed (m_PubKey m) a) then
    let '(ok, a1) := allowEnroll now (FromIP (IPof src)) a in
    if negb ok then (false, a1, [Bump CEnrollLimited])
    else
      let a2 := recordPreAuth now (ch_preauth ch) (m_PubKey m) (m_Nonce m) a1 in
      let '(a3, o) :=
        if negb (String.eqb (m_CodeEnc m) "") then recordPending now (m_CodeEnc m) (m_PubKey m) a2
        else logPending now (m_PubKey m) (logTag logKey (m_Token m)) a2 in
      (false, a3, o)
  else if negb (freshSinceApproval (m_PubKey m) (m_Ts m) a) then
    (false, a, replay_line logKey src m "registration predates the key's approval")
  else
    let '(again, a1) := replayed now (ch_recent ch) (m_PubKey m) (m_Nonce m) a in
    if again then (false, a1, replay_line logKey src m "registration nonce reused by the same key")
    else (true, a1, []).

(** The pairing half. *)
Definition pair_up (logKey relayEndpoint : string) (now : Z) (ch : Choice) (src : UDPAddr) (m : Message)
    (reg : hsRegistry) : hsRegistry * option (list Peer) * list Out :=
  let '(r1, res, o) := upsert (logTag logKey) now (ch_tokens ch) m src reg in
  match res with
  | None => (r1, None, o ++ [Bump CDropped])
  | Some (_, None) => (r1, Some [], o)
  | Some (self, Some partner) =>
      let '(first, r2) := notePaired (m_Token m) r1 in
      let line := LPaired (logTag logKey (m_Token m)) (hp_id self) (keyTag (hp_pubkey self)) (hp_id partner)
                    (keyTag (hp_pubkey partner)) (Z.of_nat (size (hp_cands self))) (Z.of_nat (size (hp_cands partner))) in
      (r2, Some [asProtocolPeer relayEndpoint partner], o ++ Bump CPaired :: if first then [Log line] else [])
  end.

Definition pairRegister (logKey relayEndpoint : string) (now : Z) (ch : Choice) (src : UDPAddr) (m : Message)
    (reg : hsRegistry) (authz : option authorizer)
    : hsRegistry * option authorizer * option (list Peer) * list Out :=
  if negb (verifyRegistration now m regSkew) then (reg, authz, None, [])
  else
    let '(go, authz', o1) :=
      match authz with
      | None => (true, None, [])
      | Some a => let '(go, a', o) := authorize logKey now ch src m a in (go, Some a', o)
      end in
    if negb go then (reg, authz', None, o1)
    else match deriveVIP m with
         | Err counted => (reg, authz', None, o1 ++ if counted then [Bump CDropped] else [])
         | Ok m' =>
             let '(reg', peers, o2) := pair_up logKey relayEndpoint now ch src m' reg in
             (reg', authz', peers, o1 ++ o2)
         end.

Definition issueTicket (now : Z) (ch : Choice) (priv relayID : string) (m : Message) (partner : Peer)
    (reg : hsRegistry) : option RelayTicket * hsRegistry :=
  if String.eqb relayID "" || String.eqb (m_EphPub m) "" then (None, reg)
  else
    match RawURL.DecodeString (m_EphPub m) with
    | None => (None, reg)
    | Some raw =>
        if negb (slen raw =? PublicKeySize)%nat then (None, reg)
        else if String.eqb (m_PubKey m) (p_PubKey partner) then (None, reg)
        else
          let leg := if str_ltb (p_PubKey partner) (m_PubKey m) then LegB else LegA in
          let '(sid, reg') := sidFor (ch_sid ch) (m_Token m) reg in
          match sid, ch_nonce ch with
          | Some sid, Some rand =>
              match Sign priv (mkPayload FormatVersion relayID sid leg (m_EphPub m) (unix now)
                                 (unix (now + MaxTTL)) (NewID rand)) with
              | Err _ => (None, reg')
              | Ok (payload, sig) =>
                  (Some (mkRelayTicket (RawURL.EncodeToString payload) (RawURL.EncodeToString sig)), reg')
              end
          | _, _ => (None, reg')
          end
    end.

Definition signedPeerList (now : Z) (priv token : string) (peers : list Peer) (tk : option RelayTicket) : Message :=
  let ts := unix now in
  let sig := ed_sign priv (PeerListPayload token ts peers) in
  mkMessage TypePeerList Version "" "" "" "" "" "" "" ts "" "" "" "" peers (Std.EncodeToString sig) tk
    "" "" "" "" "" "" "".

Definition with_outs (s : HsServer) (outs : list Out) : HsServer :=
  mkHsServer (hs_reg s) (hs_authz s) (hs_rl s) (fold_left count_out outs (hs_stats s)).

Definition handleControlReq (c : HsConfig) (now : Z) (ch : Choice) (req : Request) (s : HsServer)
    : HsServer * list Response * list Out :=
  match rq_Remote req with
  | None => (s, [RDrop "source not allowed"], [])
  | Some src =>
      if negb (cidrAllowed (hc_allowed c) (IPof src)) then (s, [RDrop "source not allowed"], [])
      else
        let '(ok, rl) := RateLimit.Allow now (FromIP (IPof src)) (hs_rl s) in
        let s1 := mkHsServer (hs_reg s) (hs_authz s) rl (hs_stats s) in
        let refuse (cnt : Counter) (rs : list Response) := (with_outs s1 [Bump cnt], rs, [Bump cnt]) in
        if negb ok then refuse CRateLimited [RReply None]
        else
          match parseRegister (rq_Payload req) with
          | None => refuse CDropped [RDrop "malformed registration"]
          | Some m =>
              if negb (registrationMatchesTLSKey m (rq_ClientKey req)) then
                refuse CKeyMismatch [RDrop "registration key does not match the authenticated client key"]
              else if negb (m_Ver m =? Version) then
                refuse CDropped [RReply (Some (Message_marshal replyIncompatible)); RDrop "protocol version mismatch"]
              else if negb (requireV7Fields m) then refuse CDropped [RDrop "registration carries no key-ownership proof"]
              else
                match resolveToken m (hc_priv c) with
                | None => refuse CDropped [RDrop "sealed pairing token does not open"]
                | Some m1 =>
                    let '(reg', authz', peers, o) :=
                      pairRegister (hc_tokenLogKey c) (endpoint (hc_adv c)) now ch src m1 (hs_reg s1) (hs_authz s1) in
                    let s2 := with_outs (mkHsServer reg' authz' rl (hs_stats s)) o in
                    match peers with
                    | None => (s2, [RReply None], o)
                    | Some ps =>
                        let '(tk, reg'') :=
                          match ps with
                          | [] => (None, reg')
                          | p :: _ => issueTicket now ch (hc_priv c) (rid (hc_adv c)) m1 p reg'
                          end in
                        (mkHsServer reg'' (hs_authz s2) (hs_rl s2) (hs_stats s2),
                         [RReply (Some (Message_marshal (signedPeerList now (hc_priv c) (m_Token m1) ps tk)))], o)
                    end
                end
          end
  end.

(** ** Runs of the server *)

Inductive HsEvent :=
| EvRequest (now : Z) (ch : Choice) (req : Request)
| EvReap (now : Z)
| EvPoll (now : Z) (stat : result FileErr Z) (f : FileView)
| EvStats (panics : Z).

Definition hs_step (c : HsConfig) (e : HsEvent) (s : HsServer) : HsServer * list Response * list Out :=
  match e with
  | EvRequest now ch req => handleControlReq c now ch req s
  | EvReap now => (mkHsServer (reap now (hs_reg s)) (hs_authz s) (hs_rl s) (hs_stats s), [], [])
  | EvPoll now stat f =>
      match hs_authz s with
      | None => (s, [], [])
      | Some a => let '(a', o) := pollOnce now stat f a in
                  (mkHsServer (hs_reg s) (Some a') (hs_rl s) (hs_stats s), [], o)
      end
  | EvStats panics => let '(st, o) := logTick panics (hs_stats s) in
                      (mkHsServer (hs_reg s) (hs_authz s) (hs_rl s) st, [], o)
  end.

Definition hs_run (c : HsConfig) (es : list HsEvent) (s : HsServer) : HsServer :=
  fold_left (fun s e => (hs_step c e s).1.1) es s.

(** [deriveSubkey]: HKDF over SHA-256 with an empty salt; [hkdf seed label] is
    the 32 bytes [golang.org/x/crypto/hkdf] gives. *)
Context (hkdf : string -> string -> string).
Definition deriveSubkey (seed label : string) : string := hkdf seed label.

(** [Handshake]: what the server starts from.  [key] is what [LoadKey] gave and
    [f] what the allowlist path holds; [--authorized] decides the mode, the
    file only who is allowed. *)
Definition Handshake (cfg : HandshakeConfig) (now : Z) (key : result string string) (f : FileView)
    : result StartErr (HsConfig * HsServer) :=
  let ttl := if cf_TTL cfg =? 0 then 10 * second else cf_TTL cfg in
  match key with
  | Err e => Err (StartKey e)
  | Ok priv =>
      let tokenLogKey := deriveSubkey (take_s 32 priv) "buddynet-logtag-v1" in
      let authz :=
        if negb (String.eqb (cf_Authorized cfg) "") then
          match newAuthorizer priv now f with Err e => Err (StartAuthz e) | Ok a => Ok (Some a) end
        else Ok None in
      let? a := authz in
      let reg := newHSRegistry ttl in
      let rl := RateLimit.New rlGlobalRate rlSrcRate rlMaxSources now in
      match relayAdvertFor (cf_RelayEndpoint cfg) (cf_RelayID cfg) with
      | Err e => Err (StartAdvert e)
      | Ok (adv, _) => Ok (mkHsConfig priv adv (cf_AllowCIDRs cfg) tokenLogKey, mkHsServer reg a rl zero_counters)
      end
  end.
End Handshake.
