(* ===== verification/HandshakeProps.v ===== *)
(** * The handshake server: invariants of every run

    What one request can do ([handled]), and from it the bounds, the provenance
    of every roster entry and the approval-mode guarantees of whole runs. *)

From S2P Require Import Prelude Base64 Sha256 Json NetAddr Crypto Protocol Ticket HsRegistry Authz AuthzFile AuthzProps.
From S2P Require Import Handshake.
From S2P Require RateLimit.

Section Props.
Context `{Ed25519} `{Box}.

(** The checks of the handler up to the approval decision; [m] is the
    registration with its token unsealed. *)
Record checks (c : HsConfig) (now : Z) (req : Request) (src : UDPAddr) (m : Message) : Prop := {
  ck_remote : rq_Remote req = Some src;
  ck_source : cidrAllowed (hc_allowed c) (IPof src) = true;
  ck_parsed : exists m0, parseRegister (rq_Payload req) = Some m0 /\ resolveToken m0 (hc_priv c) = Some m;
  ck_tls : registrationMatchesTLSKey m (rq_ClientKey req) = true;
  ck_version : m_Ver m = Version;
  ck_fields : requireV7Fields m = true;
  ck_signed : verifyRegistration now m regSkew = true;
}.

(** What they establish: the holder of the key the connection authenticated
    signed this very registration, recently. *)
Record proven (c : HsConfig) (now : Z) (req : Request) (src : UDPAddr) (m : Message) : Prop := {
  pr_remote : rq_Remote req = Some src;
  pr_source : cidrAllowed (hc_allowed c) (IPof src) = true;
  pr_parsed : exists m0, parseRegister (rq_Payload req) = Some m0 /\ resolveToken m0 (hc_priv c) = Some m;
  pr_key : std_bytes PublicKeySize (m_PubKey m) = Some (rq_ClientKey req);
  pr_version : m_Ver m = Version;
  pr_signed : exists sig, std_bytes SignatureSize (m_RegSig m) = Some sig /\
                          ed_verify (rq_ClientKey req) (RegistrationPayload m) sig = true;
  pr_fresh : Z.abs (now - of_unix (m_Ts m)) <= regSkew;
  pr_nonce : ValidNonce (m_Nonce m) = true;
}.

Lemma checks_proven c now req src m : checks c now req src m -> proven c now req src m.
Proof.
  intros [Hr Hs Hp Ht Hv Hf Hsig].
  assert (K : std_bytes PublicKeySize (m_PubKey m) = Some (rq_ClientKey req)).
  { unfold registrationMatchesTLSKey in Ht. destruct (negb _); [done |]. destruct (std_bytes _ _); [| done].
    by apply String.eqb_eq in Ht as ->. }
  unfold verifyRegistration in Hsig. destruct (ValidNonce (m_Nonce m)) eqn:En; [| done]. cbn [negb] in Hsig.
  destruct (_ || _) eqn:Ed; [done |]. apply orb_false_iff in Ed as [E1%Z.ltb_ge E2%Z.ltb_ge]. rewrite K in Hsig.
  destruct (std_bytes SignatureSize _) as [sig |] eqn:Es; [| done]. split; eauto. lia.
Qed.

(** In approval mode the key must be on the list; in open mode anyone's will do. *)
Definition approved (m : Message) (a : option authorizer) : Prop :=
  match a with None => True | Some a => allowed (m_PubKey m) a = true end.

(** The approval decision as a function of the mode. *)
Definition decide_authz (logKey : string) (now : Z) (ch : Choice) (src : UDPAddr) (m : Message) (a : option authorizer)
    : bool * option authorizer * list Out :=
  match a with
  | None => (true, None, [])
  | Some a => let '(go, a', o) := authorize logKey now ch src m a in (go, Some a', o)
  end.

Inductive handled (c : HsConfig) (now : Z) (ch : Choice) (req : Request) (s : HsServer)
    : HsServer -> list Response -> Prop :=
| HRefused s' rs :
    hs_reg s' = hs_reg s -> hs_authz s' = hs_authz s ->
    Forall (fun r => r = RReply None \/ r = RReply (Some (Message_marshal replyIncompatible)) \/ exists why, r = RDrop why) rs ->
    handled c now ch req s s' rs
| HDenied src m s' o :
    proven c now req src m -> hs_reg s' = hs_reg s ->
    decide_authz (hc_tokenLogKey c) now ch src m (hs_authz s) = (false, hs_authz s', o) ->
    handled c now ch req s s' [RReply None]
| HBadVIP src m s' o :
    proven c now req src m -> hs_reg s' = hs_reg s ->
    decide_authz (hc_tokenLogKey c) now ch src m (hs_authz s) = (true, hs_authz s', o) ->
    handled c now ch req s s' [RReply None]
| HRegistered src m pub s' o r1 res outs rs :
    proven c now req src m ->
    decide_authz (hc_tokenLogKey c) now ch src m (hs_authz s) = (true, hs_authz s', o) ->
    DecodePubKey (m_PubKey m) = Ok pub ->
    upsert (logTag (hc_tokenLogKey c)) now (ch_tokens ch) (with_vip m (VirtualIPString pub)) src (hs_reg s) = (r1, res, outs) ->
    match res with
    | None => hs_reg s' = r1 /\ rs = [RReply None]
    | Some (_, None) =>
        hs_reg s' = r1 /\
        rs = [RReply (Some (Message_marshal (signedPeerList now (hc_priv c) (m_Token m) [] None)))]
    | Some (_, Some partner) =>
        let p := asProtocolPeer (endpoint (hc_adv c)) partner in
        exists tk, issueTicket now ch (hc_priv c) (rid (hc_adv c)) m p (notePaired (m_Token m) r1).2 = (tk, hs_reg s') /\
        rs = [RReply (Some (Message_marshal (signedPeerList now (hc_priv c) (m_Token m) [p] tk)))]
    end ->
    handled c now ch req s s' rs.

Lemma with_token_fields m tok :
  m_PubKey (with_token m tok) = m_PubKey m /\ m_Ver (with_token m tok) = m_Ver m /\
  m_Nonce (with_token m tok) = m_Nonce m /\ m_RegSig (with_token m tok) = m_RegSig m.
Proof. done. Qed.

Lemma std_bytes_pubkey k pub : std_bytes PublicKeySize k = Some pub -> k <> "" /\ DecodePubKey k = Ok pub.
Proof.
  unfold std_bytes, DecodePubKey. destruct (Std.DecodeString k) as [raw |] eqn:E; [| done]. cbn [mbind option_bind].
  destruct (slen raw =? PublicKeySize)%nat eqn:El; [| done]. intros [= <-]. split; [| done].
  intros ->. injection E as <-. done.
Qed.

Ltac refused :=
  intros [= <- <- <-]; apply HRefused; [done | done |];
  repeat (apply Forall_cons; split; [eauto 6 |]); apply Forall_nil; done.

Lemma handle_spec c now ch req s s' rs o :
  handleControlReq c now ch req s = (s', rs, o) -> handled c now ch req s s' rs.
Proof.
  unfold handleControlReq. destruct (rq_Remote req) as [src |] eqn:Er.
  2: { refused. }
  destruct (negb (cidrAllowed _ _)) eqn:Ec.
  { refused. }
  destruct (RateLimit.Allow _ _ _) as [ok rl]. cbv zeta.
  destruct (negb ok); [refused |].
  destruct (parseRegister _) as [m0 |] eqn:Ep.
  2: { refused. }
  destruct (negb (registrationMatchesTLSKey _ _)) eqn:Et.
  { refused. }
  destruct (negb (m_Ver m0 =? Version)) eqn:Ev.
  { refused. }
  destruct (negb (requireV7Fields m0)) eqn:E7.
  { refused. }
  destruct (resolveToken m0 (hc_priv c)) as [m |] eqn:Etok.
  2: { refused. }
  assert (Hm : exists tok, m = with_token m0 tok).
  { unfold resolveToken in Etok. repeat case_match; simplify_eq. eauto. }
  unfold pairRegister. destruct (negb (verifyRegistration now m regSkew)) eqn:Esig.
  { refused. }
  apply negb_false_iff in Ec, Et, Ev, E7, Esig. apply Z.eqb_eq in Ev.
  assert (P : proven c now req src m).
  { apply checks_proven. destruct Hm as [tok ->]. by split; eauto. }
  cbn [hs_reg hs_authz]. change (match hs_authz s with Some a => _ | None => _ end)
    with (decide_authz (hc_tokenLogKey c) now ch src m (hs_authz s)).
  destruct (decide_authz _ _ _ _ _ _) as [[go az'] o1] eqn:Ea.
  destruct (negb go) eqn:Eg.
  { apply negb_true_iff in Eg as ->. intros [= <- <- <-]. by apply (HDenied _ _ _ _ _ src m _ o1). }
  apply negb_false_iff in Eg as ->. destruct (std_bytes_pubkey _ _ (pr_key _ _ _ _ _ P)) as [Hne Hpub].
  unfold deriveVIP. destruct (String.eqb_spec (m_PubKey m) "") as [? | _]; [done |]. rewrite Hpub.
  destruct (negb _ && negb _) eqn:Evip.
  { intros [= <- <- <-]. by apply (HBadVIP _ _ _ _ _ src m _ o1). }
  unfold pair_up. destruct (upsert _ _ _ _ _ _) as [[r1 res] outs] eqn:Eu.
  destruct res as [[self [partner |]] |].
  - cbn [m_Token with_vip]. destruct (notePaired (m_Token m) r1) as [first r2] eqn:En.
    destruct (issueTicket _ _ _ _ _ _ _) as [tk r3] eqn:Etk. intros [= <- <- <-].
    eapply HRegistered; [exact P | exact Ea | exact Hpub | exact Eu |]. cbn. exists tk. rewrite En. cbn. by split.
  - intros [= <- <- <-]. eapply HRegistered; [exact P | exact Ea | exact Hpub | exact Eu |]. done.
  - intros [= <- <- <-]. eapply HRegistered; [exact P | exact Ea | exact Hpub | exact Eu |]. done.
Qed.

(** ** The approval decision is a run of allowlist operations *)

Lemma authorize_ops logKey now ch src m a go a' o :
  authorize logKey now ch src m a = (go, a', o) ->
  (exists ops, a' = auth_run ops a) /\ keys a' = keys a /\ (go = true -> allowed (m_PubKey m) a = true) /\
  (allowed (m_PubKey m) a = false -> go = false /\ recentRegs a' = recentRegs a).
Proof.
  unfold authorize. destruct (allowed (m_PubKey m) a) eqn:Ea; cbn [negb].
  - destruct (negb (freshSinceApproval _ _ _)).
    { intros [= <- <- <-]. split_and!; [by exists [] | done..]. }
    destruct (replayed _ _ _ _ _) as [again a1] eqn:Er.
    assert (Hr : auth_step (AReplayed now (ch_recent ch) (m_PubKey m) (m_Nonce m)) a = a1) by (cbn; by rewrite Er).
    assert (Hk : keys a1 = keys a).
    { destruct (replayed_cases now (ch_recent ch) (m_PubKey m) (m_Nonce m) a) as [[E _] | [[E _] | (_ & _ & ? & _ & E)]];
        rewrite E in Er; by injection Er as <- <-. }
    destruct again; intros [= <- <- <-]; (split_and!; [| done | done | done]);
      exists [AReplayed now (ch_recent ch) (m_PubKey m) (m_Nonce m)]; cbn [auth_run fold_left]; by rewrite Hr.
  - destruct (allowEnroll _ _ _) as [ok a1] eqn:Ee.
    assert (S1 : auth_step (AEnroll now (FromIP (IPof src))) a = a1) by (cbn; by rewrite Ee).
    assert (K1 : keys a1 = keys a /\ recentRegs a1 = recentRegs a).
    { unfold allowEnroll in Ee. destruct (RateLimit.Allow _ _ _). by injection Ee as <- <-. }
    destruct (negb ok).
    { intros [= <- <- <-]. split_and!; [| apply K1 | done |]; [exists [AEnroll now (FromIP (IPof src))]; cbn [auth_run fold_left]; by rewrite S1 |].
      intros _. by destruct K1. }
    set (pre := APreAuth now (ch_preauth ch) (m_PubKey m) (m_Nonce m)).
    assert (K2 : keys (auth_step pre a1) = keys a1 /\ recentRegs (auth_step pre a1) = recentRegs a1).
    { unfold pre. cbn [auth_step]. by destruct (recordPreAuth_cases now (ch_preauth ch) (m_PubKey m) (m_Nonce m) a1) as [[-> _] | [_ ->]]. }
    change (recordPreAuth now (ch_preauth ch) (m_PubKey m) (m_Nonce m) a1) with (auth_step pre a1).
    destruct (if negb (String.eqb (m_CodeEnc m) "") then _ else _) as [a3 o3] eqn:E3. intros [= <- <- <-].
    assert (K3 : (exists ops, a3 = auth_run ops (auth_step pre a1)) /\ keys a3 = keys (auth_step pre a1) /\
                 recentRegs a3 = recentRegs (auth_step pre a1)).
    { destruct (negb (String.eqb (m_CodeEnc m) "")).
      - unfold recordPending in E3. destruct (String.eqb _ _); [injection E3 as <- <-; split_and!; [by exists [] | done..] |].
        destruct (OpenCode _ _) as [code |]; [| injection E3 as <- <-; split_and!; [by exists [] | done..]].
        destruct (String.eqb code ""); [injection E3 as <- <-; split_and!; [by exists [] | done..] |].
        split; [exists [APending now (shortHash code) (m_PubKey m)]; cbn [auth_run fold_left auth_step]; by rewrite E3 |].
        unfold note_enrollment in E3. repeat case_match; by injection E3 as <- <-.
      - split; [exists [ALogPending now (m_PubKey m) (logTag logKey (m_Token m))]; cbn [auth_run fold_left auth_step]; by rewrite E3 |].
        unfold logPending in E3. repeat case_match; by injection E3 as <- <-. }
    destruct K1 as [K1 R1], K2 as [K2 R2], K3 as ([ops K3] & K3' & R3).
    split_and!; [| congruence | done | intros _; split; [done | congruence]].
    exists (AEnroll now (FromIP (IPof src)) :: pre :: ops). rewrite K3. cbn [auth_run fold_left]. by rewrite S1.
Qed.

Lemma decide_authz_spec logKey now ch src m az go az' o :
  decide_authz logKey now ch src m az = (go, az', o) ->
  (go = true -> approved m az) /\
  match az, az' with
  | None, None => go = true
  | Some a, Some a' => exists ops, a' = auth_run ops a
  | _, _ => False
  end.
Proof.
  unfold decide_authz, approved. destruct az as [a |]; [| by intros [= <- <- <-]].
  destruct (authorize _ _ _ _ _ _) as [[go' a'] o'] eqn:E. intros [= <- <- <-].
  by apply authorize_ops in E as (? & _ & ? & _).
Qed.

(** ** The invariant of a run *)

Record hs_inv (s : HsServer) : Prop := {
  hi_reg : reg_inv None (hs_reg s);
  hi_authz : forall a, hs_authz s = Some a -> auth_inv a;
  hi_rl : Z.of_nat (size (RateLimit.perSrc (hs_rl s))) <= rlMaxSources /\ RateLimit.maxSources (hs_rl s) = rlMaxSources;
}.

Lemma Allow_rl now src l :
  Z.of_nat (size (RateLimit.perSrc l)) <= rlMaxSources -> RateLimit.maxSources l = rlMaxSources ->
  Z.of_nat (size (RateLimit.perSrc (RateLimit.Allow now src l).2)) <= rlMaxSources /\
  RateLimit.maxSources (RateLimit.Allow now src l).2 = rlMaxSources.
Proof.
  intros B1 B2. destruct (RateLimit.Allow now src l) as [ok l'] eqn:E. cbn [snd].
  pose proof (RateLimit.Allow_params _ _ _ _ _ E) as (_ & _ & _ & _ & Hp).
  pose proof (RateLimit.Allow_bounded _ _ _ _ _ E) as Hb. rewrite Hp, B2 in Hb. unfold rlMaxSources in *.
  split; [lia | congruence].
Qed.

Lemma handle_rl c now ch req s :
  hs_rl (handleControlReq c now ch req s).1.1 = hs_rl s \/
  exists src, hs_rl (handleControlReq c now ch req s).1.1 = (RateLimit.Allow now src (hs_rl s)).2.
Proof.
  unfold handleControlReq. destruct (rq_Remote req) as [src |]; [| by left].
  destruct (negb (cidrAllowed _ _)); [by left |]. right. exists (FromIP (IPof src)).
  destruct (RateLimit.Allow _ _ _) as [ok rl]. cbv zeta. repeat (case_match; try done).
Qed.

Lemma notePaired_frame tok r : waiting (notePaired tok r).2 = waiting r /\ sids (notePaired tok r).2 = sids r.
Proof. unfold notePaired. by repeat case_match. Qed.

Lemma issueTicket_frame now ch priv relayID m p r tk r' :
  issueTicket now ch priv relayID m p r = (tk, r') -> r' = r \/ r' = (sidFor (ch_sid ch) (m_Token m) r).2.
Proof.
  unfold issueTicket. destruct (_ || _); [intros [= <- <-]; by left |].
  destruct (RawURL.DecodeString _); [| intros [= <- <-]; by left].
  destruct (negb _); [intros [= <- <-]; by left |]. destruct (String.eqb _ _); [intros [= <- <-]; by left |].
  destruct (sidFor _ _ _) as [sid r1]. intros Heq. right. cbn [snd].
  destruct sid; [| by simplify_eq]. destruct (ch_nonce ch); [| by simplify_eq].
  destruct (Sign _ _) as [[? ?] |]; by simplify_eq.
Qed.

Lemma sidFor_waiting rand tok r : waiting (sidFor rand tok r).2 = waiting r.
Proof. unfold sidFor. by repeat case_match. Qed.

Lemma handled_inv c now ch req s s' rs :
  handled c now ch req s s' rs -> reg_inv None (hs_reg s) -> (forall a, hs_authz s = Some a -> auth_inv a) ->
  reg_inv None (hs_reg s') /\ forall a, hs_authz s' = Some a -> auth_inv a.
Proof.
  intros Hh Hr Ha.
  assert (G : forall src m go o, decide_authz (hc_tokenLogKey c) now ch src m (hs_authz s) = (go, hs_authz s', o) ->
            forall a, hs_authz s' = Some a -> auth_inv a).
  { intros src m go o Hd a' Ha'. apply decide_authz_spec in Hd as [_ Hd]. rewrite Ha' in Hd.
    destruct (hs_authz s) as [a |]; [| done]. destruct Hd as [ops ->]. apply auth_run_inv. by apply Ha. }
  destruct Hh as [s' rs -> -> _ | src m s' o _ -> Hd | src m s' o _ -> Hd | src m pub s' o r1 res outs rs Hp Hd _ Hu Hres].
  - done.
  - split; [done | by eapply G].
  - split; [done | by eapply G].
  - split; [| by eapply G]. apply upsert_outcome in Hu as (Hr1 & _ & _); [| done].
    destruct res as [[self [partner |]] |]; [| by destruct Hres as [-> _] | by destruct Hres as [-> _]].
    destruct Hres as (tk & Ht & _). apply issueTicket_frame in Ht as [-> | ->].
    + by apply notePaired_inv.
    + by apply sidFor_inv, notePaired_inv.
Qed.

Lemma hs_step_inv c e s : hs_inv s -> hs_inv (hs_step c e s).1.1.
Proof.
  intros [Hr Ha [Hl1 Hl2]]. destruct e as [now ch req | now | now stat f | panics]; cbn [hs_step].
  - destruct (handleControlReq c now ch req s) as [[s' rs] o] eqn:E. pose proof (handle_spec _ _ _ _ _ _ _ _ E) as Hh.
    destruct (handled_inv _ _ _ _ _ _ _ Hh Hr Ha) as [Hr' Ha']. split; [done | done |]. cbn [fst].
    pose proof (handle_rl c now ch req s) as Hrl. rewrite E in Hrl. cbn [fst] in Hrl.
    destruct Hrl as [-> | [src ->]]; [done | by apply Allow_rl].
  - split; [by apply reap_inv | done | done].
  - destruct (hs_authz s) as [a |] eqn:E; [| cbn [fst]; split; [done | intros a' E'; congruence | done]].
    destruct (pollOnce now stat f a) as [a' o] eqn:Ep. split; cbn; [done | | done].
    intros ? [= <-]. pose proof (pollOnce_inv now stat f a (Ha a eq_refl)) as H'. by rewrite Ep in H'.
  - unfold logTick. by destruct (forallb _ _).
Qed.

Lemma hs_run_inv c es s : hs_inv s -> hs_inv (hs_run c es s).
Proof. revert s. induction es as [| e es IH]; intros s Hs; [done |]. by apply IH, hs_step_inv. Qed.

Lemma Handshake_inv hkdf cfg now key f c s :
  Handshake hkdf cfg now key f = Ok (c, s) -> hs_inv s /\ waiting (hs_reg s) = ∅.
Proof.
  unfold Handshake. destruct key as [priv |]; [| done].
  destruct (negb _); [destruct (newAuthorizer _ _ _) as [a |] eqn:E; [| done] |];
    (destruct (relayAdvertFor _ _) as [[adv n] |]; [| done]); intros [= <- <-];
    (split; [split; cbn [hs_reg hs_authz hs_rl] | done]); try done; try apply new_inv.
  intros ? [= <-]. by eapply newAuthorizer_inv.
Qed.

Lemma hs_run_snoc c es e s : hs_run c (es ++ [e]) s = (hs_step c e (hs_run c es s)).1.1.
Proof. unfold hs_run. by rewrite fold_left_app. Qed.

(** ** Where roster entries come from *)

Lemma VirtualIPString_nonempty pub : VirtualIPString pub <> "".
Proof. unfold VirtualIPString, VirtualIP. destruct (fold_host _ _) as [hi lo]. done. Qed.

(** The entry [p] of a token and id was written by its latest registration: a
    request whose TLS key, signature, version and freshness were checked, from
    a key that was approved then. *)
Definition registered (c : HsConfig) (es : list HsEvent) (s0 : HsServer) (tok id : string) (p : hsPeer) : Prop :=
  exists es1 es2 ch req src m,
    es = es1 ++ EvRequest (hp_seen p) ch req :: es2 /\ proven c (hp_seen p) req src m /\
    approved m (hs_authz (hs_run c es1 s0)) /\ m_Token m = tok /\ m_ID m = id /\ m_PubKey m = hp_pubkey p /\
    DecodePubKey (hp_pubkey p) = Ok (rq_ClientKey req) /\ hp_virtualIP p = VirtualIPString (rq_ClientKey req).

Lemma registered_snoc c es e s0 tok id p : registered c es s0 tok id p -> registered c (es ++ [e]) s0 tok id p.
Proof.
  intros (es1 & es2 & ch & req & src & m & -> & Hrest). exists es1, (es2 ++ [e]), ch, req, src, m.
  split; [by rewrite <- app_assoc | done].
Qed.

Lemma proven_key c now req src m pub :
  proven c now req src m -> DecodePubKey (m_PubKey m) = Ok pub -> rq_ClientKey req = pub.
Proof. intros Hp Hd. destruct (std_bytes_pubkey _ _ (pr_key _ _ _ _ _ Hp)) as [_ E]. congruence. Qed.

Lemma handled_entries c now ch req s s' rs tok b id p :
  handled c now ch req s s' rs -> reg_inv None (hs_reg s) ->
  waiting (hs_reg s') !! tok = Some b -> b !! id = Some p ->
  (exists b0, waiting (hs_reg s) !! tok = Some b0 /\ b0 !! id = Some p) \/
  exists src m, proven c now req src m /\ approved m (hs_authz s) /\ m_Token m = tok /\ m_ID m = id /\
    m_PubKey m = hp_pubkey p /\ hp_seen p = now /\
    DecodePubKey (hp_pubkey p) = Ok (rq_ClientKey req) /\ hp_virtualIP p = VirtualIPString (rq_ClientKey req).
Proof.
  intros Hh Hr Hb Hp.
  destruct Hh as [s' rs E _ _ | src m s' o _ E Hd | src m s' o _ E Hd | src m pub s' o r1 res outs rs Hpr Hd Hpub Hu Hres];
    [rewrite E in Hb; by left; eauto.. |].
  assert (Hw : waiting (hs_reg s') = waiting r1).
  { destruct res as [[self [partner |]] |]; [| by destruct Hres as [-> _] | by destruct Hres as [-> _]].
    destruct Hres as (tk & Ht & _). apply issueTicket_frame in Ht as [-> | ->];
      rewrite ?sidFor_waiting; apply notePaired_frame. }
  rewrite Hw in Hb. pose proof (upsert_entries _ _ _ _ _ _ _ _ _ _ _ _ _ Hr Hu Hb Hp) as [Hold | (-> & -> & partner & ->)];
    [by left | right].
  apply upsert_outcome in Hu as (_ & _ & [mid bucket after _ _ _ Hself _ _ _]); [| done].
  destruct (refresh_fields now (with_vip m (VirtualIPString pub)) src
              (self_before (with_vip m (VirtualIPString pub)) bucket)) as (_ & Hseen & Hpk & Hvip).
  rewrite <- Hself in Hseen, Hpk, Hvip. cbn [m_PubKey m_VirtualIP with_vip] in Hpk, Hvip.
  specialize (Hvip (VirtualIPString_nonempty pub)).
  destruct (std_bytes_pubkey _ _ (pr_key _ _ _ _ _ Hpr)) as [Hne _]. specialize (Hpk Hne).
  pose proof (proven_key _ _ _ _ _ _ Hpr Hpub) as Hk. apply decide_authz_spec in Hd as [Happ _].
  exists src, m. rewrite Hk, Hpk. by split_and!; auto.
Qed.

Lemma entries_registered c es s0 tok b id p :
  hs_inv s0 -> waiting (hs_reg s0) = ∅ ->
  waiting (hs_reg (hs_run c es s0)) !! tok = Some b -> b !! id = Some p -> registered c es s0 tok id p.
Proof.
  intros H0' He. revert tok b id p. induction es as [| e es IH] using rev_ind; intros tok b id p Hb Hp.
  { cbn in Hb. by rewrite He in Hb. }
  rewrite hs_run_snoc in Hb. pose proof (hs_run_inv c es s0 H0') as Hi.
  destruct e as [now ch req | now | now stat f | panics]; cbn [hs_step] in Hb.
  - destruct (handleControlReq _ _ _ _ _) as [[s' rs] o] eqn:E. apply handle_spec in E. cbn [fst] in Hb.
    destruct (handled_entries _ _ _ _ _ _ _ _ _ _ _ E (hi_reg _ Hi) Hb Hp)
      as [(b0 & Hb0 & Hp0) | (src & m & Hpr & Ha & Ht & Hid & Hpk & Hs & Hd & Hv)].
    + eapply registered_snoc; eauto.
    + subst now. exists es, [], ch, req, src, m. by split_and!.
  - cbn [fst hs_reg] in Hb. apply reap_waiting in Hb as (b0 & Hb0 & -> & _).
    apply map_lookup_filter_Some in Hp as [Hp _]. apply registered_snoc. eauto.
  - apply registered_snoc. destruct (hs_authz _) as [a |]; [| by eapply IH].
    destruct (pollOnce _ _ _ _). cbn [fst hs_reg] in Hb. eauto.
  - apply registered_snoc. destruct (logTick _ _). cbn [fst hs_reg] in Hb. eauto.
Qed.
Lemma upserted_partner now order m src r r' self p :
  reg_inv None r -> upserted now order m src r r' self (Some p) ->
  exists id b, id <> m_ID m /\ waiting r !! m_Token m = Some b /\ b !! id = Some p /\ now - hp_seen p <= hr_ttl r.
Proof.
  intros Hr [mid bucket after Hopen Hfound _ _ Hloop _ _].
  apply find_partner_spec in Hloop as (_ & _ & id & Hne & Hin%elem_of_map_to_list & Hl).
  rewrite lookup_insert_ne in Hin by done. rewrite (open_bucket_lookup _ _ _ _ _ Hopen Hfound) in Hin.
  destruct (waiting r !! m_Token m) as [b |] eqn:E; [| done]. exists id, b. by split_and!.
Qed.

End Props.
