(* ===== verification/HandshakeTheorems.v ===== *)
(** * The handshake server: what it guarantees

    Memory bounds, authenticity of every roster it signs, inertness of
    unproven and unapproved requests, and the relay tickets of a pair. *)

From S2P Require Import Prelude Base64 Sha256 Json NetAddr Crypto Protocol Ticket HsRegistry Authz AuthzFile AuthzProps.
From S2P Require Import Handshake HandshakeProps.
From S2P Require RateLimit.

Section Theorems.
Context `{Ed25519} `{Box} (hkdf : string -> string -> string).

(** C15. The handshake server's memory is bounded in every state it reaches,
    whatever requests it is sent: tokens, ids per token, endpoints per id,
    latches, session ids and rate-limiter sources stay under their caps, and in
    approval mode so do the allowlist, the pending enrollments, the log dedup
    table and both replay caches. *)
Theorem handshake_bounded cfg key c t0 f s0 es :
  Handshake hkdf cfg t0 key f = Ok (c, s0) ->
  let s := hs_run c es s0 in
  Z.of_nat (size (waiting (hs_reg s))) <= maxTokens /\
  map_Forall (fun _ b => Z.of_nat (size b) <= maxIDsPerToken /\
    map_Forall (fun _ p => Z.of_nat (size (hp_cands p)) <= maxCandsPerPeer) b) (waiting (hs_reg s)) /\
  Z.of_nat (size (pairedLogged (hs_reg s))) <= maxTokens /\ Z.of_nat (size (sids (hs_reg s))) <= maxTokens /\
  intruderWarned (hs_reg s) ∪ dom (seenPKs (hs_reg s)) ⊆ dom (waiting (hs_reg s)) /\
  Z.of_nat (size (RateLimit.perSrc (hs_rl s))) <= rlMaxSources /\
  (forall a, hs_authz s = Some a ->
     Z.of_nat (size (keys a)) <= maxAuthorizedKeys /\ Z.of_nat (size (logged a)) <= maxLoggedKeys /\
     Z.of_nat (size (pend a)) <= maxPending /\ Z.of_nat (size (recentRegs a)) <= maxReplayRegs /\
     Z.of_nat (size (preAuthRegs a)) <= maxPreAuthRegs).
Proof.
  intros H0' s. destruct (hs_run_inv c es s0 (proj1 (Handshake_inv _ _ _ _ _ _ _ H0'))) as [[Hw Hb _ Hd _ Hi Hp Hx] Ha [Hl _]].
  split_and!; try done.
  - intros tok b Ht. destruct (Hb _ _ Ht) as [Hs Hpi]. split; [done |]. intros id p Hip. by destruct (Hpi _ _ Hip).
  - apply union_subseteq. by split.
  - intros a E. destruct (Ha a E). by split_and!.
Qed.

(** C3. Every roster the server signs is authentic.  In every state it reaches, a
    reply carries a peer list only if the request proved possession of the key
    it registers (TLS and signature, current version, fresh timestamp) and that
    key is approved where approval is on; and the only peer it ever lists is
    the other id of the same token, seen within the TTL, whose own latest
    registration passed the same checks under the listed public key, with the
    virtual address that key derives. *)
Theorem roster_authentic cfg key c t0 f s0 es now ch req s' rs o :
  Handshake hkdf cfg t0 key f = Ok (c, s0) ->
  let s := hs_run c es s0 in
  handleControlReq c now ch req s = (s', rs, o) ->
  Forall (fun r =>
    r = RReply None \/ r = RReply (Some (Message_marshal replyIncompatible)) \/ (exists why, r = RDrop why) \/
    exists src m ps tk,
      proven c now req src m /\ approved m (hs_authz s) /\
      r = RReply (Some (Message_marshal (signedPeerList now (hc_priv c) (m_Token m) ps tk))) /\
      (ps = [] \/ exists p id, ps = [asProtocolPeer (endpoint (hc_adv c)) p] /\ id <> m_ID m /\
                  now - hp_seen p <= hr_ttl (hs_reg s) /\ registered c es s0 (m_Token m) id p)) rs.
Proof.
  intros Hs0 s Hh. apply handle_spec in Hh. destruct (Handshake_inv _ _ _ _ _ _ _ Hs0) as [Hi0 He].
  pose proof (hs_run_inv c es s0 Hi0) as Hi. fold s in Hi.
  destruct Hh as [s' rs _ _ Hrs | src m s' o' _ _ _ | src m s' o' _ _ _ | src m pub s' o' r1 res outs rs Hpr Hd Hpub Hu Hres].
  - eapply Forall_impl; [exact Hrs |]. intros r [? | [? | ?]]; auto.
  - by repeat constructor.
  - by repeat constructor.
  - apply decide_authz_spec in Hd as [Happ _]. specialize (Happ eq_refl).
    apply upsert_outcome in Hu as (_ & _ & Hu); [| apply Hi].
    destruct res as [[self [partner |]] |].
    + destruct Hres as (tk & _ & ->). apply Forall_singleton. right. right. right.
      exists src, m, [asProtocolPeer (endpoint (hc_adv c)) partner], tk. split_and!; [done | done | done | right].
      destruct (upserted_partner _ _ _ _ _ _ _ _ (hi_reg _ Hi) Hu) as (id & b & Hne & Hb & Hp & Hl).
      exists partner, id. split_and!; [done | done | done |].
      eapply entries_registered; [done | exact He | exact Hb | exact Hp].
    + destruct Hres as (_ & ->). apply Forall_singleton. right. right. right.
      exists src, m, [], None. split_and!; auto.
    + destruct Hres as (_ & ->). apply Forall_singleton. by left.
Qed.

(** What a request that is not served gets. *)
Definition no_roster (rs : list Response) : Prop :=
  Forall (fun r => r = RReply None \/ r = RReply (Some (Message_marshal replyIncompatible)) \/ exists why, r = RDrop why) rs.

(** C28. A forged request stores nothing: unless it proves possession of the key
    it claims (the TLS key, a valid signature over the unsealed registration,
    the current version, a fresh timestamp, an admissible source), it leaves
    the registry and the allowlist state as they were and draws no roster. *)
Theorem unproven_request_is_inert c now ch req s s' rs o :
  (forall src m, ~ proven c now req src m) ->
  handleControlReq c now ch req s = (s', rs, o) ->
  hs_reg s' = hs_reg s /\ hs_authz s' = hs_authz s /\ no_roster rs.
Proof.
  intros Hn Hh. apply handle_spec in Hh.
  destruct Hh as [s' rs -> -> Hrs | src m s' o' Hp _ _ | src m s' o' Hp _ _ | src m pub s' o' r1 res outs rs Hp _ _ _ _];
    [done | by destruct (Hn src m)..].
Qed.

Lemma parse_pubkey m0 m priv : resolveToken m0 priv = Some m -> m_PubKey m = m_PubKey m0.
Proof. unfold resolveToken. repeat case_match; by intros [= <-]. Qed.

(** C27. An unapproved key is inert: in approval mode a registration of a key that
    is not on the allowlist, however well formed and signed, never enters the
    registry, draws no roster and no ticket, changes no approval, and cannot
    displace an entry of the approved buddies' replay cache. *)
Theorem unapproved_key_is_inert c now ch req s a m s' rs o :
  hs_authz s = Some a -> parseRegister (rq_Payload req) = Some m -> allowed (m_PubKey m) a = false ->
  handleControlReq c now ch req s = (s', rs, o) ->
  hs_reg s' = hs_reg s /\ no_roster rs /\
  exists a', hs_authz s' = Some a' /\ keys a' = keys a /\ recentRegs a' = recentRegs a.
Proof.
  intros Ea Ep Hall Hh. apply handle_spec in Hh.
  assert (G : forall src m1 go az o', proven c now req src m1 ->
            decide_authz (hc_tokenLogKey c) now ch src m1 (hs_authz s) = (go, az, o') ->
            go = false /\ exists a', az = Some a' /\ keys a' = keys a /\ recentRegs a' = recentRegs a).
  { intros src m1 go az o' Hp Hd. rewrite Ea in Hd. cbn [decide_authz] in Hd.
    destruct (pr_parsed _ _ _ _ _ Hp) as (m0 & Hm0 & Hr). rewrite Ep in Hm0. injection Hm0 as <-.
    destruct (authorize _ _ _ _ _ _) as [[go' a'] o2] eqn:E. injection Hd as <- <- <-.
    apply authorize_ops in E as (_ & Hk & _ & Hno). rewrite (parse_pubkey _ _ _ Hr) in Hno.
    destruct (Hno Hall) as [-> Hr']. split; [done |]. by exists a'. }
  destruct Hh as [s' rs -> -> Hrs | src m1 s' o' Hp -> Hd | src m1 s' o' Hp Hreg Hd | src m1 pub s' o' r1 res outs rs Hp Hd _ _ _].
  - split_and!; [done | done |]. by exists a.
  - destruct (G _ _ _ _ _ Hp Hd) as [_ Hx]. split_and!; [done | by repeat constructor | done].
  - by destruct (G _ _ _ _ _ Hp Hd) as [? _].
  - by destruct (G _ _ _ _ _ Hp Hd) as [? _].
Qed.
End Theorems.
