(* ===== verification/Register.v ===== *)
(** * The buddy's side of a registration

    [internal/role/register.go] and [relaycred.go]: building one signed
    registration, the poll loop that waits for a signed roster and the checks
    it applies to it, and the credential a buddy keeps for one relay session.
    A poll is what happens around one attempt: the clock, the randomness drawn
    and what the server answers. *)

From S2P Require Import Prelude Base64 Sha256 Json NetAddr NetParse Crypto Protocol RosterWire Ticket RelayWire HsRegistry.
From S2P Require Handshake.

(** ** The credential for one relay session *)

Record relayCred := mkRelayCred {
  rc_priv : string;
  rc_pub : string;
  rc_payload : string;
  rc_sig : string;
  rc_sid : string;
}.

Inductive AdoptErr :=
| NoTicket | PayloadNotB64 | SigMalformed | TicketMalformed (why : Reason) | OtherEphKey.

(** [cred.have()], [nil] being [None]. *)
Definition have (c : option relayCred) : bool :=
  match c with Some c => negb (String.eqb (rc_sid c) "") | None => false end.

Definition bindCred (c : option relayCred) : option BindCred :=
  match c with
  | Some r => if have c then Some (mkBindCred (rc_payload r) (rc_sig r) (rc_priv r)) else None
  | None => None
  end.

Definition session (derived : string) (c : option relayCred) : string :=
  match c with Some r => if have c then rc_sid r else derived | None => derived end.

Definition epk (c : option relayCred) : string := match c with Some c => rc_pub c | None => "" end.

(** ** Checking a roster *)

Definition maxRosterCands : Z := maxCandsPerPeer.

Inductive RosterErr :=
| BadPeerID | BadPeerName | TooManyCands (n : Z) | NotLiteral (addr : string) | NotUnicast (addr : string) | RelayTooLong.

(** One candidate: a literal, unicast IP:port. *)
Definition check_cand (c : Candidate) : option RosterErr :=
  match ParseAddrPort (c_Addr c) with
  | None => Some (NotLiteral (c_Addr c))
  | Some (ip, zone, port) =>
      let a := Unmap ip in
      if (port =? 0) || IsUnspecified a zone || IsMulticast a then Some (NotUnicast (c_Addr c)) else None
  end.

Fixpoint first_err {A E} (f : A -> option E) (l : list A) : option E :=
  match l with [] => None | x :: r => match f x with Some e => Some e | None => first_err f r end end.

Definition checkRosterPeer (p : Peer) : option RosterErr :=
  if negb (Handshake.validField (p_ID p)) then Some BadPeerID
  else if negb (String.eqb (p_Name p) "") && negb (ValidName (p_Name p)) then Some BadPeerName
  else if maxRosterCands <? Z.of_nat (length (p_Candidates p)) then Some (TooManyCands (Z.of_nat (length (p_Candidates p))))
  else match first_err check_cand (p_Candidates p) with
       | Some e => Some e
       | None => if (MaxFieldLen <? slen (p_Relay p))%nat then Some RelayTooLong else None
       end.

(** [canonicalPeers].  [sort.Slice] leaves the order of equal keys open; a
    roster has none, and the signature fails on any other order. *)
Definition peer_le (a b : Peer) : Prop := str_ltb (p_ID b) (p_ID a) = false.
#[export] Instance peer_le_dec : RelDecision peer_le.
Proof. intros a b. unfold peer_le. apply _. Defined.

Definition sort_cands (p : Peer) : Peer :=
  mkPeer (p_ID p) (p_PubKey p) (p_VirtualIP p) (p_Name p) (merge_sort cand_le (p_Candidates p)) (p_Relay p) (p_LastSeen p).

Definition canonicalPeers (ps : list Peer) : list Peer := merge_sort peer_le (sort_cands <$> ps).

(** ** One attempt *)

Record BuddyConfig := mkBuddyConfig { bc_Name : string; bc_Code : string }.

Record node := mkNode { nd_priv : string; nd_pub : string; nd_id : string; nd_vip : string; nd_serverPub : string }.

(** What an attempt draws: the nonce, and for each sealed box the ephemeral key
    and nonce; [None] where the draw (or the conversion of the server's key)
    fails. *)
Record Draw := mkDraw { d_nonce : option string; d_code : option (string * string); d_token : option (string * string) }.

Inductive RegErr :=
| NonceFailed | SealCodeFailed | SealTokenFailed | DialFailed
| Incompatible (ver : Z) | SigInvalid | RosterInvalid (e : RosterErr) | TimedOut.

Inductive BuddyLog := BWaiting | BSkew (d : Z) | BRosterInvalid (key : string) (e : RosterErr).

Section Register.
Context `{Ed25519} `{Box} (merged : string -> option Message).

Definition newRelayCred (eph : string) : relayCred :=
  mkRelayCred eph (RawURL.EncodeToString (pub_of eph)) "" "" "".

(** [adopt]: the credential with the ticket in place, or why it is of no use;
    a refusal leaves the credential as it was. *)
Definition adopt (c : option relayCred) (rt : option RelayTicket) : result AdoptErr relayCred :=
  match c, rt with
  | Some c, Some rt =>
      match RawURL.DecodeString (rt_Payload rt) with
      | None => Err PayloadNotB64
      | Some payload =>
          match RawURL.DecodeString (rt_Sig rt) with
          | None => Err SigMalformed
          | Some sig =>
              if negb (slen sig =? SignatureSize)%nat then Err SigMalformed
              else match Parse payload with
                   | Err e => Err (TicketMalformed e)
                   | Ok p =>
                       if negb (String.eqb (EPK p) (rc_pub c)) then Err OtherEphKey
                       else Ok (mkRelayCred (rc_priv c) (rc_pub c) payload sig (SID p))
                   end
          end
      end
  | _, _ => Err NoTicket
  end.

Definition with_code (m : Message) (enc : string) : Message :=
  mkMessage (m_Type m) (m_Ver m) (m_Token m) (m_TokenEnc m) (m_Role m) (m_ID m) (m_PubKey m) (m_VirtualIP m)
    (m_Name m) (m_Ts m) (m_Nonce m) (m_RegSig m) enc (m_EphPub m) (m_Peers m) (m_Sig m)
    (m_Ticket m) (m_From m) (m_To m) (m_RelayEndpoint m) (m_RelayPubKey m) (m_FromPubKey m)
    (m_ToPubKey m) (m_SessionToken m).

Definition with_regsig (m : Message) (sig : string) : Message :=
  mkMessage (m_Type m) (m_Ver m) (m_Token m) (m_TokenEnc m) (m_Role m) (m_ID m) (m_PubKey m) (m_VirtualIP m)
    (m_Name m) (m_Ts m) (m_Nonce m) sig (m_CodeEnc m) (m_EphPub m) (m_Peers m) (m_Sig m)
    (m_Ticket m) (m_From m) (m_To m) (m_RelayEndpoint m) (m_RelayPubKey m) (m_FromPubKey m)
    (m_ToPubKey m) (m_SessionToken m).

(** [setToken]: the token is sealed and its cleartext dropped. *)
Definition setToken (d : Draw) (m : Message) (rendezvous serverPub : string) : result RegErr Message :=
  match d_token d with
  | None => Err SealTokenFailed
  | Some (e, n) =>
      Ok (mkMessage (m_Type m) (m_Ver m) "" (SealCode e n rendezvous serverPub) (m_Role m) (m_ID m) (m_PubKey m)
            (m_VirtualIP m) (m_Name m) (m_Ts m) (m_Nonce m) (m_RegSig m) (m_CodeEnc m) (m_EphPub m) (m_Peers m)
            (m_Sig m) (m_Ticket m) (m_From m) (m_To m) (m_RelayEndpoint m) (m_RelayPubKey m) (m_FromPubKey m)
            (m_ToPubKey m) (m_SessionToken m))
  end.

Definition sign_registration (nd : node) (m : Message) : Message :=
  with_regsig m (Std.EncodeToString (ed_sign (nd_priv nd) (RegistrationPayload m))).

(** The enrollment code, sealed before signing. *)
Definition add_code (d : Draw) (cfg : BuddyConfig) (nd : node) (m : Message) : result RegErr Message :=
  if negb (String.eqb (bc_Code cfg) "") then
    match d_code d with
    | None => Err SealCodeFailed
    | Some (e, n) => Ok (with_code m (SealCode e n (bc_Code cfg) (nd_serverPub nd)))
    end
  else Ok m.

Definition buildRegister (now : Z) (d : Draw) (cfg : BuddyConfig) (nd : node) (rendezvous ephPub : string)
    : result RegErr string :=
  match d_nonce d with
  | None => Err NonceFailed
  | Some rand =>
      let m := mkMessage TypeRegister Version rendezvous "" "buddy" (nd_id nd) (nd_pub nd) (nd_vip nd) (bc_Name cfg)
                 (unix now) (NewNonce rand) "" "" ephPub [] "" None "" "" "" "" "" "" "" in
      let? m1 := add_code d cfg nd m in
      let? m2 := setToken d (sign_registration nd m1) rendezvous (nd_serverPub nd) in
      Ok (Message_marshal m2)
  end.

(** ** The reply *)

Inductive Outcome := Keep | Done (r : result RegErr (Peer * option RelayTicket)).

(** [noteSkew]: one line per registration. *)
Definition noteSkew (d : Z) (noted : bool) : bool * list BuddyLog := if noted then (true, []) else (true, [BSkew d]).

Definition rosterSkew : Z := 60 * second.

Definition on_reply (now : Z) (serverPub rendezvous : string) (noted : bool) (resp : string)
    : Outcome * bool * list BuddyLog :=
  match Roster_unmarshal merged resp with
  | None => (Keep, noted, [])
  | Some r =>
      if negb (String.eqb (m_Type r) TypePeerList) then (Keep, noted, [])
      else if negb (m_Ver r =? Version) then (Done (Err (Incompatible (m_Ver r))), noted, [])
      else
        let peers := canonicalPeers (m_Peers r) in
        let signed := match Std.DecodeString (m_Sig r) with
                      | None => false
                      | Some sig => ed_verify serverPub (PeerListPayload rendezvous (m_Ts r) peers) sig
                      end in
        if negb signed then (Done (Err SigInvalid), noted, [])
        else
          let d := now - of_unix (m_Ts r) in
          match (d <=? rosterSkew) && (- rosterSkew <=? d), peers with
          | true, p :: _ =>
              match checkRosterPeer p with
              | Some e => (Done (Err (RosterInvalid e)), noted, [BRosterInvalid (keyTag (p_PubKey p)) e])
              | None => (Done (Ok (p, m_Ticket r)), noted, [])
              end
          | true, [] => (Keep, noted, [])
          | false, _ => let '(noted', o) := noteSkew d noted in (Keep, noted', o)
          end
  end.

(** ** The poll loop *)

(** One turn: when it starts, what it draws, what the server answers to the
    bytes sent ([None]: the round trip failed), and when that is settled. *)
Record Poll := mkPoll { po_start : Z; po_draw : Draw; po_answer : string -> option string; po_end : Z }.

(** The turns left are the ones the timeout allows; running out of them is the
    timeout. *)
Fixpoint poll_loop (cfg : BuddyConfig) (nd : node) (rendezvous ephPub : string) (noted : bool) (lastLog : Z)
    (polls : list Poll) : result RegErr (Peer * option RelayTicket) * list BuddyLog :=
  match polls with
  | [] => (Err TimedOut, [])
  | p :: rest =>
      match buildRegister (po_start p) (po_draw p) cfg nd rendezvous ephPub with
      | Err e => (Err e, [])
      | Ok body =>
          let '(out, noted1, o1) :=
            match po_answer p body with
            | None => (Keep, noted, [])
            | Some resp => on_reply (po_end p) (nd_serverPub nd) rendezvous noted resp
            end in
          match out with
          | Done r => (r, o1)
          | Keep =>
              let '(last1, o2) :=
                if 5 * second <=? po_end p - lastLog then (po_end p, [BWaiting]) else (lastLog, []) in
              let '(r, o3) := poll_loop cfg nd rendezvous ephPub noted1 last1 rest in
              (r, o1 ++ o2 ++ o3)
          end
      end
  end.

Definition buddyRegister (dialled : bool) (cfg : BuddyConfig) (nd : node) (rendezvous : string) (cred : option relayCred)
    (polls : list Poll) : result RegErr (Peer * option RelayTicket) * list BuddyLog :=
  if negb dialled then (Err DialFailed, [])
  else poll_loop cfg nd rendezvous (epk cred) false zeroTime polls.
End Register.
