(* ===== verification/RegisterProps.v ===== *)
(** * A buddy and an honest server understand each other

    What a buddy builds passes every check of the server it is sealed to, and
    every roster an honest server signs is accepted by the buddy it answers. *)

From S2P Require Import Prelude Base64 Sha256 Json NetAddr NetParse Crypto Protocol RosterWire Ticket RelayWire HsRegistry.
From S2P Require Import Authz AuthzFile AuthzProps Handshake HandshakeProps Register.
From S2P Require RateLimit.

(** ** Text *)

Abbreviation ascii_text s := (all_chars is_ascii s = true).

Lemma Std_char_ascii n : 0 <= n < 64 -> is_ascii (b64_char encodeStd n) = true.
Proof.
  intros H. assert (A : forallb (fun n => is_ascii (b64_char encodeStd n)) sextets = true) by (vm_compute; reflexivity).
  rewrite forallb_forall in A. apply A, sextets_complete, H.
Qed.

Lemma Std_encode_ascii s : ascii_text (Std.EncodeToString s).
Proof.
  unfold Std.EncodeToString. induction s as [| a | a b | a b c s IH] using string_ind3; simpl;
    rewrite ?Std_char_ascii by apply sextet_range; simpl; auto.
Qed.

Lemma b64_val_ascii c n : b64_val encodeStd c = Some n -> is_ascii c = true.
Proof.
  intros H. assert (A : forallb (fun c => match b64_val encodeStd c with Some _ => is_ascii c | None => true end) all_bytes = true)
    by (vm_compute; reflexivity).
  rewrite forallb_forall in A. specialize (A c (all_bytes_complete c)). cbv beta in A. by rewrite H in A.
Qed.

(** Base64 text that decodes is ASCII, skipped newlines included. *)
Lemma decode_padded_ascii s r : decode_padded encodeStd s = Some r -> ascii_text s.
Proof.
  revert r. induction s as [| a | a b | a b c | a b c d s IH] using string_ind4; intros r; cbn [decode_padded]; try done.
  assert (E : Ascii.eqb c "=" = true -> is_ascii c = true) by (by intros ->%Ascii.eqb_eq).
  assert (F : Ascii.eqb d "=" = true -> is_ascii d = true) by (by intros ->%Ascii.eqb_eq).
  cbn [all_chars]. destruct (Ascii.eqb c "=" && Ascii.eqb d "=") eqn:E1; [| destruct (Ascii.eqb d "=") eqn:E2].
  - destruct s; [| done]. apply andb_true_iff in E1 as [Ec Ed].
    destruct (b64_val _ a) eqn:Ha; [| done]. destruct (b64_val _ b) eqn:Hb; [| done]. intros _.
    by rewrite (b64_val_ascii _ _ Ha), (b64_val_ascii _ _ Hb), E, F.
  - destruct s; [| done]. destruct (b64_val _ a) eqn:Ha; [| done]. destruct (b64_val _ b) eqn:Hb; [| done].
    destruct (b64_val _ c) eqn:Hc; [| done]. intros _.
    by rewrite (b64_val_ascii _ _ Ha), (b64_val_ascii _ _ Hb), (b64_val_ascii _ _ Hc), F.
  - destruct (b64_val _ a) eqn:Ha; [| done]. destruct (b64_val _ b) eqn:Hb; [| done].
    destruct (b64_val _ c) eqn:Hc; [| done]. destruct (b64_val _ d) eqn:Hd; [| done]. cbn [mbind option_bind].
    destruct (decode_padded _ s) eqn:Hs; [| done]. intros _.
    by rewrite (b64_val_ascii _ _ Ha), (b64_val_ascii _ _ Hb), (b64_val_ascii _ _ Hc), (b64_val_ascii _ _ Hd), (IH _ eq_refl).
Qed.

Lemma drop_newlines_ascii s : ascii_text (drop_newlines s) -> ascii_text s.
Proof.
  induction s as [| c s IH]; [done |]. cbn [drop_newlines all_chars]. destruct (is_newline c) eqn:E.
  - intros H. rewrite IH by done. unfold is_newline in E. unfold is_ascii. apply andb_true_iff. split; [| done].
    apply orb_true_iff in E as [E | E]; apply Z.eqb_eq in E; apply Z.ltb_lt; lia.
  - cbn [all_chars]. intros [-> H]%andb_true_iff. by apply IH.
Qed.

Lemma Std_decode_ascii s r : Std.DecodeString s = Some r -> ascii_text s.
Proof. intros H. by apply drop_newlines_ascii, (decode_padded_ascii _ r). Qed.

Lemma b64url_ascii s : all_chars is_b64url s = true -> ascii_text s.
Proof.
  apply all_chars_impl. intros c. unfold is_b64url, is_ascii. intros H. apply Z.ltb_lt.
  repeat (apply orb_true_iff in H as [H | H]); breflect; lia.
Qed.

Lemma digits_ascii s : all_chars is_digit s = true -> ascii_text s.
Proof. apply all_chars_impl. intros c. unfold is_digit, between, is_ascii. intros H. breflect. apply Z.ltb_lt. lia. Qed.

Lemma string4_ascii b : ascii_text (string4 b).
Proof.
  unfold string4. induction b as [| c b IH]; [done |].
  pose proof (digits_ascii _ (itoa_byte_digits c)) as Hc.
  destruct b as [| d b]; [done |]. cbn [byte_list fmap list_fmap join] in *.
  rewrite !all_chars_app, Hc. cbn [all_chars]. by rewrite IH.
Qed.

Lemma hexcolon_ascii s : all_chars hex_or_colon s = true -> ascii_text s.
Proof.
  apply all_chars_impl. intros c. unfold hex_or_colon, hex_val, is_ascii. intros H. apply Z.ltb_lt.
  apply orb_true_iff in H as [H | H]; [| by apply Ascii.eqb_eq in H as ->].
  apply bool_decide_eq_true in H. repeat case_match; breflect; try lia. by destruct H.
Qed.

Lemma VirtualIPString_ascii pub : ascii_text (VirtualIPString pub).
Proof. unfold VirtualIPString, VirtualIP. destruct (fold_host _ _). apply string4_ascii. Qed.

Lemma ascii_utf8 s : ascii_text s -> valid_utf8 s = true.
Proof. apply ascii_valid_utf8. Qed.

Lemma UDPAddr_String_ascii a : valid_ip (IPof a) -> 0 <= Port a <= 65535 -> ascii_text (UDPAddr_String a).
Proof.
  intros Hv Hp. assert (Hport : ascii_text (itoa (Port a))) by (apply digits_ascii; apply itoa_nonneg; lia).
  assert (Hh : ascii_text (IP_String (IPof a))).
  { unfold IP_String. case_match; [done |]. destruct (To4 (IPof a)) as [b |] eqn:E; [apply string4_ascii |].
    assert (H16 : slen (IPof a) = 16%nat).
    { destruct Hv as [Hv | Hv]; [| done]. unfold To4 in E. by rewrite Hv in E. }
    rewrite H16. cbn [Nat.eqb]. apply hexcolon_ascii. apply string6_chars; [apply hextets_group |].
    destruct (pack_hextets 8 _ H16) as [_ ->]. lia. }
  unfold UDPAddr_String, JoinHostPort. destruct (contains_char _ _); rewrite !all_chars_app, Hh, Hport; done.
Qed.

#[export] Hint Resolve Std_encode_ascii VirtualIPString_ascii ascii_utf8 : buddy.

Lemma validField_spec s : validField s = true -> s <> "" /\ (slen s <= 128)%nat /\ ascii_text s.
Proof.
  unfold validField. intros [[Hn Hl]%andb_true_iff Hc]%andb_true_iff. split_and!.
  - by intros ->.
  - by apply Nat.leb_le in Hl.
  - by apply b64url_ascii.
Qed.

Section Honest.
Context `{Ed25519Laws} `{!Box} `{!BoxLaws} (merged : string -> option Message).

(** A buddy set up for a server: its key, address and id are its own, and it
    pins the server's key. *)
Record honest_node (c : HsConfig) (nd : node) : Prop := {
  hn_pub : nd_pub nd = PubKeyB64 (pub_of (nd_priv nd));
  hn_vip : nd_vip nd = VirtualIPString (pub_of (nd_priv nd));
  hn_id : validField (nd_id nd) = true;
  hn_server : nd_serverPub nd = pub_of (hc_priv c);
}.

(** The sizes the random draws have. *)
Record drawn (d : Draw) : Prop := {
  dr_nonce : forall r, d_nonce d = Some r -> slen r = NonceLen;
  dr_code : forall e n, d_code d = Some (e, n) -> slen n = 24%nat;
  dr_token : forall e n, d_token d = Some (e, n) -> slen n = 24%nat;
}.

(** A code whose sealed form the server still accepts. *)
Definition maxCodeLen : nat := 312.

Lemma SealCode_len e n code pub :
  slen n = 24%nat -> slen (SealCode e n code pub) = ((slen code + 74) / 3 * 4)%nat.
Proof.
  intros Hn. unfold SealCode. rewrite Std_encoded_len, !slen_app, box_pub_size, box_seal_size, Hn.
  unfold BoxOverhead. do 2 f_equal. lia.
Qed.

Lemma SealCode_short e n code pub k :
  slen n = 24%nat -> (slen code <= k)%nat -> (k <= maxCodeLen)%nat ->
  (slen (SealCode e n code pub) <= maxCodeEncLen)%nat /\ SealCode e n code pub <> "".
Proof.
  intros Hn Hk Hm. pose proof (SealCode_len e n code pub Hn) as Hl. unfold maxCodeLen, maxCodeEncLen in *. split.
  - rewrite Hl. pose proof (Nat.Div0.div_le_mono (slen code + 74) 386 3 ltac:(lia)) as G.
    change (386 / 3)%nat with 128%nat in G. lia.
  - intros E. rewrite E in Hl. pose proof (Nat.Div0.div_le_mono 74 (slen code + 74) 3 ltac:(lia)) as G.
    change (74 / 3)%nat with 24%nat in G. cbn [String.length] in Hl. lia.
Qed.

Lemma add_code_spec d cfg nd m m' :
  add_code d cfg nd m = Ok m' -> (slen (bc_Code cfg) <= maxCodeLen)%nat ->
  (forall e n, d_code d = Some (e, n) -> slen n = 24%nat) -> m_CodeEnc m = "" ->
  exists enc, m' = with_code m enc /\ ascii_text enc /\ (slen enc <= maxCodeEncLen)%nat.
Proof.
  unfold add_code. intros Ha Hl Hd Hm. destruct (negb _).
  - destruct (d_code d) as [[e n] |]; [| done]. injection Ha as <-. eexists. split_and!; [done | apply Std_encode_ascii |].
    by apply (SealCode_short _ _ _ _ (slen (bc_Code cfg))); [eapply Hd | lia |].
  - injection Ha as <-. exists "". unfold maxCodeEncLen. split_and!; [| done | cbn; lia].
    destruct m. cbn in Hm. by subst.
Qed.

(** What the server has after unsealing the token of a registration built at
    [tc]: the buddy's own fields under its signature. *)
Record built (tc : Z) (cfg : BuddyConfig) (nd : node) (rv ephPub : string) (m : Message) : Prop := {
  bu_token : m_Token m = rv;
  bu_id : m_ID m = nd_id nd;
  bu_pub : m_PubKey m = nd_pub nd;
  bu_vip : m_VirtualIP m = nd_vip nd;
  bu_name : m_Name m = bc_Name cfg;
  bu_eph : m_EphPub m = ephPub;
  bu_ts : m_Ts m = unix tc;
  bu_sig : ed_verify (pub_of (nd_priv nd)) (RegistrationPayload m) (ed_sign (nd_priv nd) (RegistrationPayload m)) = true;
  bu_regsig : m_RegSig m = Std.EncodeToString (ed_sign (nd_priv nd) (RegistrationPayload m));
}.

Lemma buildRegister_wire tc d c cfg nd rv ephPub body :
  buildRegister tc d cfg nd rv ephPub = Ok body ->
  honest_node c nd -> drawn d -> validField rv = true -> (slen (bc_Code cfg) <= maxCodeLen)%nat ->
  valid_utf8 (bc_Name cfg) = true -> valid_utf8 ephPub = true -> in_int64 (unix tc) ->
  exists m0 m,
    parseRegister body = Some m0 /\ resolveToken m0 (hc_priv c) = Some m /\ built tc cfg nd rv ephPub m /\
    m_Ver m0 = Version /\ m_PubKey m0 = nd_pub nd /\ ValidNonce (m_Nonce m0) = true /\ m_Nonce m = m_Nonce m0 /\
    m_RegSig m0 = m_RegSig m /\ m_Ver m = Version.
Proof.
  intros Hb [Hpub Hvip Hid Hsrv] [Hdn Hdc Hdt] Hrv Hcode Hname Heph Hts. unfold buildRegister in Hb.
  destruct (d_nonce d) as [rand |] eqn:En; [| done]. specialize (Hdn _ eq_refl).
  set (m := mkMessage TypeRegister _ _ _ _ _ _ _ _ _ _ _ _ _ _ _ _ _ _ _ _ _ _ _) in Hb.
  destruct (add_code d cfg nd m) as [m1 |] eqn:Ec; [| done].
  destruct (add_code_spec _ _ _ _ _ Ec Hcode Hdc eq_refl) as (enc & -> & Hea & Hel).
  unfold setToken in Hb. destruct (d_token d) as [[e n] |] eqn:Et; [| done]. specialize (Hdt _ _ eq_refl).
  set (sg := sign_registration nd (with_code m enc)) in Hb.
  set (tenc := SealCode e n rv (nd_serverPub nd)) in Hb.
  destruct (validField_spec _ Hrv) as (Hrne & Hrl & _).
  destruct (SealCode_short e n rv (nd_serverPub nd) 128 Hdt Hrl) as [Htl Htne]; [unfold maxCodeLen; lia |].
  fold tenc in Htl, Htne. set (m2 := mkMessage _ _ "" tenc _ _ _ _ _ _ _ _ _ _ _ _ _ _ _ _ _ _ _ _) in Hb.
  injection Hb as <-.
  assert (W : Message_unmarshal (Message_marshal m2) = Some m2).
  { assert (Hw : m2 = on_wire m2) by done. rewrite Hw at 2. apply message_wire; [| done].
    split; [vm_compute; split; discriminate | done |].
    assert (valid_utf8 (nd_id nd) = true).
    { destruct (validField_spec _ Hid) as (_ & _ & ?). by apply ascii_utf8. }
    repeat (apply Forall_cons; split); try apply Forall_nil; cbn; try done; rewrite ?Hpub, ?Hvip; auto with buddy.
    - apply ascii_utf8, Std_encode_ascii.
    - apply ascii_utf8, b64url_ascii, RawURL_encode_alphabet. }
  assert (Hpl : slen (nd_pub nd) = 44%nat).
  { rewrite Hpub. unfold PubKeyB64. rewrite Std_encoded_len, pub_size. done. }
  assert (Hn : slen (NewNonce rand) = nonceB64Len).
  { unfold NewNonce. rewrite RawURL_encoded_len, Hdn. done. }
  assert (P : parseRegister (Message_marshal m2) = Some m2).
  { unfold parseRegister. rewrite W. cbn [mbind option_bind].
    change (m_ID m2) with (nd_id nd). change (m_PubKey m2) with (nd_pub nd). change (m_CodeEnc m2) with enc.
    change (m_Nonce m2) with (NewNonce rand). change (m_TokenEnc m2) with tenc. rewrite Hid, Hpl, Hn.
    change (String.eqb (m_Type m2) TypeRegister) with true. cbn [negb orb].
    change ((MaxFieldLen <? 44)%nat) with false. change ((MaxFieldLen <? nonceB64Len)%nat) with false.
    destruct (Nat.ltb_spec maxCodeEncLen (slen enc)); [lia |]. cbn [orb].
    destruct (String.eqb_spec tenc ""); [done |]. by destruct (Nat.ltb_spec maxCodeEncLen (slen tenc)); [lia |]. }
  assert (R : resolveToken m2 (hc_priv c) = Some (with_token m2 rv)).
  { unfold resolveToken. change (m_TokenEnc m2) with tenc. unfold tenc. rewrite Hsrv, OpenCode_SealCode by done.
    by rewrite Hrv. }
  exists m2, (with_token m2 rv). split; [exact P |]. split; [exact R |].
  split; [split; try done; apply sig_verifies |]. repeat split; try done. by apply NewNonce_valid.
Qed.

(** A registration a buddy builds passes every check of the server whose key
    it pins, provided their clocks agree to within a minute: the server gets
    back exactly what the buddy meant (its token unsealed, its id, key, name
    and ephemeral key) and accepts it as proven, whatever the randomness. *)
Theorem honest_registration_proven tc now d c cfg nd rv ephPub body src :
  buildRegister tc d cfg nd rv ephPub = Ok body ->
  honest_node c nd -> drawn d -> validField rv = true -> (slen (bc_Code cfg) <= maxCodeLen)%nat ->
  valid_utf8 (bc_Name cfg) = true -> valid_utf8 ephPub = true -> in_int64 (unix tc) ->
  cidrAllowed (hc_allowed c) (IPof src) = true -> tc - 60 * second <= now <= tc + 59 * second ->
  exists m, checks c now (mkRequest (Some src) body (pub_of (nd_priv nd))) src m /\ built tc cfg nd rv ephPub m.
Proof.
  intros Hb Hn Hd Hrv Hc Hname Heph Hts Hsrc Hnow.
  destruct (buildRegister_wire _ _ _ _ _ _ _ _ Hb Hn Hd Hrv Hc Hname Heph Hts)
    as (m0 & m & Hp & Hr & B & Hv0 & Hpk0 & Hnon & Hnn & Hrs & Hv). exists m. split; [| exact B].
  assert (Hkey : std_bytes PublicKeySize (m_PubKey m) = Some (pub_of (nd_priv nd))).
  { unfold std_bytes. rewrite (bu_pub _ _ _ _ _ _ B), (hn_pub _ _ Hn). unfold PubKeyB64.
    rewrite Std_decode_encode. cbn [mbind option_bind]. by rewrite pub_size. }
  assert (Hsig : std_bytes SignatureSize (m_RegSig m) = Some (ed_sign (nd_priv nd) (RegistrationPayload m))).
  { unfold std_bytes. rewrite (bu_regsig _ _ _ _ _ _ B), Std_decode_encode. cbn [mbind option_bind]. by rewrite sig_size. }
  split; cbn [rq_Remote rq_Payload rq_ClientKey]; try done.
  - eauto.
  - unfold registrationMatchesTLSKey. rewrite pub_size, Hkey. cbn. apply String.eqb_refl.
  - unfold requireV7Fields. rewrite Hnn, Hnon, Hkey, Hsig. done.
  - unfold verifyRegistration. rewrite Hnn, Hnon, Hkey, Hsig, (bu_ts _ _ _ _ _ _ B). cbn [negb].
    pose proof (unix_bounds tc) as Hu. unfold regSkew, second in *.
    destruct (Z.ltb_spec (60 * 1000000000) (now - of_unix (unix tc))); [lia |].
    destruct (Z.ltb_spec (now - of_unix (unix tc)) (- (60 * 1000000000))); [lia |]. apply B.
Qed.
End Honest.
