(* ===== verification/RosterProps.v ===== *)
(** * Every roster an honest server signs is accepted

    The entries of a server that was reached from real unicast sources satisfy
    the buddy's checks, the signed bytes are the ones the buddy rebuilds, and
    so an honest answer never looks like an attack. *)

From Stdlib Require Import Sorted.
From S2P Require Import Prelude Base64 Sha256 Json NetAddr NetParse Crypto Protocol RosterWire Ticket RelayWire HsRegistry.
From S2P Require Import Authz AuthzFile AuthzProps Handshake HandshakeProps Register RegisterProps.
From S2P Require RateLimit.

(** ** Canonical order *)

#[local] Instance cand_le_total : Total cand_le.
Proof.
  intros a b. unfold cand_le. destruct (str_ltb (c_Addr b) (c_Addr a)) eqn:E; [right | by left]. by apply str_ltb_asym.
Qed.

#[local] Instance cand_le_trans : Transitive cand_le.
Proof.
  intros a b c. unfold cand_le. intros Hab Hbc. destruct (str_ltb (c_Addr c) (c_Addr a)) eqn:E; [| done].
  destruct (str_ltb (c_Addr b) (c_Addr c)) eqn:E2.
  - pose proof (str_ltb_trans _ _ _ E2 E). congruence.
  - pose proof (str_ltb_total _ _ Hbc E2) as Heq. congruence.
Qed.

Lemma candidates_canonical id p : peer_inv id p -> merge_sort cand_le (candidates p) = candidates p.
Proof.
  intros [_ _ Hk]. unfold candidates. set (l := (map_to_list (hp_cands p)).*2).
  apply (StronglySorted_unique_strong cand_le).
  - intros x y Hx Hy. rewrite merge_sort_Permutation in Hx. rewrite merge_sort_Permutation in Hx, Hy.
    unfold l in Hx, Hy. apply list_elem_of_fmap in Hx as ([kx cx] & -> & Hx%elem_of_map_to_list).
    apply list_elem_of_fmap in Hy as ([ky cy] & -> & Hy%elem_of_map_to_list). cbn [snd]. unfold cand_le. intros H1 H2.
    pose proof (Hk _ _ Hx) as E1. pose proof (Hk _ _ Hy) as E2. cbn in E1, E2.
    pose proof (str_ltb_total _ _ H1 H2). congruence.
  - apply (StronglySorted_merge_sort cand_le).
  - apply (StronglySorted_merge_sort cand_le).
  - by rewrite merge_sort_Permutation.
Qed.

Lemma canonical_roster relay id p : peer_inv id p -> canonicalPeers [asProtocolPeer relay p] = [asProtocolPeer relay p].
Proof.
  intros Hp. unfold canonicalPeers. cbn [fmap list_fmap]. unfold sort_cands, asProtocolPeer. cbn [p_Candidates p_ID p_PubKey p_VirtualIP p_Name p_Relay p_LastSeen].
  by rewrite (candidates_canonical _ _ Hp).
Qed.

(** ** Sources a socket can report *)

Record real_src (a : UDPAddr) : Prop := {
  rs_ip : valid_ip (IPof a);
  rs_port : 0 < Port a <= 65535;
  rs_unicast : IsUnspecified (addr_of (IPof a)) "" = false /\ IsMulticast (addr_of (IPof a)) = false;
}.

Lemma Unmap_addr_of ip : valid_ip ip -> Unmap (addr_of ip) = addr_of ip.
Proof.
  intros Hv. unfold addr_of. destruct (To4 ip) as [b |] eqn:E; [done |]. unfold To4 in E. cbn [Unmap].
  destruct Hv as [Hv | Hv]; rewrite Hv in E; [done |]. cbn [Nat.eqb andb] in E.
  by destruct (has_prefix v4_in_6 ip).
Qed.

(** A candidate address the buddy takes. *)
Definition good_addr (k : string) : Prop := ascii_text k /\ forall v6, check_cand (mkCandidate k v6) = None.

Lemma real_src_good src : real_src src -> good_addr (UDPAddr_String src).
Proof.
  intros [Hv Hp [Hu Hm]]. split; [apply UDPAddr_String_ascii; [done | lia] |]. intros v6. unfold check_cand. cbn [c_Addr].
  rewrite ParseAddrPort_String by (done || lia). rewrite Unmap_addr_of, Hu, Hm by done.
  by destruct (Z.eqb_spec (Port src) 0); [lia |].
Qed.

(** ** Entries of the registry *)

Record entry_good (p : hsPeer) : Prop := {
  eg_id : validField (hp_id p) = true;
  eg_pub : ascii_text (hp_pubkey p);
  eg_vip : ascii_text (hp_virtualIP p);
  eg_name : hp_name p = "" \/ ValidName (hp_name p) = true;
  eg_seen : in_int64 (unix (hp_seen p));
  eg_cands : map_Forall (fun k _ => good_addr k) (hp_cands p);
}.

Definition all_good (r : hsRegistry) : Prop :=
  forall tok b id p, waiting r !! tok = Some b -> b !! id = Some p -> entry_good p.

Lemma ValidName_ascii s : ValidName s = true -> ascii_text s.
Proof.
  unfold ValidName, nameRE. intros [[[_ _]%andb_true_iff Hn]%andb_true_iff _]%andb_true_iff. destruct s as [| c s]; [done |].
  apply andb_true_iff in Hn as [Hc Ht]. rewrite name_tail_spec in Ht. apply andb_true_iff in Ht as [Ht _].
  assert (L : forall x, label_char x = true -> is_ascii x = true).
  { intros x. unfold label_char, label_edge, between, is_ascii. intros H. apply Z.ltb_lt.
    repeat (apply orb_true_iff in H as [H | H]); breflect; try lia. by apply Ascii.eqb_eq in H as ->. }
  cbn [all_chars]. rewrite (L c); [| unfold label_char; by rewrite Hc]. cbn. by eapply all_chars_impl.
Qed.

(** What a registration makes of an entry keeps it good. *)
Lemma refresh_good now m src p :
  (entry_good p \/ (validField (hp_id p) = true /\ hp_pubkey p = "" /\ hp_virtualIP p = "" /\ hp_name p = "" /\ hp_cands p = ∅)) ->
  real_src src -> ascii_text (m_PubKey m) -> ascii_text (m_VirtualIP m) -> in_int64 (unix now) ->
  entry_good (refresh now m src p).
Proof.
  intros Hp Hs Hpk Hv Hn.
  assert (P : validField (hp_id p) = true /\ ascii_text (hp_pubkey p) /\ ascii_text (hp_virtualIP p) /\
              (hp_name p = "" \/ ValidName (hp_name p) = true) /\ map_Forall (fun k _ => good_addr k) (hp_cands p)).
  { destruct Hp as [[? ? ? ? ? ?] | (? & -> & -> & -> & ->)]; split_and!; auto. apply map_Forall_empty. }
  destruct P as (Hid & Hk & Hvp & Hname & Hc). unfold refresh, observe, set_if.
  split; cbn [hp_id hp_pubkey hp_virtualIP hp_name hp_seen hp_cands]; try done.
  - by destruct (negb _).
  - by destruct (negb _).
  - destruct (negb _); [| done]. cbn [andb]. destruct (ValidName (m_Name m)) eqn:E; auto.
  - destruct (_ && _); [done |]. apply map_Forall_insert_2; [by apply real_src_good | done].
Qed.

Section Roster.
Context `{Ed25519Laws} `{!Box} `{!BoxLaws} (merged : string -> option Message).

(** Requests arrive from real sources while the clock is in range. *)
Definition real_event (e : HsEvent) : Prop :=
  match e with
  | EvRequest now _ req => in_int64 (unix now) /\ forall src, rq_Remote req = Some src -> real_src src
  | _ => True
  end.

Lemma proven_texts c now req src m :
  proven c now req src m -> validField (m_ID m) = true /\ ascii_text (m_PubKey m).
Proof.
  intros Hp. destruct (pr_parsed _ _ _ _ _ Hp) as (m0 & Hm & Hr). split.
  - unfold parseRegister in Hm. destruct (Message_unmarshal _) as [m1 |]; [| done]. cbn [mbind option_bind] in Hm.
    destruct (negb (String.eqb _ _)); [done |]. destruct (negb (validField (m_ID m1))) eqn:Ev; [done |]. cbn [orb] in Hm.
    assert (m0 = m1) as -> by (repeat case_match; congruence).
    unfold resolveToken in Hr. destruct (OpenCode _ _) as [tok |]; [| done]. destruct (validField tok); [| done]. injection Hr as <-.
    by apply negb_false_iff in Ev.
  - destruct (std_bytes_pubkey _ _ (pr_key _ _ _ _ _ Hp)) as [_ Hd]. unfold DecodePubKey in Hd.
    destruct (Std.DecodeString _) eqn:E; [| done]. by eapply Std_decode_ascii.
Qed.

Lemma handled_good c now ch req s s' rs :
  handled c now ch req s s' rs -> reg_inv None (hs_reg s) -> all_good (hs_reg s) ->
  real_event (EvRequest now ch req) -> all_good (hs_reg s').
Proof.
  intros Hh Hr Hg [Hn Hreal].
  destruct Hh as [s' rs E _ _ | src m s' o _ E Hd | src m s' o _ E Hd | src m pub s' o r1 res outs rs Hpr Hd Hpub Hu Hres];
    [by rewrite E.. |]. intros tok b id p Hb Hp.
  assert (Hw : waiting (hs_reg s') = waiting r1).
  { destruct res as [[self [partner |]] |]; [| by destruct Hres as [-> _] | by destruct Hres as [-> _]].
    destruct Hres as (tk & Ht & _). apply issueTicket_frame in Ht as [-> | ->];
      rewrite ?sidFor_waiting; apply notePaired_frame. }
  rewrite Hw in Hb. pose proof (upsert_entries _ _ _ _ _ _ _ _ _ _ _ _ _ Hr Hu Hb Hp) as [(b0 & Hb0 & Hp0) | (-> & -> & partner & ->)];
    [by eapply Hg |].
  apply upsert_outcome in Hu as (_ & _ & [mid bucket after Hopen Hfound _ Hself _ _ _]); [| done].
  destruct (proven_texts _ _ _ _ _ Hpr) as [Hid Hpk]. rewrite Hself. apply refresh_good; try done.
  - unfold self_before. destruct (bucket !! _) as [q |] eqn:Eq.
    + left. rewrite (open_bucket_lookup _ _ _ _ _ Hopen Hfound) in Eq.
      destruct (waiting (hs_reg s) !! _) as [b0 |] eqn:E0; [| done]. by eapply Hg.
    + right. by split_and!.
  - apply Hreal, Hpr.
  - cbn [m_VirtualIP with_vip]. apply VirtualIPString_ascii.
Qed.

Lemma run_good c es s :
  hs_inv s -> waiting (hs_reg s) = ∅ -> Forall real_event es -> all_good (hs_reg (hs_run c es s)).
Proof.
  intros Hi He. induction es as [| e es IH] using rev_ind; intros Hr.
  { intros tok b id p Hb. cbn in Hb. by rewrite He in Hb. }
  apply Forall_app in Hr as [Hr Hre]. apply Forall_cons in Hre as [Hre _]. specialize (IH Hr). rewrite hs_run_snoc.
  pose proof (hs_run_inv c es s Hi) as Hin.
  destruct e as [now ch req | now | now stat f | panics]; cbn [hs_step].
  - destruct (handleControlReq _ _ _ _ _) as [[s' rs] o] eqn:E. apply handle_spec in E.
    eapply handled_good; [exact E | apply Hin | done | done].
  - intros tok b id p Hb Hp. cbn [fst hs_reg] in Hb. apply reap_waiting in Hb as (b0 & Hb0 & -> & _).
    apply map_lookup_filter_Some in Hp as [Hp _]. by eapply IH.
  - destruct (hs_authz _) as [a |]; [| done]. by destruct (pollOnce _ _ _ _).
  - by destruct (logTick _ _).
Qed.
(** ** The signed roster, read by the buddy *)

Lemma entry_checks relay id p :
  peer_inv id p -> entry_good p -> (slen relay <= MaxFieldLen)%nat -> checkRosterPeer (asProtocolPeer relay p) = None.
Proof.
  intros [_ Hs Hk] [Hid _ _ Hname _ Hc] Hr. unfold checkRosterPeer, asProtocolPeer.
  cbn [p_ID p_Name p_Candidates p_Relay]. rewrite Hid. cbn [negb].
  assert (Hnm : negb (String.eqb (hp_name p) "") && negb (ValidName (hp_name p)) = false).
  { destruct Hname as [-> | ->]; [done | by rewrite andb_false_r]. }
  rewrite Hnm.
  assert (Hl : length (candidates p) = size (hp_cands p)).
  { unfold candidates. rewrite merge_sort_Permutation, length_fmap, length_map_to_list. done. }
  rewrite Hl. destruct (Z.ltb_spec maxRosterCands (Z.of_nat (size (hp_cands p)))); [unfold maxRosterCands in *; lia |].
  assert (G : forall cs, Forall (fun c => check_cand c = None) cs -> first_err check_cand cs = None).
  { induction 1 as [| c cs Hc1 Hcs IH]; [done |]. cbn. by rewrite Hc1. }
  rewrite G.
  - by destruct (Nat.ltb_spec MaxFieldLen (slen relay)); [lia |].
  - apply Forall_forall. intros c Hin. unfold candidates in Hin. rewrite merge_sort_Permutation in Hin.
    apply list_elem_of_fmap in Hin as ([k c'] & -> & Hin%elem_of_map_to_list). cbn [snd].
    destruct (Hc _ _ Hin) as [_ Hck]. pose proof (Hk _ _ Hin) as Ek. cbn in Ek. destruct c' as [a v6]. cbn in Ek. subst a. apply Hck.
Qed.

Lemma entry_peer_wf relay id p :
  peer_inv id p -> entry_good p -> valid_utf8 relay = true -> peer_wf (asProtocolPeer relay p).
Proof.
  intros [_ _ Hk] [Hid Hpub Hvip Hname Hseen Hc] Hr. unfold asProtocolPeer.
  split; cbn [p_ID p_PubKey p_VirtualIP p_Name p_Relay p_LastSeen p_Candidates].
  - repeat (apply Forall_cons; split); try apply Forall_nil; try done; try (by apply ascii_utf8).
    + apply ascii_utf8. by destruct (validField_spec _ Hid) as (_ & _ & ?).
    + destruct Hname as [-> | Hv]; [done |]. by apply ascii_utf8, ValidName_ascii.
  - done.
  - apply Forall_forall. intros c Hin. unfold candidates in Hin. rewrite merge_sort_Permutation in Hin.
    apply list_elem_of_fmap in Hin as ([k c'] & -> & Hin%elem_of_map_to_list). cbn [snd].
    destruct (Hc _ _ Hin) as [Ha _]. pose proof (Hk _ _ Hin) as Ek. cbn in Ek. split. rewrite Ek. by apply ascii_utf8.
Qed.

Lemma issueTicket_text now ch priv relayID m p r tk r' :
  issueTicket now ch priv relayID m p r = (Some tk, r') -> ticket_text_wf tk.
Proof.
  unfold issueTicket. destruct (_ || _); [done |]. destruct (RawURL.DecodeString _); [| done].
  destruct (negb _); [done |]. destruct (String.eqb _ _); [done |]. destruct (sidFor _ _ _) as [[sid |] r1]; [| done].
  destruct (ch_nonce ch); [| done]. destruct (Sign _ _) as [[pl sg] |]; [| done]. intros [= <- _].
  split; apply ascii_utf8, b64url_ascii, RawURL_encode_alphabet.
Qed.

Lemma reply_accepted tc now priv tok ps tk noted :
  Forall peer_wf ps -> (forall t, tk = Some t -> ticket_text_wf t) -> canonicalPeers ps = ps -> in_int64 (unix now) ->
  now - 60 * second <= tc <= now + 59 * second ->
  match ps with p :: _ => checkRosterPeer p = None | [] => True end ->
  on_reply merged tc (pub_of priv) tok noted (Message_marshal (signedPeerList now priv tok ps tk)) =
  match ps with p :: _ => (Done (Ok (p, tk)), noted, []) | [] => (Keep, noted, []) end.
Proof.
  intros Hps Htk Hcan Hts Hclk Hchk. set (m := signedPeerList now priv tok ps tk).
  assert (W : Roster_unmarshal merged (Message_marshal m) = Some m).
  { assert (Hw : m = on_wire m) by done. rewrite Hw at 2. apply roster_roundtrip. split; [| done | done].
    split; [vm_compute; split; discriminate | done |].
    repeat (apply Forall_cons; split); try apply Forall_nil; try done. apply ascii_utf8, Std_encode_ascii. }
  unfold on_reply. rewrite W. change (String.eqb (m_Type m) TypePeerList) with true. change (m_Ver m =? Version) with true.
  cbn [negb]. change (m_Peers m) with ps. change (m_Ts m) with (unix now). change (m_Ticket m) with tk.
  change (m_Sig m) with (Std.EncodeToString (ed_sign priv (PeerListPayload tok (unix now) ps))).
  rewrite Hcan, Std_decode_encode, sig_verifies. cbn [negb].
  pose proof (unix_bounds now) as Hu. unfold rosterSkew, second in *.
  destruct (Z.leb_spec (tc - of_unix (unix now)) (60 * 1000000000)); [| lia].
  destruct (Z.leb_spec (- (60 * 1000000000)) (tc - of_unix (unix now))); [| lia]. cbn [andb].
  destruct ps as [| p ps]; [done |]. by rewrite Hchk.
Qed.

(** C29. An honest server is never mistaken for an attacker.  Take a server whose
    relay endpoint, if it names one, is valid UTF-8 of at most 128 bytes (a
    longer one is accepted at start-up but fails the checks of every buddy).
    In every state it reaches from requests of real unicast sources, whatever
    body it answers a proven request with (other than the version notice) is,
    at a buddy that pins its key, registered under that token and whose clock
    is at most 60 seconds behind or 59 ahead, either "not yet" or the partner
    itself: the other id of the token, proven under the listed key, with the
    ticket the server issued for this request, if it issued one.  It never
    fails the signature, the skew or the roster checks. *)
Theorem honest_reply_accepted hkdf cfg key t0 f c s0 es now ch req s' rs o body tc noted :
  Handshake hkdf cfg t0 key f = Ok (c, s0) -> Forall real_event (es ++ [EvRequest now ch req]) ->
  (slen (endpoint (hc_adv c)) <= MaxFieldLen)%nat -> valid_utf8 (endpoint (hc_adv c)) = true ->
  handleControlReq c now ch req (hs_run c es s0) = (s', rs, o) ->
  RReply (Some body) ∈ rs -> body <> Message_marshal replyIncompatible ->
  now - 60 * second <= tc <= now + 59 * second ->
  exists src m, proven c now req src m /\
    (on_reply merged tc (pub_of (hc_priv c)) (m_Token m) noted body = (Keep, noted, []) \/
     exists p id tk reg, id <> m_ID m /\ registered c es s0 (m_Token m) id p /\
       issueTicket now ch (hc_priv c) (rid (hc_adv c)) m (asProtocolPeer (endpoint (hc_adv c)) p) reg = (tk, hs_reg s') /\
       on_reply merged tc (pub_of (hc_priv c)) (m_Token m) noted body =
         (Done (Ok (asProtocolPeer (endpoint (hc_adv c)) p, tk)), noted, [])).
Proof.
  intros Hs0 Hes Hlen Hutf Hh Hin Hne Hclk. destruct (Handshake_inv _ _ _ _ _ _ _ Hs0) as [Hi0 He].
  apply Forall_app in Hes as [Hes Hre]. apply Forall_cons in Hre as [Hre _]. destruct Hre as [Hnow _].
  pose proof (hs_run_inv c es s0 Hi0) as Hi. pose proof (run_good c es s0 Hi0 He Hes) as Hg.
  apply handle_spec in Hh.
  destruct Hh as [s' rs _ _ Hrs | src m s' o' _ _ _ | src m s' o' _ _ _ | src m pub s' o' r1 res outs rs Hpr Hd Hpub Hu Hres].
  - rewrite Forall_forall in Hrs. destruct (Hrs _ Hin) as [? | [[= ->] | [why ?]]]; done.
  - by apply list_elem_of_singleton in Hin.
  - by apply list_elem_of_singleton in Hin.
  - exists src, m. split; [done |]. apply upsert_outcome in Hu as (_ & _ & Hu); [| apply Hi].
    destruct res as [[self [partner |]] |].
    + destruct Hres as (tk & Hit & ->). apply list_elem_of_singleton in Hin as [= ->]. right.
      destruct (upserted_partner _ _ _ _ _ _ _ _ (hi_reg _ Hi) Hu) as (id & b & Hidne & Hb & Hp & _).
      exists partner, id, tk, (notePaired (m_Token m) r1).2. split; [done |].
      split; [by eapply entries_registered |]. split; [exact Hit |].
      pose proof (bi_peers _ (ri_buckets _ _ (hi_reg _ Hi) _ _ Hb) _ _ Hp) as Hpi. pose proof (Hg _ _ _ _ Hb Hp) as Hpg.
      apply reply_accepted; try done.
      * apply Forall_singleton. by eapply entry_peer_wf.
      * intros t ->. by eapply issueTicket_text.
      * by eapply canonical_roster.
      * by eapply entry_checks.
    + destruct Hres as (_ & ->). apply list_elem_of_singleton in Hin as [= ->]. left.
      apply reply_accepted; try done.
    + destruct Hres as (_ & ->). by apply list_elem_of_singleton in Hin.
Qed.
End Roster.
