(* ===== verification/HandshakeDemo.v ===== *)
(** * Concrete runs of the handshake server

    Instances of its theorems: a server in open and in approval mode, an honest
    buddy, a stranger and a forger, with toy signatures and boxes. *)

From S2P Require Import Prelude Base64 Sha256 Json NetAddr NetParse Crypto Protocol RosterWire Ticket RelayWire HsRegistry.
From S2P Require Import Authz AuthzFile AuthzProps Handshake HandshakeProps HandshakeTheorems Register RegisterProps RosterProps.
From S2P Require RateLimit.

#[local] Existing Instance Toy.toy_ed.
#[local] Existing Instance Toy.toy_ed_laws.
#[local] Existing Instance Toy.toy_box.
#[local] Existing Instance Toy.toy_box_laws.

Definition t0 : Z := 1700000000 * second.
Definition toy_hkdf (seed label : string) : string := label.
Definition open_cfg : HandshakeConfig := mkHandshakeConfig "" 0 "" "" [].
Definition closed_cfg : HandshakeConfig := mkHandshakeConfig "allow.txt" 0 "" "" [].
Definition no_file : FileView := Err NotExist.
Definition home : UDPAddr :=
  mkUDPAddr (String (byte_of 203) (String (byte_of 0) (String (byte_of 113) (String (byte_of 7) "")))) 40000.
Definition no_choice : Choice := mkChoice [] [] [] None None.

Definition srv : HsConfig := mkHsConfig "server" (mkRelayAdvert "" "") [] (toy_hkdf "server" "buddynet-logtag-v1").
Definition start (a : option authorizer) : HsServer :=
  mkHsServer (newHSRegistry (10 * second)) a (RateLimit.New rlGlobalRate rlSrcRate rlMaxSources t0) zero_counters.
Definition nobody : authorizer :=
  mkAuthorizer "server" (RateLimit.New rlEnrollGlobalRate rlEnrollSrcRate rlEnrollMaxSources t0)
    ∅ zeroTime ∅ ∅ ∅ ∅ ∅ true zeroTime.

Definition forged : Request := mkRequest (Some home) "garbage" "".

Lemma closed_starts : Handshake toy_hkdf closed_cfg t0 (Ok "server") no_file = Ok (srv, start (Some nobody)).
Proof. vm_compute. reflexivity. Qed.

Lemma open_starts : Handshake toy_hkdf open_cfg t0 (Ok "server") no_file = Ok (srv, start None).
Proof. vm_compute. reflexivity. Qed.

Lemma handshake_bounded_witness :
  let s := hs_run srv [EvRequest t0 no_choice forged; EvReap (t0 + second)] (start (Some nobody)) in
  Z.of_nat (size (waiting (hs_reg s))) <= maxTokens /\ Z.of_nat (size (RateLimit.perSrc (hs_rl s))) <= rlMaxSources.
Proof.
  intros s. assert (H0 : Handshake toy_hkdf closed_cfg t0 (Ok "server") no_file = Ok (srv, start (Some nobody)))
    by (vm_compute; reflexivity).
  destruct (handshake_bounded toy_hkdf closed_cfg (Ok "server") srv t0 no_file (start (Some nobody))
              [EvRequest t0 no_choice forged; EvReap (t0 + second)] H0) as (H1 & _ & _ & _ & _ & H2 & _).
  split; [exact H1 | exact H2].
Defined.

Lemma roster_authentic_witness :
  exists s' rs o, handleControlReq srv t0 no_choice forged (start None) = (s', rs, o) /\
    Forall (fun r => r = RReply None \/ r = RReply (Some (Message_marshal replyIncompatible)) \/ (exists why, r = RDrop why) \/
      exists src m ps tk, proven srv t0 forged src m /\ approved m None /\
        r = RReply (Some (Message_marshal (signedPeerList t0 "server" (m_Token m) ps tk))) /\
        (ps = [] \/ exists p id, ps = [asProtocolPeer "" p] /\ id <> m_ID m /\
           t0 - hp_seen p <= 10 * second /\ registered srv [] (start None) (m_Token m) id p)) rs.
Proof.
  destruct (handleControlReq srv t0 no_choice forged (start None)) as [[s' rs] o] eqn:E.
  exists s', rs, o. split; [reflexivity |].
  apply (roster_authentic toy_hkdf open_cfg (Ok "server") srv t0 no_file (start None) [] t0 no_choice forged s' rs o);
    [vm_compute; reflexivity | exact E].
Defined.

Lemma unproven_request_is_inert_witness :
  exists s' rs o, handleControlReq srv t0 no_choice forged (start (Some nobody)) = (s', rs, o) /\
    hs_reg s' = newHSRegistry (10 * second) /\ hs_authz s' = Some nobody.
Proof.
  destruct (handleControlReq srv t0 no_choice forged (start (Some nobody))) as [[s' rs] o] eqn:E.
  exists s', rs, o. split; [reflexivity |].
  destruct (unproven_request_is_inert srv t0 no_choice forged (start (Some nobody)) s' rs o) as (H1 & H2 & _).
  - intros src m [_ _ (m0 & P & _) _ _ _ _ _]. vm_compute in P. discriminate P.
  - exact E.
  - split; [exact H1 | exact H2].
Defined.

(** A well-formed registration of a key nobody approved. *)
Definition stranger : Message :=
  mkMessage TypeRegister Version "" "c2VhbGVk" "buddy" "mallory" "bWFsbG9yeQ==" "" "" 1700000000 "bm9uY2U" "c2ln" ""
    "" [] "" None "" "" "" "" "" "" "".
Definition stranger_req : Request := mkRequest (Some home) (Message_marshal stranger) "mallory".

Lemma unapproved_key_is_inert_witness :
  exists s' rs o, handleControlReq srv t0 no_choice stranger_req (start (Some nobody)) = (s', rs, o) /\
    hs_reg s' = newHSRegistry (10 * second) /\ no_roster rs.
Proof.
  destruct (handleControlReq srv t0 no_choice stranger_req (start (Some nobody))) as [[s' rs] o] eqn:E.
  exists s', rs, o. split; [reflexivity |].
  destruct (unapproved_key_is_inert srv t0 no_choice stranger_req (start (Some nobody)) nobody stranger s' rs o) as (H1 & H2 & _).
  - reflexivity.
  - vm_compute. reflexivity.
  - reflexivity.
  - exact E.
  - split; [exact H1 | exact H2].
Defined.

(** ** An honest buddy *)

Definition alice : node :=
  mkNode "alice" (PubKeyB64 (Toy.pad32 "alice")) "alice-id" (VirtualIPString (Toy.pad32 "alice")) (Toy.pad32 "server").
Definition alice_draw : Draw := mkDraw (Some "nonce-of-16bytes") None (Some ("eph", "nonce-of-24-bytes-exact!")).
Definition alice_cfg : BuddyConfig := mkBuddyConfig "nas" "".
Definition alice_body : result RegErr string := buildRegister t0 alice_draw alice_cfg alice "pairing-token" "".

Lemma alice_builds : exists body, alice_body = Ok body.
Proof. eexists. reflexivity. Qed.

Lemma alice_honest : honest_node srv alice.
Proof. split; reflexivity. Qed.

Lemma alice_drawn : drawn alice_draw.
Proof. split; cbn; [intros r [= <-] | intros e n [=] | intros e n [= <- <-]]; reflexivity. Qed.

Lemma honest_registration_proven_witness :
  exists body m, alice_body = Ok body /\ m_Token m = "pairing-token" /\
    checks srv (t0 + second) (mkRequest (Some home) body (Toy.pad32 "alice")) home m.
Proof.
  destruct alice_builds as [body E]. exists body.
  destruct (honest_registration_proven t0 (t0 + second) alice_draw srv alice_cfg alice "pairing-token" "" body home)
    as (m & Hp & B).
  - exact E.
  - exact alice_honest.
  - exact alice_drawn.
  - vm_compute. reflexivity.
  - cbn. lia.
  - reflexivity.
  - reflexivity.
  - vm_compute. split; discriminate.
  - reflexivity.
  - unfold t0, second. lia.
  - exists m. split; [exact E | split; [apply B | exact Hp]].
Defined.

Definition alice_bytes : string := Eval vm_compute in match alice_body with Ok b => b | Err _ => "" end.
Definition alice_req : Request := mkRequest (Some home) alice_bytes (Toy.pad32 "alice").
Definition alice_replies : list Response := Eval vm_compute in (handleControlReq srv t0 no_choice alice_req (start None)).1.2.

Definition alice_answer : string := Eval vm_compute in match alice_replies with RReply (Some b) :: _ => b | _ => "" end.

(** Alice, alone under her token so far, is told to wait: the signed, empty
    roster passes her checks. *)
Lemma honest_reply_accepted_witness :
  exists body src m, RReply (Some body) ∈ alice_replies /\ proven srv t0 alice_req src m /\
    (on_reply (fun _ => None) t0 (Toy.pad32 "server") (m_Token m) false body = (Keep, false, []) \/
     exists p id tk, id <> m_ID m /\ registered srv [] (start None) (m_Token m) id p /\
       (exists reg reg', issueTicket t0 no_choice (hc_priv srv) (rid (hc_adv srv)) m (asProtocolPeer "" p) reg = (tk, reg')) /\
       on_reply (fun _ => None) t0 (Toy.pad32 "server") (m_Token m) false body = (Done (Ok (asProtocolPeer "" p, tk)), false, [])).
Proof.
  destruct (handleControlReq srv t0 no_choice alice_req (start None)) as [[s' rs] o] eqn:E.
  assert (R : rs = alice_replies).
  { change rs with (s', rs, o).1.2. rewrite <- E. vm_compute. reflexivity. }
  exists alice_answer. destruct (honest_reply_accepted (fun _ => None) toy_hkdf open_cfg (Ok "server") t0 no_file srv (start None) []
              t0 no_choice alice_req s' rs o alice_answer t0 false) as (src & m & Hp & Hr).
  - vm_compute. reflexivity.
  - constructor; [| constructor]. split; [vm_compute; split; discriminate |].
    intros a Ha. injection Ha as <-. split; [left; reflexivity | cbn; lia | split; reflexivity].
  - cbn. unfold MaxFieldLen. lia.
  - reflexivity.
  - exact E.
  - rewrite R. left.
  - intros Hb. vm_compute in Hb. discriminate Hb.
  - unfold second. lia.
  - exists src, m. split; [left | split; [exact Hp |]].
    destruct Hr as [Hr | (p & id & tk & reg & H1 & H2 & H3 & H4)]; [left; exact Hr | right; exists p, id, tk].
    split; [exact H1 |]. split; [exact H2 |]. split; [exists reg, (hs_reg s'); exact H3 | exact H4].
Defined.
