(* ===== verification/TrustStore.v ===== *)
(** * The buddy's trust state

    [internal/role/trust.go], [session.go], [trustlock.go] and the revocation
    half of [peerscmd.go]: the known-peers store (trust-on-first-use lines and
    session lines), the revocation list, the decision to trust a partner key
    and the transactions that change the two files.  A file is its contents,
    [None] when it does not exist; a transaction runs under the trust-state
    lock, and a failed write is an error that leaves the file as it was. *)

From S2P Require Import Prelude Base64 Sha256 Json NetAddr NetParse Crypto Protocol HsRegistry Authz.

Abbreviation File := (option string).

(** ** Text *)

(** [strings.TrimSpace]: white space is what [Fields] skips. *)
Fixpoint trim_left (skip : nat) (s : string) : string :=
  match s with
  | EmptyString => ""
  | String _ r =>
      match skip with
      | S k => trim_left k r
      | O => match space_width s with O => s | S k => trim_left k r end
      end
  end.

Definition blank (s : string) : bool := match Fields s with [] => true | _ => false end.

Fixpoint trim_right (s : string) : string :=
  match s with
  | EmptyString => ""
  | String c r => if blank s then "" else String c (trim_right r)
  end.

Definition TrimSpace (s : string) : string := trim_right (trim_left 0 s).

Definition file_lines (f : File) : list string * bool :=
  match f with Some c => scan_lines c | None => ([], false) end.

(** ** The revocation list *)

Record revokedEntry := mkRevoked { re_key : string; re_note : string }.

(** One line: the key in canonical form and the note after the first [#]. *)
Definition revoked_line (text : string) : option revokedEntry :=
  let line := TrimSpace text in
  if String.eqb line "" || has_prefix "#" line then None
  else match Fields line with
       | [] => None
       | field :: _ =>
           match DecodePubKey field with
           | Err _ => None
           | Ok pin =>
               Some (mkRevoked (PubKeyB64 pin) (match cut "#" line with Some (_, n) => TrimSpace n | None => "" end))
           end
       end.

Fixpoint dedup (seen : list string) (l : list revokedEntry) : list revokedEntry :=
  match l with
  | [] => []
  | e :: r => if bool_decide (re_key e ∈ seen) then dedup seen r else e :: dedup (re_key e :: seen) r
  end.

Definition loadRevokedLocked (f : File) : result FileErr (list revokedEntry) :=
  let '(ls, err) := file_lines f in
  if err then Err TooLong else Ok (dedup [] (omap revoked_line ls)).

Definition revoked_header : list string :=
  ["# BuddyNet revoked buddy keys — the presence of a key IS the revocation.";
   "# Lift one with:  buddynet peers allow <key>"].

(** The lines [writeRevokedLocked] writes; [today] stamps an entry without note. *)
Definition revoked_text (today : string) (e : revokedEntry) : string :=
  re_key e ⊕ "  # " ⊕ (if String.eqb (re_note e) "" then "revoked " ⊕ today else re_note e).

Definition writeRevokedLocked (today : string) (es : list revokedEntry) : File :=
  Some (String.concat "" ((fun l => l ⊕ nl_s) <$> (revoked_header ++ (revoked_text today <$> es)))).

Definition addRevokedLocked (today keyB64 : string) (f : File) : result FileErr (bool * File) :=
  let? es := loadRevokedLocked f in
  if existsb (fun e => String.eqb (re_key e) keyB64) es then Ok (false, f)
  else Ok (true, writeRevokedLocked today (es ++ [mkRevoked keyB64 ("revoked " ⊕ today)])).

Definition removeRevokedLocked (today keyB64 : string) (f : File) : result FileErr (bool * File) :=
  let? es := loadRevokedLocked f in
  if existsb (fun e => String.eqb (re_key e) keyB64) es then
    Ok (true, writeRevokedLocked today (List.filter (fun e => negb (String.eqb (re_key e) keyB64)) es))
  else Ok (false, f).

Definition revokedSet (f : File) : result FileErr (gset string) :=
  let? es := loadRevokedLocked f in Ok (list_to_set (re_key <$> es)).

Definition isRevoked (f : File) (keyB64 : string) : result FileErr bool :=
  let? s := revokedSet f in Ok (bool_decide (keyB64 ∈ s)).

Definition isRevokedLocked (f : File) (keyB64 : string) : result FileErr bool :=
  let? es := loadRevokedLocked f in Ok (existsb (fun e => String.eqb (re_key e) keyB64) es).

(** ** The known-peers store *)

Definition tokenKey (token : string) : string := hex (sha256 token).

Definition loadKnownPeer (f : File) (token : string) : result FileErr string :=
  let '(ls, err) := file_lines f in
  match find (fun fs => match fs with k :: _ :: _ => String.eqb k (tokenKey token) | _ => false end) (Fields <$> ls) with
  | Some (_ :: k :: _) => Ok k
  | _ => if err then Err TooLong else Ok ""
  end.

Inductive StoreErr := NoPath | LockBusy | ReadErr (e : FileErr) | RevokedPeer | WriteErr.

Definition of_read {A} (r : result FileErr A) : result StoreErr A :=
  match r with Ok a => Ok a | Err e => Err (ReadErr e) end.

(** [learnPeerLocked]: a last line without newline is terminated first. *)
Fixpoint ends_nl (s : string) : bool :=
  match s with
  | EmptyString => false
  | String c EmptyString => Ascii.eqb c nl
  | String _ r => ends_nl r
  end.

Definition learnPeerLocked (revoked known : File) (token pubB64 : string) : result StoreErr File :=
  let? gone := of_read (isRevokedLocked revoked pubB64) in
  if gone then Err RevokedPeer
  else
    let existing := default "" known in
    let existing' := if (0 <? slen existing)%nat && negb (ends_nl existing) then existing ⊕ nl_s else existing in
    Ok (Some (existing' ⊕ tokenKey token ⊕ " " ⊕ pubB64 ⊕ nl_s)).

(** A session line of a partner. *)
Definition session_of (partnerB64 : string) (line : string) : bool :=
  match Fields line with _ :: k :: _ :: _ => String.eqb k partnerB64 | _ => false end.

Definition kept_lines (partnerB64 : string) (ls : list string) : list string :=
  List.filter (fun l => negb (session_of partnerB64 l) && negb (blank l)) ls.

(** [saveSessionLocked] does not look at the scanner's error. *)
Definition saveSessionLocked (revoked known : File) (inviteToken partnerB64 secret : string) : result StoreErr File :=
  let? gone := of_read (isRevokedLocked revoked partnerB64) in
  if gone then Err RevokedPeer
  else
    let kept := kept_lines partnerB64 (file_lines known).1 in
    Ok (Some (join nl_s (kept ++ [tokenKey inviteToken ⊕ " " ⊕ partnerB64 ⊕ " " ⊕ secret]) ⊕ nl_s)).

Definition removeSessionLocked (known : File) (partnerB64 : string) : result StoreErr (Z * File) :=
  match known with
  | None => Ok (0, known)
  | Some _ =>
      let '(ls, err) := file_lines known in
      if err then Err (ReadErr TooLong)
      else
        let removed := Z.of_nat (count_if (session_of partnerB64) ls) in
        if removed =? 0 then Ok (0, known)
        else
          let out := join nl_s (kept_lines partnerB64 ls) in
          Ok (removed, Some (if String.eqb out "" then "" else out ⊕ nl_s))
  end.

Record storedSession := mkSession { ss_pin : string; ss_secret : string }.

Definition line_session (line : string) : option storedSession :=
  match Fields line with
  | _ :: k :: secret :: _ =>
      match Std.DecodeString k with
      | Some pub => if (slen pub =? PublicKeySize)%nat then Some (mkSession pub secret) else None
      | None => None
      end
  | _ => None
  end.

Definition loadSessions (f : File) : result FileErr (list storedSession) :=
  let '(ls, err) := file_lines f in if err then Err TooLong else Ok (omap line_session ls).

Definition loadSessionFor (f : File) (pin : string) : result FileErr (option string) :=
  let? ss := loadSessions f in
  Ok (ss_secret <$> find (fun s => String.eqb (ss_pin s) pin) ss).

Definition loadSession (f : File) : result FileErr (option storedSession) :=
  let? ss := loadSessions f in Ok (head ss).

(** ** The decision *)

Record trustPolicy := mkTrustPolicy { tp_pinned : option string; tp_insecure : bool; tp_store : bool }.

Inductive TrustErr := TRevoked | TStore (e : FileErr) | TPinMismatch | TKeyChanged (known got : string).

(** [decide]: [true] asks for the code check of a first contact. *)
Definition decide_trust (t : trustPolicy) (revoked known : File) (token partnerPub : string) : result TrustErr bool :=
  let partnerB64 := Std.EncodeToString partnerPub in
  match (if tp_store t then isRevoked revoked partnerB64 else Ok false) with
  | Err e => Err (TStore e)
  | Ok true => Err TRevoked
  | Ok false =>
      match tp_pinned t with
      | Some pin => if String.eqb partnerPub pin then Ok false else Err TPinMismatch
      | None =>
          if tp_insecure t then Ok false
          else match (if tp_store t then loadKnownPeer known token else Ok "") with
               | Err e => Err (TStore e)
               | Ok k => if String.eqb k "" then Ok true
                         else if String.eqb k partnerB64 then Ok false else Err (TKeyChanged k partnerB64)
               end
      end
  end.

(** [enforcePins]: every pin held locally must agree. *)
Inductive PinErr := SessionPin | ConfigPin.

Definition enforcePins (pin cfgPin : option string) (partnerPub : string) : option PinErr :=
  match pin with
  | Some p => if negb (String.eqb partnerPub p) then Some SessionPin
              else match cfgPin with
                   | Some q => if negb (String.eqb partnerPub q) then Some ConfigPin else None
                   | None => None
                   end
  | None => match cfgPin with
            | Some q => if negb (String.eqb partnerPub q) then Some ConfigPin else None
            | None => None
            end
  end.

(** ** Transactions *)

Record TrustState := mkTrust { ts_known : File; ts_revoked : File }.

(** [withTrustStateLock]: nothing happens without the lock. *)
Definition withTrustStateLock {A} (path_set lock_ok : bool) (fn : result StoreErr A) : result StoreErr A :=
  if negb path_set then Err NoPath else if negb lock_ok then Err LockBusy else fn.

Definition learnPeer (path_set lock_ok : bool) (token pubB64 : string) (s : TrustState) : result StoreErr TrustState :=
  withTrustStateLock path_set lock_ok
    (let? k := learnPeerLocked (ts_revoked s) (ts_known s) token pubB64 in Ok (mkTrust k (ts_revoked s))).

Definition confirm (t : trustPolicy) (lock_ok : bool) (token partnerPub : string) (s : TrustState) : result StoreErr TrustState :=
  if bool_decide (is_Some (tp_pinned t)) || tp_insecure t || negb (tp_store t) then Ok s
  else learnPeer (tp_store t) lock_ok token (Std.EncodeToString partnerPub) s.

Definition saveSession (path_set lock_ok : bool) (inviteToken partnerB64 secret : string) (s : TrustState)
    : result StoreErr TrustState :=
  withTrustStateLock path_set lock_ok
    (let? k := saveSessionLocked (ts_revoked s) (ts_known s) inviteToken partnerB64 secret in Ok (mkTrust k (ts_revoked s))).

Definition removeSession (path_set lock_ok : bool) (partnerB64 : string) (s : TrustState) : result StoreErr (Z * TrustState) :=
  if negb path_set then Ok (0, s)
  else withTrustStateLock path_set lock_ok
         (let? r := removeSessionLocked (ts_known s) partnerB64 in Ok (r.1, mkTrust r.2 (ts_revoked s))).

(** How far [PeersRemove] got: refused before the tombstone, tombstone in effect
    but the cleanup failed, or done. *)
Inductive Removal := NotRevoked (e : StoreErr) | InEffect (e : StoreErr) | Removed (sessions manifest : Z) (already : bool).

(** [PeersRemove] on a resolved key: tombstone, session, manifest, in this
    order; the manifest rewrite is [manifest]. *)
Definition PeersRemove (lock_ok : bool) (today keyB64 : string) (manifest : result StoreErr Z) (s : TrustState)
    : Removal * TrustState :=
  if negb lock_ok then (NotRevoked LockBusy, s)
  else match addRevokedLocked today keyB64 (ts_revoked s) with
       | Err e => (NotRevoked (ReadErr e), s)
       | Ok (added, rv) =>
           let s1 := mkTrust (ts_known s) rv in
           match removeSessionLocked (ts_known s1) keyB64 with
           | Err e => (InEffect e, s1)
           | Ok (n, k) =>
               let s2 := mkTrust k rv in
               match manifest with
               | Err e => (InEffect e, s2)
               | Ok m => (Removed n m (negb added), s2)
               end
           end
       end.

Definition PeersAllow (lock_ok : bool) (today keyB64 : string) (s : TrustState) : result StoreErr (bool * TrustState) :=
  withTrustStateLock true lock_ok
    (let? r := of_read (removeRevokedLocked today keyB64 (ts_revoked s)) in Ok (r.1, mkTrust (ts_known s) r.2)).
