(* ===== verification/TrustProps.v ===== *)
(** * The trust state: a revoked buddy stays out

    The revocation list survives being rewritten, the session store keeps what
    it does not mean to change, and from the tombstone on no transaction brings
    a revoked buddy back. *)

From S2P Require Import Prelude Base64 Sha256 Json NetAddr NetParse Crypto Protocol HsRegistry Authz AuthzFile TrustStore.

(** ** Written lines read back *)

Definition no_nl (s : string) : Prop := contains_char nl s = false.
Definition fits_line (s : string) : Prop := too_long s = false.

Abbreviation text_of ls := (String.concat "" ((fun l => l ⊕ nl_s) <$> ls)).

Lemma concat_cons x l : String.concat "" (x :: l) = x ⊕ String.concat "" l.
Proof. destruct l; [by rewrite app_empty_r | done]. Qed.

Lemma split_text ls : Forall no_nl ls -> split_on nl (text_of ls) = ls ++ [""].
Proof.
  induction 1 as [| l ls Hl Hls IH]; [done |]. cbn [fmap list_fmap]. rewrite concat_cons, app_assoc_s.
  change (nl_s ⊕ text_of ls) with (String nl (text_of ls)). rewrite split_on_app by done. by rewrite IH.
Qed.

Lemma scan_text ls : Forall no_nl ls -> Forall fits_line ls -> scan_lines (text_of ls) = (dropCR <$> ls, false).
Proof. intros Hn Hf. unfold scan_lines. rewrite split_text, drop_last_empty_snoc by done. by apply until_long_ok. Qed.

(** Whatever its lengths, a written file shows no line that was not written. *)
Lemma until_long_sub l : (until_long l).1 ⊆ dropCR <$> l.
Proof.
  induction l as [| s l IH]; [done |]. cbn [until_long]. destruct (too_long s); [by intros x ?%not_elem_of_nil |].
  destruct (until_long l) as [ls e]. cbn [fst fmap list_fmap] in *. intros x [-> | Hx]%elem_of_cons; [by left | right; by apply IH].
Qed.

Lemma scan_sub c : (scan_lines c).1 ⊆ dropCR <$> split_on nl c.
Proof.
  unfold scan_lines. intros x Hx. apply until_long_sub in Hx. apply list_elem_of_fmap in Hx as (y & -> & Hy).
  apply drop_last_empty_sub in Hy. apply list_elem_of_fmap. eauto.
Qed.

Lemma join_text ls : ls <> [] -> join nl_s ls ⊕ nl_s = text_of ls.
Proof.
  induction ls as [| x [| y ls] IH]; intros Hne; [done | done |]. cbn [fmap list_fmap]. rewrite concat_cons.
  change (join nl_s (x :: y :: ls)) with (x ⊕ nl_s ⊕ join nl_s (y :: ls)). rewrite !app_assoc_s. do 2 f_equal. by apply IH.
Qed.

Lemma scan_no_nl c : Forall no_nl (scan_lines c).1.
Proof.
  apply Forall_forall. intros x Hx. apply scan_sub in Hx. apply list_elem_of_fmap in Hx as (y & -> & Hy).
  apply contains_char_dropCR. pose proof (split_on_pieces nl c) as P. rewrite Forall_forall in P. by apply P.
Qed.

Lemma dropCR_app s t : t <> "" -> dropCR (s ⊕ t) = s ⊕ dropCR t.
Proof.
  intros Ht. induction s as [| c s IH]; [done |]. cbn [String.append]. rewrite <- IH.
  destruct (s ⊕ t) eqn:E; [| done]. by destruct s.
Qed.

(** ** White space *)

Lemma fields_cur s : forall k cur, cur <> "" -> fields_go k cur s <> [].
Proof.
  assert (F : forall cur l, cur <> "" -> flush cur l <> []).
  { intros cur l Hc. unfold flush. by destruct (String.eqb_spec cur ""). }
  induction s as [| c s IH]; intros k cur Hc; cbn [fields_go]; [by apply F |].
  destruct k; [| by apply IH]. destruct (space_width (String c s)); [| by apply F]. apply IH. by destruct cur.
Qed.

Lemma space_width_ascii c r : is_ascii c = true -> space_width (String c r) = (if ascii_space c then 1 else 0)%nat.
Proof.
  intros Ha. destruct (ascii_space c) eqn:E; [unfold space_width; by rewrite E |].
  apply space_width_solid. unfold solid. by rewrite Ha, E.
Qed.

(** ASCII text up to a solid character is not blank. *)
Lemma fields_solid w : forall cur c t,
  all_chars is_ascii w = true -> solid c = true -> fields_go 0 cur (w ⊕ String c t) <> [].
Proof.
  induction w as [| a w IH]; intros cur c t Hw Hc.
  - cbn [String.append fields_go]. rewrite space_width_solid by done. apply fields_cur. by destruct cur.
  - cbn [all_chars] in Hw. apply andb_true_iff in Hw as [Ha Hw]. cbn [String.append fields_go].
    rewrite space_width_ascii by done. destruct (ascii_space a).
    + unfold flush. destruct (String.eqb cur ""); [by apply IH | done].
    + by apply IH.
Qed.

Lemma blank_solid w c t : all_chars is_ascii w = true -> solid c = true -> blank (w ⊕ String c t) = false.
Proof. intros Hw Hc. unfold blank, Fields. pose proof (fields_solid w "" c t Hw Hc). by destruct (fields_go _ _ _). Qed.

Lemma trim_right_solid w c t :
  all_chars is_ascii w = true -> solid c = true -> trim_right (w ⊕ String c t) = w ⊕ String c (trim_right t).
Proof.
  intros Hw Hc. induction w as [| a w IH].
  - cbn [String.append trim_right]. pose proof (blank_solid "" c t eq_refl Hc) as B. cbn [String.append] in B. by rewrite B.
  - cbn [String.append trim_right]. pose proof (blank_solid (String a w) c t Hw Hc) as B. cbn [String.append] in B. rewrite B.
    cbn [all_chars] in Hw. apply andb_true_iff in Hw as [_ Hw]. by rewrite IH.
Qed.

Lemma solid_ascii s : all_chars solid s = true -> all_chars is_ascii s = true.
Proof. apply all_chars_impl. unfold solid. intros c H. by apply andb_true_iff in H as [? _]. Qed.

Lemma slen_trim_right s : (slen (trim_right s) <= slen s)%nat.
Proof. induction s as [| c s IH]; [done |]. cbn [trim_right]. destruct (blank _); cbn; lia. Qed.

Lemma slen_trim_left s : forall k, (slen (trim_left k s) <= slen s)%nat.
Proof.
  induction s as [| c s IH]; intros k; [done |]. cbn [trim_left]. destruct k; [destruct (space_width _) |]; cbn.
  - lia.
  - specialize (IH n). lia.
  - specialize (IH k). lia.
Qed.

Lemma trim_right_char x s : contains_char x s = false -> contains_char x (trim_right s) = false.
Proof.
  induction s as [| c s IH]; [done |]. cbn [trim_right contains_char]. intros [H1 H2]%orb_false_iff.
  destruct (blank _); [done |]. cbn [contains_char]. by rewrite H1, IH.
Qed.

Lemma trim_left_char x s : forall k, contains_char x s = false -> contains_char x (trim_left k s) = false.
Proof.
  induction s as [| c s IH]; intros k; [done |]. cbn [trim_left]. intros H.
  assert (H2 : contains_char x s = false) by (cbn [contains_char] in H; by apply orb_false_iff in H as [_ ?]).
  destruct k; [| by apply IH]. destruct (space_width _); [done | by apply IH].
Qed.

(** ** The revocation list *)

(** A key as the program spells it. *)
Definition canonical_key (k : string) : Prop := exists pin, slen pin = PublicKeySize /\ k = PubKeyB64 pin.

Lemma canonical_solid k : canonical_key k -> all_chars solid k = true /\ slen k = 44%nat.
Proof.
  intros (pin & Hp & ->). split; [apply Std_encode_solid |]. unfold PubKeyB64. by rewrite Std_encoded_len, Hp.
Qed.

Lemma canonical_head k : canonical_key k -> exists c r, k = String c r /\ solid c = true /\ has_prefix "#" k = false.
Proof.
  intros Hk. pose proof (canonical_solid k Hk) as [Hs _]. destruct Hk as (pin & Hp & ->).
  destruct (Std_encode_head pin ltac:(by rewrite Hp)) as (n & r & Hn & E). unfold PubKeyB64 in *. rewrite E in *.
  exists (b64_char encodeStd n), r. split; [done |]. split; [by apply solid_char | by apply not_hash].
Qed.

Lemma solid_no_char c s : solid c = false -> all_chars solid s = true -> contains_char c s = false.
Proof. intros Hc Hs. by eapply contains_char_all. Qed.

Lemma b64_no_hash s : contains_char "#" (Std.EncodeToString s) = false.
Proof.
  assert (A : forall n, 0 <= n < 64 -> Ascii.eqb "#" (b64_char encodeStd n) = false).
  { intros n Hn. assert (forallb (fun k => negb (Ascii.eqb "#" (b64_char encodeStd k))) sextets = true) as H by reflexivity.
    rewrite forallb_forall in H. specialize (H n (sextets_complete n Hn)). by apply negb_true_iff in H. }
  unfold Std.EncodeToString. induction s as [| a | a b | a b c s IH] using string_ind3;
    cbn [encode contains_char pad1 pad2 String.append]; rewrite ?A by apply sextet_range; done.
Qed.

Lemma cut_app c s t : contains_char c s = false -> cut c (s ⊕ String c t) = Some (s, t).
Proof.
  induction s as [| d s IH]; cbn [contains_char String.append cut]; [by rewrite Ascii.eqb_refl |].
  intros [H1 H2]%orb_false_iff. by rewrite Ascii.eqb_sym, H1, IH.
Qed.

(** A line of a canonical key and a note is read back as that key. *)
Lemma revoked_line_read k note :
  canonical_key k ->
  exists e, revoked_line (k ⊕ "  # " ⊕ note) = Some e /\ re_key e = k /\ (slen (re_note e) <= slen note)%nat /\
    (no_nl note -> no_nl (re_note e)).
Proof.
  intros Hk. destruct (canonical_solid k Hk) as [Hs _]. destruct (canonical_head k Hk) as (c & r & Ek & Hc & Hh).
  assert (T : TrimSpace (k ⊕ "  # " ⊕ note) = (k ⊕ "  ") ⊕ String "#" (trim_right (" " ⊕ note))).
  { unfold TrimSpace. assert (L : trim_left 0 (k ⊕ "  # " ⊕ note) = k ⊕ "  # " ⊕ note).
    { rewrite Ek. cbn [String.append trim_left]. by rewrite space_width_solid. }
    rewrite L. replace (k ⊕ "  # " ⊕ note) with ((k ⊕ "  ") ⊕ String "#" (" " ⊕ note)) by (by rewrite app_assoc_s).
    apply trim_right_solid; [| done]. rewrite all_chars_app. by rewrite (solid_ascii k Hs). }
  assert (F : Fields ((k ⊕ "  ") ⊕ String "#" (trim_right (" " ⊕ note))) =
              k :: fields_go 0 "" (" " ⊕ String "#" (trim_right (" " ⊕ note)))).
  { rewrite app_assoc_s. unfold Fields. rewrite fields_word by done. cbn [String.append fields_go].
    unfold flush. rewrite Ek. done. }
  destruct Hk as (pin & Hp & Hkp). unfold revoked_line. rewrite T.
  assert (E1 : String.eqb ((k ⊕ "  ") ⊕ String "#" (trim_right (" " ⊕ note))) "" = false) by (rewrite Ek; done).
  assert (E2 : has_prefix "#" ((k ⊕ "  ") ⊕ String "#" (trim_right (" " ⊕ note))) = false).
  { rewrite Ek in *. cbn [String.append has_prefix] in *. done. }
  rewrite E1, E2. cbn [orb]. rewrite F. cbv iota.
  assert (D : DecodePubKey k = Ok pin) by (rewrite Hkp; by apply DecodePubKey_B64). rewrite D.
  rewrite cut_app.
  2: { rewrite contains_char_app, Hkp. unfold PubKeyB64. by rewrite b64_no_hash. }
  eexists. split; [done |]. cbn [re_key re_note]. split; [done |]. unfold TrimSpace.
  assert (B : trim_right (" " ⊕ note) = "" \/ trim_right (" " ⊕ note) = String " " (trim_right note)).
  { change (" " ⊕ note) with (String " " note). cbn [trim_right]. destruct (blank _); auto. }
  split.
  - destruct B as [-> | ->]; [cbn; lia |]. rewrite slen_trim_right. cbn [trim_left].
    change (space_width (String " " (trim_right note))) with 1%nat. cbv iota. rewrite slen_trim_left. apply slen_trim_right.
  - intros Hn. apply trim_right_char, trim_left_char, trim_right_char. cbn. done.
Qed.

Record entry_ok (e : revokedEntry) : Prop := {
  eo_key : canonical_key (re_key e);
  eo_note : Z.of_nat (slen (re_note e)) <= 60000;
  eo_nl : no_nl (re_note e);
}.

Lemma dedup_nodup seen l : NoDup (re_key <$> dedup seen l) /\ forall k, k ∈ re_key <$> dedup seen l -> k ∉ seen.
Proof.
  revert seen. induction l as [| e l IH]; intros seen; cbn [dedup]; [split; [constructor | by intros k ?%not_elem_of_nil] |].
  case_bool_decide as He; [apply IH |]. cbn [fmap list_fmap]. destruct (IH (re_key e :: seen)) as [Hn Hs]. split.
  - constructor; [| done]. intros Hin. apply Hs in Hin. set_solver.
  - intros k [-> | Hk]%elem_of_cons; [done |]. apply Hs in Hk. set_solver.
Qed.

Lemma dedup_id seen l :
  NoDup (re_key <$> l) -> (forall k, k ∈ re_key <$> l -> k ∉ seen) -> dedup seen l = l.
Proof.
  revert seen. induction l as [| e l IH]; intros seen Hn Hs; [done |]. cbn [dedup fmap list_fmap] in *.
  apply NoDup_cons in Hn as [Hne Hn]. rewrite bool_decide_eq_false_2 by (apply Hs; by left).
  f_equal. apply IH; [done |]. intros k Hk [-> | ?]%elem_of_cons; [done |]. by eapply Hs; [right |].
Qed.

(** The list [writeRevokedLocked] writes is read back with the same keys. *)
Lemma revoked_roundtrip today es :
  Forall entry_ok es -> NoDup (re_key <$> es) -> (slen today <= 100)%nat -> no_nl today ->
  exists es', loadRevokedLocked (writeRevokedLocked today es) = Ok es' /\ Forall entry_ok es' /\ re_key <$> es' = re_key <$> es.
Proof.
  intros He Hd Ht Hnl. unfold writeRevokedLocked, loadRevokedLocked, file_lines.
  set (note e := if String.eqb (re_note e) "" then "revoked " ⊕ today else re_note e).
  assert (N : Forall (fun e => Z.of_nat (slen (note e)) <= 60000 /\ no_nl (note e) /\ canonical_key (re_key e)) es).
  { eapply Forall_impl; [exact He |]. intros e [H1 H2 H3]. unfold note. destruct (String.eqb _ _); [| done].
    split_and!; [rewrite slen_app; cbn; lia | | done]. unfold no_nl. rewrite contains_char_app. by rewrite Hnl. }
  rewrite scan_text.
  - assert (O : exists es', omap revoked_line (dropCR <$> revoked_header ++ (revoked_text today <$> es)) = es' /\
              Forall entry_ok es' /\ re_key <$> es' = re_key <$> es).
    { rewrite fmap_app, omap_app.
      replace (omap revoked_line (dropCR <$> revoked_header)) with (@nil revokedEntry) by (vm_compute; reflexivity).
      cbn [app]. clear He Hd. induction N as [| e es (Hl & Hn & Hk) N IH]; [exists []; by split_and! |].
      destruct IH as (es' & E' & Ho & Hk'). cbn [fmap list_fmap]. unfold revoked_text at 1. fold (note e).
      assert (exists n', dropCR (re_key e ⊕ "  # " ⊕ note e) = re_key e ⊕ "  # " ⊕ n' /\ Z.of_nat (slen n') <= 60000 /\ no_nl n') as (n' & -> & Hl' & Hn').
      { rewrite dropCR_app by done. destruct (String.eqb_spec (note e) "") as [-> | Hne].
        - exists "". cbn. split_and!; [done | lia | done].
        - rewrite dropCR_app by done. exists (dropCR (note e)). split_and!; [done | | by apply contains_char_dropCR].
          pose proof (slen_dropCR (note e)). lia. }
      destruct (revoked_line_read (re_key e) n' Hk) as (e1 & R & Rk & Rl & Rn).
      exists (e1 :: es'). cbn [omap list_omap]. rewrite R, E'. split_and!; [done | | cbn; by rewrite Rk, Hk'].
      constructor; [| done]. split; [by rewrite Rk | lia | by apply Rn]. }
    destruct O as (es' & -> & Ho & Hk). exists es'. split_and!; [| done | done]. f_equal. apply dedup_id; [by rewrite Hk |].
    intros k _ ?%not_elem_of_nil. done.
  - apply Forall_app. split; [by repeat constructor |]. apply Forall_fmap. eapply Forall_impl; [exact N |].
    intros e (_ & Hn & Hk). cbn. unfold revoked_text. fold (note e). unfold no_nl. rewrite !contains_char_app.
    destruct (canonical_solid _ Hk) as [Hs _]. rewrite (solid_no_char nl _ eq_refl Hs). cbn. exact Hn.
  - apply Forall_app. split; [by repeat constructor |]. apply Forall_fmap. eapply Forall_impl; [exact N |].
    intros e (Hl & _ & Hk). cbn. unfold revoked_text. fold (note e). unfold fits_line, too_long. apply Z.leb_gt.
    destruct (canonical_solid _ Hk) as [_ Hkl]. rewrite !slen_app, Hkl. change (slen "  # ") with 4%nat. unfold MaxScanTokenSize. lia.
Qed.

(** ** Lines of the known-peers store *)

(** A property of what a line's fields say. *)
Definition of_fields (P : string -> Prop) : Prop := forall l, P l -> P (dropCR l).

Lemma scan_forall P c : of_fields P -> Forall P (drop_last_empty (split_on nl c)) -> Forall P (scan_lines c).1.
Proof.
  intros HP H. apply Forall_forall. intros x Hx. unfold scan_lines in Hx. apply until_long_sub in Hx.
  apply list_elem_of_fmap in Hx as (y & -> & Hy). rewrite Forall_forall in H. by apply HP, H.
Qed.

Lemma text_forall P ls : of_fields P -> Forall no_nl ls -> Forall P ls -> Forall P (scan_lines (text_of ls)).1.
Proof. intros HP Hn H. apply scan_forall; [done |]. by rewrite split_text, drop_last_empty_snoc. Qed.

Lemma ends_nl_spec c :
  if ends_nl c then exists c', c = c' ⊕ nl_s else c = "" \/ exists l x, split_on nl c = l ++ [x] /\ x <> "".
Proof.
  induction c as [| d c IH]; [by left |]. destruct c as [| e c].
  - cbn [ends_nl]. destruct (Ascii.eqb_spec d nl) as [-> | Hne]; [by exists "" |]. right. exists [], (String d "").
    cbn. by destruct (Ascii.eqb_spec d nl).
  - change (ends_nl (String d (String e c))) with (ends_nl (String e c)). destruct (ends_nl (String e c)).
    + destruct IH as [c' ->]. by exists (String d c').
    + destruct IH as [? | (l & x & E & Hx)]; [done |]. right. cbn [split_on]. cbn [split_on] in E.
      destruct (Ascii.eqb_spec d nl) as [-> | Hne]; [exists ("" :: l), x; by rewrite E |].
      rewrite E. destruct l as [| y l]; [exists [], (String d x) | exists (String d y :: l), x]; done.
Qed.

Lemma drop_last_nonempty l x : x <> "" -> drop_last_empty (l ++ [x]) = l ++ [x].
Proof.
  intros Hx. induction l as [| y [| z l] IH]; cbn [app drop_last_empty]; [by destruct (String.eqb_spec x "") | | by f_equal].
  by destruct (String.eqb_spec x "").
Qed.

Lemma until_long_app_sub l l' x : x ∈ (until_long (l ++ l')).1 -> x ∈ (until_long l).1 \/ x ∈ dropCR <$> l'.
Proof.
  induction l as [| s l IH]; cbn [app until_long]; [intros H; right; by apply until_long_sub |].
  destruct (too_long s); [by intros ?%not_elem_of_nil |].
  destruct (until_long (l ++ l')) as [a e], (until_long l) as [b f]. cbn [fst] in *.
  intros [-> | H]%elem_of_cons; [left; by left |]. destruct (IH H); [left; by right | by right].
Qed.

(** [learnPeerLocked]'s append, as text. *)
Definition appended (c new : string) : string :=
  (if (0 <? slen c)%nat && negb (ends_nl c) then c ⊕ nl_s else c) ⊕ new ⊕ nl_s.

(** Appending a terminated line adds that line and nothing else. *)
Lemma append_pieces c new :
  no_nl new -> drop_last_empty (split_on nl (appended c new)) = drop_last_empty (split_on nl c) ++ [new].
Proof.
  intros Hn. unfold appended.
  assert (G : forall d, split_on nl ((d ⊕ nl_s) ⊕ new ⊕ nl_s) = (split_on nl d ++ [new]) ++ [""]).
  { intros d. rewrite app_assoc_s. change (nl_s ⊕ new ⊕ nl_s) with (String nl (new ⊕ String nl "")).
    rewrite split_on_sep, split_on_app by done. by rewrite <- app_assoc. }
  pose proof (ends_nl_spec c) as S. destruct (ends_nl c) eqn:E.
  - destruct S as [c' ->]. rewrite andb_false_r, G, drop_last_empty_snoc.
    change nl_s with (String nl ""). rewrite split_on_sep. change (split_on nl "") with [""]. by rewrite drop_last_empty_snoc.
  - destruct S as [-> | (l & x & El & Hx)].
    + cbn [String.length Nat.ltb Nat.leb andb String.append]. change nl_s with (String nl "").
      rewrite split_on_app by done. done.
    + destruct c as [| a c]; [cbn in El; destruct l as [| ? [| ? ?]]; cbn in El; injection El; intros; subst; done |].
      cbn [String.length Nat.ltb Nat.leb andb negb]. rewrite G, drop_last_empty_snoc, El. by rewrite drop_last_nonempty.
Qed.

Lemma append_scan c ls new :
  no_nl new -> fits_line new -> scan_lines c = (ls, false) -> scan_lines (appended c new) = (ls ++ [dropCR new], false).
Proof.
  intros Hn Hf Hs. unfold scan_lines in *. rewrite append_pieces by done. apply until_long_ok in Hs as [Hl ->].
  rewrite until_long_app by done. by rewrite fmap_app.
Qed.

Lemma append_forall P c new :
  of_fields P -> no_nl new -> P new -> Forall P (scan_lines c).1 -> Forall P (scan_lines (appended c new)).1.
Proof.
  intros HP Hn Hnew Hc. unfold scan_lines in *. rewrite append_pieces by done. apply Forall_forall. intros x Hx.
  apply until_long_app_sub in Hx as [Hx | Hx].
  - rewrite Forall_forall in Hc. by apply Hc.
  - apply list_elem_of_fmap in Hx as (y & -> & Hy%list_elem_of_singleton). subst. by apply HP.
Qed.

(** No session of [key]; every session line spells its key canonically. *)
Definition not_session (key line : string) : Prop := session_of key line = false.
Definition canonical_line (line : string) : Prop :=
  forall ss, line_session line = Some ss -> session_of (PubKeyB64 (ss_pin ss)) line = true.

Lemma not_session_fields key : of_fields (not_session key).
Proof. intros l. unfold not_session, session_of. by rewrite Fields_dropCR. Qed.

Lemma canonical_line_fields : of_fields canonical_line.
Proof. intros l H ss. unfold canonical_line, line_session, session_of in *. rewrite Fields_dropCR. apply H. Qed.

(** ** Saving a session *)

Definition rows (f : File) : list (list string) :=
  List.filter (fun fs => match fs with [] => false | _ => true end) (Fields <$> (file_lines f).1).

Definition session_row (partnerB64 : string) (fs : list string) : bool :=
  match fs with _ :: k :: _ :: _ => String.eqb k partnerB64 | _ => false end.

Lemma hex_solid s : all_chars solid (hex s) = true.
Proof.
  induction s as [| c s IH]; [done |]. cbn [hex]. pose proof (byte_val_range c) as Hc.
  assert (A : forall n, 0 <= n < 16 -> solid (hexd n) = true).
  { intros n Hn. assert (forallb (fun k => solid (hexd (Z.of_nat k))) (seq 0 16) = true) as H by reflexivity.
    rewrite forallb_forall in H. specialize (H (Z.to_nat n)). rewrite Z2Nat.id in H by lia. apply H, in_seq. lia. }
  cbn [all_chars]. rewrite !A; [done | |]; [apply Z.mod_pos_bound; lia | split; [apply Z.div_pos; lia | apply Z.div_lt_upper_bound; lia]].
Qed.

(** A word: what one field of a line can hold. *)
Record word (s : string) : Prop := { wd_solid : all_chars solid s = true; wd_ne : s <> "" }.

Lemma Fields_three a b c :
  word a -> word b -> word c -> Fields (a ⊕ " " ⊕ b ⊕ " " ⊕ c) = [a; b; c].
Proof.
  intros [Ha Na] [Hb Nb] [Hc Nc].
  assert (F : forall x l, x <> "" -> flush x l = x :: l) by (intros x l Hx; unfold flush; by destruct (String.eqb_spec x "")).
  assert (S : forall r, fields_go 0 "" r = Fields r) by done.
  assert (P : forall x r, word x -> Fields (x ⊕ " " ⊕ r) = x :: Fields r).
  { intros x r [Hx Nx]. unfold Fields. rewrite fields_word by done. cbn [String.append fields_go].
    change (space_width (String " " r)) with 1%nat. cbv iota. by rewrite F. }
  rewrite !P by done. do 2 f_equal. rewrite <- (app_empty_r c). unfold Fields. rewrite fields_word by done.
  cbn [String.append fields_go]. by rewrite F, app_empty_r.
Qed.

Lemma tokenKey_word tok : word (tokenKey tok).
Proof.
  split; [apply hex_solid |]. unfold tokenKey. intros E. apply (f_equal slen) in E. rewrite slen_hex, slen_sha256 in E. done.
Qed.

Lemma rows_text ls : Forall no_nl ls -> Forall fits_line ls ->
  rows (Some (text_of ls)) = List.filter (fun fs => match fs with [] => false | _ => true end) (Fields <$> ls).
Proof.
  intros Hn Hf. unfold rows, file_lines. rewrite scan_text by done. cbn [fst]. f_equal.
  rewrite <- list_fmap_compose. apply list_fmap_ext. intros i x _. apply Fields_dropCR.
Qed.

Lemma filter_kept partner ls :
  List.filter (fun fs => match fs with [] => false | _ => true end) (Fields <$> kept_lines partner ls) =
  List.filter (fun fs => negb (session_row partner fs)) (List.filter (fun fs => match fs with [] => false | _ => true end) (Fields <$> ls)).
Proof.
  assert (K : forall l, (negb (session_of partner l) && negb (blank l)) =
                        match Fields l with [] => false | _ => negb (session_row partner (Fields l)) end).
  { intros l. unfold session_of, blank, session_row. destruct (Fields l) as [| a [| b [| c r]]]; try done. by rewrite andb_true_r. }
  unfold kept_lines. induction ls as [| l ls IH]; [done |]. cbn [List.filter]. rewrite K. change (Fields <$> (l :: ls)) with (Fields l :: (Fields <$> ls)).
  destruct (Fields l) as [| a r] eqn:E; cbn [List.filter]; [exact IH |].
  destruct (negb (session_row partner (a :: r))); [| exact IH].
  cbn [fmap list_fmap List.filter]. rewrite E. f_equal. exact IH.
Qed.

Lemma scan_fits c ls : scan_lines c = (ls, false) -> Forall fits_line ls.
Proof.
  intros H. apply until_long_ok in H as [Hl ->]. apply Forall_fmap. eapply Forall_impl; [exact Hl |].
  intros x. unfold fits_line, too_long. cbn. intros Hx. apply Z.leb_gt in Hx. apply Z.leb_gt. pose proof (slen_dropCR x). lia.
Qed.

Lemma kept_sub partner ls : kept_lines partner ls ⊆ ls.
Proof. intros x Hx. apply list_elem_of_In in Hx. apply filter_In in Hx as [Hx _]. by apply list_elem_of_In. Qed.

Lemma Forall_sub {A} (P : A -> Prop) l k : k ⊆ l -> Forall P l -> Forall P k.
Proof. rewrite !Forall_forall. intros Hs H x Hx. by apply H, Hs. Qed.

Lemma file_no_nl f : Forall no_nl (file_lines f).1.
Proof. destruct f; [apply scan_no_nl | constructor]. Qed.

Lemma file_fits f ls : file_lines f = (ls, false) -> Forall fits_line ls.
Proof. destruct f; [apply scan_fits | by intros [= <-]]. Qed.

Definition session_text (tok partnerB64 secret : string) : string := tokenKey tok ⊕ " " ⊕ partnerB64 ⊕ " " ⊕ secret.

Lemma solid_no_nl s : all_chars solid s = true -> no_nl s.
Proof. by apply solid_no_char. Qed.

Lemma session_text_no_nl tok p s : word p -> word s -> no_nl (session_text tok p s).
Proof.
  intros [Hp _] [Hs _]. unfold session_text, no_nl. rewrite !contains_char_app.
  rewrite (solid_no_nl p Hp), (solid_no_nl s Hs), (solid_no_nl _ (wd_solid _ (tokenKey_word tok))). done.
Qed.

Lemma session_text_fits tok p s : (slen p + slen s <= 1000)%nat -> fits_line (session_text tok p s).
Proof.
  intros H. unfold fits_line, too_long, session_text, tokenKey, MaxScanTokenSize. apply Z.leb_gt.
  rewrite !slen_app, slen_hex, slen_sha256. change (slen " ") with 1%nat. lia.
Qed.

(** Saving a session is an upsert that loses nothing: on a store that reads
    in full and a partner that is not revoked, the store then holds every
    earlier row (other buddies' sessions and legacy lines alike, in order)
    except this partner's sessions, followed by the new session, and is again
    readable in full. *)
Theorem save_session_upserts revoked known ls tok partner secret :
  file_lines known = (ls, false) -> isRevokedLocked revoked partner = Ok false ->
  word partner -> word secret -> (slen partner + slen secret <= 1000)%nat ->
  exists f', saveSessionLocked revoked known tok partner secret = Ok f' /\ (file_lines f').2 = false /\
    rows f' = List.filter (fun fs => negb (session_row partner fs)) (rows known) ++ [[tokenKey tok; partner; secret]].
Proof.
  intros Hf Hr Hp Hs Hlen. unfold saveSessionLocked. rewrite Hr. cbn [of_read]. rewrite Hf. cbn [fst].
  set (new := tokenKey tok ⊕ " " ⊕ partner ⊕ " " ⊕ secret).
  assert (N : Forall no_nl (kept_lines partner ls ++ [new])).
  { apply Forall_app. split; [| apply Forall_singleton; by apply session_text_no_nl].
    eapply Forall_sub; [apply kept_sub |]. pose proof (file_no_nl known) as H. by rewrite Hf in H. }
  assert (F : Forall fits_line (kept_lines partner ls ++ [new])).
  { apply Forall_app. split; [| apply Forall_singleton; by apply session_text_fits].
    eapply Forall_sub; [apply kept_sub |]. by eapply file_fits. }
  eexists. split; [done |]. rewrite join_text by (by destruct (kept_lines partner ls)). split.
  - unfold file_lines. by rewrite scan_text.
  - rewrite rows_text by done. rewrite fmap_app, List.filter_app, filter_kept. unfold rows. rewrite Hf. cbn [fst]. f_equal.
    unfold new. cbn [fmap list_fmap]. by rewrite Fields_three by (done || apply tokenKey_word).
Qed.

(** What the missing error check costs: past a line the scanner refuses,
    everything is dropped from the store. *)
Lemma save_session_truncates x rest tok partner secret :
  no_nl x -> too_long x = true -> Forall no_nl rest ->
  saveSessionLocked None (Some (text_of (x :: rest))) tok partner secret = Ok (Some (session_text tok partner secret ⊕ nl_s)).
Proof.
  intros Hn Hl Hr. unfold saveSessionLocked, file_lines, scan_lines.
  rewrite split_text by (by constructor). rewrite drop_last_empty_snoc. cbn [until_long]. by rewrite Hl.
Qed.
