(* ===== verification/TrustTheorems.v ===== *)
(** * Transactions on the trust state

    Sequences of learn, save, remove, revoke and allow, in any order and with
    any of them failing: what the revocation list guarantees of every state
    they reach, and the trust decision. *)

From S2P Require Import Prelude Base64 Sha256 Json NetAddr NetParse Crypto Protocol HsRegistry Authz AuthzFile TrustStore TrustProps.

(** A transaction; [lock] says whether the lock was taken, [today] is the date
    written into the list.  Saving takes the key in the spelling the server
    sent it in, so here any text; the commands that revoke and allow resolve
    what they are given to the bytes of a key first. *)
Inductive trust_op :=
| TLearn (lock : bool) (token keyB64 : string)
| TSave (lock : bool) (token keyB64 secret : string)
| TRemove (lock : bool) (keyB64 : string)
| TRevoke (lock : bool) (today pin : string) (manifest : result StoreErr Z)
| TAllow (lock : bool) (today pin : string).

Definition or_same (s : TrustState) (r : result StoreErr TrustState) : TrustState :=
  match r with Ok s' => s' | Err _ => s end.

Definition trust_step (s : TrustState) (op : trust_op) : TrustState :=
  match op with
  | TLearn lock token keyB64 => or_same s (learnPeer true lock token keyB64 s)
  | TSave lock token keyB64 secret => or_same s (saveSession true lock token keyB64 secret s)
  | TRemove lock keyB64 => or_same s (let? r := removeSession true lock keyB64 s in Ok r.2)
  | TRevoke lock today pin manifest => (PeersRemove lock today (PubKeyB64 pin) manifest s).2
  | TAllow lock today pin => or_same s (let? r := PeersAllow lock today (PubKeyB64 pin) s in Ok r.2)
  end.

Definition trust_run (ops : list trust_op) (s : TrustState) : TrustState := fold_left trust_step ops s.

Definition date (today : string) : Prop := (slen today <= 100)%nat /\ no_nl today.
Definition key_bytes (pin : string) : Prop := slen pin = PublicKeySize.

Definition op_wf (op : trust_op) : Prop :=
  match op with
  | TLearn _ _ _ | TSave _ _ _ _ | TRemove _ _ => True
  | TRevoke _ today pin _ | TAllow _ today pin => key_bytes pin /\ date today
  end.

(** What is stored is in the canonical spelling. *)
Definition canonical_op (op : trust_op) : Prop :=
  match op with
  | TLearn _ _ k => exists pin, key_bytes pin /\ k = PubKeyB64 pin
  | TSave _ _ k secret => (exists pin, key_bytes pin /\ k = PubKeyB64 pin) /\ word secret
  | _ => True
  end.

(** ** The invariant *)

Definition revoked_ok (s : TrustState) : Prop := exists es, loadRevokedLocked (ts_revoked s) = Ok es /\ Forall entry_ok es.

Record trust_inv (s : TrustState) : Prop := {
  ti_revoked : revoked_ok s;
  ti_canonical : Forall canonical_line (file_lines (ts_known s)).1;
}.

Lemma load_nodup f es : loadRevokedLocked f = Ok es -> NoDup (re_key <$> es).
Proof.
  unfold loadRevokedLocked. destruct (file_lines f) as [ls []]; [done |]. intros [= <-]. apply dedup_nodup.
Qed.

Lemma existsb_key k es : existsb (fun e => String.eqb (re_key e) k) es = bool_decide (k ∈ re_key <$> es).
Proof.
  induction es as [| e es IH]; [done |]. cbn [existsb fmap list_fmap]. rewrite IH.
  destruct (String.eqb_spec (re_key e) k) as [<- | Hne]; cbn [orb].
  - symmetry. apply bool_decide_eq_true. by left.
  - apply bool_decide_ext. split; [by right | intros [-> | ?]%elem_of_cons; done].
Qed.

Lemma key_canonical pin : key_bytes pin -> canonical_key (PubKeyB64 pin).
Proof. intros H. by exists pin. Qed.

Lemma key_word pin : key_bytes pin -> word (PubKeyB64 pin).
Proof.
  intros H. destruct (canonical_solid _ (key_canonical _ H)) as [Hs Hl]. split; [done |]. intros E. by rewrite E in Hl.
Qed.

(** What the two writers of the revocation list do to its keys. *)
Lemma addRevoked_keys today k f es :
  loadRevokedLocked f = Ok es -> Forall entry_ok es -> canonical_key k -> date today ->
  exists b f' es', addRevokedLocked today k f = Ok (b, f') /\ loadRevokedLocked f' = Ok es' /\ Forall entry_ok es' /\
    forall k', k' ∈ re_key <$> es' <-> k' = k \/ k' ∈ re_key <$> es.
Proof.
  intros Hl He Hk [Ht Hn]. unfold addRevokedLocked. rewrite Hl. rewrite existsb_key. case_bool_decide as Hin.
  - exists false, f, es. split_and!; [done | done | done |]. intros k'. split; [by right | intros [-> |]; done].
  - destruct (revoked_roundtrip today (es ++ [mkRevoked k ("revoked " ⊕ today)])) as (es' & Hl' & He' & Hk').
    + apply Forall_app. split; [done |]. apply Forall_singleton. split; [done | |].
      * cbn [re_note]. rewrite slen_app. change (slen "revoked ") with 8%nat. lia.
      * cbn [re_note]. unfold no_nl. rewrite contains_char_app. by rewrite Hn.
    + rewrite fmap_app. apply NoDup_app. split_and!; [by eapply load_nodup | | by apply NoDup_singleton].
      intros x Hx ->%list_elem_of_singleton. done.
    + done.
    + done.
    + eexists true, _, es'. split_and!; [done | done | done |]. rewrite Hk', fmap_app. intros k'.
      rewrite elem_of_app. cbn [fmap list_fmap re_key]. rewrite list_elem_of_singleton. tauto.
Qed.

Lemma removeRevoked_keys today k f es :
  loadRevokedLocked f = Ok es -> Forall entry_ok es -> date today ->
  exists b f' es', removeRevokedLocked today k f = Ok (b, f') /\ loadRevokedLocked f' = Ok es' /\ Forall entry_ok es' /\
    forall k', k' <> k -> (k' ∈ re_key <$> es' <-> k' ∈ re_key <$> es).
Proof.
  intros Hl He [Ht Hn]. unfold removeRevokedLocked. rewrite Hl. destruct (existsb _ es).
  2: { exists false, f, es. by split_and!. }
  set (kept := List.filter (fun e => negb (String.eqb (re_key e) k)) es).
  assert (S : kept ⊆ es) by (intros x Hx%list_elem_of_In; apply filter_In in Hx as [Hx _]; by apply list_elem_of_In).
  destruct (revoked_roundtrip today kept) as (es' & Hl' & He' & Hk').
  - by eapply Forall_sub.
  - unfold kept. clear -Hl. pose proof (load_nodup _ _ Hl) as D. clear Hl. induction es as [| e es IH]; [constructor |].
    cbn [fmap list_fmap] in D. apply NoDup_cons in D as [D1 D2]. cbn [List.filter]. destruct (negb _); [| by apply IH].
    cbn [fmap list_fmap]. constructor; [| by apply IH]. intros Hx. apply D1. apply list_elem_of_fmap in Hx as (y & -> & Hy).
    apply list_elem_of_In, filter_In in Hy as [Hy _]. apply list_elem_of_fmap. exists y. split; [done | by apply list_elem_of_In].
  - done.
  - done.
  - eexists true, _, es'. split_and!; [done | done | done |]. intros k' Hne. rewrite Hk'. rewrite !list_elem_of_fmap. split.
    + intros (e & -> & Hin). eauto.
    + intros (e & -> & Hin). exists e. split; [done |]. apply list_elem_of_In, filter_In. split; [by apply list_elem_of_In |].
      by apply negb_true_iff, String.eqb_neq.
Qed.

(** ** Lines *)

Lemma PubKeyB64_inj p q : PubKeyB64 p = PubKeyB64 q -> p = q.
Proof. apply Std_encode_inj. Qed.

Lemma session_text_of k tok pin secret :
  key_bytes pin -> word secret -> session_of k (session_text tok (PubKeyB64 pin) secret) = String.eqb (PubKeyB64 pin) k.
Proof.
  intros Hp Hs. unfold session_of, session_text. by rewrite Fields_three by (done || apply tokenKey_word || by apply key_word).
Qed.

Lemma session_text_canonical tok pin secret :
  key_bytes pin -> word secret -> canonical_line (session_text tok (PubKeyB64 pin) secret).
Proof.
  intros Hp Hs ss Hl. assert (ss_pin ss = pin) as ->; [| rewrite session_text_of by done; apply String.eqb_refl].
  unfold line_session, session_text in Hl. rewrite Fields_three in Hl by (done || apply tokenKey_word || by apply key_word).
  unfold PubKeyB64 in Hl. rewrite Std_decode_encode, Hp in Hl. by injection Hl as <-.
Qed.

(** A trust-on-first-use line is no session. *)
Lemma learn_text_fields tok pin :
  key_bytes pin -> Fields (tokenKey tok ⊕ " " ⊕ PubKeyB64 pin) = [tokenKey tok; PubKeyB64 pin].
Proof.
  intros Hp. destruct (tokenKey_word tok) as [Ht Nt]. destruct (key_word _ Hp) as [Hk Nk].
  assert (F : forall x l, x <> "" -> flush x l = x :: l) by (intros x l Hx; unfold flush; by destruct (String.eqb_spec x "")).
  unfold Fields. rewrite fields_word by done. cbn [String.append fields_go].
  change (space_width (String " " (PubKeyB64 pin))) with 1%nat. cbv iota. rewrite F by done. f_equal.
  rewrite <- (app_empty_r (PubKeyB64 pin)), fields_word by done. cbn [String.append fields_go]. by rewrite F, app_empty_r.
Qed.

(** What each writer of the store leaves of a line property. *)
Lemma save_forall P revoked known tok pin secret f' :
  saveSessionLocked revoked known tok (PubKeyB64 pin) secret = Ok f' -> key_bytes pin -> word secret ->
  of_fields P -> P (session_text tok (PubKeyB64 pin) secret) ->
  Forall P (file_lines known).1 -> Forall P (file_lines f').1.
Proof.
  intros Hsv Hp Hs HP Hnew Hk. unfold saveSessionLocked in Hsv. destruct (of_read _) as [[] |]; [done | | done].
  injection Hsv as <-. rewrite join_text by (by destruct (kept_lines _ _)). unfold file_lines at 1. apply text_forall; [done | |].
  - apply Forall_app. split; [eapply Forall_sub; [apply kept_sub | apply file_no_nl] |].
    apply Forall_singleton, session_text_no_nl; [by apply key_word | done].
  - apply Forall_app. split; [eapply Forall_sub; [apply kept_sub | done] | by apply Forall_singleton].
Qed.

Lemma learn_forall P revoked known tok pin f' :
  learnPeerLocked revoked known tok (PubKeyB64 pin) = Ok f' -> key_bytes pin -> of_fields P ->
  P (tokenKey tok ⊕ " " ⊕ PubKeyB64 pin) -> Forall P (file_lines known).1 -> Forall P (file_lines f').1.
Proof.
  intros Hl Hp HP Hnew Hk. unfold learnPeerLocked in Hl. destruct (of_read _) as [[] |]; [done | | done].
  injection Hl as <-. unfold file_lines at 1.
  pose proof (append_forall P (default "" known) (tokenKey tok ⊕ " " ⊕ PubKeyB64 pin) HP) as A.
  unfold appended in A. rewrite !app_assoc_s in A. apply A.
  - unfold no_nl. rewrite !contains_char_app. destruct (tokenKey_word tok) as [Ht _]. destruct (key_word _ Hp) as [Hw _].
    by rewrite (solid_no_nl _ Ht), (solid_no_nl _ Hw).
  - done.
  - destruct known; [done | constructor].
Qed.

Lemma removeSession_forall P known k n f' :
  removeSessionLocked known k = Ok (n, f') -> of_fields P -> Forall P (file_lines known).1 -> Forall P (file_lines f').1.
Proof.
  intros Hr HP Hk. unfold removeSessionLocked in Hr. destruct known as [c |]; [| by injection Hr as <- <-].
  destruct (file_lines (Some c)) as [ls []] eqn:E; [done |]. destruct (_ =? 0); [injection Hr as <- <-; by rewrite E |].
  injection Hr as <- <-. cbn [fst] in Hk. destruct (String.eqb_spec (join nl_s (kept_lines k ls)) "") as [_ | Hj]; [constructor |].
  rewrite join_text by (intros Ek; by rewrite Ek in Hj). unfold file_lines at 1. pose proof (file_no_nl (Some c)) as N. rewrite E in N.
  apply text_forall; [done | |]; (eapply Forall_sub; [apply kept_sub | done]).
Qed.

(** After a removal no session line of the key is left. *)
Lemma removeSession_free known k n f' :
  removeSessionLocked known k = Ok (n, f') -> Forall (not_session k) (file_lines f').1.
Proof.
  unfold removeSessionLocked. destruct known as [c |]; [| intros [= <- <-]; constructor].
  destruct (file_lines (Some c)) as [ls []] eqn:E; [done |]. destruct (_ =? 0) eqn:E0; intros [= <- <-].
  - rewrite E. apply Z.eqb_eq in E0. cbn [fst]. clear E. induction ls as [| l ls IH]; [constructor |]. cbn [count_if] in E0.
    unfold not_session. destruct (session_of k l) eqn:El; [lia |]. constructor; [done | apply IH; lia].
  - destruct (String.eqb_spec (join nl_s (kept_lines k ls)) "") as [_ | Hj]; [constructor |].
    rewrite join_text by (intros Ek; by rewrite Ek in Hj). unfold file_lines at 1. pose proof (file_no_nl (Some c)) as N. rewrite E in N.
    apply text_forall; [apply not_session_fields | eapply Forall_sub; [apply kept_sub | done] |].
    apply Forall_forall. intros l Hl. apply list_elem_of_In, filter_In in Hl as [_ Hl].
    apply andb_true_iff in Hl as [Hl _]. by apply negb_true_iff in Hl.
Qed.

(** ** Runs *)

Lemma allow_step lock today k s s' b es :
  PeersAllow lock today k s = Ok (b, s') -> loadRevokedLocked (ts_revoked s) = Ok es -> Forall entry_ok es -> date today ->
  ts_known s' = ts_known s /\ exists es', loadRevokedLocked (ts_revoked s') = Ok es' /\ Forall entry_ok es' /\
    forall k', k' <> k -> (k' ∈ re_key <$> es' <-> k' ∈ re_key <$> es).
Proof.
  intros Ha Hl He Hd. unfold PeersAllow, withTrustStateLock in Ha. cbn [negb] in Ha. destruct lock; [| done]. cbn [negb] in Ha.
  destruct (removeRevoked_keys today k _ _ Hl He Hd) as (c & f' & es' & Hr & H1 & H2 & H3).
  rewrite Hr in Ha. cbn [of_read] in Ha. injection Ha as <- <-. cbn. eauto.
Qed.

(** What a revocation leaves, whatever it reports and whatever the store holds. *)
Lemma remove_revokes lock today pin manifest s res s' :
  PeersRemove lock today (PubKeyB64 pin) manifest s = (res, s') -> revoked_ok s -> key_bytes pin -> date today ->
  match res with
  | NotRevoked _ => s' = s
  | InEffect _ => isRevoked (ts_revoked s') (PubKeyB64 pin) = Ok true
  | Removed _ _ _ => isRevoked (ts_revoked s') (PubKeyB64 pin) = Ok true /\
                     Forall (not_session (PubKeyB64 pin)) (file_lines (ts_known s')).1
  end /\ revoked_ok s' /\
  (forall P, of_fields P -> Forall P (file_lines (ts_known s)).1 -> Forall P (file_lines (ts_known s')).1) /\
  (forall k, isRevoked (ts_revoked s) k = Ok true -> isRevoked (ts_revoked s') k = Ok true).
Proof.
  intros Hr (es & Hl & He) Hp Hd. unfold PeersRemove in Hr. destruct lock; cbn [negb] in Hr.
  2: { injection Hr as <- <-. split; [done |]. split; [eexists; eauto | by split; auto]. }
  destruct (addRevoked_keys today _ _ _ Hl He (key_canonical _ Hp) Hd) as (b & f' & es' & Ha & Hl' & He' & Hk').
  rewrite Ha in Hr. cbn [ts_known] in Hr.
  assert (R : forall kn k, k = PubKeyB64 pin \/ k ∈ re_key <$> es -> isRevoked (ts_revoked (mkTrust kn f')) k = Ok true).
  { intros kn k Hk. unfold isRevoked, revokedSet. cbn [ts_revoked]. rewrite Hl'. f_equal. apply bool_decide_eq_true.
    apply elem_of_list_to_set. by apply Hk'. }
  assert (M : forall kn k, isRevoked (ts_revoked s) k = Ok true -> isRevoked (ts_revoked (mkTrust kn f')) k = Ok true).
  { intros kn k. unfold isRevoked at 1, revokedSet at 1. rewrite Hl. intros [= Hb]. apply bool_decide_eq_true in Hb.
    apply elem_of_list_to_set in Hb. apply R. by right. }
  assert (Ok' : forall kn, revoked_ok (mkTrust kn f')) by (intros kn; eexists; eauto).
  destruct (removeSessionLocked (ts_known s) (PubKeyB64 pin)) as [[n k] | e] eqn:Es.
  - assert (C : forall P, of_fields P -> Forall P (file_lines (ts_known s)).1 -> Forall P (file_lines k).1)
      by (intros P HP HF; by eapply removeSession_forall).
    pose proof (removeSession_free _ _ _ _ Es) as F.
    destruct manifest as [m | e]; injection Hr as <- <-; (split; [eauto |]); (split; [apply Ok' | split; [exact C | exact (M k)]]).
  - injection Hr as <- <-. split; [eauto |]. split; [apply Ok' | split; [done | exact (M None)]].
Qed.

Lemma remove_step lock today pin manifest s res s' :
  PeersRemove lock today (PubKeyB64 pin) manifest s = (res, s') -> trust_inv s -> key_bytes pin -> date today ->
  match res with
  | NotRevoked _ => s' = s
  | InEffect _ => isRevoked (ts_revoked s') (PubKeyB64 pin) = Ok true
  | Removed _ _ _ => isRevoked (ts_revoked s') (PubKeyB64 pin) = Ok true /\
                     Forall (not_session (PubKeyB64 pin)) (file_lines (ts_known s')).1
  end /\ trust_inv s' /\
  (forall P, of_fields P -> Forall P (file_lines (ts_known s)).1 -> Forall P (file_lines (ts_known s')).1) /\
  (forall k, isRevoked (ts_revoked s) k = Ok true -> isRevoked (ts_revoked s') k = Ok true).
Proof.
  intros Hr [Hi Hc] Hp Hd. destruct (remove_revokes _ _ _ _ _ _ _ Hr Hi Hp Hd) as (Ho & Hi' & HP & HM).
  split_and!; [done | | done | done]. split; [done |]. by apply HP; [apply canonical_line_fields |].
Qed.

(** One transaction, with whatever spellings, keeps the list readable and every
    revocation it does not lift. *)
Lemma step_revoked op s pin :
  revoked_ok s -> op_wf op ->
  revoked_ok (trust_step s op) /\
  ((forall lock today, op <> TAllow lock today pin) -> isRevoked (ts_revoked s) (PubKeyB64 pin) = Ok true ->
   isRevoked (ts_revoked (trust_step s op)) (PubKeyB64 pin) = Ok true).
Proof.
  intros Hi Hw. pose proof Hi as (es & Hl & He).
  destruct op as [lock tok k | lock tok k secret | lock k | lock today p manifest | lock today p]; cbn [trust_step op_wf] in *.
  - unfold learnPeer, withTrustStateLock. cbn [negb]. destruct lock; cbn [negb]; [| done]. by destruct (learnPeerLocked _ _ _ _).
  - unfold saveSession, withTrustStateLock. cbn [negb]. destruct lock; cbn [negb]; [| done]. by destruct (saveSessionLocked _ _ _ _ _).
  - unfold removeSession, withTrustStateLock. cbn [negb]. destruct lock; cbn [negb]; [| done]. by destruct (removeSessionLocked _ _) as [[] |].
  - destruct Hw as [Hw Hd]. destruct (PeersRemove _ _ _ _ _) as [res s'] eqn:E. cbn [snd].
    destruct (remove_revokes _ _ _ _ _ _ _ E Hi Hw Hd) as (_ & Hi' & _ & HR). split; [done |]. intros _. apply HR.
  - destruct Hw as [Hw Hd]. destruct (PeersAllow _ _ _ _) as [[b s'] |] eqn:E; [| done]. cbn [or_same snd].
    destruct (allow_step _ _ _ _ _ _ _ E Hl He Hd) as (Hk & es' & Hl' & He' & Hkeys). split; [eexists; eauto |].
    intros Hno Hr. unfold isRevoked, revokedSet in *. rewrite Hl in Hr. rewrite Hl'.
    injection Hr as Hb. apply bool_decide_eq_true, elem_of_list_to_set in Hb. f_equal. apply bool_decide_eq_true.
    apply elem_of_list_to_set, Hkeys; [| done]. intros Eq. apply PubKeyB64_inj in Eq as ->. by apply (Hno lock today).
Qed.

(** One transaction in canonical spelling gives a revoked key no session. *)
Lemma step_store op s pin :
  revoked_ok s -> op_wf op -> canonical_op op -> key_bytes pin ->
  (Forall canonical_line (file_lines (ts_known s)).1 -> Forall canonical_line (file_lines (ts_known (trust_step s op))).1) /\
  (isRevoked (ts_revoked s) (PubKeyB64 pin) = Ok true -> Forall (not_session (PubKeyB64 pin)) (file_lines (ts_known s)).1 ->
   Forall (not_session (PubKeyB64 pin)) (file_lines (ts_known (trust_step s op))).1).
Proof.
  intros Hi Hw Hc Hp. pose proof Hi as (es & Hl & He).
  assert (RL : isRevoked (ts_revoked s) (PubKeyB64 pin) = Ok true -> isRevokedLocked (ts_revoked s) (PubKeyB64 pin) = Ok true).
  { unfold isRevoked, revokedSet, isRevokedLocked. rewrite Hl, existsb_key. intros [= Hb]. f_equal.
    apply bool_decide_eq_true in Hb. apply bool_decide_eq_true. by apply elem_of_list_to_set in Hb. }
  destruct op as [lock tok k | lock tok k secret | lock k | lock today p manifest | lock today p]; cbn [trust_step op_wf canonical_op] in *.
  - destruct Hc as (p & Hc & ->). unfold learnPeer, withTrustStateLock. cbn [negb]. destruct lock; cbn [negb]; [| done].
    destruct (learnPeerLocked _ _ _ _) as [f' |] eqn:E; [| done]. cbn [or_same ts_known ts_revoked].
    pose proof (learn_text_fields tok p Hc) as F. split.
    + intros Hf. eapply learn_forall; [exact E | done | apply canonical_line_fields | | done]. intros ss. unfold line_session. by rewrite F.
    + intros _ Hf. eapply learn_forall; [exact E | done | apply not_session_fields | | done]. unfold not_session, session_of. by rewrite F.
  - destruct Hc as [(p & Hc & ->) Hs]. unfold saveSession, withTrustStateLock. cbn [negb]. destruct lock; cbn [negb]; [| done].
    destruct (saveSessionLocked _ _ _ _ _) as [f' |] eqn:E; [| done]. cbn [or_same ts_known ts_revoked]. split.
    + intros Hf. eapply save_forall; [exact E | done | done | apply canonical_line_fields | | done]. by apply session_text_canonical.
    + intros Hr Hf. eapply save_forall; [exact E | done | done | apply not_session_fields | | done].
      unfold not_session. rewrite session_text_of by done. apply String.eqb_neq. intros Eq.
      unfold saveSessionLocked in E. rewrite Eq, (RL Hr) in E. done.
  - unfold removeSession, withTrustStateLock. cbn [negb]. destruct lock; cbn [negb]; [| done].
    destruct (removeSessionLocked _ _) as [[n f'] |] eqn:E; [| done]. cbn [or_same snd ts_known ts_revoked]. split.
    + intros Hf. eapply removeSession_forall; [exact E | apply canonical_line_fields | done].
    + intros _ Hf. eapply removeSession_forall; [exact E | apply not_session_fields | done].
  - destruct Hw as [Hw Hd]. destruct (PeersRemove _ _ _ _ _) as [res s'] eqn:E. cbn [snd].
    destruct (remove_revokes _ _ _ _ _ _ _ E Hi Hw Hd) as (_ & _ & HP & _).
    split; [apply HP, canonical_line_fields | intros _; apply HP, not_session_fields].
  - destruct Hw as [Hw Hd]. destruct (PeersAllow _ _ _ _) as [[b s'] |] eqn:E; [| done]. cbn [or_same snd].
    destruct (allow_step _ _ _ _ _ _ _ E Hl He Hd) as (-> & _). done.
Qed.

Lemma run_revoked_ok ops s : revoked_ok s -> Forall op_wf ops -> revoked_ok (trust_run ops s).
Proof.
  intros Hi Hw. revert s Hi. induction Hw as [| op ops Hop Hops IH]; intros s Hi; [done |]. apply IH. by destruct (step_revoked op s "" Hi Hop).
Qed.

Lemma run_canonical ops s :
  revoked_ok s -> Forall op_wf ops -> Forall canonical_op ops ->
  Forall canonical_line (file_lines (ts_known s)).1 -> Forall canonical_line (file_lines (ts_known (trust_run ops s))).1.
Proof.
  intros Hi Hw. revert s Hi. induction Hw as [| op ops Hop Hops IH]; intros s Hi Hc Hf; [done |]. apply Forall_cons in Hc as [Ho Hc].
  apply IH; [by destruct (step_revoked op s "" Hi Hop) | done |].
  destruct (step_store op s (zeros PublicKeySize) Hi Hop Ho) as [C _]; [reflexivity | by apply C].
Qed.

Lemma empty_inv : trust_inv (mkTrust None None).
Proof. split; [exists []; by split | constructor]. Qed.

Lemma no_session_loaded f pin sec :
  key_bytes pin -> Forall canonical_line (file_lines f).1 -> Forall (not_session (PubKeyB64 pin)) (file_lines f).1 ->
  loadSessionFor f pin <> Ok (Some sec).
Proof.
  intros Hp Hc Hn. unfold loadSessionFor, loadSessions. destruct (file_lines f) as [ls []]; [done |]. cbn [fst] in *.
  destruct (find _ _) as [ss |] eqn:E; [| done]. intros _. apply find_some in E as [Hin Heq]. apply String.eqb_eq in Heq.
  apply list_elem_of_In, list_elem_of_omap in Hin as (l & Hl & Hss).
  rewrite Forall_forall in Hc, Hn. specialize (Hc _ Hl _ Hss). specialize (Hn _ Hl). unfold not_session in Hn. congruence.
Qed.

Lemma run_revoked ops s pin :
  revoked_ok s -> Forall op_wf ops -> (forall lock today, TAllow lock today pin ∉ ops) ->
  isRevoked (ts_revoked s) (PubKeyB64 pin) = Ok true -> isRevoked (ts_revoked (trust_run ops s)) (PubKeyB64 pin) = Ok true.
Proof.
  intros Hi Hw. revert s Hi. induction Hw as [| op ops Hop Hops IH]; intros s Hi Hno Hr; [done |].
  destruct (step_revoked op s pin Hi Hop) as [Hi' Hk]. apply IH; [done | intros lock today Hin; apply (Hno lock today); by right |].
  apply Hk; [| done]. intros lock today ->. apply (Hno lock today). by left.
Qed.

Lemma run_no_session ops s pin :
  revoked_ok s -> Forall op_wf ops -> Forall canonical_op ops -> key_bytes pin -> (forall lock today, TAllow lock today pin ∉ ops) ->
  isRevoked (ts_revoked s) (PubKeyB64 pin) = Ok true -> Forall (not_session (PubKeyB64 pin)) (file_lines (ts_known s)).1 ->
  Forall (not_session (PubKeyB64 pin)) (file_lines (ts_known (trust_run ops s))).1.
Proof.
  intros Hi Hw Hc Hp. revert s Hi. induction Hw as [| op ops Hop Hops IH]; intros s Hi Hno Hr Hf; [done |]. apply Forall_cons in Hc as [Ho Hc].
  destruct (step_revoked op s pin Hi Hop) as [Hi' Hk].
  apply IH; [done | done | intros lock today Hin; apply (Hno lock today); by right | |].
  - apply Hk; [| done]. intros lock today ->. apply (Hno lock today). by left.
  - destruct (step_store op s pin Hi Hop Ho Hp) as [_ S]. by apply S.
Qed.

(** C23. A revoked buddy stays out.  Take any history of trust-state transactions
    (learning, saving, removing, revoking, allowing, each of them possibly
    failing, and the saved keys in any spelling), then a revocation whose
    tombstone was written, however much of its cleanup failed, then any further
    history that does not allow that buddy again.  The key is still listed; the
    trust decision refuses it under every policy (pinned, lab, first use) and
    every token, whatever the store holds; and no session can be saved under
    the canonical spelling of the key.  If the cleanup reached the store and
    everything stored was in canonical spelling, no session is loaded for the
    key.  (Another spelling of it is not recognised when a session is saved;
    what is refused then is the connection, not the line in the store.) *)
Theorem revoked_stays_out ops1 ops2 lock today pin manifest res s2 :
  Forall op_wf ops1 -> Forall op_wf ops2 -> key_bytes pin -> date today ->
  (forall l d, TAllow l d pin ∉ ops2) ->
  PeersRemove lock today (PubKeyB64 pin) manifest (trust_run ops1 (mkTrust None None)) = (res, s2) ->
  (forall e, res <> NotRevoked e) ->
  let s := trust_run ops2 s2 in
  isRevoked (ts_revoked s) (PubKeyB64 pin) = Ok true /\
  (forall t known token, tp_store t = true -> decide_trust t (ts_revoked s) known token pin = Err TRevoked) /\
  (forall l token secret s', saveSession true l token (PubKeyB64 pin) secret s <> Ok s') /\
  ((exists n m b, res = Removed n m b) -> Forall canonical_op ops1 -> Forall canonical_op ops2 ->
   forall sec, loadSessionFor (ts_known s) pin <> Ok (Some sec)).
Proof.
  intros H1 H2 Hp Hd Hno Hrm Hres s. pose proof (run_revoked_ok ops1 _ (ti_revoked _ empty_inv) H1) as Hi1.
  destruct (remove_revokes _ _ _ _ _ _ _ Hrm Hi1 Hp Hd) as (Hout & Hi2 & HP & _).
  assert (R2 : isRevoked (ts_revoked s2) (PubKeyB64 pin) = Ok true) by (destruct res; [by edestruct Hres | done | by destruct Hout]).
  pose proof (run_revoked ops2 s2 pin Hi2 H2 Hno R2) as Hr. pose proof (run_revoked_ok ops2 _ Hi2 H2) as Hi.
  fold s in Hr, Hi. split_and!; [done | | |].
  - intros t known token Ht. unfold decide_trust. rewrite Ht. unfold PubKeyB64 in Hr. by rewrite Hr.
  - intros l token secret s' Hsv. unfold saveSession, withTrustStateLock in Hsv. cbn [negb] in Hsv. destruct l; [| done].
    unfold saveSessionLocked in Hsv. destruct Hi as (es & Hl & _).
    unfold isRevoked, revokedSet in Hr. unfold isRevokedLocked in Hsv. rewrite Hl in Hr, Hsv. rewrite existsb_key in Hsv.
    injection Hr as Hb. apply bool_decide_eq_true, elem_of_list_to_set in Hb.
    by rewrite bool_decide_eq_true_2 in Hsv.
  - intros (n & m & b & ->) C1 C2 sec. destruct Hout as [_ Hfree].
    assert (K2 : Forall canonical_line (file_lines (ts_known s2)).1).
    { apply HP; [apply canonical_line_fields |]. apply run_canonical; [apply empty_inv | done | done | constructor]. }
    apply no_session_loaded; [done | by apply run_canonical | by apply run_no_session].
Qed.

(** ** First contact *)

Lemma fields_nonempty l : forall k cur, Forall (fun x => x <> "") (fields_go k cur l).
Proof.
  induction l as [| c l IH]; intros k cur; cbn [fields_go].
  - unfold flush. by destruct (String.eqb_spec cur ""); repeat constructor.
  - destruct k; [| apply IH]. destruct (space_width (String c l)); [apply IH |].
    unfold flush. destruct (String.eqb_spec cur ""); [apply IH | constructor; [done | apply IH]].
Qed.

Lemma find_known_empty f token :
  loadKnownPeer f token = Ok "" ->
  exists ls, file_lines f = (ls, false) /\
    find (fun fs => match fs with k :: _ :: _ => String.eqb k (tokenKey token) | _ => false end) (Fields <$> ls) = None.
Proof.
  unfold loadKnownPeer. destruct (file_lines f) as [ls err]. destruct (find _ _) as [fs |] eqn:E.
  - apply find_some in E as [Hin Hk]. apply list_elem_of_In, list_elem_of_fmap in Hin as (l & -> & _).
    destruct (Fields l) as [| a [| b r]] eqn:El; [done | done |]. intros [= ->]. exfalso.
    pose proof (fields_nonempty l 0 "" : Forall (fun x => x <> "") (Fields l)) as N.
    rewrite El in N. by apply Forall_cons in N as [_ [? _]%Forall_cons].
  - destruct err; [done |]. intros _. exists ls. by split.
Qed.

(** Trust on first use is sticky: once a first contact was confirmed for a
    token, the same key is trusted for that token without another code check
    and every other key is refused as changed, until the store is edited. *)
Theorem tofu_is_sticky t s token pin s' :
  tp_pinned t = None -> tp_insecure t = false -> tp_store t = true -> key_bytes pin ->
  decide_trust t (ts_revoked s) (ts_known s) token pin = Ok true -> confirm t true token pin s = Ok s' ->
  decide_trust t (ts_revoked s') (ts_known s') token pin = Ok false /\
  forall pin', pin' <> pin -> isRevoked (ts_revoked s') (PubKeyB64 pin') = Ok false ->
    decide_trust t (ts_revoked s') (ts_known s') token pin' = Err (TKeyChanged (PubKeyB64 pin) (PubKeyB64 pin')).
Proof.
  intros Hpin Hins Hst Hp Hd Hc. unfold decide_trust in Hd. rewrite Hst in Hd.
  destruct (isRevoked _ _) as [[] |] eqn:Er; [done | | done]. rewrite Hpin, Hins in Hd.
  destruct (loadKnownPeer (ts_known s) token) as [k |] eqn:Ek; [| done].
  destruct (String.eqb_spec k "") as [-> | _]; [| exfalso; revert Hd; by destruct (String.eqb k _)].
  apply find_known_empty in Ek as (ls & Hls & Hnone).
  unfold confirm in Hc. rewrite Hpin, Hins, Hst in Hc. cbn [orb negb bool_decide] in Hc.
  unfold learnPeer, withTrustStateLock in Hc. cbn [negb] in Hc.
  destruct (learnPeerLocked _ _ _ _) as [f' |] eqn:El; [| done]. injection Hc as <-. cbn [ts_known ts_revoked].
  unfold learnPeerLocked in El. destruct (of_read _) as [[] |]; [done | | done].
  set (new := tokenKey token ⊕ " " ⊕ PubKeyB64 pin).
  assert (f' = Some (appended (default "" (ts_known s)) new)) as ->.
  { injection El as <-. unfold appended, new. by rewrite !app_assoc_s. }
  assert (W : word (PubKeyB64 pin)) by (by apply key_word).
  assert (L : loadKnownPeer (Some (appended (default "" (ts_known s)) new)) token = Ok (PubKeyB64 pin)).
  { unfold loadKnownPeer, file_lines. rewrite (append_scan _ ls new).
    - rewrite fmap_app. assert (G : forall (A : Type) (p : A -> bool) (l l' : list A), find p l = None -> find p (l ++ l') = find p l').
      { intros A p l l' Hl. induction l as [| x l IH]; [done |]. cbn [find app] in *. destruct (p x); [done | by apply IH]. }
      rewrite G by done. cbn [fmap list_fmap find]. unfold new. rewrite Fields_dropCR, learn_text_fields by done.
      by rewrite String.eqb_refl.
    - unfold no_nl, new. rewrite !contains_char_app. destruct (tokenKey_word token) as [Ht _].
      by rewrite (solid_no_nl _ Ht), (solid_no_nl _ (wd_solid _ W)).
    - unfold fits_line, too_long, new, MaxScanTokenSize, tokenKey. apply Z.leb_gt.
      destruct (canonical_solid _ (key_canonical _ Hp)) as [_ Hkl]. rewrite !slen_app, Hkl, slen_hex, slen_sha256. cbn. lia.
    - destruct (ts_known s); [done |]. by injection Hls as <-. }
  assert (N : String.eqb (PubKeyB64 pin) "" = false) by (apply String.eqb_neq, W).
  unfold decide_trust. rewrite Hst, Hpin, Hins, L. change (Std.EncodeToString pin) with (PubKeyB64 pin) in *. rewrite Er. cbv iota beta. rewrite N. split; [by rewrite String.eqb_refl |].
  intros pin' Hne Hr'. change (Std.EncodeToString pin') with (PubKeyB64 pin'). rewrite Hr'. cbv iota beta.
  destruct (String.eqb_spec (PubKeyB64 pin) (PubKeyB64 pin')) as [E | _]; [by apply PubKeyB64_inj in E | done].
Qed.

(** ** Instances *)

Module TrustDemo.
Definition bob : string := "0123456789abcdef0123456789ABCDEF".
Definition eve : string := "fedcba9876543210fedcba9876543210".
Definition tofu : trustPolicy := mkTrustPolicy None false true.
Definition empty : TrustState := mkTrust None None.
Definition removal := Eval vm_compute in PeersRemove true "2026-08-20" (PubKeyB64 bob) (Ok 1) empty.
Definition later : list trust_op := [TLearn true "tok" (PubKeyB64 bob); TSave true "tok" (PubKeyB64 bob) "secret"; TAllow true "2026-08-21" eve].

Lemma bob_key : key_bytes bob.
Proof. reflexivity. Qed.
Lemma eve_key : key_bytes eve.
Proof. reflexivity. Qed.

Lemma revoked_stays_out_witness :
  let s := trust_run later removal.2 in
  isRevoked (ts_revoked s) (PubKeyB64 bob) = Ok true /\
  decide_trust tofu (ts_revoked s) (ts_known s) "tok" bob = Err TRevoked /\
  loadSessionFor (ts_known s) bob <> Ok (Some "secret").
Proof.
  destruct (revoked_stays_out [] later true "2026-08-20" bob (Ok 1) removal.1 removal.2) as (H1 & H2 & _ & H4).
  - constructor.
  - repeat constructor; cbn; try reflexivity; try lia.
  - reflexivity.
  - split; [cbn; lia | reflexivity].
  - intros l d H. unfold later in H. apply elem_of_cons in H as [H | H]; [discriminate H |].
    apply elem_of_cons in H as [H | H]; [discriminate H |]. apply list_elem_of_singleton in H. injection H as _ _ H.
    vm_compute in H. discriminate H.
  - vm_compute. reflexivity.
  - intros e H. vm_compute in H. discriminate H.
  - split; [exact H1 | split; [apply H2; reflexivity | apply H4; [eexists _, _, _; vm_compute; reflexivity | constructor |]]].
  apply Forall_cons. split; [exists bob; split; [exact bob_key | reflexivity] |].
  apply Forall_cons. split; [split; [exists bob; split; [exact bob_key | reflexivity] | split; [reflexivity | discriminate]] |].
  apply Forall_cons. split; [exact I | constructor].
Defined.

(** The same key with other unused bits in its last character. *)
Definition bob_again : string := "MDEyMzQ1Njc4OWFiY2RlZjAxMjM0NTY3ODlBQkNERUZ=".

Definition saved_again : TrustState :=
  Eval vm_compute in match saveSession true true "tok" bob_again "secret" removal.2 with Ok s => s | Err _ => removal.2 end.

(** A session of a revoked key is saved, and loaded for it, when the server
    spells the key in another way; the trust decision still refuses it. *)
Lemma other_spelling_saved :
  DecodePubKey bob_again = Ok bob /\ saveSession true true "tok" bob_again "secret" removal.2 = Ok saved_again /\
  loadSessionFor (ts_known saved_again) bob = Ok (Some "secret") /\
  decide_trust tofu (ts_revoked saved_again) (ts_known saved_again) "tok" bob = Err TRevoked.
Proof. split_and!; vm_compute; reflexivity. Qed.

Definition two_lines : result StoreErr TrustState :=
  let? s := saveSession true true "tok" bob_again "old-secret" empty in saveSession true true "tok2" (PubKeyB64 bob) "new-secret" s.

(** A session in another spelling is not replaced by a later one, and is the one
    that is found. *)
Lemma old_spelling_wins : (let? s := two_lines in Ok (loadSessionFor (ts_known s) bob)) = Ok (Ok (Some "old-secret")).
Proof. vm_compute. reflexivity. Qed.

Lemma tofu_is_sticky_witness :
  exists s', confirm tofu true "tok" bob empty = Ok s' /\ decide_trust tofu (ts_revoked s') (ts_known s') "tok" bob = Ok false.
Proof.
  eexists. split; [reflexivity |]. eapply (tofu_is_sticky tofu empty "tok" bob); reflexivity.
Defined.

Lemma save_session_upserts_witness :
  exists f', saveSessionLocked None None "tok" (PubKeyB64 bob) "secret" = Ok f' /\
    rows f' = [[tokenKey "tok"; PubKeyB64 bob; "secret"]].
Proof.
  destruct (save_session_upserts None None [] "tok" (PubKeyB64 bob) "secret") as (f' & H1 & _ & H2).
  - reflexivity.
  - vm_compute. reflexivity.
  - apply key_word, bob_key.
  - split; [reflexivity | intros E; discriminate E].
  - vm_compute. lia.
  - exists f'. split; [exact H1 | exact H2].
Defined.
End TrustDemo.
