(* ===== verification/Sas.v ===== *)
(** * Pairing two people: codes, channel binding, invites

    [internal/role/sas.go] and [binding.go], [internal/crypto/pairsecret.go] and
    [internal/invite/invite.go]: the six-character code both people compare,
    the commit-and-reveal exchange it is bound to on a WireGuard path, the
    secret a pair derives for later meetings, and the invite blob that carries
    the inviter's key. *)

From S2P Require Import Prelude Base64 Sha256 Json NetAddr NetParse Crypto Authz AuthzFile TrustStore TrustProps.

(** ** The code *)

Definition sasAlphabet : string := "0123456789ABCDEFGHJKMNPQRSTVWXYZ".

(** Both ends put the two keys in the same order. *)
Definition in_order (a b : string) : string * string := if str_ltb b a then (b, a) else (a, b).

Definition sasDigest (myPub peerPub sessionID : string) : string :=
  let '(a, b) := in_order myPub peerPub in sha256 (a ⊕ b ⊕ sessionID).

Definition sas_char (v : Z) : Ascii.ascii := default "0"%char (String.get (Z.to_nat (Z.land v 31)) sasAlphabet).

(** The loop fills the array from its last character to its first. *)
Fixpoint sas_loop (n : nat) (v : Z) (out : string) : string :=
  match n with O => out | S n' => sas_loop n' (Z.shiftr v 5) (String (sas_char v) out) end.

Definition sas_word (sum : string) : Z := be_value 0 (take_s 4 sum).

Definition ComputeSAS (myPub peerPub sessionID : string) : string :=
  sas_loop 6 (sas_word (sasDigest myPub peerPub sessionID)) "".

(** ** What a person types *)

Definition separator (c : Ascii.ascii) : bool :=
  (byte_val c =? 32) || (byte_val c =? 45) || (byte_val c =? 9) || (byte_val c =? 13) || (byte_val c =? 10).

Fixpoint norm_ascii (s : string) : string :=
  match s with
  | EmptyString => ""
  | String c r =>
      let u := upper c in
      if separator u then norm_ascii r
      else if Ascii.eqb u "O" then String "0" (norm_ascii r)
      else if Ascii.eqb u "I" || Ascii.eqb u "L" then String "1" (norm_ascii r)
      else String u (norm_ascii r)
  end.

Inductive SASErr := SASRejected | SASTimeout.

(** What reading a line from the terminal gives: the text read, and whether the
    read ended in a newline, an error (end of input) or the deadline. *)
Inductive Read := Line (s : string) | Partial (s : string) | Deadline.

Section Typed.
(** [strings.ToUpper] and the rune loop on text that is not ASCII. *)
Context (norm_unicode : string -> string).

Definition normalizeSAS (s : string) : string := if all_chars is_ascii s then norm_ascii s else norm_unicode s.

Definition sasMatches (typed expected : string) : bool := String.eqb (normalizeSAS typed) expected.

Definition readSASLine (r : Read) : result SASErr string :=
  match r with
  | Line s => Ok s
  | Partial s => if String.eqb s "" then Err SASRejected else Ok s
  | Deadline => Err SASTimeout
  end.

(** [PromptSAS] and [PromptSASBlind] differ in what they show only. *)
Definition PromptSAS (sas : string) (r : Read) : result SASErr unit :=
  let? line := readSASLine r in
  if sasMatches line sas then Ok tt else Err SASRejected.

Definition PromptSASBlind (sas : string) (r : Read) : result SASErr unit := PromptSAS sas r.
End Typed.

(** ** The channel binding of a WireGuard path *)

(** Curve25519: the public half of a scalar and the shared secret; [None] where
    the library refuses (an all-zero result). *)
Class X25519 := {
  x_pub : string -> string;
  x_shared : string -> string -> option string;
}.

Class X25519Laws `{X25519} : Prop := {
  x_pub_size e : slen (x_pub e) = 32%nat;
  x_agree a b : x_shared a (x_pub b) = x_shared b (x_pub a);
}.

Definition bindLabel : string := "buddynet-bind-v1".

Inductive BindErr := BindRand | BindSend | BindRecv | BindBadKey | BindBadCommit | BindMismatch | BindDH.

(** The transport: the outcome of each send and each receive, in order. *)
Record Wire := mkWire { w_send : list bool; w_recv : list (option string) }.

Definition send (w : Wire) : bool * Wire :=
  match w_send w with b :: r => (b, mkWire r (w_recv w)) | [] => (false, w) end.
Definition recv (w : Wire) : option string * Wire :=
  match w_recv w with m :: r => (m, mkWire (w_send w) r) | [] => (None, w) end.

Section Binding.
Context `{X25519}.

(** The digest over both ephemeral keys and the shared secret. *)
Definition bind_input (ePub peerPub shared : string) : string :=
  let '(lo, hi) := in_order ePub peerPub in bindLabel ⊕ lo ⊕ hi ⊕ shared.

Definition bind_digest (ePub peerPub shared : string) : string := sha256 (bind_input ePub peerPub shared).

Definition finish_binding (ePriv peerPub : string) : result BindErr string :=
  match x_shared ePriv peerPub with
  | None => Err BindDH
  | Some shared => Ok (bind_digest (x_pub ePriv) peerPub shared)
  end.

(** [RunBinding]: what was sent, and the binding or why there is none. *)
Definition RunBinding (committer : bool) (rand : option string) (w : Wire) : list string * result BindErr string :=
  match rand with
  | None => ([], Err BindRand)
  | Some ePriv =>
      let ePub := x_pub ePriv in
      if committer then
        let commit := sha256 ePub in
        let '(ok1, w1) := send w in
        if negb ok1 then ([], Err BindSend)
        else
          let '(m, w2) := recv w1 in
          match m with
          | None => ([commit], Err BindRecv)
          | Some peerPub =>
              if negb (slen peerPub =? 32)%nat then ([commit], Err BindBadKey)
              else
                let '(ok2, _) := send w2 in
                if negb ok2 then ([commit], Err BindSend)
                else ([commit; ePub], finish_binding ePriv peerPub)
          end
      else
        let '(m, w1) := recv w in
        match m with
        | None => ([], Err BindRecv)
        | Some commit =>
            if negb (slen commit =? 32)%nat then ([], Err BindBadCommit)
            else
              let '(ok, w2) := send w1 in
              if negb ok then ([], Err BindSend)
              else
                let '(m2, _) := recv w2 in
                match m2 with
                | None => ([ePub], Err BindRecv)
                | Some peerPub =>
                    if negb (slen peerPub =? 32)%nat then ([ePub], Err BindBadKey)
                    else if negb (String.eqb (sha256 peerPub) commit) then ([ePub], Err BindMismatch)
                    else ([ePub], finish_binding ePriv peerPub)
                end
        end
  end.

(** ** The secret of a pair *)

(** [dh a B] is the X25519 of the two identities' derived keys, [None] where a
    conversion or the curve refuses; [hkdf] is HKDF-SHA256 without salt. *)
Context (dh : string -> string -> option string) (hkdf : string -> string -> string).

Definition pair_label : string := "buddynet-pair-secret-v1" ⊕ String zero "".

Definition PairSecret (myPriv myPub peerPub : string) : option string :=
  shared ← dh myPriv peerPub;
  let '(lo, hi) := in_order myPub peerPub in
  Some (hkdf shared (pair_label ⊕ lo ⊕ hi)).

(** [deriveSessionSecret] on a QUIC session; [ekm label ctx] is the exported
    keying material, the same at both ends of one session. *)
Definition sessionSecretLabel : string := "buddynet-session-rendezvous-v1".

Definition deriveSessionSecret (ekm : string -> string -> option string) (myPub peerPub : string) : option string :=
  let '(a, b) := in_order myPub peerPub in
  k ← ekm sessionSecretLabel (a ⊕ b); Some (RawURL.EncodeToString k).
End Binding.

(** ** Invites *)

Definition invite_prefix : string := "bnet1.".

Definition Mint (token pub : string) : string := invite_prefix ⊕ token ⊕ "." ⊕ RawURL.EncodeToString pub.

Inductive BlobErr := BlobShape | BlobNotB64 | BlobKeySize (n : nat).

Definition Parse (s : string) : result BlobErr (string * option string) :=
  let t := TrimSpace s in
  if negb (has_prefix invite_prefix t) then Ok (t, None)
  else match cut "." (drop_s 6 t) with
       | None => Err BlobShape
       | Some (tok, keyPart) =>
           if String.eqb tok "" || String.eqb keyPart "" then Err BlobShape
           else match RawURL.DecodeString keyPart with
                | None => Err BlobNotB64
                | Some raw => if negb (slen raw =? PublicKeySize)%nat then Err (BlobKeySize (slen raw))
                              else Ok (tok, Some raw)
                end
       end.

Definition IsBlob (s : string) : bool := has_prefix invite_prefix (TrimSpace s).
