(* ===== verification/SasProps.v ===== *)
(** * Pairing: what the code, the binding and the invite guarantee *)

From S2P Require Import Prelude Base64 Sha256 Json NetAddr NetParse Crypto Authz AuthzFile TrustStore TrustProps Sas.

(** ** Order *)

Lemma in_order_sym a b : in_order a b = in_order b a.
Proof.
  unfold in_order. destruct (str_ltb b a) eqn:E1.
  - by rewrite (str_ltb_asym _ _ E1).
  - destruct (str_ltb a b) eqn:E2; [done |]. by rewrite (str_ltb_total _ _ E2 E1).
Qed.


(** ** Codes *)

Lemma sas_loop_app n v out : sas_loop n v out = sas_loop n v "" ⊕ out.
Proof.
  revert v out. induction n as [| n IH]; intros v out; [done |]. cbn [sas_loop].
  rewrite IH, (IH _ (String (sas_char v) "")), app_assoc_s. done.
Qed.

Lemma sas_loop_len n v : slen (sas_loop n v "") = n.
Proof.
  revert v. induction n as [| n IH]; intros v; [done |]. cbn [sas_loop]. rewrite sas_loop_app, slen_app, IH. cbn. lia.
Qed.

Definition sas_symbol (c : Ascii.ascii) : bool := contains_char c sasAlphabet.

Lemma land31 v : Z.land v 31 = v mod 32.
Proof. change 31 with (Z.ones 5). by rewrite Z.land_ones. Qed.

Lemma shiftr5 v : Z.shiftr v 5 = v / 32.
Proof. by rewrite Z.shiftr_div_pow2. Qed.

Lemma sas_char_of n : (n < 32)%nat -> sas_char (Z.of_nat n) = default "0"%char (String.get n sasAlphabet).
Proof. intros H. unfold sas_char. rewrite land31, Z.mod_small by lia. by rewrite Nat2Z.id. Qed.

Lemma sas_char_symbol v : sas_symbol (sas_char v) = true.
Proof.
  assert (A : forallb (fun n => sas_symbol (default "0"%char (String.get n sasAlphabet))) (seq 0 32) = true) by reflexivity.
  rewrite forallb_forall in A. unfold sas_char. apply A, in_seq. rewrite land31. pose proof (Z.mod_pos_bound v 32). lia.
Qed.

Lemma sas_char_inj v w : sas_char v = sas_char w -> v mod 32 = w mod 32.
Proof.
  assert (A : forallb (fun n => forallb (fun m =>
      implb (Ascii.eqb (default "0"%char (String.get n sasAlphabet)) (default "0"%char (String.get m sasAlphabet))) (n =? m)%nat)
      (seq 0 32)) (seq 0 32) = true) by reflexivity.
  unfold sas_char. rewrite !land31. pose proof (Z.mod_pos_bound v 32). pose proof (Z.mod_pos_bound w 32). intros E.
  rewrite forallb_forall in A. specialize (A (Z.to_nat (v mod 32)) ltac:(apply in_seq; lia)).
  rewrite forallb_forall in A. specialize (A (Z.to_nat (w mod 32)) ltac:(apply in_seq; lia)).
  rewrite E, Ascii.eqb_refl in A. cbn [implb] in A. apply Nat.eqb_eq in A. lia.
Qed.

Lemma sas_loop_inj n v w : sas_loop n v "" = sas_loop n w "" <-> v mod 32 ^ Z.of_nat n = w mod 32 ^ Z.of_nat n.
Proof.
  revert v w. induction n as [| n IH]; intros v w; [by rewrite !Z.mod_1_r |].
  cbn [sas_loop]. rewrite !shiftr5, (sas_loop_app n (v / 32)), (sas_loop_app n (w / 32)).
  rewrite Nat2Z.inj_succ, Z.pow_succ_r by lia. set (p := 32 ^ Z.of_nat n) in *.
  assert (Hp : 0 < p) by (apply Z.pow_pos_nonneg; lia).
  assert (S : forall x, x mod (32 * p) = (x / 32 mod p) * 32 + x mod 32).
  { intros x. rewrite Z.rem_mul_r by lia. lia. }
  rewrite !S. pose proof (Z.mod_pos_bound v 32). pose proof (Z.mod_pos_bound w 32). split.
  - intros E. apply app_cancel_len in E as [E1 E2]; [| by rewrite !sas_loop_len]. injection E2 as E2.
    apply sas_char_inj in E2. apply IH in E1. lia.
  - intros E. assert (E1 : v / 32 mod p = w / 32 mod p) by nia. assert (E2 : v mod 32 = w mod 32) by lia.
    apply IH in E1. rewrite E1. f_equal. unfold sas_char. by rewrite !land31, E2.
Qed.

Lemma sas_code a b sid : all_chars sas_symbol (ComputeSAS a b sid) = true.
Proof.
  unfold ComputeSAS. generalize (sas_word (sasDigest a b sid)), 6%nat. intros v n. revert v.
  induction n as [| n IH]; intros v; [done |].
  cbn [sas_loop]. rewrite sas_loop_app, all_chars_app, IH. cbn [all_chars]. by rewrite sas_char_symbol.
Qed.

(** Both ends of a session compute the same six Crockford symbols, whichever
    key each calls its own; and the code carries exactly the low thirty bits of
    the first digest word: two codes agree precisely when those bits do. *)
Theorem sas_symmetric_30_bits a b sid c d sid' :
  ComputeSAS a b sid = ComputeSAS b a sid /\ slen (ComputeSAS a b sid) = 6%nat /\
  all_chars sas_symbol (ComputeSAS a b sid) = true /\
  (ComputeSAS a b sid = ComputeSAS c d sid' <->
   sas_word (sasDigest a b sid) mod 2 ^ 30 = sas_word (sasDigest c d sid') mod 2 ^ 30).
Proof.
  unfold ComputeSAS. split_and!.
  - unfold sasDigest. by rewrite in_order_sym.
  - apply sas_loop_len.
  - apply sas_code.
  - apply sas_loop_inj.
Qed.

(** ** Typing the code *)

(** [spells t s]: the text [t] shows the code [s] to a person: separators
    anywhere, letters in either case, the letter O for zero, I or L for one. *)
Inductive spells : string -> string -> Prop :=
| sp_nil : spells "" ""
| sp_sep c t s : separator c = true -> spells t s -> spells (String c t) s
| sp_zero c t s : upper c = "O"%char -> spells t s -> spells (String c t) (String "0" s)
| sp_one c t s : upper c = "I"%char \/ upper c = "L"%char -> spells t s -> spells (String c t) (String "1" s)
| sp_char c t s : sas_symbol (upper c) = true -> spells t s -> spells (String c t) (String (upper c) s).

Lemma separator_upper c : separator (upper c) = separator c.
Proof.
  assert (A : forallb (fun c => Bool.eqb (separator (upper c)) (separator c)) all_bytes = true) by reflexivity.
  rewrite forallb_forall in A. apply Bool.eqb_prop, A, all_bytes_complete.
Qed.

Lemma symbol_plain c : sas_symbol c = true ->
  separator c = false /\ Ascii.eqb c "O" = false /\ Ascii.eqb c "I" = false /\ Ascii.eqb c "L" = false.
Proof.
  assert (A : forallb (fun c => implb (sas_symbol c) (negb (separator c) && negb (Ascii.eqb c "O") && negb (Ascii.eqb c "I") &&
                                                      negb (Ascii.eqb c "L"))) all_bytes = true) by reflexivity.
  rewrite forallb_forall in A. specialize (A c (all_bytes_complete c)). intros H. rewrite H in A. cbn [implb] in A.
  apply andb_true_iff in A as [[[?%negb_true_iff ?%negb_true_iff]%andb_true_iff ?%negb_true_iff]%andb_true_iff ?%negb_true_iff].
  done.
Qed.

Lemma norm_spells t s : all_chars sas_symbol s = true -> (norm_ascii t = s <-> spells t s).
Proof.
  revert s. induction t as [| c t IH]; intros s Hs.
  - split; [intros <-; constructor | by inversion 1].
  - cbn [norm_ascii]. rewrite separator_upper. split.
    + destruct (separator c) eqn:E; [intros Hn; constructor; [done | by apply IH] |].
      destruct (Ascii.eqb (upper c) "O") eqn:EO.
      { intros <-. apply sp_zero; [by apply Ascii.eqb_eq | apply IH; [| done]]. cbn [all_chars] in Hs. by apply andb_true_iff in Hs as [_ ?]. }
      destruct (Ascii.eqb (upper c) "I" || Ascii.eqb (upper c) "L") eqn:EI.
      { intros <-. apply sp_one; [apply orb_true_iff in EI as [?%Ascii.eqb_eq | ?%Ascii.eqb_eq]; auto |].
        apply IH; [| done]. cbn [all_chars] in Hs. by apply andb_true_iff in Hs as [_ ?]. }
      intros <-. cbn [all_chars] in Hs. apply andb_true_iff in Hs as [Hc Hs]. apply sp_char; [done | by apply IH].
    + inversion 1 as [| c' t' s' Hsep Hsp | c' t' s' Ho Hsp | c' t' s' Ho Hsp | c' t' s' Hc Hsp]; subst.
      * rewrite Hsep. by apply IH.
      * cbn [all_chars] in Hs. apply andb_true_iff in Hs as [_ Hs]. rewrite <- separator_upper, Ho.
        change (separator "O") with false. cbv iota. change (Ascii.eqb "O" "O") with true. cbv iota. f_equal. by apply IH.
      * cbn [all_chars] in Hs. apply andb_true_iff in Hs as [_ Hs]. rewrite <- separator_upper.
        destruct Ho as [-> | ->]; cbn; f_equal; by apply IH.
      * destruct (symbol_plain _ Hc) as (Hsep & H1 & H2 & H3). rewrite <- separator_upper, Hsep, H1, H2, H3. cbn [orb].
        cbn [all_chars] in Hs. apply andb_true_iff in Hs as [_ Hs]. f_equal. by apply IH.
Qed.

(** The prompt accepts exactly what a person would call the right code: an
    ASCII line is accepted if and only if it spells this side's code, up to
    separators, letter case and the look-alikes O, I and L.  A deadline is a
    timeout, no input at all a rejection, and anything else a rejection. *)
Theorem prompt_accepts_exactly uni a b sid line :
  all_chars is_ascii line = true ->
  let code := ComputeSAS a b sid in
  (PromptSAS uni code (Line line) = Ok tt <-> spells line code) /\
  (PromptSAS uni code (Line line) <> Ok tt -> PromptSAS uni code (Line line) = Err SASRejected) /\
  PromptSAS uni code (Partial "") = Err SASRejected /\ PromptSAS uni code Deadline = Err SASTimeout.
Proof.
  intros Ha code. assert (Hc : all_chars sas_symbol code = true) by (apply sas_code). clearbody code.
  unfold PromptSAS, sasMatches, normalizeSAS. cbn [readSASLine]. rewrite Ha. split_and!; try done.
  - destruct (String.eqb_spec (norm_ascii line) code) as [E | E]; rewrite <- norm_spells by done; naive_solver.
  - by destruct (String.eqb (norm_ascii line) code).
Qed.

(** ** The binding *)

Section Binding.
Context `{X25519Laws}.



Lemma bind_digest_sym a b s : bind_digest a b s = bind_digest b a s.
Proof. unfold bind_digest, bind_input. by rewrite in_order_sym. Qed.




(** The binding exchange completes between honest ends and both derive the
    same value: run over a channel that carries each message to the other side,
    the committer and the responder send exactly what the other expects, and
    where the curve accepts the keys both finish with one binding, under which
    they compute the same code. *)
Theorem binding_agrees a b sa sb idA idB :
  x_shared a (x_pub b) = Some sa -> x_shared b (x_pub a) = Some sb ->
  exists k,
    RunBinding true (Some a) (mkWire [true; true] [Some (x_pub b)]) = ([sha256 (x_pub a); x_pub a], Ok k) /\
    RunBinding false (Some b) (mkWire [true] [Some (sha256 (x_pub a)); Some (x_pub a)]) = ([x_pub b], Ok k) /\
    ComputeSAS idA idB k = ComputeSAS idB idA k.
Proof.
  intros Ha Hb. exists (bind_digest (x_pub a) (x_pub b) sa).
  assert (E : Some sa = Some sb) by (rewrite <- Ha, <- Hb; apply x_agree). injection E as <-.
  unfold RunBinding, finish_binding, send, recv. cbn [w_send w_recv negb].
  rewrite !x_pub_size, slen_sha256. cbn [Nat.eqb negb]. rewrite String.eqb_refl, Ha, Hb. cbn [negb].
  split_and!; [done | by rewrite bind_digest_sym |]. unfold ComputeSAS, sasDigest. by rewrite in_order_sym.
Qed.


(** ** The pair secret *)

Lemma pair_secret_agrees `{Ed25519} (dh : string -> string -> option string) (hkdf : string -> string -> string) a b :
  dh a (pub_of b) = dh b (pub_of a) ->
  PairSecret dh hkdf a (pub_of a) (pub_of b) = PairSecret dh hkdf b (pub_of b) (pub_of a).
Proof. intros Hd. unfold PairSecret. rewrite Hd, in_order_sym. done. Qed.
End Binding.

(** ** Invites *)

Lemma trim_right_all_solid s : all_chars solid s = true -> trim_right s = s.
Proof.
  induction s as [| c s IH]; [done |]. cbn [all_chars]. intros [Hc Hs]%andb_true_iff.
  pose proof (trim_right_solid "" c s eq_refl Hc) as T. cbn [String.append] in T. by rewrite T, IH.
Qed.

Lemma TrimSpace_solid s : all_chars solid s = true -> TrimSpace s = s.
Proof.
  intros Hs. unfold TrimSpace. rewrite <- (trim_right_all_solid s Hs) at 2. f_equal. destruct s as [| c s]; [done |].
  cbn [trim_left]. cbn [all_chars] in Hs. apply andb_true_iff in Hs as [Hc _]. by rewrite space_width_solid.
Qed.

Lemma b64url_solid s : all_chars is_b64url s = true -> all_chars solid s = true.
Proof.
  apply all_chars_impl. intros c Hc.
  assert (A : forallb (fun c => implb (is_b64url c) (solid c)) all_bytes = true) by reflexivity.
  rewrite forallb_forall in A. specialize (A c (all_bytes_complete c)). by rewrite Hc in A.
Qed.

Lemma b64url_no_dot s : all_chars is_b64url s = true -> contains_char "." s = false.
Proof. intros H. by eapply contains_char_all. Qed.

(** An invite survives the trip and never weakens on the way.  What one side
    mints for a token and key the other parses back to exactly these, and a
    string that announces itself as an invite either yields a token with a
    full 32-byte key to pin or is an error: it is never taken for a bare,
    unpinned token. *)
Theorem invite_roundtrip_or_error :
  (forall token pub, token <> "" -> all_chars is_b64url token = true -> slen pub = PublicKeySize ->
     Parse (Mint token pub) = Ok (token, Some pub) /\ IsBlob (Mint token pub) = true) /\
  (forall s tok key, IsBlob s = true -> Parse s = Ok (tok, key) -> tok <> "" /\ exists pub, key = Some pub /\ slen pub = PublicKeySize) /\
  (forall s, IsBlob s = false -> Parse s = Ok (TrimSpace s, None)).
Proof.
  split_and!.
  - intros token pub Hne Ht Hp. pose proof (RawURL_encode_alphabet pub) as Hk.
    assert (S : all_chars solid (Mint token pub) = true).
    { unfold Mint. rewrite !all_chars_app, (b64url_solid _ Ht), (b64url_solid _ Hk). done. }
    unfold Parse, IsBlob. rewrite TrimSpace_solid by done. unfold Mint. rewrite has_prefix_app. cbn [negb].
    split; [| done]. rewrite (drop_s_len 6) by done. change ("." ⊕ RawURL.EncodeToString pub) with (String "." (RawURL.EncodeToString pub)).
    rewrite cut_app by (by apply b64url_no_dot). destruct (String.eqb_spec token ""); [done |]. cbn [orb].
    assert (Hl : String.eqb (RawURL.EncodeToString pub) "" = false).
    { apply String.eqb_neq. intros E. apply (f_equal slen) in E. rewrite RawURL_encoded_len, Hp in E. done. }
    by rewrite Hl, RawURL_decode_encode, Hp.
  - intros s tok key Hb. unfold Parse, IsBlob in *. rewrite Hb. cbn [negb]. destruct (cut _ _) as [[t k] |]; [| done].
    destruct (String.eqb_spec t ""); [done |]. cbn [orb]. destruct (String.eqb k ""); [done |].
    destruct (RawURL.DecodeString k) as [raw |]; [| done]. destruct (slen raw =? PublicKeySize)%nat eqn:E; [| done].
    cbn [negb]. intros [= <- <-]. split; [done |]. exists raw. split; [done | by apply Nat.eqb_eq].
  - intros s Hb. unfold Parse, IsBlob in *. by rewrite Hb.
Qed.

(** ** Concrete runs *)

Module SasDemo.
(** A group that is easy to compute with: the key is the scalar, and the shared
    secret the two keys in order. *)
#[local] Instance toy_x : X25519 := {
  x_pub := Toy.pad32;
  x_shared a p := Some ((in_order (Toy.pad32 a) p).1 ⊕ (in_order (Toy.pad32 a) p).2);
}.

#[local] Instance toy_x_laws : X25519Laws.
Proof. split; cbn; [apply Toy.pad32_len | intros a b; by rewrite in_order_sym]. Qed.

Definition alice_wire : Wire := mkWire [true; true] [Some (x_pub "bob")].
Definition bob_wire : Wire := mkWire [true] [Some (sha256 (x_pub "alice")); Some (x_pub "alice")].

Lemma binding_agrees_witness :
  exists k,
    RunBinding true (Some "alice") alice_wire = ([sha256 (x_pub "alice"); x_pub "alice"], Ok k) /\
    RunBinding false (Some "bob") bob_wire = ([x_pub "bob"], Ok k) /\ ComputeSAS "a" "b" k = ComputeSAS "b" "a" k.
Proof. exact (binding_agrees "alice" "bob" _ _ "a" "b" eq_refl eq_refl). Defined.

Lemma prompt_accepts_exactly_witness :
  let code := ComputeSAS "a" "b" "s" in
  (PromptSAS id code (Line "k7q-x2m") = Ok tt <-> spells "k7q-x2m" code) /\
  (PromptSAS id code (Line "k7q-x2m") <> Ok tt -> PromptSAS id code (Line "k7q-x2m") = Err SASRejected) /\
  PromptSAS id code (Partial "") = Err SASRejected /\ PromptSAS id code Deadline = Err SASTimeout.
Proof. exact (prompt_accepts_exactly id "a" "b" "s" "k7q-x2m" eq_refl). Defined.




End SasDemo.
