(* ===== verification/Scope.v ===== *)
(** * Exposure scopes

    [internal/nft/scope.go] and [sameScope] of [internal/role/peersfile.go]: which
    ports of this host a buddy may reach, as text, as a value, and back. *)

From S2P Require Import Prelude Base64 Sha256 Json NetAddr NetParse Crypto Protocol HsRegistry Authz AuthzFile TrustStore TrustProps Sas SasProps.

(** ** Data and operations *)

Record Port := mkPort { Proto : string; Num : Z }.
Record Scope := mkScope { All : bool; Ports : list Port }.

#[export] Instance Port_eq_dec : EqDecision Port.
Proof. solve_decision. Defined.

#[export] Instance Scope_eq_dec : EqDecision Scope.
Proof. solve_decision. Defined.

Inductive ScopeErr := EmptyExpose | BadProto (part : string) | BadPort (part : string).

(** [strings.ToLower] and [strings.EqualFold] where the result is compared with a
    text of the letters a, c, d, l, p, t, u: no rune outside ASCII folds to
    one of these, so folding the ASCII letters decides the comparison. *)
Definition fold_ascii (s : string) : string := String.string_of_list_ascii (upper <$> String.list_ascii_of_string s).

Definition parsePort (text : string) : result ScopeErr Port :=
  let part := TrimSpace text in
  let '(proto, portStr) :=
    match cut "/" part with
    | Some (a, b) => (fold_ascii (TrimSpace a), TrimSpace b)
    | None => ("TCP", part)
    end in
  let? proto := if String.eqb proto "TCP" then Ok "tcp"
                else if String.eqb proto "UDP" then Ok "udp" else Err (BadProto part) in
  match ParseUint16 portStr with
  | Some n => if n =? 0 then Err (BadPort part) else Ok (mkPort proto n)
  | None => Err (BadPort part)
  end.

Definition add (ps : list Port) (p : Port) : list Port := if bool_decide (p ∈ ps) then ps else ps ++ [p].

(** The order of [normalize]: by protocol, then by number. *)
Definition port_less (a b : Port) : bool :=
  if String.eqb (Proto a) (Proto b) then Num a <? Num b else str_ltb (Proto a) (Proto b).

Definition port_le (a b : Port) : Prop := port_less b a = false.
#[export] Instance port_le_dec : RelDecision port_le.
Proof. intros a b. unfold port_le. apply _. Defined.

Definition normalize (ps : list Port) : list Port := merge_sort port_le ps.

Fixpoint parse_parts (parts : list string) (acc : list Port) : result ScopeErr (list Port) :=
  match parts with
  | [] => Ok acc
  | part :: r => let? p := parsePort part in parse_parts r (add acc p)
  end.

Definition ParseScope (text : string) : result ScopeErr Scope :=
  let spec := TrimSpace text in
  if String.eqb spec "" then Err EmptyExpose
  else if String.eqb (fold_ascii spec) "ALL" then Ok (mkScope true [])
  else let? ps := parse_parts (split_on "," spec) [] in Ok (mkScope false (normalize ps)).

Definition port_text (p : Port) : string := Proto p ⊕ "/" ⊕ itoa (Num p).

Definition Scope_String (s : Scope) : string :=
  if All s then "all" else match Ports s with [] => "NONE" | ps => join "," (port_text <$> ps) end.

Definition sameScope (a b : option Scope) : bool :=
  match a, b with
  | Some s, Some t => String.eqb (Scope_String s) (Scope_String t)
  | None, None => true
  | _, _ => false
  end.

(** ** Canonical form *)

Definition good_port (p : Port) : Prop := (Proto p = "tcp" \/ Proto p = "udp") /\ 1 <= Num p <= 65535.

(** What the parser produces: one spelling per set of ports. *)
Record canonical (s : Scope) : Prop := {
  cn_all : All s = true -> Ports s = [];
  cn_some : All s = false -> Ports s <> [];
  cn_good : Forall good_port (Ports s);
  cn_nodup : NoDup (Ports s);
  cn_sorted : Sorted port_le (Ports s);
}.

Lemma digits_val_nonneg s : forall acc v, 0 <= acc -> digits_val acc s = Some v -> 0 <= v.
Proof.
  induction s as [| c s IH]; intros acc v Ha; cbn; [by intros [= <-] |]. unfold is_digit.
  destruct (between 48 57 c) eqn:E; [| done]. intros Hv. apply (IH _ _) in Hv; [done |].
  unfold between in E. breflect. lia.
Qed.

Lemma ParseUint16_range s n : ParseUint16 s = Some n -> 0 <= n <= 65535.
Proof.
  unfold ParseUint16. destruct (String.eqb s ""); [done |]. destruct (digits_val 0 s) as [v |] eqn:E; [| done].
  cbn [mbind option_bind]. destruct (Z.leb_spec v 65535); [| done]. intros [= <-]. split; [| done].
  by apply (digits_val_nonneg s 0).
Qed.

Lemma parsePort_good t p : parsePort t = Ok p -> good_port p.
Proof.
  unfold parsePort. destruct (match cut "/" _ with Some _ => _ | None => _ end) as [proto ps].
  destruct (if String.eqb proto "TCP" then _ else _) as [pr | e] eqn:Ep; [| done].
  destruct (ParseUint16 ps) as [n |] eqn:En; [| done]. apply ParseUint16_range in En.
  destruct (Z.eqb_spec n 0); [done |]. intros [= <-]. split; cbn; [| lia].
  destruct (String.eqb proto "TCP"); [injection Ep as <-; by left |].
  destruct (String.eqb proto "UDP"); [injection Ep as <-; by right | done].
Qed.

(** The order is lexicographic, so it is total and antisymmetric. *)
Lemma port_le_iff a b :
  port_le a b <-> str_ltb (Proto a) (Proto b) = true \/ (Proto a = Proto b /\ Num a <= Num b).
Proof.
  unfold port_le, port_less. destruct (String.eqb_spec (Proto b) (Proto a)) as [-> | Hne].
  - rewrite Z.ltb_ge, str_ltb_irrefl. naive_solver.
  - split; [| intros [H | [? _]]; [by apply str_ltb_asym | congruence]]. intros H. left.
    destruct (str_ltb (Proto a) (Proto b)) eqn:E; [done |]. destruct Hne. by apply str_ltb_total.
Qed.

#[export] Instance port_le_total : Total port_le.
Proof.
  intros a b. destruct (decide (port_le a b)) as [? | Hn]; [by left | right]. rewrite port_le_iff.
  rewrite port_le_iff in Hn. destruct (str_ltb (Proto a) (Proto b)) eqn:E; [naive_solver |].
  destruct (str_ltb (Proto b) (Proto a)) eqn:E2; [by left |]. right. pose proof (str_ltb_total _ _ E E2) as Ep.
  split; [done |]. destruct (decide (Num a <= Num b)); [naive_solver | lia].
Qed.

#[export] Instance port_le_antisym : AntiSymm (=) port_le.
Proof.
  intros [p n] [q m]. rewrite !port_le_iff; cbn. intros [H1 | [-> H1]] [H2 | [E H2]]; subst.
  - apply str_ltb_asym in H1. congruence.
  - by rewrite str_ltb_irrefl in H1.
  - by rewrite str_ltb_irrefl in H2.
  - f_equal. lia.
Qed.

#[export] Instance port_le_trans : Transitive port_le.
Proof.
  intros a b c. rewrite !port_le_iff. intros [H1 | [E1 H1]] [H2 | [E2 H2]].
  - left. by eapply str_ltb_trans.
  - left. congruence.
  - left. congruence.
  - right. split; [congruence | lia].
Qed.

Lemma add_nodup ps p : NoDup ps -> NoDup (add ps p).
Proof.
  unfold add. case_bool_decide; [done |]. intros Hn. apply NoDup_app. split_and!; [done | set_solver | apply NoDup_singleton].
Qed.

Lemma add_elem ps p q : q ∈ add ps p <-> q ∈ ps \/ q = p.
Proof. unfold add. case_bool_decide; set_solver. Qed.

Lemma parse_parts_spec parts : forall acc ps, parse_parts parts acc = Ok ps -> NoDup acc ->
  NoDup ps /\ forall p, p ∈ ps <-> p ∈ acc \/ exists t, t ∈ parts /\ parsePort t = Ok p.
Proof.
  induction parts as [| t parts IH]; intros acc ps; cbn [parse_parts].
  - intros [= <-] Hn. split; [done |]. intros p. split; [auto | intros [? | (t & Ht & _)]; [done | set_solver]].
  - destruct (parsePort t) as [q | e] eqn:E; [| done]. intros Hp Hn. destruct (IH _ _ Hp (add_nodup _ q Hn)) as [H1 H2].
    split; [done |]. intros p. rewrite H2, add_elem. split.
    + intros [[? | ->] | (t' & Ht & Hp')]; [auto | |]; right; [exists t | exists t']; set_solver.
    + intros [? | (t' & [-> | Ht]%elem_of_cons & Hp')]; [auto | |]; [left; right; congruence | right; eauto].
Qed.

Lemma parse_parts_nonempty parts acc ps : parts <> [] -> parse_parts parts acc = Ok ps -> ps <> [].
Proof.
  destruct parts as [| t r]; [done |]. intros _. cbn [parse_parts]. destruct (parsePort t) as [q | e]; [| done].
  assert (G : forall r acc, q ∈ acc -> parse_parts r acc = Ok ps -> q ∈ ps).
  { clear. induction r as [| t r IH]; intros acc Hq; cbn; [by intros [= <-] |]. destruct (parsePort t); [| done].
    apply IH, add_elem. by left. }
  intros H E. apply G in H; [| apply add_elem; by right]. subst. set_solver.
Qed.

Lemma split_on_nonempty sep s : split_on sep s <> [].
Proof. destruct s; cbn; repeat case_match; done. Qed.

Lemma ParseScope_canonical text s : ParseScope text = Ok s -> canonical s.
Proof.
  unfold ParseScope. destruct (String.eqb _ ""); [done |]. destruct (String.eqb _ "ALL").
  { intros [= <-]. split; cbn; try done; constructor. }
  destruct (parse_parts _ _) as [ps | e] eqn:E; [| done]. intros [= <-].
  destruct (parse_parts_spec _ _ _ E (NoDup_nil_2)) as [Hn He]. pose proof (merge_sort_Permutation port_le ps) as P.
  split; cbn; [done | | | |].
  - intros _ E0. unfold normalize in E0. rewrite E0 in P. apply Permutation_nil_l in P.
    by apply (parse_parts_nonempty _ _ _ (split_on_nonempty _ _) E).
  - unfold normalize. rewrite P, Forall_forall. intros p Hp. apply He in Hp as [Hp | (t & _ & Ht)]; [set_solver |].
    by eapply parsePort_good.
  - unfold normalize. by rewrite P.
  - apply (Sorted_merge_sort port_le).
Qed.

(** ** Round trip *)

Definition plain (c : Ascii.ascii) : bool := is_digit c || between 97 122 c || Ascii.eqb c "/".

Lemma plain_solid s : all_chars plain s = true -> all_chars solid s = true.
Proof.
  apply all_chars_impl. intros c Hc. assert (A : forallb (fun c => implb (plain c) (solid c)) all_bytes = true) by reflexivity.
  rewrite forallb_forall in A. specialize (A c (all_bytes_complete c)). by rewrite Hc in A.
Qed.

Lemma itoa_plain n : 0 <= n < 10 ^ 20 -> all_chars plain (itoa n) = true.
Proof.
  intros H. eapply all_chars_impl; [| apply (itoa_nonneg n H)]. intros c Hc. unfold plain. by rewrite Hc.
Qed.

Lemma port_text_plain p : good_port p -> all_chars plain (port_text p) = true.
Proof.
  intros [Hp Hn]. unfold port_text. rewrite !all_chars_app, itoa_plain by lia. by destruct Hp as [-> | ->].
Qed.

Lemma parsePort_text p : good_port p -> parsePort (port_text p) = Ok p.
Proof.
  intros Hg. pose proof (port_text_plain p Hg) as Hpl. destruct Hg as [Hp Hn]. unfold parsePort.
  rewrite TrimSpace_solid by (by apply plain_solid). unfold port_text.
  change (Proto p ⊕ "/" ⊕ itoa (Num p)) with (Proto p ⊕ String "/" (itoa (Num p))).
  rewrite cut_app by (by destruct Hp as [-> | ->]).
  rewrite (TrimSpace_solid (itoa _)) by (apply plain_solid, itoa_plain; lia).
  destruct (ParseUint16_itoa (Num p) ltac:(lia)) as [-> _].
  destruct (Z.eqb_spec (Num p) 0); [lia |]. clear Hpl. destruct p as [pr num]; cbn in *. by destruct Hp as [-> | ->].
Qed.

Lemma plain_no_comma s : all_chars plain s = true -> contains_char "," s = false.
Proof. intros H. by eapply contains_char_all. Qed.

(** A text that stands for one port and cannot be read as anything else. *)
Record spells_port (t : string) (p : Port) : Prop := {
  sl_parse : parsePort t = Ok p;
  sl_plain : all_chars plain t = true;
  sl_head : exists c r, t = String c r /\ upper c <> "A"%char;
}.

Lemma port_text_spells p : good_port p -> spells_port (port_text p) p.
Proof.
  intros Hg. split; [by apply parsePort_text | by apply port_text_plain |].
  destruct Hg as [Hp _]. unfold port_text. destruct Hp as [-> | ->]; cbn; eauto.
Qed.

Lemma split_ports ts ps : ts <> [] -> Forall2 spells_port ts ps -> split_on "," (join "," ts) = ts.
Proof.
  intros Hne H. induction H as [| t p ts ps Hp Hps IH]; [done |]. pose proof (plain_no_comma _ (sl_plain _ _ Hp)) as Hc.
  destruct ts as [| u ts]; [by apply split_on_nosep |].
  change (join "," (t :: u :: ts)) with (t ⊕ String "," (join "," (u :: ts))).
  rewrite split_on_app by done. f_equal. by apply IH.
Qed.

Lemma parse_parts_ports ts ps : Forall2 spells_port ts ps -> forall acc, NoDup (acc ++ ps) ->
  parse_parts ts acc = Ok (acc ++ ps).
Proof.
  induction 1 as [| t p ts ps Hp _ IH]; intros acc Hn; [by rewrite app_nil_r |].
  cbn [parse_parts]. rewrite (sl_parse _ _ Hp). unfold add.
  rewrite bool_decide_eq_false_2; [| intros Hin; apply NoDup_app in Hn as (_ & Hd & _); by apply (Hd p Hin); left].
  rewrite IH by (by rewrite <- app_assoc). by rewrite <- app_assoc.
Qed.

Lemma join_solid ts ps : Forall2 spells_port ts ps -> all_chars solid (join "," ts) = true.
Proof.
  induction 1 as [| t p ts ps Hp _ IH]; [done |]. pose proof (plain_solid _ (sl_plain _ _ Hp)) as Hs.
  destruct ts as [| u ts]; [done |].
  change (join "," (t :: u :: ts)) with (t ⊕ "," ⊕ join "," (u :: ts)). by rewrite !all_chars_app, Hs.
Qed.

Lemma ParseScope_join ps ts :
  canonical (mkScope false ps) -> Forall2 spells_port ts ps -> ParseScope (join "," ts) = Ok (mkScope false ps).
Proof.
  intros [_ Hs Hg Hn Hso] H. cbn [All Ports] in *. unfold ParseScope. rewrite TrimSpace_solid by (by eapply join_solid).
  destruct ts as [| t ts]; [inversion H; subst; by destruct Hs |].
  assert (E : exists c r, join "," (t :: ts) = String c r /\ upper c <> "A"%char).
  { inversion H as [| ? p ? ps' Hp]; subst. destruct (sl_head _ _ Hp) as (c & r & -> & Hc). destruct ts; cbn; eauto. }
  destruct E as (c & r & E & Hc).
  assert (E1 : String.eqb (join "," (t :: ts)) "" = false) by (by rewrite E).
  assert (E2 : String.eqb (fold_ascii (join "," (t :: ts))) "ALL" = false).
  { rewrite E. apply String.eqb_neq. unfold fold_ascii. cbn. by intros [= ? _]. }
  rewrite E1, E2, (split_ports _ ps), (parse_parts_ports _ ps) by done. cbn [app]. unfold normalize. do 2 f_equal.
  apply (Sorted_unique port_le); [apply (Sorted_merge_sort port_le) | done | apply merge_sort_Permutation].
Qed.

Lemma ports_spelled f ps : (forall p, good_port p -> spells_port (f p) p) -> Forall good_port ps -> Forall2 spells_port (f <$> ps) ps.
Proof. intros Hf. induction 1; cbn; constructor; auto. Qed.

Lemma ParseScope_String s : canonical s -> ParseScope (Scope_String s) = Ok s.
Proof.
  intros Hc. destruct s as [[] ps].
  { pose proof (cn_all _ Hc eq_refl) as E. cbn in E. by subst. }
  pose proof (cn_some _ Hc eq_refl) as Hne. cbn [Ports] in Hne. unfold Scope_String; cbn [All Ports].
  destruct ps as [| p ps]; [done |]. apply ParseScope_join; [done |]. apply (ports_spelled port_text); [apply port_text_spells | apply Hc].
Qed.

(** An exposure scope has one spelling.  Whatever [--expose] text is accepted,
    printing the scope and parsing it again gives the same scope; two accepted
    scopes print alike exactly when they are the same scope, so a reload never
    mistakes reordered or repeated ports for a change; and a scope is the whole
    host only for the word [all], and otherwise exposes exactly the ports the
    entries name, each between 1 and 65535. *)
Theorem scope_canonical text s :
  ParseScope text = Ok s ->
  ParseScope (Scope_String s) = Ok s /\
  (forall text' s', ParseScope text' = Ok s' -> (sameScope (Some s) (Some s') = true <-> s = s')) /\
  (All s = true <-> fold_ascii (TrimSpace text) = "ALL") /\
  (All s = false -> Ports s <> [] /\
    forall p, p ∈ Ports s <-> 1 <= Num p <= 65535 /\ exists t, t ∈ split_on "," (TrimSpace text) /\ parsePort t = Ok p).
Proof.
  intros Hp. pose proof (ParseScope_canonical _ _ Hp) as Hc. pose proof (ParseScope_String s Hc) as Hr. split_and!.
  - done.
  - intros text' s' Hp'. pose proof (ParseScope_String s' (ParseScope_canonical _ _ Hp')) as Hr'. cbn.
    rewrite String.eqb_eq. split; [intros E; rewrite E in Hr; congruence | by intros ->].
  - unfold ParseScope in Hp. destruct (String.eqb _ ""); [done |].
    destruct (String.eqb_spec (fold_ascii (TrimSpace text)) "ALL"); [by injection Hp as <- |].
    destruct (parse_parts _ _); [| done]. by injection Hp as <-.
  - intros Ha. split; [by apply (cn_some _ Hc) |]. intros p. unfold ParseScope in Hp.
    destruct (String.eqb _ ""); [done |]. destruct (String.eqb _ "ALL"); [by injection Hp as <- |].
    destruct (parse_parts _ _) as [ps |] eqn:E; [| done]. injection Hp as <-. cbn [Ports]. unfold normalize.
    rewrite (merge_sort_Permutation port_le ps). destruct (parse_parts_spec _ _ _ E NoDup_nil_2) as [_ ->].
    split; [intros [? | (t & Ht & Et)]; [set_solver |] | intros (_ & t & Ht & Et); eauto].
    destruct (parsePort_good _ _ Et) as [_ Hn]. eauto.
Qed.

Lemma scope_canonical_witness :
  ParseScope " 873, udp/51820,TCP/873 " = Ok (mkScope false [mkPort "tcp" 873; mkPort "udp" 51820]) /\
  ParseScope (Scope_String (mkScope false [mkPort "tcp" 873; mkPort "udp" 51820]))
    = Ok (mkScope false [mkPort "tcp" 873; mkPort "udp" 51820]).
Proof.
  assert (E : ParseScope " 873, udp/51820,TCP/873 " = Ok (mkScope false [mkPort "tcp" 873; mkPort "udp" 51820])).
  { vm_compute. reflexivity. }
  split; [exact E |]. exact (proj1 (scope_canonical _ _ E)).
Defined.
