(* ===== verification/Manifest.v ===== *)
(** * The peers manifest and the worker set

    [internal/role/peersfile.go] and the manifest half of [peerscmd.go]: the
    manifest in its two formats, the union of manifest and stored sessions the
    supervisor maintains, and the commands that add, remove and migrate
    entries.  The YAML library is a parameter: [yaml] is what decoding a text
    yields, [yaml_text] what encoding yields. *)

From S2P Require Import Prelude Base64 Sha256 Json NetAddr NetParse Crypto Protocol HsRegistry Authz AuthzFile TrustStore TrustProps Sas SasProps Scope Handshake.

#[export] Instance Addr_eq_dec : EqDecision Addr.
Proof. solve_decision. Defined.

Definition MaxBuddies : nat := 48.
Definition maxManifestBytes : Z := 2 ^ 20.

Record peerSpec := mkSpec { sp_pin : string; sp_token : string; sp_name : string; sp_expose : option Scope }.

(** A buddy of the manifest; [Expose] is the scope its YAML node denotes. *)
Record manifestBuddy := mkBuddy { mb_Name : string; mb_Key : string; mb_Token : string; mb_Expose : option Scope }.

(** What the decoder sees of an [expose] value. *)
Inductive Node := Scalar (v : string) | Sequence (items : list string) | OtherNode.

Inductive ExposeErr := ScalarNotAll (v : string) | EmptyList | BadList (e : ScopeErr) | BadKind.

Definition exposeValue_Unmarshal (n : Node) : result ExposeErr Scope :=
  match n with
  | Scalar v => if String.eqb (fold_ascii (TrimSpace v)) "ALL" then Ok (mkScope true []) else Err (ScalarNotAll v)
  | Sequence [] => Err EmptyList
  | Sequence items => match ParseScope (join "," items) with Ok s => Ok s | Err e => Err (BadList e) end
  | OtherNode => Err BadKind
  end.

(** A bare number is a TCP port. *)
Definition port_node (p : Port) : string := if String.eqb (Proto p) "tcp" then itoa (Num p) else port_text p.

Definition exposeValue_Marshal (s : Scope) : Node := if All s then Scalar "all" else Sequence (port_node <$> Ports s).

(** One entry as decoded, before its [expose] node is interpreted. *)
Record RawBuddy := mkRaw { rb_Name : string; rb_Key : string; rb_Token : string; rb_Expose : option Node }.

Inductive YamlDoc := YamlEOF | YamlBad | Doc (rows : list RawBuddy).

Inductive SpecErr := MissingKey | BadPeerKey (e : DecodeErr) | BadToken | NameLong | NameChars.
Inductive ManifestErr :=
| TooBig | Yaml | BadExpose (e : ExposeErr) | BadEntry (i : nat) (e : SpecErr) | DuplicateEntry (i : nat)
| LegacyFields (line : nat) | LegacyKey (line : nat) (e : DecodeErr) | LegacyDuplicate (line : nat) | ScanErr.

Definition name_char (c : Ascii.ascii) : bool := between 97 122 c || between 65 90 c || is_digit c || Ascii.eqb c "-".

Definition validateBuddyName (name : string) : option SpecErr :=
  if String.eqb name "" then None
  else if (63 <? slen name)%nat then Some NameLong
  else if all_chars name_char name then None else Some NameChars.

Definition toSpec (b : manifestBuddy) : result SpecErr peerSpec :=
  if String.eqb (mb_Key b) "" then Err MissingKey
  else match DecodePubKey (mb_Key b) with
       | Err e => Err (BadPeerKey e)
       | Ok pin =>
           if negb (String.eqb (mb_Token b) "") && negb (validField (mb_Token b)) then Err BadToken
           else match validateBuddyName (mb_Name b) with
                | Some e => Err e
                | None => Ok (mkSpec pin (mb_Token b) (mb_Name b) (mb_Expose b))
                end
       end.

Definition toManifest (s : peerSpec) : manifestBuddy :=
  mkBuddy (sp_name s) (PubKeyB64 (sp_pin s)) (sp_token s) (sp_expose s).

Fixpoint specs_loop (i : nat) (bs : list manifestBuddy) (seen : list string) : result ManifestErr (list peerSpec) :=
  match bs with
  | [] => Ok []
  | b :: r =>
      match toSpec b with
      | Err e => Err (BadEntry i e)
      | Ok s =>
          let keyB64 := PubKeyB64 (sp_pin s) in
          if bool_decide (keyB64 ∈ seen) then Err (DuplicateEntry i)
          else let? l := specs_loop (S i) r (keyB64 :: seen) in Ok (s :: l)
      end
  end.

(** Blank lines and comments are skipped. *)
Definition content_line (text : string) : bool := negb (String.eqb (TrimSpace text) "" || has_prefix "#" (TrimSpace text)).

Definition manifestIsLegacy (data : string) : bool :=
  match find content_line (scan_lines data).1 with
  | None => false
  | Some text => match Fields (TrimSpace text) with f :: _ => is_ok (DecodePubKey f) | [] => false end
  end.

Fixpoint legacy_loop (line : nat) (ls : list string) (seen : list string) : result ManifestErr (list peerSpec) :=
  match ls with
  | [] => Ok []
  | text :: r =>
      if negb (content_line text) then legacy_loop (S line) r seen
      else match Fields (TrimSpace text) with
           | key :: rest =>
               if (1 <? length rest)%nat then Err (LegacyFields line)
               else match DecodePubKey key with
                    | Err e => Err (LegacyKey line e)
                    | Ok pin =>
                        let keyB64 := PubKeyB64 pin in
                        if bool_decide (keyB64 ∈ seen) then Err (LegacyDuplicate line)
                        else let? l := legacy_loop (S line) r (keyB64 :: seen) in
                             Ok (mkSpec pin (default "" (head rest)) "" None :: l)
                    end
           | [] => legacy_loop (S line) r seen
           end
  end.

Definition parseLegacyManifest (data : string) : result ManifestErr (list peerSpec) :=
  let '(ls, err) := scan_lines data in
  let? specs := legacy_loop 1 ls [] in if err then Err ScanErr else Ok specs.

Definition readManifest (f : File) : result ManifestErr File :=
  match f with
  | None => Ok None
  | Some data => if maxManifestBytes <? Z.of_nat (slen data) then Err TooBig else Ok (Some data)
  end.

Definition manifestNeedsMigration (f : File) : result ManifestErr bool :=
  let? d := readManifest f in Ok (match d with Some data => manifestIsLegacy data | None => false end).

Definition dquote : string := String (byte_of 34) "".
Definition tab_char : Ascii.ascii := byte_of 9.

Definition header_text : list string :=
  ["# BuddyNet peers manifest (YAML). Managed by 'peers add/remove/list'; hand-editable.";
   "# NOTE: 'peers add/remove' rewrite this file and drop custom comments.";
   "# One entry per buddy:";
   "#   - name: alice             # optional (display / .buddy hint)";
   "#     key: <pubkey-base64>    # required — the buddy's pinned Ed25519 identity";
   "#     token: <bootstrap>      # optional, only needed until the first pairing";
   "#     expose: [873]           # optional (WireGuard): ports this buddy may reach";
   "#                             # on THIS host, e.g. [873, " ⊕ dquote ⊕ "udp/51820" ⊕ dquote ⊕ "]; 'all' =";
   "#                             # explicit whole host; omitted = inherit --expose,";
   "#                             # else fail-closed (nothing exposed)"].

Definition manifestHeader : string := text_of header_text.

(** The files of one node: the trust state and the manifest. *)
Record Files := mkFiles { fl_trust : TrustState; fl_manifest : File }.

Inductive PeersErr :=
| EManifest (e : ManifestErr) | EStore (e : StoreErr) | ERead (e : FileErr) | ETooMany (found : nat)
| EVIP (a b : string) | EKey (e : DecodeErr) | ETokenSpace | EName (e : SpecErr) | EScope (e : ScopeErr)
| ELegacy | ELock | ENoMatch | EAmbiguous (n : nat).

Definition lift {E A} (f : E -> PeersErr) (r : result E A) : result PeersErr A :=
  match r with Ok a => Ok a | Err e => Err (f e) end.

Section Yaml.
Context (yaml : string -> YamlDoc) (yaml_text : list RawBuddy -> string).

Fixpoint decode_rows (rows : list RawBuddy) : result ManifestErr (list manifestBuddy) :=
  match rows with
  | [] => Ok []
  | r :: l =>
      let? e := match rb_Expose r with
                | None => Ok None
                | Some n => match exposeValue_Unmarshal n with Ok s => Ok (Some s) | Err e => Err (BadExpose e) end
                end in
      let? bs := decode_rows l in Ok (mkBuddy (rb_Name r) (rb_Key r) (rb_Token r) e :: bs)
  end.

Definition parseYAMLManifest (data : string) : result ManifestErr (list peerSpec) :=
  match yaml data with
  | YamlEOF => Ok []
  | YamlBad => Err Yaml
  | Doc rows => let? bs := decode_rows rows in specs_loop 0 bs []
  end.

Definition loadPeersFile (f : File) : result ManifestErr (list peerSpec) :=
  let? d := readManifest f in
  match d with
  | None => Ok []
  | Some data => if manifestIsLegacy data then parseLegacyManifest data else parseYAMLManifest data
  end.

Definition raw_of (b : manifestBuddy) : RawBuddy :=
  mkRaw (mb_Name b) (mb_Key b) (mb_Token b) (exposeValue_Marshal <$> mb_Expose b).

Definition saveManifestLocked (specs : list peerSpec) : File :=
  Some (manifestHeader ⊕ yaml_text (raw_of ∘ toManifest <$> specs)).

(** ** The worker set *)

(** The first two distinct entries with one virtual address. *)
Fixpoint vip_collision (specs : list peerSpec) (vips : list (Addr * string)) : option (string * string) :=
  match specs with
  | [] => None
  | s :: r =>
      match find (fun v => bool_decide (v.1 = VirtualIP (sp_pin s))) vips with
      | Some (_, k) => Some (k, PubKeyB64 (sp_pin s))
      | None => vip_collision r ((VirtualIP (sp_pin s), PubKeyB64 (sp_pin s)) :: vips)
      end
  end.

Definition assemblePeers (fs : Files) : result PeersErr (list peerSpec) :=
  let? manifest := lift EManifest (loadPeersFile (fl_manifest fs)) in
  let? revoked := lift ERead (revokedSet (ts_revoked (fl_trust fs))) in
  let listed := List.filter (fun s => negb (bool_decide (PubKeyB64 (sp_pin s) ∈ revoked))) manifest in
  let? sessions := lift ERead (loadSessions (ts_known (fl_trust fs))) in
  let extra := List.filter (fun s => negb (bool_decide (PubKeyB64 (ss_pin s) ∈ revoked)) &&
                                negb (bool_decide (PubKeyB64 (ss_pin s) ∈ (PubKeyB64 ∘ sp_pin <$> listed)))) sessions in
  let specs := listed ++ ((fun s => mkSpec (ss_pin s) "" "" None) <$> extra) in
  if (MaxBuddies <? length specs)%nat then Err (ETooMany (length specs))
  else match vip_collision specs [] with
       | Some (a, b) => Err (EVIP a b)
       | None => Ok specs
       end.

(** ** The commands *)

Inductive Added := AlreadyListed | NewBuddy | AllowedAgain.

Definition PeersAdd (lock_ok : bool) (today key token name expose : string) (fs : Files) : result PeersErr (Added * Files) :=
  let? pin := lift EKey (DecodePubKey key) in
  let keyB64 := PubKeyB64 pin in
  if contains_char " " token || contains_char tab_char token then Err ETokenSpace
  else match validateBuddyName name with
  | Some e => Err (EName e)
  | None =>
    let? scope := if String.eqb expose "" then Ok None else let? s := lift EScope (ParseScope expose) in Ok (Some s) in
    let? legacy := lift EManifest (manifestNeedsMigration (fl_manifest fs)) in
    if (legacy : bool) then Err ELegacy
    else if negb lock_ok then Err ELock
    else
      let? existing := lift EManifest (loadPeersFile (fl_manifest fs)) in
      let? revoked := lift ERead (isRevokedLocked (ts_revoked (fl_trust fs)) keyB64) in
      let listed := existsb (fun s => String.eqb (PubKeyB64 (sp_pin s)) keyB64) existing in
      if listed && negb revoked then Ok (AlreadyListed, fs)
      else if negb listed && (MaxBuddies <=? length existing)%nat then Err (ETooMany (S (length existing)))
      else
        let m := if (listed : bool) then fl_manifest fs else saveManifestLocked (existing ++ [mkSpec pin token name scope]) in
        if (revoked : bool) then
          let? r := lift ERead (removeRevokedLocked today keyB64 (ts_revoked (fl_trust fs))) in
          Ok (AllowedAgain, mkFiles (mkTrust (ts_known (fl_trust fs)) r.2) m)
        else Ok (NewBuddy, mkFiles (fl_trust fs) m)
  end.

Definition removeManifestEntryLocked (keyB64 : string) (f : File) : result PeersErr (Z * File) :=
  let? legacy := lift EManifest (manifestNeedsMigration f) in
  if (legacy : bool) then Err ELegacy
  else
    let? specs := lift EManifest (loadPeersFile f) in
    let kept := List.filter (fun s => negb (String.eqb (PubKeyB64 (sp_pin s)) keyB64)) specs in
    let removed := Z.of_nat (length specs - length kept) in
    if removed =? 0 then Ok (0, f) else Ok (removed, saveManifestLocked kept).

(** [PeersMigrate]: the new manifest and the backup, or nothing to do. *)
Definition PeersMigrate (lock_ok : bool) (f : File) : result PeersErr (option (File * File)) :=
  let? legacy := lift EManifest (manifestNeedsMigration f) in
  if negb legacy then Ok None
  else
    let? specs := lift EManifest (loadPeersFile f) in
    if negb lock_ok then Err ELock else Ok (Some (saveManifestLocked specs, f)).

(** A full key as it is, otherwise the one known key with this prefix. *)
Definition resolveKeyRef (ref : string) (fs : Files) : result PeersErr string :=
  match DecodePubKey ref with
  | Ok pin => Ok (PubKeyB64 pin)
  | Err _ =>
      let? specs := lift EManifest (loadPeersFile (fl_manifest fs)) in
      let? sessions := lift ERead (loadSessions (ts_known (fl_trust fs))) in
      let? rev := lift ERead (revokedSet (ts_revoked (fl_trust fs))) in
      let known : gset string :=
        list_to_set (PubKeyB64 ∘ sp_pin <$> specs) ∪ list_to_set (PubKeyB64 ∘ ss_pin <$> sessions) ∪ rev in
      match merge_sort str_le (List.filter (has_prefix ref) (elements known)) with
      | [k] => Ok k
      | [] => Err ENoMatch
      | l => Err (EAmbiguous (length l))
      end
  end.

(** [PeersRemove] on the node's files: the tombstone first, then the session,
    then the manifest entry. *)
Definition RemovePeer (lock_ok : bool) (today ref : string) (fs : Files) : result PeersErr (Removal * Files) :=
  let? keyB64 := resolveKeyRef ref fs in
  let m := removeManifestEntryLocked keyB64 (fl_manifest fs) in
  let '(r, t) := PeersRemove lock_ok today keyB64
                   (match m with Ok (n, _) => Ok n | Err _ => Err WriteErr end) (fl_trust fs) in
  Ok (r, mkFiles t (match r, m with Removed _ _ _, Ok (_, f) => f | _, _ => fl_manifest fs end)).
End Yaml.
