(* ===== verification/ManifestProps.v ===== *)
(** * Properties of the manifest and the worker set *)

From S2P Require Import Prelude Base64 Sha256 Json NetAddr NetParse Crypto Protocol HsRegistry Authz AuthzFile TrustStore TrustProps TrustTheorems Sas SasProps Scope Handshake Manifest.

(** ** The worker set *)

Lemma elem_filter {A} (P : A -> bool) l x : x ∈ List.filter P l <-> x ∈ l /\ P x = true.
Proof. by rewrite !list_elem_of_In, filter_In. Qed.

Lemma find_vip_none v vips :
  find (fun w : Addr * string => bool_decide (w.1 = v)) vips = None <-> v ∉ vips.*1.
Proof.
  induction vips as [| [w k] vips IH]; [split; [intros _; set_solver | done] |].
  cbn [find fmap list_fmap fst]. case_bool_decide as E.
  - split; [done | intros H; exfalso; apply H; rewrite E; by left].
  - rewrite IH, not_elem_of_cons. naive_solver.
Qed.

Lemma vip_collision_none specs : forall vips,
  vip_collision specs vips = None <->
  NoDup (VirtualIP ∘ sp_pin <$> specs) /\ forall v, v ∈ VirtualIP ∘ sp_pin <$> specs -> v ∉ vips.*1.
Proof.
  induction specs as [| s specs IH]; intros vips.
  { split; [| done]. intros _. split; [constructor | set_solver]. }
  cbn [vip_collision]. rewrite fmap_cons. cbn [compose].
  destruct (find _ vips) as [[w k] |] eqn:E.
  - split; [done |]. intros [_ Hd]. exfalso. assert (find_none := proj2 (find_vip_none (VirtualIP (sp_pin s)) vips)).
    rewrite find_none in E; [done |]. apply Hd. by left.
  - apply find_vip_none in E. rewrite IH, NoDup_cons. cbn [fmap list_fmap fst]. split.
    + intros [Hn Hd]. split; [split; [intros Hin; by apply (Hd _ Hin); left | done] |].
      intros v [-> | Hv]%elem_of_cons; [done |]. intros Hin. by apply (Hd _ Hv); right.
    + intros [[Hnin Hn] Hd]. split; [done |]. intros v Hv [-> | Hin]%elem_of_cons; [done |]. by apply (Hd v); [right |].
Qed.

Section Yaml.
Context (yaml : string -> YamlDoc) (yaml_text : list RawBuddy -> string).

(** The supervisor maintains exactly the buddies it should.  When the worker
    set is assembled, a key is in it if and only if the manifest or a stored
    session names it and it is not revoked; a manifest entry keeps its token
    and scope; there are at most 48, all with different virtual addresses and
    hence different keys.  It fails only on an unreadable file, on more than
    48 buddies, or when two of the entries share a virtual address. *)
Theorem assemble_exact fs manifest rv sessions :
  loadPeersFile yaml (fl_manifest fs) = Ok manifest ->
  revokedSet (ts_revoked (fl_trust fs)) = Ok rv -> loadSessions (ts_known (fl_trust fs)) = Ok sessions ->
  match assemblePeers yaml fs with
  | Ok specs =>
      (forall pin, pin ∈ sp_pin <$> specs <->
         PubKeyB64 pin ∉ rv /\ (pin ∈ sp_pin <$> manifest \/ pin ∈ ss_pin <$> sessions)) /\
      (forall s, s ∈ manifest -> PubKeyB64 (sp_pin s) ∉ rv -> s ∈ specs) /\
      (length specs <= MaxBuddies)%nat /\ NoDup (VirtualIP ∘ sp_pin <$> specs) /\ NoDup (sp_pin <$> specs)
  | Err e => (exists n, e = ETooMany n /\ (MaxBuddies < n)%nat) \/ (exists a b, e = EVIP a b)
  end.
Proof.
  intros Hm Hr Hs. unfold assemblePeers. rewrite Hm, Hr, Hs. cbn [lift].
  set (listed := List.filter _ manifest). set (extra := List.filter _ sessions).
  set (specs := listed ++ _). destruct (Nat.ltb_spec MaxBuddies (length specs)) as [Hl | Hl]; [left; eauto |].
  destruct (vip_collision specs []) as [[a b] |] eqn:Ev; [right; eauto |].
  apply vip_collision_none in Ev as [Hn _].
  assert (Hpin : forall pin, pin ∈ sp_pin <$> specs <->
            PubKeyB64 pin ∉ rv /\ (pin ∈ sp_pin <$> manifest \/ pin ∈ ss_pin <$> sessions)).
  { intros pin. subst specs. rewrite fmap_app, elem_of_app, <- list_fmap_compose. subst listed extra.
    rewrite !list_elem_of_fmap. setoid_rewrite elem_filter. setoid_rewrite andb_true_iff.
    setoid_rewrite negb_true_iff. setoid_rewrite bool_decide_eq_false. split.
    - intros [(s & -> & Hin & Hrv) | (s & -> & Hin & Hrv & _)]; (split; [done |]); [left | right]; eauto.
    - intros [Hrv [(s & -> & Hin) | (s & -> & Hin)]]; [left; eauto |].
      destruct (decide (PubKeyB64 (ss_pin s) ∈ (PubKeyB64 ∘ sp_pin <$>
        List.filter (fun s => negb (bool_decide (PubKeyB64 (sp_pin s) ∈ rv))) manifest))) as [Hl' | Hl'].
      + left. apply list_elem_of_fmap in Hl' as (t & Ht & Hin'%elem_filter). apply PubKeyB64_inj in Ht as ->.
        destruct Hin' as [Hin' Hb]. apply negb_true_iff, bool_decide_eq_false in Hb. eauto.
      + right. exists s. split_and!; done. }
  split_and!; [done | | lia | done |].
  - intros s Hin Hrv. subst specs listed. apply elem_of_app. left. apply elem_filter. split; [done |].
    by apply negb_true_iff, bool_decide_eq_false.
  - apply (NoDup_fmap_1 VirtualIP). by rewrite <- list_fmap_compose.
Qed.

(** ** Writing and reading back *)

Record good_spec (s : peerSpec) : Prop := {
  gs_pin : slen (sp_pin s) = PublicKeySize;
  gs_token : sp_token s = "" \/ validField (sp_token s) = true;
  gs_name : validateBuddyName (sp_name s) = None;
  gs_expose : forall sc, sp_expose s = Some sc -> canonical sc;
}.

(** What is relied on of the YAML library for one document: it starts with its
    only key and decodes to what was encoded. *)
Record faithful (rows : list RawBuddy) : Prop := {
  fy_head : has_prefix "buddies:" (yaml_text rows) = true;
  fy_decode : yaml (manifestHeader ⊕ yaml_text rows) = Doc rows;
}.

Definition header_line (l : string) : bool :=
  negb (contains_char nl l) && negb (too_long l) && negb (content_line (dropCR l)).

Lemma header_lines : Forall (fun l => header_line l = true) header_text.
Proof. apply Forall_forall. intros l Hl%list_elem_of_In. revert l Hl. apply forallb_forall. vm_compute. reflexivity. Qed.

Lemma until_long_app_short ls l : Forall fits_line ls ->
  (until_long (ls ++ l)).1 = (dropCR <$> ls) ++ (until_long l).1.
Proof.
  induction 1 as [| x ls Hx _ IH]; [done |]. cbn [app until_long]. unfold fits_line in Hx. rewrite Hx.
  destruct (until_long (ls ++ l)) as [r e]. cbn in *. by rewrite IH.
Qed.

Lemma find_skip {A} (P : A -> bool) l k : Forall (fun x => P x = false) l -> find P (l ++ k) = find P k.
Proof. induction 1 as [| x l Hx _ IH]; cbn; [done | by rewrite Hx]. Qed.

Lemma decode_buddies w : is_ok (DecodePubKey ("buddies:" ⊕ w)) = false.
Proof. unfold DecodePubKey, Std.DecodeString. cbn. reflexivity. Qed.

Lemma fields_cur_head s : forall k cur, cur <> "" -> exists w l, fields_go k cur s = (cur ⊕ w) :: l.
Proof.
  induction s as [| c s IH]; intros k cur Hc.
  - exists "", []. cbn. unfold flush. destruct (String.eqb_spec cur ""); [done |]. by rewrite app_empty_r.
  - destruct k as [| k]; [| by apply IH]. cbn [fields_go]. destruct (space_width (String c s)) as [| j].
    + destruct (IH 0%nat (cur ⊕ String c "")) as (w & l & ->); [by destruct cur |].
      exists (String c w), l. by rewrite app_assoc_s.
    + exists "". cbn. unfold flush. destruct (String.eqb_spec cur ""); [done |]. rewrite app_empty_r. eauto.
Qed.

Lemma buddies_line y : exists w l, Fields (TrimSpace ("buddies:" ⊕ y)) = ("buddies:" ⊕ w) :: l.
Proof.
  unfold TrimSpace. change (trim_left 0 ("buddies:" ⊕ y)) with ("buddies" ⊕ String ":" y).
  rewrite trim_right_solid by done. unfold Fields.
  change ("buddies" ⊕ String ":" (trim_right y)) with ("buddies:" ⊕ trim_right y).
  rewrite fields_word by done. apply fields_cur_head. done.
Qed.

Lemma buddies_content y : content_line ("buddies:" ⊕ y) = true.
Proof.
  unfold content_line, TrimSpace. change (trim_left 0 ("buddies:" ⊕ y)) with ("buddies" ⊕ String ":" y).
  by rewrite trim_right_solid.
Qed.

Lemma dropCR_buddies y : exists y', dropCR ("buddies:" ⊕ y) = "buddies:" ⊕ y'.
Proof. destruct y as [| c y]; [by exists "" |]. rewrite dropCR_app by done. eauto. Qed.

Lemma split_text_app ls t : Forall no_nl ls -> split_on nl (text_of ls ⊕ t) = ls ++ split_on nl t.
Proof.
  induction 1 as [| l ls Hl Hls IH]; [done |]. cbn [fmap list_fmap]. rewrite concat_cons, !app_assoc_s.
  change (nl_s ⊕ text_of ls ⊕ t) with (String nl (text_of ls ⊕ t)). rewrite split_on_app by done. by rewrite IH.
Qed.

Lemma drop_last_app l x k : x <> "" -> exists k', drop_last_empty (l ++ x :: k) = l ++ x :: k'.
Proof.
  intros Hx. induction l as [| y l IH].
  - destruct k as [| z k]; [| by exists (drop_last_empty (z :: k))]. exists []. cbn. by destruct (String.eqb_spec x "").
  - destruct IH as [k' E]. exists k'. cbn [app]. destruct (l ++ x :: k) eqn:El; [by destruct l |].
    rewrite <- El in *. cbn [drop_last_empty]. rewrite El. rewrite <- El, E. done.
Qed.

(** What the program writes is never taken for the old line format. *)
Lemma written_not_legacy t : has_prefix "buddies:" t = true -> manifestIsLegacy (manifestHeader ⊕ t) = false.
Proof.
  intros (r & ->)%has_prefix_spec. pose proof header_lines as H.
  assert (Hn : Forall no_nl header_text).
  { eapply Forall_impl; [exact H |]. intros l Hl. unfold header_line in Hl. unfold no_nl.
    by destruct (contains_char nl l). }
  assert (Hf : Forall fits_line header_text).
  { eapply Forall_impl; [exact H |]. intros l Hl. unfold header_line in Hl. unfold fits_line.
    destruct (too_long l); [| done]. by rewrite andb_false_r in Hl. }
  assert (Hc : Forall (fun l => content_line l = false) (dropCR <$> header_text)).
  { apply Forall_fmap. eapply Forall_impl; [exact H |]. intros l Hl. unfold header_line in Hl. cbn.
    destruct (content_line (dropCR l)); [| done]. by rewrite andb_false_r in Hl. }
  assert (Hs : exists y l, split_on nl ("buddies:" ⊕ r) = ("buddies:" ⊕ y) :: l).
  { cbn. destruct (split_on nl r) as [| x l] eqn:E; [by destruct (split_on_nonempty nl r) |]. eauto. }
  destruct Hs as (y & l & Hs). unfold manifestIsLegacy, scan_lines, manifestHeader.
  rewrite split_text_app by done. rewrite Hs. destruct (drop_last_app header_text ("buddies:" ⊕ y) l) as [l' ->]; [done |].
  rewrite until_long_app_short, find_skip by done. cbn [until_long].
  destruct (too_long _); [done |]. destruct (until_long l') as [ls e]. cbn [fst find].
  destruct (dropCR_buddies y) as [y' ->]. rewrite buddies_content.
  destruct (buddies_line y') as (w & fs & ->). apply decode_buddies.
Qed.

(** ** Entries *)

Lemma port_node_spells p : good_port p -> spells_port (port_node p) p.
Proof.
  intros Hg. unfold port_node. destruct (String.eqb_spec (Proto p) "tcp") as [E |]; [| by apply port_text_spells].
  destruct Hg as [_ Hn]. pose proof (itoa_plain (Num p) ltac:(lia)) as Hp.
  pose proof (itoa_nonneg (Num p) ltac:(lia)) as [Hd (c & r & Ec & _) _]. split; [| done |].
  - unfold parsePort. rewrite TrimSpace_solid by (by apply plain_solid).
    rewrite cut_none by (by eapply contains_char_all). destruct (ParseUint16_itoa (Num p) ltac:(lia)) as [-> _]. cbn.
    destruct (Z.eqb_spec (Num p) 0); [lia |]. rewrite <- E. by destruct p.
  - exists c, r. split; [done |]. rewrite Ec in Hd. cbn [all_chars] in Hd. apply andb_true_iff in Hd as [Hd _].
    assert (A : forallb (fun c => implb (is_digit c) (negb (Ascii.eqb (upper c) "A"))) all_bytes = true) by reflexivity.
    rewrite forallb_forall in A. specialize (A c (all_bytes_complete c)). rewrite Hd in A. cbn [implb] in A.
    by apply negb_true_iff, Ascii.eqb_neq in A.
Qed.

Lemma expose_roundtrip s : canonical s -> exposeValue_Unmarshal (exposeValue_Marshal s) = Ok s.
Proof.
  intros Hc. unfold exposeValue_Marshal. destruct s as [[] ps]; cbn [All Ports].
  { pose proof (cn_all _ Hc eq_refl) as E. cbn in E. by subst. }
  pose proof (cn_some _ Hc eq_refl) as Hne. cbn in Hne.
  pose proof (ParseScope_join ps _ Hc (ports_spelled port_node ps port_node_spells (cn_good _ Hc))) as E.
  destruct ps as [| p ps]; [done |]. cbn [fmap list_fmap] in *. cbn [exposeValue_Unmarshal]. by rewrite E.
Qed.

Lemma decode_written specs : Forall good_spec specs ->
  decode_rows (raw_of ∘ toManifest <$> specs) = Ok (toManifest <$> specs).
Proof.
  induction 1 as [| s specs Hs _ IH]; [done |]. rewrite !fmap_cons. cbn [compose decode_rows raw_of rb_Expose rb_Name rb_Key rb_Token].
  destruct (mb_Expose (toManifest s)) as [sc |] eqn:E; cbn [fmap option_fmap option_map].
  - rewrite expose_roundtrip by (by apply (gs_expose _ Hs)). rewrite IH. do 2 f_equal. unfold toManifest in *. cbn in *. by rewrite E.
  - rewrite IH. do 2 f_equal. unfold toManifest in *. cbn in *. by rewrite E.
Qed.

Lemma toSpec_toManifest s : good_spec s -> toSpec (toManifest s) = Ok s.
Proof.
  intros [Hp Ht Hn _]. unfold toSpec, toManifest. cbn [mb_Key mb_Token mb_Name mb_Expose].
  destruct (String.eqb_spec (PubKeyB64 (sp_pin s)) "") as [E |].
  { apply (f_equal slen) in E. unfold PubKeyB64 in E. by rewrite Std_encoded_len, Hp in E. }
  unfold DecodePubKey, PubKeyB64. rewrite Std_decode_encode, Hp. cbn [Nat.eqb PublicKeySize].
  replace (negb _ && negb _) with false by (destruct Ht as [-> | ->]; [done | by rewrite andb_false_r]).
  rewrite Hn. by destruct s.
Qed.

Lemma specs_loop_written specs : Forall good_spec specs -> forall i seen,
  NoDup (sp_pin <$> specs) -> (forall p, p ∈ sp_pin <$> specs -> PubKeyB64 p ∉ seen) ->
  specs_loop i (toManifest <$> specs) seen = Ok specs.
Proof.
  induction 1 as [| s specs Hs _ IH]; intros i seen Hn Hd; [done |]. rewrite !fmap_cons in *. cbn [specs_loop].
  rewrite toSpec_toManifest by done. apply NoDup_cons in Hn as [Hnin Hn].
  rewrite bool_decide_eq_false_2 by (apply Hd; by left). rewrite IH; [done | done |].
  intros p Hp [E%PubKeyB64_inj | Hin]%elem_of_cons; [by subst |]. by apply (Hd p); [right |].
Qed.

(** What the manifest commands write is read back as it was: a list of valid
    buddies, each with its pinned key, token, name and exposure scope, saved
    to the file and loaded again gives the same list, whatever the entries;
    the header the program puts on top is never mistaken for the old format. *)
Theorem manifest_roundtrip specs :
  Forall good_spec specs -> NoDup (sp_pin <$> specs) ->
  faithful (raw_of ∘ toManifest <$> specs) ->
  Z.of_nat (slen (manifestHeader ⊕ yaml_text (raw_of ∘ toManifest <$> specs))) <= maxManifestBytes ->
  loadPeersFile yaml (saveManifestLocked yaml_text specs) = Ok specs.
Proof.
  intros Hg Hn [Hh Hy] Hsz. unfold loadPeersFile, saveManifestLocked, readManifest.
  destruct (Z.ltb_spec maxManifestBytes (Z.of_nat (slen (manifestHeader ⊕ yaml_text (raw_of ∘ toManifest <$> specs)))));
    [lia |]. rewrite written_not_legacy by done. unfold parseYAMLManifest. rewrite Hy, decode_written by done.
  apply specs_loop_written; [done | done | set_solver].
Qed.
End Yaml.
