(* ===== verification/Supervisor.v ===== *)
(** * One worker per buddy

    [internal/role/supervisor.go] and the reconnect half of [buddy.go]: where the
    next connection attempt comes from, the reconnect loop of one buddy, and
    the supervisor that keeps one worker per buddy across reloads and takes
    them down at the end.  The supervisor and its workers run concurrently:
    an event is one step of one of them. *)

From S2P Require Import Prelude Base64 Sha256 Json NetAddr NetParse Crypto Protocol HsRegistry Authz AuthzFile TrustStore Scope Handshake Manifest.

(** ** Attempts *)

Record attempt := mkAttempt {
  at_rendezvous : string; at_inviteToken : string; at_pin : option string; at_cfgPin : option string;
  at_firstPairing : bool; at_ifIndex : nat; at_expose : option Scope;
}.

(** What of the buddy's configuration an attempt depends on. *)
Record BuddyOpts := mkOpts {
  bo_PeerKey : string; bo_Token : string; bo_PeersFile : bool; bo_Insecure : bool; bo_Direct : bool;
  bo_Ephemeral : bool; bo_InviteTimeout : Z;
}.

Inductive AttemptErr :=
| BadPeerKeyFlag (e : DecodeErr) | RevokedList (e : FileErr) | AttemptRevoked | SessionStore (e : FileErr)
| SessionGone | DirectNoKey | PinConflict | NothingToUse.

Definition sessionFallbackAfter : Z := 3.

Section Source.
Context (yaml : string -> YamlDoc).

(** The bootstrap token of this round: the manifest's as it is now. *)
Definition live_token (o : BuddyOpts) (fs : Files) (spec : peerSpec) : string :=
  if bo_PeersFile o then
    match loadPeersFile yaml (fl_manifest fs) with
    | Err _ => ""
    | Ok live => default "" (sp_token <$> find (fun s => String.eqb (sp_pin s) (sp_pin spec)) live)
    end
  else sp_token spec.

Definition bootstrap (spec : peerSpec) (scope : option Scope) (token : string) : attempt :=
  mkAttempt token token (Some (sp_pin spec)) None true 0 scope.

(** [peerSource]; [scope] is what the worker's cell holds now. *)
Definition peerSource (o : BuddyOpts) (fs : Files) (spec : peerSpec) (scope : option Scope) (failures : Z)
    : result AttemptErr attempt :=
  match isRevoked (ts_revoked (fl_trust fs)) (PubKeyB64 (sp_pin spec)) with
  | Err e => Err (RevokedList e)
  | Ok true => Err AttemptRevoked
  | Ok false =>
      let token := live_token o fs spec in
      match loadSessionFor (ts_known (fl_trust fs)) (sp_pin spec) with
      | Err e => Err (SessionStore e)
      | Ok (Some secret) =>
          if negb (String.eqb token "") && negb (bo_Insecure o) && (sessionFallbackAfter <=? failures) && (Z.rem failures 2 =? 1)
          then Ok (bootstrap spec scope token)
          else Ok (mkAttempt secret "" (Some (sp_pin spec)) None false 0 scope)
      | Ok None => if String.eqb token "" then Err SessionGone else Ok (bootstrap spec scope token)
      end
  end.
End Source.

(** [nextAttempt], the single-buddy source. *)
Definition nextAttempt (o : BuddyOpts) (t : TrustState) : result AttemptErr attempt :=
  let? cfgPin := if String.eqb (bo_PeerKey o) "" then Ok None
                 else match DecodePubKey (bo_PeerKey o) with Ok p => Ok (Some p) | Err e => Err (BadPeerKeyFlag e) end in
  let gone pin := match isRevoked (ts_revoked t) (PubKeyB64 pin) with
                  | Err e => Err (RevokedList e) | Ok true => Err AttemptRevoked | Ok false => Ok tt end in
  let? _ := match cfgPin with Some p => gone p | None => Ok tt end in
  if bo_Direct o then
    match cfgPin with
    | None => Err DirectNoKey
    | Some p => Ok (mkAttempt "" "" (Some p) (Some p) false 0 None)
    end
  else match loadSession (ts_known t) with
       | Err e => Err (SessionStore e)
       | Ok (Some s) =>
           let? _ := gone (ss_pin s) in
           match cfgPin with
           | Some p => if negb (String.eqb (ss_pin s) p) then Err PinConflict
                       else Ok (mkAttempt (ss_secret s) "" (Some (ss_pin s)) cfgPin false 0 None)
           | None => Ok (mkAttempt (ss_secret s) "" (Some (ss_pin s)) None false 0 None)
           end
       | Ok None =>
           if negb (String.eqb (bo_Token o) "")
           then Ok (mkAttempt (bo_Token o) (bo_Token o) None cfgPin (bo_Ephemeral o) 0 None)
           else Err NothingToUse
       end.

(** ** The reconnect loop *)

Definition reconnectBase : Z := 3 * second.
Definition reconnectMax : Z := 60 * second.

(** [rand] is the 64-bit draw, [None] where the generator fails. *)
Definition jitter (rand : option Z) (d : Z) : Z :=
  if d <=? 0 then 0
  else match rand with None => d | Some u => Z.quot d 2 + u mod (Z.quot d 2 + 1) end.

Record LoopState := mkLoop { lp_backoff : Z; lp_failures : Z }.

Inductive RunErr := RunFailed | RunSAS (e : bool).

(** One round as the outside world plays it: the attempt the source yields, when
    it starts, how the tunnel ends ([None] for an ordinary end), how long it
    lasted, whether the context was cancelled by then or during the wait. *)
Record Round := mkRound {
  rd_attempt : result AttemptErr attempt; rd_now : Z; rd_run : option RunErr; rd_elapsed : Z; rd_rand : option Z;
  rd_cancelled : bool; rd_cancelled_waiting : bool;
}.

Inductive LoopEnd := EndAttempt (e : AttemptErr) | EndInvite | EndSAS (timeout : bool) | EndCancelled.

(** What one turn of [peerLoop] does: ends it, or waits and goes on. *)
Definition peer_round (o : BuddyOpts) (inviteStart : Z) (ifIndex : nat) (r : Round) (s : LoopState)
    : option attempt * (LoopEnd + Z * LoopState) :=
  match rd_attempt r with
  | Err e => (None, inl (EndAttempt e))
  | Ok a0 =>
      let att := mkAttempt (at_rendezvous a0) (at_inviteToken a0) (at_pin a0) (at_cfgPin a0) (at_firstPairing a0) ifIndex (at_expose a0) in
      if bo_Ephemeral o && at_firstPairing att && (bo_InviteTimeout o <? rd_now r - inviteStart) then (None, inl EndInvite)
      else match (if rd_cancelled r then None else rd_run r) with
           | Some (RunSAS timeout) => (Some att, inl (EndSAS timeout))
           | _ =>
               if rd_cancelled r then (Some att, inl EndCancelled)
               else
                 let s1 := if reconnectMax <? rd_elapsed r then mkLoop reconnectBase 0
                           else mkLoop (lp_backoff s) (lp_failures s + 1) in
                 let wait := jitter (rd_rand r) (lp_backoff s1) in
                 if rd_cancelled_waiting r then (Some att, inl EndCancelled)
                 else (Some att, inr (wait, mkLoop (Z.min (lp_backoff s1 * 2) reconnectMax) (lp_failures s1)))
           end
  end.

Definition loop_start : LoopState := mkLoop reconnectBase 0.

(** The loop over a sequence of rounds: the attempts made, the waits, the end. *)
Fixpoint peerLoop (o : BuddyOpts) (inviteStart : Z) (ifIndex : nat) (rs : list Round) (s : LoopState)
    : list attempt * list Z * option LoopEnd :=
  match rs with
  | [] => ([], [], None)
  | r :: rest =>
      match peer_round o inviteStart ifIndex r s with
      | (a, inl e) => ((from_option (fun x => [x]) [] a), [], Some e)
      | (a, inr (w, s')) =>
          let '(al, ws, e) := peerLoop o inviteStart ifIndex rest s' in ((from_option (fun x => [x]) [] a) ++ al, w :: ws, e)
      end
  end.

(** ** The supervisor *)

Record handle := mkHandle { h_gen : nat; h_spec : peerSpec }.

(** A worker goroutine: its buddy, its instance, its interface. *)
Record worker := mkWorker { w_key : string; w_gen : nat; w_if : nat }.

#[export] Instance worker_eq_dec : EqDecision worker.
Proof. solve_decision. Defined.

(** Serving the three channels, waiting for the workers after the context was
    cancelled, or returned. *)
Inductive Phase := Serving | Draining | Returned.

Definition exitedCap : nat := 16.

(** The supervisor's variables and the state of its workers.  [cells] holds each
    instance's exposure scope, which the worker reads; [live] are the workers
    inside their loop, [returned] those that left it and have yet to report,
    [exited] the buffered reports. *)
Record Sup := mkSup {
  running : gmap string handle; su_gen : nat; ifIndexOf : gmap string nat; cells : gmap nat (option Scope);
  live : list worker; returned : list worker; exited : list (string * nat);
  cancelled : list nat; ctxDone : bool; phase : Phase;
}.

(** The lowest index not in use. *)
Definition lowest_free (m : gmap string nat) : nat :=
  let used := (map_to_list m).*2 in
  default 0%nat (find (fun i => negb (bool_decide (i ∈ used))) (seq 0 (S (length used)))).

Definition allocIf (key : string) (m : gmap string nat) : nat * gmap string nat :=
  match m !! key with Some i => (i, m) | None => let i := lowest_free m in (i, <[key := i]> m) end.

Definition start (spec : peerSpec) (s : Sup) : Sup :=
  let key := PubKeyB64 (sp_pin spec) in
  match running s !! key with
  | Some _ => s
  | None =>
      let g := S (su_gen s) in
      let '(i, m) := allocIf key (ifIndexOf s) in
      mkSup (<[key := mkHandle g spec]> (running s)) g m (<[g := sp_expose spec]> (cells s))
        (mkWorker key g i :: live s) (returned s) (exited s) (cancelled s) (ctxDone s) (phase s)
  end.

Definition empty_sup : Sup := mkSup ∅ 0 ∅ ∅ [] [] [] [] false Serving.

(** [supervise] up to its loop. *)
Definition supervise (specs : list peerSpec) : option Sup :=
  if (MaxBuddies <? length specs)%nat then None else Some (foldl (fun s spec => start spec s) empty_sup specs).

(** The report of a worker that returned. *)
Definition on_exit (key : string) (g : nat) (s : Sup) : Sup :=
  match running s !! key with
  | Some h =>
      if (h_gen h =? g)%nat then
        mkSup (delete key (running s)) (su_gen s) (delete key (ifIndexOf s)) (cells s) (live s) (returned s) (exited s)
          (g :: cancelled s) (ctxDone s) (phase s)
      else s
  | None => s
  end.

Definition want_of (desired : list peerSpec) : gmap string peerSpec :=
  foldl (fun m s => <[PubKeyB64 (sp_pin s) := s]> m) ∅ desired.

(** Reload, first half: stop what is no longer wanted. *)
Definition stop_unwanted (want : gmap string peerSpec) (s : Sup) : Sup :=
  mkSup (filter (fun kh => is_Some (want !! kh.1)) (running s)) (su_gen s) (ifIndexOf s) (cells s) (live s) (returned s) (exited s)
    ((h_gen ∘ snd <$> map_to_list (filter (fun kh => want !! kh.1 = None) (running s))) ++ cancelled s) (ctxDone s) (phase s).

(** Reload, second half, for one wanted buddy: a running one gets its changed
    scope in place, another one is started. *)
Definition reconcile (key : string) (spec : peerSpec) (s : Sup) : Sup :=
  match running s !! key with
  | Some h =>
      if sameScope (sp_expose (h_spec h)) (sp_expose spec) then s
      else
        let old := h_spec h in
        let h' := mkHandle (h_gen h) (mkSpec (sp_pin old) (sp_token old) (sp_name old) (sp_expose spec)) in
        mkSup (<[key := h']> (running s)) (su_gen s) (ifIndexOf s) (<[h_gen h := sp_expose spec]> (cells s)) (live s) (returned s)
          (exited s) (cancelled s) (ctxDone s) (phase s)
  | None => start spec s
  end.

(** The map of wanted buddies is visited in some order. *)
Definition reload (order : list string) (desired : list peerSpec) (s : Sup) : Sup :=
  let want := want_of desired in
  foldl (fun s key => match want !! key with Some spec => reconcile key spec s | None => s end)
    (stop_unwanted want s) (order ++ (map_to_list want).*1).

(** What one of the goroutines does next. *)
Inductive SupEvent :=
| CtxCancel
| WorkerReturns (g : nat)
| WorkerReports (g : nat)
| TakeExit
| TakeReload (order : list string) (desired : option (list peerSpec))
| TakeDone
| AllDone.

Definition with_workers (s : Sup) (l r : list worker) (e : list (string * nat)) : Sup :=
  mkSup (running s) (su_gen s) (ifIndexOf s) (cells s) l r e (cancelled s) (ctxDone s) (phase s).

Definition with_phase (s : Sup) (c : bool) (p : Phase) : Sup :=
  mkSup (running s) (su_gen s) (ifIndexOf s) (cells s) (live s) (returned s) (exited s) (cancelled s) c p.

Definition is_gen (g : nat) (w : worker) : bool := (w_gen w =? g)%nat.
Definition without (g : nat) (l : list worker) : list worker := List.filter (fun w => negb (is_gen g w)) l.

(** [None]: the goroutine cannot move. *)
Definition sup_step (e : SupEvent) (s : Sup) : option Sup :=
  match e, phase s with
  | CtxCancel, _ => if ctxDone s then None else Some (with_phase s true (phase s))
  | WorkerReturns g, _ =>
      w ← find (is_gen g) (live s); Some (with_workers s (without g (live s)) (w :: returned s) (exited s))
  | WorkerReports g, _ =>
      w ← find (is_gen g) (returned s);
      if (length (exited s) <? exitedCap)%nat
      then Some (with_workers s (live s) (without g (returned s)) (exited s ++ [(w_key w, w_gen w)])) else None
  | TakeExit, Serving =>
      match exited s with
      | (k, g) :: r => Some (on_exit k g (with_workers s (live s) (returned s) r))
      | [] => None
      end
  | TakeReload order desired, Serving =>
      match desired with Some d => Some (reload order d s) | None => Some s end
  | TakeDone, Serving => if ctxDone s then Some (with_phase s true Draining) else None
  | AllDone, Draining => match live s, returned s with [], [] => Some (with_phase s (ctxDone s) Returned) | _, _ => None end
  | _, _ => None
  end.

Fixpoint sup_run (es : list SupEvent) (s : Sup) : option Sup :=
  match es with [] => Some s | e :: r => s' ← sup_step e s; sup_run r s' end.
