(* ===== verification/SupervisorProps.v ===== *)
(** * Properties of the supervisor, the reconnect loop and the attempt sources *)

From S2P Require Import Prelude Base64 Sha256 Json NetAddr NetParse Crypto Protocol HsRegistry Authz AuthzFile TrustStore TrustProps TrustTheorems Scope Handshake Manifest ManifestProps Supervisor.

(** ** Invariant *)

Definition workers (s : Sup) : list worker := live s ++ returned s.
Definition gens (s : Sup) : list nat := (w_gen <$> workers s) ++ (exited s).*2.

(** The worker is the instance its buddy's handle names, on the buddy's interface. *)
Definition current (s : Sup) (w : worker) : Prop :=
  exists h, running s !! w_key w = Some h /\ h_gen h = w_gen w /\ ifIndexOf s !! w_key w = Some (w_if w).

Record sup_inv (s : Sup) : Prop := {
  si_inj : forall k1 k2 i, ifIndexOf s !! k1 = Some i -> ifIndexOf s !! k2 = Some i -> k1 = k2;
  si_run : forall k h, running s !! k = Some h -> exists i, ifIndexOf s !! k = Some i /\
             (mkWorker k (h_gen h) i ∈ workers s \/ (k, h_gen h) ∈ exited s);
  si_gens : NoDup (gens s);
  si_le : forall g, g ∈ gens s -> (g <= su_gen s)%nat;
  si_current : forall w, w ∈ workers s -> w_gen w ∈ cancelled s \/ current s w;
  si_cell : forall k h, running s !! k = Some h ->
              cells s !! h_gen h = Some (sp_expose (h_spec h)) /\ PubKeyB64 (sp_pin (h_spec h)) = k;
  si_cap : (length (exited s) <= exitedCap)%nat;
}.

Lemma run_gen s k h : sup_inv s -> running s !! k = Some h -> h_gen h ∈ gens s.
Proof.
  intros Hi Hr. destruct (si_run _ Hi _ _ Hr) as (i & _ & [Hw | He]); unfold gens; apply elem_of_app.
  - left. apply list_elem_of_fmap. by exists (mkWorker k (h_gen h) i).
  - right. apply list_elem_of_fmap. by exists (k, h_gen h).
Qed.

Lemma run_gen_inj s k k' h h' :
  sup_inv s -> running s !! k = Some h -> running s !! k' = Some h' -> h_gen h = h_gen h' -> k = k'.
Proof.
  intros Hi Hk Hk' E. destruct (si_run _ Hi _ _ Hk) as (i & Hi1 & H1), (si_run _ Hi _ _ Hk') as (i' & Hi2 & H2).
  pose proof (si_gens _ Hi) as Hn. unfold gens in Hn. apply NoDup_app in Hn as (Hn1 & Hd & Hn2). rewrite <- E in H2.
  assert (A : forall k i, mkWorker k (h_gen h) i ∈ workers s -> h_gen h ∈ w_gen <$> workers s)
    by (intros k0 i0 H0; apply list_elem_of_fmap; by exists (mkWorker k0 (h_gen h) i0)).
  assert (B : forall k, (k, h_gen h) ∈ exited s -> h_gen h ∈ (exited s).*2)
    by (intros k0 H0; apply list_elem_of_fmap; by exists (k0, h_gen h)).
  destruct H1 as [H1 | H1], H2 as [H2 | H2].
  - assert (mkWorker k (h_gen h) i = mkWorker k' (h_gen h) i') as [= ?]; [| done].
    eapply (NoDup_fmap_inj w_gen); eauto.
  - destruct (Hd (h_gen h)); eauto.
  - destruct (Hd (h_gen h)); eauto.
  - assert ((k, h_gen h) = (k', h_gen h)) as [= ?]; [| done]. eapply (NoDup_fmap_inj snd); eauto.
Qed.

(** ** Steps keep the invariant *)

Lemma lowest_free_fresh m : forall k, m !! k <> Some (lowest_free m).
Proof.
  intros k Hk. unfold lowest_free in Hk. set (used := (map_to_list m).*2) in *.
  destruct (find _ _) as [i |] eqn:Ef; cbn in Hk.
  - apply find_some in Ef as [_ Ef]. apply negb_true_iff, bool_decide_eq_false in Ef. apply Ef. subst used.
    apply list_elem_of_fmap. exists (k, i). split; [done | by apply elem_of_map_to_list].
  - assert (Sub : seq 0 (S (length used)) ⊆ used).
    { intros i Hi. pose proof (find_none _ _ Ef i (proj1 (list_elem_of_In _ _) Hi)) as Hb.
      by apply negb_false_iff, bool_decide_eq_true in Hb. }
    pose proof (submseteq_length _ _ (NoDup_submseteq _ _ (NoDup_seq 0 (S (length used))) Sub)) as Hl.
    rewrite length_seq in Hl. lia.
Qed.

Lemma allocIf_spec key m i m' : allocIf key m = (i, m') ->
  (forall k1 k2 j, m !! k1 = Some j -> m !! k2 = Some j -> k1 = k2) ->
  m' !! key = Some i /\ (forall k, k <> key -> m' !! k = m !! k) /\
  (forall k1 k2 j, m' !! k1 = Some j -> m' !! k2 = Some j -> k1 = k2).
Proof.
  unfold allocIf. destruct (m !! key) as [j |] eqn:E; intros [= <- <-] Hinj; [done |].
  split_and!; [by rewrite lookup_insert_eq | by intros k Hk; rewrite lookup_insert_ne |].
  assert (F : forall k, m !! k <> Some (lowest_free m)) by apply lowest_free_fresh.
  intros k1 k2 j. destruct (decide (k1 = key)) as [-> |], (decide (k2 = key)) as [-> |];
    rewrite ?lookup_insert_eq, ?lookup_insert_ne by done; try done.
  - intros [= <-] H2. by destruct (F k2).
  - intros H1 [= <-]. by destruct (F k1).
  - apply Hinj.
Qed.

Lemma start_inv spec s : sup_inv s -> sup_inv (start spec s).
Proof.
  intros Hi. unfold start. set (key := PubKeyB64 (sp_pin spec)).
  destruct (running s !! key) as [h |] eqn:Er; [done |].
  destruct (allocIf key (ifIndexOf s)) as [i m] eqn:Ea.
  destruct (allocIf_spec _ _ _ _ Ea (si_inj _ Hi)) as (Hk & Hne & Hinj).
  assert (Hfresh : S (su_gen s) ∉ gens s) by (intros Hg%(si_le _ Hi); lia).
  split; cbn [running su_gen ifIndexOf cells live returned exited cancelled ctxDone phase]; unfold workers, gens, workers; cbn [live returned exited].
  - exact Hinj.
  - intros k h. destruct (decide (k = key)) as [-> | Hkey].
    + rewrite lookup_insert_eq. intros [= <-]. exists i. split; [done |]. left. cbn. left.
    + rewrite lookup_insert_ne by done. intros Hr. destruct (si_run _ Hi _ _ Hr) as (j & Hj & Hor). exists j.
      rewrite Hne by done. split; [done |]. destruct Hor as [Hw | He]; [left; by right | by right].
  - cbn. constructor; [done | apply (si_gens _ Hi)].
  - cbn. intros g [-> | Hg]%elem_of_cons; [lia |]. apply (si_le _ Hi) in Hg. lia.
  - intros w [-> | Hw]%elem_of_cons.
    + right. exists (mkHandle (S (su_gen s)) spec). cbn. by rewrite lookup_insert_eq.
    + destruct (si_current _ Hi w Hw) as [? | (h & Hr & Hg & Hif)]; [by left | right].
      assert (w_key w <> key) by (intros E; rewrite E in Hr; congruence).
      exists h. cbn. rewrite lookup_insert_ne, Hne by done. done.
  - intros k h. destruct (decide (k = key)) as [-> | Hkey].
    + rewrite lookup_insert_eq. intros [= <-]. cbn. by rewrite lookup_insert_eq.
    + rewrite lookup_insert_ne by done. intros Hr. rewrite lookup_insert_ne; [by apply (si_cell _ Hi) |].
      intros E. apply Hfresh. rewrite E. by eapply run_gen.
  - apply (si_cap _ Hi).
Qed.

Lemma empty_sup_inv : sup_inv empty_sup.
Proof. split; cbn; try done; try set_solver; [constructor | lia]. Qed.

Lemma supervise_inv specs s : supervise specs = Some s -> sup_inv s.
Proof.
  unfold supervise. destruct (_ <? _)%nat; [done |]. intros [= <-].
  assert (G : forall s0, sup_inv s0 -> sup_inv (foldl (fun s spec => start spec s) s0 specs)); [| apply G, empty_sup_inv].
  induction specs as [| x specs IH]; intros s0 H0; cbn; [done |]. by apply IH, start_inv.
Qed.

Lemma stop_unwanted_inv want s : sup_inv s -> sup_inv (stop_unwanted want s).
Proof.
  intros Hi. split; cbn; unfold workers, gens; cbn.
  - apply (si_inj _ Hi).
  - intros k h [Hr _]%map_lookup_filter_Some. by apply (si_run _ Hi).
  - apply (si_gens _ Hi).
  - apply (si_le _ Hi).
  - intros w Hw. destruct (si_current _ Hi w Hw) as [? | (h & Hr & Hg & Hif)]; [left; apply elem_of_app; by right |].
    destruct (want !! w_key w) as [sp |] eqn:Ew.
    + right. exists h. split; [| done]. apply map_lookup_filter_Some. cbn. rewrite Ew. eauto.
    + left. apply elem_of_app. left. apply list_elem_of_fmap. exists (w_key w, h). split; [done |].
      apply elem_of_map_to_list, map_lookup_filter_Some. done.
  - intros k h [Hr _]%map_lookup_filter_Some. by apply (si_cell _ Hi).
  - apply (si_cap _ Hi).
Qed.

Lemma reconcile_inv key spec s : sup_inv s -> sup_inv (reconcile key spec s).
Proof.
  intros Hi. unfold reconcile. destruct (running s !! key) as [h |] eqn:Er; [| by apply start_inv].
  destruct (sameScope _ _); [done |]. split; cbn; unfold workers, gens; cbn; try apply Hi.
  - intros k h'. destruct (decide (k = key)) as [-> |].
    + rewrite lookup_insert_eq. intros [= <-]. cbn. by apply (si_run _ Hi).
    + rewrite lookup_insert_ne by done. by apply (si_run _ Hi).
  - intros w Hw. destruct (si_current _ Hi w Hw) as [? | (h' & Hr & Hg & Hif)]; [by left | right].
    destruct (decide (w_key w = key)) as [E |].
    + rewrite E in *. eexists. cbn. rewrite E, lookup_insert_eq. split; [done |]. cbn. split; [congruence | done].
    + exists h'. cbn. by rewrite lookup_insert_ne.
  - intros k h'. destruct (decide (k = key)) as [-> | Hne].
    + rewrite lookup_insert_eq. intros [= <-]. cbn. rewrite lookup_insert_eq. split; [done | by apply (si_cell _ Hi)].
    + rewrite lookup_insert_ne by done. intros Hr. rewrite lookup_insert_ne; [by apply (si_cell _ Hi) |].
      intros E. apply Hne. by eapply (run_gen_inj s).
Qed.

Lemma reload_inv order desired s : sup_inv s -> sup_inv (reload order desired s).
Proof.
  intros Hi. unfold reload. generalize (order ++ (map_to_list (want_of desired)).*1). intros l.
  apply (stop_unwanted_inv (want_of desired)) in Hi. revert Hi. generalize (stop_unwanted (want_of desired) s).
  induction l as [| k l IH]; intros s0 H0; cbn; [done |]. apply IH.
  destruct (want_of desired !! k); [by apply reconcile_inv | done].
Qed.

Lemma take_worker g l w : NoDup (w_gen <$> l) -> find (is_gen g) l = Some w -> w_gen w = g /\ l ≡ₚ w :: without g l.
Proof.
  intros Hn Hf. pose proof (find_some _ _ Hf) as [_ Hg]. apply Nat.eqb_eq in Hg. split; [done |].
  revert Hn Hf. induction l as [| x l IH]; [done |]. rewrite fmap_cons, NoDup_cons. intros [Hnin Hn]. cbn [find without List.filter].
  unfold without. cbn [List.filter]. destruct (is_gen g x) eqn:Ex; cbn [negb].
  - intros [= ->]. f_equiv. rewrite Hg in Hnin. clear -Hnin. symmetry. induction l as [| y l IH]; [done |]. cbn [List.filter].
    rewrite fmap_cons, not_elem_of_cons in Hnin. destruct Hnin as [Hne Hnin].
    unfold is_gen at 1. destruct (Nat.eqb_spec (w_gen y) g); [congruence |]. cbn. f_equiv. by apply IH.
  - intros Hf. rewrite (Permutation_swap x w). f_equiv. by apply IH.
Qed.

Lemma gens_parts s : sup_inv s -> NoDup (w_gen <$> live s) /\ NoDup (w_gen <$> returned s).
Proof.
  intros Hi. pose proof (si_gens _ Hi) as Hn. unfold gens, workers in Hn. rewrite fmap_app in Hn.
  apply NoDup_app in Hn as (Hn & _ & _). apply NoDup_app in Hn as (H1 & _ & H2). done.
Qed.

(** Only which workers there are matters, not on which list they are. *)
Lemma inv_workers s l r : sup_inv s -> l ++ r ≡ₚ workers s -> sup_inv (with_workers s l r (exited s)).
Proof.
  intros Hi P. split; cbn; unfold workers, gens; cbn.
  - apply (si_inj _ Hi).
  - intros k h Hr. destruct (si_run _ Hi _ _ Hr) as (i & Hk & Hor). exists i. unfold workers; cbn. by rewrite P.
  - unfold workers; cbn. rewrite P. apply (si_gens _ Hi).
  - unfold workers; cbn. intros g. rewrite P. apply (si_le _ Hi).
  - intros w. rewrite P. apply (si_current _ Hi).
  - apply (si_cell _ Hi).
  - apply (si_cap _ Hi).
Qed.

Lemma inv_reported s w r :
  sup_inv s -> returned s ≡ₚ w :: r -> (length (exited s) < exitedCap)%nat ->
  sup_inv (with_workers s (live s) r (exited s ++ [(w_key w, w_gen w)])).
Proof.
  intros Hi P Hl. assert (Q : workers s ≡ₚ w :: (live s ++ r)) by (unfold workers; rewrite P; by rewrite Permutation_middle).
  assert (G : gens s ≡ₚ (w_gen <$> live s ++ r) ++ (exited s ++ [(w_key w, w_gen w)]).*2).
  { unfold gens. rewrite Q, (fmap_app snd). cbn [fmap list_fmap app snd]. rewrite app_assoc. apply Permutation_cons_append. }
  split; cbn; unfold workers, gens; cbn.
  - apply (si_inj _ Hi).
  - intros k h Hr. destruct (si_run _ Hi _ _ Hr) as (i & Hk & Hor). exists i. split; [done |].
    destruct Hor as [Hw | He]; [| right; apply elem_of_app; by left]. rewrite Q in Hw.
    apply elem_of_cons in Hw as [<- | Hw]; [right; apply elem_of_app; right; by left | by left].
  - unfold workers; cbn. rewrite <- G. apply (si_gens _ Hi).
  - unfold workers; cbn. intros g. rewrite <- G. apply (si_le _ Hi).
  - intros x Hx. apply (si_current _ Hi). rewrite Q. by right.
  - apply (si_cell _ Hi).
  - rewrite length_app. cbn. lia.
Qed.

Lemma inv_taken s k g r :
  sup_inv s -> exited s = (k, g) :: r -> sup_inv (on_exit k g (with_workers s (live s) (returned s) r)).
Proof.
  intros Hi E. pose proof (si_gens _ Hi) as Hn. unfold gens in Hn. rewrite E in Hn. cbn [fmap list_fmap snd] in Hn.
  rewrite <- Permutation_middle in Hn. apply NoDup_cons in Hn as [Hg Hn'].
  assert (Hle : forall g', g' ∈ (w_gen <$> workers s) ++ r.*2 -> (g' <= su_gen s)%nat).
  { intros g' Hg'. apply (si_le _ Hi). unfold gens. rewrite E. cbn. apply elem_of_app. apply elem_of_app in Hg' as [? | ?];
      [by left | right; by right]. }
  assert (Hcap : (length r <= exitedCap)%nat) by (pose proof (si_cap _ Hi) as H; rewrite E in H; cbn in H; lia).
  assert (Hrun : forall k' h, running s !! k' = Some h -> (k', h_gen h) <> (k, g) -> exists i, ifIndexOf s !! k' = Some i /\
            (mkWorker k' (h_gen h) i ∈ workers s \/ (k', h_gen h) ∈ r)).
  { intros k' h Hr Hne. destruct (si_run _ Hi _ _ Hr) as (i & Hk & Hor). exists i. split; [done |]. rewrite E in Hor.
    destruct Hor as [? | [? | ?]%elem_of_cons]; [by left | done | by right]. }
  unfold on_exit. cbn [running with_workers]. destruct (running s !! k) as [h |] eqn:Er.
  2: { split; cbn; try apply Hi; try done. intros k' h Hr. apply Hrun; [done |]. intros [= -> _]. congruence. }
  destruct (Nat.eqb_spec (h_gen h) g) as [Eg | Hne].
  2: { split; cbn; try apply Hi; try done. intros k' h' Hr. apply Hrun; [done |]. intros [= -> ?]. congruence. }
  split; cbn; unfold workers, gens, workers; cbn.
  - intros k1 k2 i [_ H1]%lookup_delete_Some [_ H2]%lookup_delete_Some. by eapply (si_inj _ Hi).
  - intros k' h' [Hk Hr]%lookup_delete_Some. destruct (Hrun _ _ Hr) as (i & Hi' & Hor); [congruence |]. exists i.
    rewrite lookup_delete_ne by done. done.
  - done.
  - done.
  - intros w Hw. destruct (si_current _ Hi w Hw) as [? | (h' & Hr & Hg' & Hif)]; [left; by right |].
    destruct (decide (w_key w = k)) as [Ek |].
    + exfalso. apply Hg. apply elem_of_app. left. apply list_elem_of_fmap. exists w. split; [| done]. rewrite Ek in Hr. congruence.
    + right. exists h'. cbn. by rewrite !lookup_delete_ne.
  - intros k' h' [_ Hr]%lookup_delete_Some. by apply (si_cell _ Hi).
  - done.
Qed.

Lemma phase_inv s c p : sup_inv s -> sup_inv (with_phase s c p).
Proof. intros Hi. split; cbn; apply Hi. Qed.

Lemma sup_step_inv e s s' : sup_inv s -> sup_step e s = Some s' -> sup_inv s'.
Proof.
  intros Hi. destruct (gens_parts _ Hi) as [Hl Hr].
  destruct e as [| g | g | | order [d |] | |]; cbn [sup_step]; destruct (phase s); try done.
  all: try (destruct (ctxDone s); [| try done]; intros [= <-]; by apply phase_inv).
  all: try (destruct (ctxDone s); [done |]; intros [= <-]; by apply phase_inv).
  all: try (intros [= <-]; by (done || apply reload_inv)).
  all: try (destruct (find (is_gen g) (live s)) as [w |] eqn:Ef; [| done]; cbn; intros [= <-];
            destruct (take_worker _ _ _ Hl Ef) as [_ P]; apply inv_workers; [done |];
            unfold workers; rewrite P at 2; cbn; by rewrite Permutation_middle).
  all: try (destruct (find (is_gen g) (returned s)) as [w |] eqn:Ef; [| done]; cbn [mbind option_bind];
            destruct (Nat.ltb_spec (length (exited s)) exitedCap); [| done]; intros [= <-];
            destruct (take_worker _ _ _ Hr Ef) as [_ P]; by apply inv_reported).
  - destruct (exited s) as [| [k g] r] eqn:Ee; [done |]. intros [= <-]. by apply inv_taken.
  - destruct (live s) eqn:E1; [| done]. destruct (returned s) eqn:E2; [| done]. intros [= <-]. by apply phase_inv.
Qed.

Lemma sup_run_inv es : forall s s', sup_inv s -> sup_run es s = Some s' -> sup_inv s'.
Proof.
  induction es as [| e es IH]; intros s s' Hi; cbn; [by intros [= <-] |].
  destruct (sup_step e s) as [s1 |] eqn:E; [| done]. cbn. apply IH. by eapply sup_step_inv.
Qed.

(** ** What the supervisor guarantees *)

(** C17. Two buddies never share an interface.  Whatever order workers return and
    report in and whatever reloads arrive, in every state the supervisor
    reaches any two workers it has not cancelled belong to different buddies
    and use different interface indices; every buddy it counts as running has
    a worker (or that worker's report is on its way), and the scope that
    worker reads is the one the supervisor holds for it. *)
Theorem workers_own_interface specs es s0 s :
  supervise specs = Some s0 -> sup_run es s0 = Some s ->
  (forall w1 w2, w1 ∈ live s ++ returned s -> w2 ∈ live s ++ returned s -> w1 <> w2 ->
     w_gen w1 ∉ cancelled s -> w_gen w2 ∉ cancelled s -> w_if w1 <> w_if w2 /\ w_key w1 <> w_key w2) /\
  (forall k h, running s !! k = Some h ->
     cells s !! h_gen h = Some (sp_expose (h_spec h)) /\
     ((exists i, mkWorker k (h_gen h) i ∈ live s ++ returned s) \/ (k, h_gen h) ∈ exited s)).
Proof.
  intros H0 Hr. pose proof (sup_run_inv _ _ _ (supervise_inv _ _ H0) Hr) as Hi. split.
  - intros w1 w2 H1 H2 Hne C1 C2. pose proof (si_gens _ Hi) as Hn. unfold gens in Hn. apply NoDup_app in Hn as (Hn & _ & _).
    destruct (si_current _ Hi w1 H1) as [? | (h1 & R1 & G1 & I1)]; [done |].
    destruct (si_current _ Hi w2 H2) as [? | (h2 & R2 & G2 & I2)]; [done |].
    assert (Hk : w_key w1 <> w_key w2).
    { intros E. apply Hne. eapply (NoDup_fmap_inj w_gen); [exact Hn | done | done |]. congruence. }
    split; [| done]. intros E. apply Hk. eapply (si_inj _ Hi); [exact I1 | by rewrite E].
  - intros k h Hk. split; [apply (si_cell _ Hi _ _ Hk) |]. destruct (si_run _ Hi _ _ Hk) as (i & _ & [Hw | He]); [left; by exists i | by right].
Qed.








(** ** Shutdown *)

Definition unfinished (s : Sup) : nat := length (live s) + length (returned s) + length (exited s).

(** The steps left once the supervisor only waits. *)
Definition steps_left (s : Sup) : nat :=
  2 * length (live s) + length (returned s) + (if ctxDone s then 0 else 1) + (match phase s with Returned => 0 | _ => 1 end).

Lemma drain_step e s s' :
  sup_inv s -> phase s <> Serving -> sup_step e s = Some s' ->
  phase s' <> Serving /\ (steps_left s' < steps_left s)%nat /\ unfinished s' = unfinished s.
Proof.
  intros Hi Hp. destruct (gens_parts _ Hi) as [Hl Hr]. unfold steps_left, unfinished.
  destruct e as [| g | g | | order d | |]; cbn [sup_step].
  - destruct (ctxDone s) eqn:Ec; [done |]. intros [= <-]. cbn. split_and!; [done | lia | lia].
  - destruct (find (is_gen g) (live s)) as [w |] eqn:Ef; [| done]. cbn. intros [= <-].
    destruct (take_worker _ _ _ Hl Ef) as [_ P%Permutation_length]. cbn in *. split_and!; [done | lia | lia].
  - destruct (find (is_gen g) (returned s)) as [w |] eqn:Ef; [| done]. cbn [mbind option_bind].
    destruct (_ <? _)%nat; [| done]. intros [= <-]. destruct (take_worker _ _ _ Hr Ef) as [_ P%Permutation_length].
    cbn in *. rewrite length_app. cbn. split_and!; [done | lia | lia].
  - by destruct (phase s).
  - by destruct (phase s).
  - by destruct (phase s).
  - destruct (phase s); [done | | done]. destruct (live s) eqn:E1; [| done]. destruct (returned s) eqn:E2; [| done].
    intros [= <-]. cbn. rewrite E1, E2. cbn. split_and!; [done | lia | lia].
Qed.

Lemma drain_run es : forall s s', sup_inv s -> phase s <> Serving -> sup_run es s = Some s' ->
  sup_inv s' /\ phase s' <> Serving /\ (length es + steps_left s' <= steps_left s)%nat /\ unfinished s' = unfinished s.
Proof.
  induction es as [| e es IH]; intros s s' Hi Hp; cbn [sup_run length]; [intros [= <-]; split_and!; done || lia |].
  destruct (sup_step e s) as [s1 |] eqn:E; [| done]. cbn [mbind option_bind]. intros Hrun.
  destruct (drain_step _ _ _ Hi Hp E) as (Hp1 & Hm & Hu). pose proof (sup_step_inv _ _ _ Hi E) as Hi1.
  destruct (IH _ _ Hi1 Hp1 Hrun) as (Hi' & Hp' & Hm' & Hu'). split_and!; [done | done | lia | lia].
Qed.

Lemma drain_progress s :
  phase s = Draining -> (unfinished s <= exitedCap)%nat -> exists e s', sup_step e s = Some s'.
Proof.
  intros Hp Hu. unfold unfinished in Hu. destruct (live s) as [| w l] eqn:El.
  - destruct (returned s) as [| w r] eqn:Er.
    + exists AllDone. eexists. cbn. by rewrite Hp, El, Er.
    + exists (WorkerReports (w_gen w)). cbn [sup_step]. rewrite Er. cbn [find]. unfold is_gen. rewrite Nat.eqb_refl.
      cbn [mbind option_bind]. cbn in Hu. destruct (Nat.ltb_spec (length (exited s)) exitedCap); [| lia]. eauto.
  - exists (WorkerReturns (w_gen w)). cbn [sup_step]. rewrite El. cbn [find]. unfold is_gen. rewrite Nat.eqb_refl. cbn. eauto.
Qed.

Lemma drain_completes n : forall s, (steps_left s <= n)%nat -> sup_inv s -> phase s <> Serving -> (unfinished s <= exitedCap)%nat ->
  exists es s', sup_run es s = Some s' /\ phase s' = Returned.
Proof.
  induction n as [| n IH]; intros s Hn Hi Hp Hu; (destruct (phase s) eqn:E; [done | | by exists [], s]).
  - unfold steps_left in Hn. rewrite E in Hn. lia.
  - destruct (drain_progress s E Hu) as (e & s1 & H1). rewrite <- E in Hp.
    destruct (drain_step _ _ _ Hi Hp H1) as (Hp1 & Hm & Hu1). pose proof (sup_step_inv _ _ _ Hi H1) as Hi1.
    destruct (IH s1) as (es & s' & Hes & Hr); [lia | done | done | lia |].
    exists (e :: es), s'. cbn. by rewrite H1.
Qed.

(** A worker that cannot report holds up the supervisor for good. *)
Lemma drain_stuck s e :
  phase s = Draining -> ctxDone s = true -> live s = [] -> returned s <> [] -> length (exited s) = exitedCap -> sup_step e s = None.
Proof.
  intros H1 H2 H3 H4 H5. unfold sup_step. rewrite H1, H2, H3, H5.
  destruct e; try done; [by destruct (find _ _) | by destruct (returned s)].
Qed.

(** C36. When the supervisor shuts down, and when it cannot.  Once it only waits
    for its workers, it takes a bounded number of further steps whatever the
    schedule; it can still return if and only if at most sixteen workers have
    not been accounted for, and then no schedule gets stuck before it has
    returned.  With more of them (the design limit is 48) it never returns:
    the channel the workers report on holds sixteen and nobody reads it any
    more. *)
Theorem shutdown_returns_iff specs es s0 s :
  supervise specs = Some s0 -> sup_run es s0 = Some s -> phase s = Draining ->
  ((exists es' s', sup_run es' s = Some s' /\ phase s' = Returned) <-> (unfinished s <= exitedCap)%nat) /\
  (forall es' s', sup_run es' s = Some s' -> (length es' <= steps_left s)%nat) /\
  ((unfinished s <= exitedCap)%nat -> forall es' s', sup_run es' s = Some s' ->
     phase s' = Returned \/ exists e s'', sup_step e s' = Some s'').
Proof.
  intros H0 Hr Hp. pose proof (sup_run_inv _ _ _ (supervise_inv _ _ H0) Hr) as Hi.
  assert (Hns : phase s <> Serving) by (by rewrite Hp). split_and!.
  - split; [| by intros Hu; apply (drain_completes (steps_left s))]. intros (es' & s' & Hes & Hret).
    enough (G : forall es s s', sup_inv s -> phase s = Draining -> sup_run es s = Some s' -> phase s' = Returned ->
                (unfinished s <= exitedCap)%nat) by (by eapply G).
    clear. induction es as [| e es IH]; intros s s' Hi Hp; cbn; [intros [= <-]; by rewrite Hp |].
    destruct (sup_step e s) as [s1 |] eqn:E; [| done]. cbn. intros Hes Hret.
    destruct (drain_step e s s1 Hi ltac:(by rewrite Hp) E) as (Hp1 & _ & Hu).
    destruct (phase s1) eqn:E1; [done | rewrite <- Hu; eapply IH; eauto using sup_step_inv |].
    destruct e; cbn [sup_step] in E; rewrite ?Hp in E; try done.
    + destruct (ctxDone s); [done |]. injection E as <-. cbn in E1. congruence.
    + destruct (find _ _); [| done]. injection E as <-. cbn in E1. congruence.
    + destruct (find _ _); [| done]. cbn [mbind option_bind] in E. destruct (_ <? _)%nat; [| done]. injection E as <-. cbn in E1. congruence.
    + unfold unfinished. pose proof (si_cap _ Hi). destruct (live s); [| done]. destruct (returned s); [| done]. cbn. lia.
  - intros es' s' Hes. destruct (drain_run _ _ _ Hi Hns Hes) as (_ & _ & Hm & _). lia.
  - intros Hu es' s' Hes. destruct (drain_run _ _ _ Hi Hns Hes) as (_ & Hp' & _ & Hu').
    destruct (phase s') eqn:E; [done | right; apply drain_progress; [done | lia] | by left].
Qed.
