(* ===== verification/AttemptProps.v ===== *)
(** * Properties of the attempt sources and of the reconnect loop *)

From S2P Require Import Prelude Base64 Sha256 Json NetAddr NetParse Crypto Protocol HsRegistry Authz AuthzFile TrustStore TrustProps TrustTheorems Scope Handshake Manifest ManifestProps Supervisor SupervisorProps.

Section Sources.
Context (yaml : string -> YamlDoc) (yaml_text : list RawBuddy -> string).

Lemma isRevoked_set f k : isRevoked f k = Ok true <-> exists rv, revokedSet f = Ok rv /\ k ∈ rv.
Proof.
  unfold isRevoked. destruct (revokedSet f) as [rv | e]; [| naive_solver].
  split; [intros [= H%bool_decide_eq_true]; eauto | intros (rv' & [= <-] & H)]. f_equal. by apply bool_decide_eq_true.
Qed.

(** C30. A worker only ever calls its own buddy.  Every attempt the source yields
    pins exactly the key the worker was started for, that key is not revoked
    at that moment, and the rendezvous is either the secret stored for this
    very key or the token the manifest gives for it now; an invite token is
    only carried by an attempt that is a first pairing. *)
Theorem attempts_are_pinned o fs spec scope failures a :
  peerSource yaml o fs spec scope failures = Ok a ->
  at_pin a = Some (sp_pin spec) /\ at_expose a = scope /\
  isRevoked (ts_revoked (fl_trust fs)) (PubKeyB64 (sp_pin spec)) = Ok false /\
  ((at_firstPairing a = false /\ at_inviteToken a = "" /\
    loadSessionFor (ts_known (fl_trust fs)) (sp_pin spec) = Ok (Some (at_rendezvous a))) \/
   (at_firstPairing a = true /\ at_inviteToken a = at_rendezvous a /\ at_rendezvous a <> "" /\
    at_rendezvous a = live_token yaml o fs spec)).
Proof.
  unfold peerSource. destruct (isRevoked _ _) as [[] | e]; [done | | done].
  destruct (loadSessionFor _ _) as [[secret |] | e]; [| | done].
  - destruct (String.eqb_spec (live_token yaml o fs spec) "") as [E | Hne]; cbn [negb andb].
    + intros [= <-]. cbn. split_and!; try done. by left.
    + destruct (negb (bo_Insecure o) && _ && _); intros [= <-]; cbn; split_and!; try done; [by right | by left].
  - destruct (String.eqb_spec (live_token yaml o fs spec) "") as [E | Hne]; [done |].
    intros [= <-]. cbn. split_and!; try done. by right.
Qed.

(** A pairing that one side has forgotten heals.  If this node still holds a
    session for a buddy that lost its copy, and both still have the bootstrap
    token, then in any four consecutive failed rounds there is one in which
    both meet at the token, each pinning the other's key; and in any two
    consecutive rounds there is one that still tries the stored session. *)
Theorem desync_heals oA oB fsA fsB specA specB scA scB secret tok f g :
  isRevoked (ts_revoked (fl_trust fsA)) (PubKeyB64 (sp_pin specA)) = Ok false ->
  isRevoked (ts_revoked (fl_trust fsB)) (PubKeyB64 (sp_pin specB)) = Ok false ->
  loadSessionFor (ts_known (fl_trust fsA)) (sp_pin specA) = Ok (Some secret) ->
  loadSessionFor (ts_known (fl_trust fsB)) (sp_pin specB) = Ok None ->
  live_token yaml oA fsA specA = tok -> live_token yaml oB fsB specB = tok -> tok <> "" ->
  bo_Insecure oA = false -> 0 <= f ->
  (exists i a b, 0 <= i <= 3 /\ peerSource yaml oA fsA specA scA (f + i) = Ok a /\
     peerSource yaml oB fsB specB scB g = Ok b /\ at_rendezvous a = tok /\ at_rendezvous b = tok /\
     at_pin a = Some (sp_pin specA) /\ at_pin b = Some (sp_pin specB)) /\
  (exists i a, 0 <= i <= 1 /\ peerSource yaml oA fsA specA scA (f + i) = Ok a /\ at_rendezvous a = secret).
Proof.
  intros Ra Rb Sa Sb Ta Tb Hne Hin Hf.
  assert (A : forall n, 0 <= n -> peerSource yaml oA fsA specA scA n =
            Ok (if (3 <=? n) && (n mod 2 =? 1) then bootstrap specA scA tok
                else mkAttempt secret "" (Some (sp_pin specA)) None false 0 scA)).
  { intros n Hn. unfold peerSource. rewrite Ra, Sa, Ta, Hin. destruct (String.eqb_spec tok ""); [done |]. cbn [negb andb].
    rewrite Z.rem_mod_nonneg by lia. unfold sessionFallbackAfter. by destruct ((3 <=? n) && (n mod 2 =? 1)). }
  assert (P : f mod 2 = 0 \/ f mod 2 = 1) by (pose proof (Z.mod_pos_bound f 2); lia).
  assert (P1 : (f + 1) mod 2 = 1 - f mod 2) by (rewrite (Z.div_mod f 2) at 1 by lia; destruct P as [-> | ->];
    [rewrite Z.add_0_r, Z.add_comm, Z.mul_comm, Z_mod_plus_full; done | replace (2 * (f / 2) + 1 + 1) with (0 + (f / 2 + 1) * 2) by lia; rewrite Z_mod_plus_full; done]).
  split.
  - assert (E : exists i, 0 <= i <= 3 /\ ((3 <=? f + i) && ((f + i) mod 2 =? 1)) = true).
    { destruct (decide (f < 3)) as [Hlt |].
      - exists (3 - f). split; [lia |]. by replace (f + (3 - f)) with 3 by lia.
      - destruct P as [P | P]; [exists 1 | exists 0]; (split; [lia |]); apply andb_true_iff; split.
        + apply Z.leb_le. lia.
        + apply Z.eqb_eq. lia.
        + apply Z.leb_le. lia.
        + apply Z.eqb_eq. by rewrite Z.add_0_r. }
    destruct E as (i & Hi & E). exists i, (bootstrap specA scA tok), (bootstrap specB scB tok). split; [done |].
    rewrite A, E by lia. unfold peerSource. rewrite Rb, Sb, Tb. destruct (String.eqb_spec tok ""); [done |]. done.
  - destruct P as [P | P]; [exists 0 | exists 1]; eexists; (split; [lia |]); rewrite A by lia.
    + rewrite Z.add_0_r, P. rewrite andb_false_r. done.
    + rewrite P1, P. rewrite andb_false_r. done.
Qed.

(** A buddy on the revocation list is in no worker set and gets no attempt. *)
Definition refused (fs : Files) (pin : string) : Prop :=
  (forall specs, assemblePeers yaml fs = Ok specs -> pin ∉ sp_pin <$> specs) /\
  (forall o spec scope n, sp_pin spec = pin -> peerSource yaml o fs spec scope n = Err AttemptRevoked) /\
  (forall o a, nextAttempt o (fl_trust fs) = Ok a -> at_pin a <> Some pin /\ at_cfgPin a <> Some pin).

Lemma revoked_refused fs pin : isRevoked (ts_revoked (fl_trust fs)) (PubKeyB64 pin) = Ok true -> refused fs pin.
Proof.
  intros Rv. set (t := fl_trust fs) in *. split_and!.
  - intros specs Ha Hp. unfold assemblePeers in Ha. fold t in Ha.
    destruct (loadPeersFile _ _) as [manifest |] eqn:Em; [| done]. cbn [lift] in Ha.
    destruct (proj1 (isRevoked_set _ _) Rv) as (rv & Erv & Hrv). rewrite Erv in Ha. cbn [lift] in Ha.
    destruct (loadSessions _) as [sessions |]; [| done]. cbn [lift] in Ha. destruct (_ <? _)%nat; [done |].
    destruct (vip_collision _ _) as [[] |]; [done |]. injection Ha as <-.
    rewrite fmap_app, <- list_fmap_compose in Hp. apply elem_of_app in Hp as [Hp | Hp];
      apply list_elem_of_fmap in Hp as (x & -> & Hx%elem_filter); destruct Hx as [_ Hx].
    + apply negb_true_iff, bool_decide_eq_false in Hx. done.
    + cbn in Hrv. rewrite bool_decide_eq_true_2 in Hx by done. done.
  - intros o spec scope n <-. unfold peerSource. fold t. by rewrite Rv.
  - intros o a. unfold nextAttempt. fold t.
    destruct (if String.eqb (bo_PeerKey o) "" then _ else _) as [cfgPin |]; [| done].
    assert (G : forall p, match isRevoked (ts_revoked t) (PubKeyB64 p) with
              | Err e => Err (RevokedList e) | Ok true => Err AttemptRevoked | Ok false => Ok tt end = Ok tt -> p <> pin)
      by (intros p Hp ->; by rewrite Rv in Hp).
    destruct (match cfgPin with Some p => _ | None => _ end) as [[] |] eqn:Eg; [| done].
    assert (Hc : cfgPin <> Some pin) by (destruct cfgPin as [p |]; [apply G in Eg; congruence | done]).
    destruct (bo_Direct o); [destruct cfgPin; [by intros [= <-] | done] |].
    destruct (loadSession _) as [[ss |] |]; [| | done].
    + destruct (match isRevoked _ (PubKeyB64 (ss_pin ss)) with Ok _ => _ | Err _ => _ end) as [[] |] eqn:Es; [| done].
      apply G in Es. destruct cfgPin as [p |]; [destruct (negb _); [done |] |]; intros [= <-]; cbn; (split; [congruence | done]).
    + destruct (negb _); [| done]. by intros [= <-].
Qed.

(** How far a removal got once it reports anything but a refusal. *)
Definition in_effect (r : Removal) : bool := match r with NotRevoked _ => false | _ => true end.

(** C10. A revocation bites everywhere at once.  From the moment a removal reports
    that it is in effect, even if its cleanup of sessions and manifest failed,
    the buddy is not in the worker set a reload assembles, a worker still
    running for it gets no further attempt, and the single-buddy source never
    yields an attempt that pins it. *)
Theorem revocation_bites_everywhere lock today ref fs r fs' pin :
  trust_inv (fl_trust fs) -> key_bytes pin -> date today ->
  resolveKeyRef yaml ref fs = Ok (PubKeyB64 pin) ->
  RemovePeer yaml yaml_text lock today ref fs = Ok (r, fs') -> in_effect r = true ->
  (forall specs, assemblePeers yaml fs' = Ok specs -> pin ∉ sp_pin <$> specs) /\
  (forall o spec scope n, sp_pin spec = pin -> peerSource yaml o fs' spec scope n = Err AttemptRevoked) /\
  (forall o a, nextAttempt o (fl_trust fs') = Ok a -> at_pin a <> Some pin /\ at_cfgPin a <> Some pin).
Proof.
  intros Hi Hk Hd Hres Hrm Hin. unfold RemovePeer in Hrm. rewrite Hres in Hrm.
  destruct (PeersRemove _ _ _ _ _) as [r0 t] eqn:Er. injection Hrm as <- <-. apply revoked_refused. cbn [fl_trust].
  destruct (remove_step _ _ _ _ _ _ _ Er Hi Hk Hd) as [Hr0 _]. by destruct r0; [| | destruct Hr0].
Qed.
End Sources.

(** ** The reconnect loop *)

Lemma jitter_bounds rand d : 0 < d -> (forall u, rand = Some u -> 0 <= u) -> Z.quot d 2 <= jitter rand d <= d.
Proof.
  intros Hd Hr. unfold jitter. destruct (Z.leb_spec d 0); [lia |]. rewrite Z.quot_div_nonneg by lia.
  assert (0 <= d / 2 <= d) by (split; [apply Z.div_pos; lia | apply Z.div_le_upper_bound; lia]).
  destruct rand as [u |]; [| lia]. pose proof (Z.mod_pos_bound u (d / 2 + 1) ltac:(lia)).
  pose proof (Z.mul_div_le d 2 ltac:(lia)). lia.
Qed.

Definition loop_ok (s : LoopState) : Prop := reconnectBase <= lp_backoff s <= reconnectMax.

Lemma round_wait o t i r s a w s' :
  peer_round o t i r s = (a, inr (w, s')) -> loop_ok s -> (forall u, rd_rand r = Some u -> 0 <= u) ->
  loop_ok s' /\ reconnectBase / 2 <= w <= reconnectMax /\
  (if reconnectMax <? rd_elapsed r then lp_failures s' = 0 /\ lp_backoff s' = 2 * reconnectBase
   else lp_failures s' = lp_failures s + 1 /\ lp_backoff s' = Z.min (2 * lp_backoff s) reconnectMax).
Proof.
  unfold peer_round, loop_ok. intros H Hs Hr. destruct (rd_attempt r) as [a0 |]; [| done].
  destruct (bo_Ephemeral o && _ && _); [done |].
  set (s1 := if reconnectMax <? rd_elapsed r then _ else _) in H.
  assert (H1 : reconnectBase <= lp_backoff s1 <= reconnectMax).
  { subst s1. destruct (reconnectMax <? rd_elapsed r); cbn; [unfold reconnectBase, reconnectMax, second; lia | done]. }
  assert (E : w = jitter (rd_rand r) (lp_backoff s1) /\ s' = mkLoop (Z.min (lp_backoff s1 * 2) reconnectMax) (lp_failures s1)).
  { destruct (rd_cancelled r); [by destruct (rd_run r) as [[] |] |]. destruct (rd_run r) as [[| b] |]; try done;
      (destruct (rd_cancelled_waiting r); [done |]; by injection H as _ <- <-). }
  destruct E as [-> ->]. cbn. unfold reconnectBase, reconnectMax, second in *.
  pose proof (jitter_bounds (rd_rand r) (lp_backoff s1) ltac:(lia) Hr) as Hj. rewrite Z.quot_div_nonneg in Hj by lia.
  assert (3 * 1000000000 / 2 <= lp_backoff s1 / 2) by (apply Z.div_le_mono; lia).
  split_and!; [lia | lia | lia | lia |]. subst s1. destruct (_ <? rd_elapsed r); cbn; lia.
Qed.

(** Reconnecting never storms and never gives up.  Whatever the rounds do,
    every wait between two attempts lies between one and a half seconds and a
    minute; a loop ends only because the context was cancelled, the source
    refused, an invite ran out or a code was rejected, never by itself; and
    each attempt it makes uses the interface it was given. *)
Theorem reconnect_waits_bounded o t i rs attempts waits e :
  Forall (fun r => forall u, rd_rand r = Some u -> 0 <= u) rs ->
  peerLoop o t i rs loop_start = (attempts, waits, e) ->
  Forall (fun w => reconnectBase / 2 <= w <= reconnectMax) waits /\
  Forall (fun a => at_ifIndex a = i) attempts /\
  (e = None -> length waits = length rs /\ length attempts = length rs) /\
  (forall r0, e = Some (EndAttempt r0) -> exists r, r ∈ rs /\ rd_attempt r = Err r0).
Proof.
  assert (G : forall rs s attempts waits e, loop_ok s -> Forall (fun r => forall u, rd_rand r = Some u -> 0 <= u) rs ->
    peerLoop o t i rs s = (attempts, waits, e) ->
    Forall (fun w => reconnectBase / 2 <= w <= reconnectMax) waits /\ Forall (fun a => at_ifIndex a = i) attempts /\
    (e = None -> length waits = length rs /\ length attempts = length rs) /\
    (forall r0, e = Some (EndAttempt r0) -> exists r, r ∈ rs /\ rd_attempt r = Err r0)).
  { clear. induction rs as [| r rs IH]; intros s attempts waits e Hs Hr; cbn [peerLoop].
    { intros [= <- <- <-]. split_and!; [constructor | constructor | done | done]. }
    apply Forall_cons in Hr as [Hr0 Hr]. destruct (peer_round o t i r s) as [a [en | [w s']]] eqn:E.
    - intros [= <- <- <-]. split_and!; [constructor | | done |].
      + destruct a as [a |]; cbn; [| constructor]. apply Forall_singleton. revert E. unfold peer_round.
        repeat case_match; intros [= <-]; done.
      + intros r0 [= ->]. exists r. split; [left |]. revert E. unfold peer_round. repeat case_match; intros [=]; congruence.
    - destruct (round_wait _ _ _ _ _ _ _ _ E Hs Hr0) as (Hs' & Hw & _).
      destruct (peerLoop o t i rs s') as [[al ws] e'] eqn:El. intros [= <- <- <-].
      destruct (IH _ _ _ _ Hs' Hr El) as (I1 & I2 & I3 & I4).
      assert (Ha : exists a0, a = Some a0 /\ at_ifIndex a0 = i)
        by (revert E; unfold peer_round; repeat case_match; intros [= <- _]; eauto).
      destruct Ha as (a0 & -> & Ha). cbn. split_and!.
      + by constructor.
      + by constructor.
      + intros He. destruct (I3 He). cbn. lia.
      + intros r0 (r' & Hin & Hr')%I4. exists r'. split; [by right | done]. }
  intros Hr Hl. eapply G; [| exact Hr | exact Hl]. unfold loop_ok, loop_start, reconnectBase, reconnectMax, second. cbn. lia.
Qed.
