(* ===== verification/SupervisorDemo.v ===== *)
(** * The manifest and the supervisor on concrete nodes

    The theorems at concrete inputs, and runs that show what the code does
    where its comments promise more. *)

From S2P Require Import Prelude Base64 Sha256 Json NetAddr NetParse Crypto Protocol HsRegistry Authz AuthzFile TrustStore TrustProps TrustTheorems Scope Handshake Manifest ManifestProps Supervisor SupervisorProps AttemptProps.

Module SupDemo.
Definition alice : string := Toy.pad32 "alice".
Definition bob : string := Toy.pad32 "bob".
Definition carol : string := Toy.pad32 "carol".

Definition spec (pin token : string) : peerSpec := mkSpec pin token "" None.

Definition nas : Scope := mkScope false [mkPort "tcp" 873; mkPort "udp" 51820].
Definition bob_spec : peerSpec := mkSpec bob "bootstrap-token" "bob" (Some nas).

(** ** Manifest *)

Definition rows : list RawBuddy := raw_of ∘ toManifest <$> [bob_spec; spec carol ""].
Definition demo_yaml (s : string) : YamlDoc := Doc rows.
Definition demo_text (l : list RawBuddy) : string := "buddies:".

Lemma nas_canonical : canonical nas.
Proof. apply (ParseScope_canonical "udp/51820,873"). vm_compute. reflexivity. Qed.

Lemma bob_good : good_spec bob_spec.
Proof.
  split; [vm_compute; reflexivity | right; vm_compute; reflexivity | vm_compute; reflexivity |].
  intros sc [= <-]. exact nas_canonical.
Qed.

Lemma carol_good : good_spec (spec carol "").
Proof. split; [vm_compute; reflexivity | by left | vm_compute; reflexivity | by intros sc [=]]. Qed.

Lemma demo_good : Forall good_spec [bob_spec; spec carol ""].
Proof. exact (Forall_cons_2 _ _ _ bob_good (Forall_cons_2 _ _ _ carol_good (Forall_nil_2 _))). Qed.

Lemma manifest_roundtrip_witness :
  loadPeersFile demo_yaml (saveManifestLocked demo_text [bob_spec; spec carol ""]) = Ok [bob_spec; spec carol ""].
Proof.
  apply (manifest_roundtrip demo_yaml demo_text [bob_spec; spec carol ""]).
  - exact demo_good.
  - apply NoDup_cons. split; [| apply NoDup_singleton]. intros H%list_elem_of_singleton. vm_compute in H. discriminate H.
  - split; vm_compute; reflexivity.
  - vm_compute. discriminate.
Defined.

Definition home : Files := mkFiles (mkTrust None None) (saveManifestLocked demo_text [bob_spec; spec carol ""]).

Lemma home_manifest : loadPeersFile demo_yaml (fl_manifest home) = Ok [bob_spec; spec carol ""].
Proof. vm_compute. reflexivity. Qed.

Lemma assemble_exact_witness :
  match assemblePeers demo_yaml home with
  | Ok specs =>
      (forall pin, pin ∈ sp_pin <$> specs <->
         PubKeyB64 pin ∉ (∅ : gset string) /\ (pin ∈ sp_pin <$> [bob_spec; spec carol ""] \/ pin ∈ ss_pin <$> [])) /\
      (forall s, s ∈ [bob_spec; spec carol ""] -> PubKeyB64 (sp_pin s) ∉ (∅ : gset string) -> s ∈ specs) /\
      (length specs <= MaxBuddies)%nat /\ NoDup (VirtualIP ∘ sp_pin <$> specs) /\ NoDup (sp_pin <$> specs)
  | Err e => (exists n, e = ETooMany n /\ (MaxBuddies < n)%nat) \/ (exists a b, e = EVIP a b)
  end.
Proof. exact (assemble_exact demo_yaml home _ ∅ [] home_manifest eq_refl eq_refl). Defined.

(** A token the manifest reader refuses is accepted by [peers add], which then
    leaves a manifest that does not load any more. *)
Definition broken : string -> YamlDoc := fun _ => Doc [raw_of (toManifest (spec bob "not.a.token"))].

Definition fresh_node : Files := mkFiles (mkTrust None None) None.
Definition add_bob : result PeersErr (Added * Files) :=
  PeersAdd broken demo_text true "2026-01-01" (PubKeyB64 bob) "not.a.token" "" "" fresh_node.
Definition broken_node : Files := mkFiles (mkTrust None None) (saveManifestLocked demo_text [spec bob "not.a.token"]).

Lemma peers_add_breaks_manifest :
  add_bob = Ok (NewBuddy, broken_node) /\
  loadPeersFile broken (fl_manifest broken_node) = Err (BadEntry 0 BadToken) /\
  assemblePeers broken broken_node = Err (EManifest (BadEntry 0 BadToken)).
Proof. split_and!; vm_compute; reflexivity. Qed.

(** ** Supervisor *)

Definition up (specs : list peerSpec) : Sup := default empty_sup (supervise specs).
Definition after (es : list SupEvent) (s : Sup) : Sup := default empty_sup (sup_run es s).

Definition two : Sup := up [spec alice ""; bob_spec].

Lemma two_up : supervise [spec alice ""; bob_spec] = Some two.
Proof. vm_compute. reflexivity. Qed.

Definition churn : list SupEvent :=
  [TakeReload [] (Some [bob_spec; spec carol ""]); WorkerReturns 1; WorkerReports 1; TakeExit].

Lemma churned : sup_run churn two = Some (after churn two).
Proof. vm_compute. reflexivity. Qed.

Lemma workers_own_interface_witness :
  sup_run churn two = Some (after churn two) /\
  (forall w1 w2, w1 ∈ live (after churn two) ++ returned (after churn two) -> w2 ∈ live (after churn two) ++ returned (after churn two) ->
     w1 <> w2 -> w_gen w1 ∉ cancelled (after churn two) -> w_gen w2 ∉ cancelled (after churn two) ->
     w_if w1 <> w_if w2 /\ w_key w1 <> w_key w2).
Proof. exact (conj churned (proj1 (workers_own_interface _ _ _ _ two_up churned))). Defined.


(** A worker has returned and its report is in the channel when a reload comes:
    the reload finds the old entry and starts nothing, then the report removes
    the entry, and a buddy that the list names has no worker until the next
    reload. *)
Definition late_report : list SupEvent := [WorkerReturns 1; WorkerReports 1; TakeReload [] (Some [spec alice "tok"]); TakeExit].

Lemma wanted_buddy_unserved :
  let s := after late_report (up [spec alice ""]) in
  sup_run late_report (up [spec alice ""]) = Some s /\ running s = ∅ /\ live s = [] /\ returned s = [] /\ exited s = [].
Proof. vm_compute. done. Qed.

Definition stop : list SupEvent := [CtxCancel; TakeDone].

Lemma stopping : sup_run stop two = Some (after stop two).
Proof. vm_compute. reflexivity. Qed.

Lemma shutdown_returns_iff_witness :
  exists es' s', sup_run es' (after stop two) = Some s' /\ phase s' = Returned.
Proof.
  apply (proj1 (shutdown_returns_iff _ stop two _ two_up stopping eq_refl)). vm_compute. repeat constructor.
Defined.

(** Seventeen buddies, well below the limit of 48: every worker returns, sixteen
    report, and the supervisor waits for the seventeenth, which waits for room
    in the channel. *)
Definition crowd : list peerSpec := (fun i => spec (Toy.pad32 (itoa (Z.of_nat i))) "") <$> seq 1 17.
Definition all_return : list SupEvent := stop ++ (WorkerReturns <$> seq 1 17) ++ (WorkerReports <$> seq 1 16).

Definition full (s : Sup) : bool :=
  match phase s, live s, returned s with
  | Draining, [], [_] => ctxDone s && (length (exited s) =? exitedCap)%nat
  | _, _, _ => false
  end.

Lemma crowd_full : from_option full false (s ← supervise crowd; sup_run all_return s) = true.
Proof. vm_compute. reflexivity. Qed.

Lemma seventeen_deadlock :
  exists s0 s, supervise crowd = Some s0 /\ sup_run all_return s0 = Some s /\
    phase s = Draining /\ length (returned s) = 1%nat /\ length (exited s) = exitedCap /\
    forall e, sup_step e s = None.
Proof.
  pose proof crowd_full as F. destruct (supervise crowd) as [s0 |]; [| done]. cbn [mbind option_bind] in F. exists s0.
  destruct (sup_run all_return s0) as [s |] eqn:E; [| done]. exists s. cbn [from_option] in F. unfold full in F.
  destruct (phase s) eqn:Ep; try done. destruct (live s) eqn:El; [| done].
  destruct (returned s) as [| w [| w' r]] eqn:Er; try done. apply andb_true_iff in F as [Hc Hx%Nat.eqb_eq].
  split_and!; try done. intros e. apply drain_stuck; try done. by rewrite Er.
Qed.

(** A buddy removed by a reload never gives its interface index back: its report
    finds no running entry. *)
Definition removed : list SupEvent := [TakeReload [] (Some []); WorkerReturns 1; WorkerReports 1; TakeExit].

Lemma removed_keeps_index :
  let s := after removed (up [spec alice ""]) in
  sup_run removed (up [spec alice ""]) = Some s /\ running s = ∅ /\ live s ++ returned s = [] /\ exited s = [] /\
  ifIndexOf s !! PubKeyB64 alice = Some 0%nat.
Proof. vm_compute. done. Qed.

(** A buddy removed and added again shares its index with its own previous
    worker, and when the newer one ends first the index goes to another buddy
    while the older one is still taking its interface down. *)
Definition readded : list SupEvent :=
  [TakeReload [] (Some []); TakeReload [] (Some [spec alice ""]); WorkerReturns 2; WorkerReports 2; TakeExit;
   TakeReload [] (Some [spec bob ""])].

Lemma stopping_worker_shares_interface :
  let s := after readded (up [spec alice ""]) in
  sup_run readded (up [spec alice ""]) = Some s /\
  live s = [mkWorker (PubKeyB64 bob) 3 0; mkWorker (PubKeyB64 alice) 1 0].
Proof. vm_compute. done. Qed.

(** ** Attempts *)

Definition plain_opts : BuddyOpts := mkOpts "" "" false false false false 0.
Definition known_bob : File := Some (tokenKey "t" ⊕ " " ⊕ PubKeyB64 bob ⊕ " sess-secret" ⊕ nl_s).
Definition ours : Files := mkFiles (mkTrust known_bob None) None.
Definition theirs : Files := mkFiles (mkTrust None None) None.

Lemma attempts_are_pinned_witness :
  at_pin (bootstrap (spec bob "tok") None "tok") = Some bob /\
  isRevoked (ts_revoked (fl_trust theirs)) (PubKeyB64 bob) = Ok false.
Proof.
  destruct (attempts_are_pinned demo_yaml plain_opts theirs (spec bob "tok") None 0 (bootstrap (spec bob "tok") None "tok"))
    as (H1 & _ & H2 & _); [vm_compute; reflexivity |]. split; [exact H1 | exact H2].
Defined.

Lemma desync_heals_witness :
  exists i a b, 0 <= i <= 3 /\ peerSource demo_yaml plain_opts ours (spec bob "tok") None (0 + i) = Ok a /\
    peerSource demo_yaml plain_opts theirs (spec alice "tok") None 7 = Ok b /\ at_rendezvous a = "tok" /\ at_rendezvous b = "tok" /\
    at_pin a = Some bob /\ at_pin b = Some alice.
Proof.
  apply (desync_heals demo_yaml plain_opts plain_opts ours theirs (spec bob "tok") (spec alice "tok") None None "sess-secret" "tok" 0 7);
    try (vm_compute; reflexivity); try (vm_compute; discriminate).
Defined.

Definition bad_round : Round := mkRound (Ok (bootstrap (spec bob "tok") None "tok")) 0 (Some RunFailed) second (Some 12345) false false.

Lemma reconnect_waits_bounded_witness :
  exists al ws, peerLoop plain_opts 0 3 [bad_round; bad_round] loop_start = (al, ws, None) /\
    Forall (fun w => reconnectBase / 2 <= w <= reconnectMax) ws /\ length ws = 2%nat.
Proof.
  destruct (peerLoop plain_opts 0 3 [bad_round; bad_round] loop_start) as [[al ws] e] eqn:E.
  destruct (reconnect_waits_bounded plain_opts 0 3 [bad_round; bad_round] al ws e) as (H1 & _ & H3 & _).
  - repeat constructor; intros u [= <-]; vm_compute; discriminate.
  - exact E.
  - assert (e = None) as -> by (vm_compute in E; injection E as _ _ <-; reflexivity).
    exists al, ws. split; [reflexivity |]. split; [exact H1 | exact (proj1 (H3 eq_refl))].
Defined.

Definition gone : result PeersErr (Removal * Files) := RemovePeer demo_yaml demo_text true "2026-01-01" (PubKeyB64 bob) home.

Lemma revocation_bites_everywhere_witness :
  exists r fs', gone = Ok (r, fs') /\ (forall specs, assemblePeers demo_yaml fs' = Ok specs -> bob ∉ sp_pin <$> specs).
Proof.
  destruct gone as [[r fs'] | e] eqn:E; [| vm_compute in E; discriminate E].
  exists r, fs'. split; [reflexivity |].
  apply (revocation_bites_everywhere demo_yaml demo_text true "2026-01-01" (PubKeyB64 bob) home r fs' bob).
  - exact empty_inv.
  - reflexivity.
  - split; [vm_compute; repeat constructor | reflexivity].
  - vm_compute. reflexivity.
  - exact E.
  - vm_compute in E. injection E as <- _. reflexivity.
Defined.
End SupDemo.
