(* ===== verification/AtomicFile.v ===== *)
(** * Replacing a file

    [internal/atomicfile/write.go]: every file of state is written to a temporary
    file next to it, flushed, and renamed over the old one.  The disk keeps what
    a power cut may take back: bytes not yet flushed and directory changes not
    yet flushed. *)

From S2P Require Import Prelude Json.

(** ** A disk that can lose power *)

Inductive DirOp := Linked (name : string) (i : nat) | Unlinked (name : string) | Renamed (a b : string).

Definition dir_op (d : gmap string nat) (o : DirOp) : gmap string nat :=
  match o with
  | Linked n i => <[n := i]> d
  | Unlinked n => delete n d
  | Renamed a b => match d !! a with Some i => <[b := i]> (delete a d) | None => d end
  end.

(** The bytes of each file and whether they are flushed; the directory as it is
    on the medium, and the changes since, in order. *)
Record Disk := mkDisk { dk_files : gmap nat (string * bool); dk_next : nat; dk_base : gmap string nat; dk_log : list DirOp }.

(** What a process sees. *)
Definition dk_dir (d : Disk) : gmap string nat := foldl dir_op (dk_base d) (dk_log d).

Definition content (path : string) (d : Disk) : option string := i ← dk_dir d !! path; fst <$> dk_files d !! i.

(** After a power cut: the first [n] directory changes have reached the medium,
    and a file that was not flushed holds anything. *)
Definition crash (n : nat) (garbage : nat -> string) (d : Disk) : Disk :=
  mkDisk (map_imap (fun i f => Some (if (f.2 : bool) then f.1 else garbage i, true)) (dk_files d)) (dk_next d)
    (foldl dir_op (dk_base d) (take n (dk_log d))) [].

(** The system calls. *)
Definition create (name : string) (d : Disk) : Disk :=
  mkDisk (<[dk_next d := ("", false)]> (dk_files d)) (S (dk_next d)) (dk_base d) (dk_log d ++ [Linked name (dk_next d)]).

Definition put (i : nat) (s : string) (flushed : bool) (d : Disk) : Disk :=
  mkDisk (<[i := (s, flushed)]> (dk_files d)) (dk_next d) (dk_base d) (dk_log d).

Definition change (o : DirOp) (d : Disk) : Disk := mkDisk (dk_files d) (dk_next d) (dk_base d) (dk_log d ++ [o]).

Definition sync_dir (d : Disk) : Disk := mkDisk (dk_files d) (dk_next d) (dk_dir d) [].

(** ** Write *)

(** The calls that fail; a failed write has written some bytes. *)
Record IOFaults := mkIO { io_create : bool; io_write : option nat; io_sync : bool; io_close : bool; io_rename : bool; io_unlink : bool; io_dir : bool }.

Inductive WriteErr := WCreate | WWrite | WSync | WClose | WRename.

Definition tmp_name (path : string) (pid seq : Z) : string := path ⊕ ".tmp." ⊕ itoa pid ⊕ "." ⊕ itoa seq.

(** [Write]: the states of the disk after each call, and the error. *)
Definition Write (path tmp data : string) (f : IOFaults) (d : Disk) : list Disk * option WriteErr :=
  if io_create f || bool_decide (is_Some (dk_dir d !! tmp)) then ([], Some WCreate)
  else
    let i := dk_next d in
    let d1 := create tmp d in
    let cleanup (x : Disk) := if io_unlink f then [] else [change (Unlinked tmp) x] in
    match io_write f with
    | Some k => let d2 := put i (take_s k data) false d1 in ([d1; d2] ++ cleanup d2, Some WWrite)
    | None =>
        let d2 := put i data false d1 in
        if io_sync f then ([d1; d2] ++ cleanup d2, Some WSync)
        else
          let d3 := put i data true d2 in
          if io_close f then ([d1; d2; d3] ++ cleanup d3, Some WClose)
          else if io_rename f then ([d1; d2; d3] ++ cleanup d3, Some WRename)
          else
            let d4 := change (Renamed tmp path) d3 in
            ([d1; d2; d3; d4] ++ (if io_dir f then [] else [sync_dir d4]), None)
    end.

(** ** What it guarantees *)

(** Files in use are below the next number. *)
Record disk_wf (d : Disk) : Prop := {
  dw_next : forall i, (dk_next d <= i)%nat -> dk_files d !! i = None;
  dw_used : forall n name i, foldl dir_op (dk_base d) (take n (dk_log d)) !! name = Some i -> (i < dk_next d)%nat;
}.

Section Write.
Context (path tmp data : string) (d : Disk).
Hypothesis W : disk_wf d.
Hypothesis T : tmp <> path.
Let i := dk_next d.

(** The old disk with a new file, named [tmp] at most. *)
Record on_the_way (s : Disk) : Prop := {
  ow_files : forall j, (j < i)%nat -> dk_files s !! j = dk_files d !! j;
  ow_base : dk_base s = dk_base d;
  ow_log : dk_log s = dk_log d ++ [Linked tmp i] \/ dk_log s = dk_log d ++ [Linked tmp i; Unlinked tmp];
}.

Lemma tmp_ops m n : foldl dir_op m (take n [Linked tmp i; Unlinked tmp]) !! path = m !! path.
Proof.
  destruct n as [| [| n]]; [done | |]; cbn [take foldl dir_op].
  - by rewrite lookup_insert_ne.
  - rewrite take_nil. cbn [foldl]. by rewrite lookup_delete_ne, lookup_insert_ne.
Qed.

Lemma way_dir s n :
  on_the_way s -> foldl dir_op (dk_base s) (take n (dk_log s)) !! path = foldl dir_op (dk_base d) (take n (dk_log d)) !! path.
Proof.
  intros O. rewrite (ow_base _ O). destruct (ow_log _ O) as [-> | ->]; rewrite take_app, foldl_app; [| apply tmp_ops].
  destruct (n - length (dk_log d))%nat as [| m]; [done |]. cbn [take]. rewrite take_nil. apply (tmp_ops _ 1).
Qed.

Lemma crash_content n g s :
  content path (crash n g s) =
  (j ← foldl dir_op (dk_base s) (take n (dk_log s)) !! path; f ← dk_files s !! j; Some (if (f.2 : bool) then f.1 else g j)).
Proof.
  unfold content, crash, dk_dir. cbn [dk_base dk_log dk_files foldl]. destruct (foldl _ _ _ !! path) as [j |]; [| done].
  cbn [mbind option_bind]. rewrite map_lookup_imap. by destruct (dk_files s !! j).
Qed.

Lemma dir_at s name : dk_dir s !! name = foldl dir_op (dk_base s) (take (length (dk_log s)) (dk_log s)) !! name.
Proof. by rewrite firstn_all. Qed.

Lemma way_content s : on_the_way s -> content path s = content path d.
Proof.
  intros O. unfold content. assert (E : dk_dir s !! path = dk_dir d !! path).
  { rewrite dir_at, way_dir by done. rewrite dir_at. do 2 f_equal. rewrite !take_ge; [done | lia |].
    destruct (ow_log _ O) as [-> | ->]; rewrite length_app; lia. }
  rewrite E. destruct (dk_dir d !! path) as [j |] eqn:L; [| done]. cbn [mbind option_bind]. rewrite (ow_files _ O); [done |].
  rewrite dir_at in L. by apply (dw_used _ W) in L.
Qed.

Lemma way_crash s n g : on_the_way s -> content path (crash n g s) = content path (crash n g d).
Proof.
  intros O. rewrite !crash_content, way_dir by done. destruct (foldl _ _ _ !! path) as [j |] eqn:L; [| done]. cbn [mbind option_bind].
  by rewrite (ow_files _ O) by (by apply (dw_used _ W) in L).
Qed.

(** The renamed file. *)
Definition renamed (x : Disk) : Disk := change (Renamed tmp path) x.

Lemma renamed_dir m : foldl dir_op m [Linked tmp i; Renamed tmp path] !! path = Some i.
Proof. cbn [foldl dir_op]. rewrite lookup_insert_eq. apply lookup_insert_eq. Qed.

Lemma renamed_states x :
  on_the_way x -> dk_log x = dk_log d ++ [Linked tmp i] -> dk_files x !! i = Some (data, true) ->
  content path (renamed x) = Some data /\ content path (sync_dir (renamed x)) = Some data /\
  (forall n g, content path (crash n g (renamed x)) = Some data \/ content path (crash n g (renamed x)) = content path (crash n g d)) /\
  (forall n g, content path (crash n g (sync_dir (renamed x))) = Some data).
Proof.
  intros O Lg Fi. assert (D : dk_dir (renamed x) !! path = Some i).
  { unfold dk_dir, renamed, change. cbn [dk_base dk_log]. rewrite Lg, <- app_assoc. cbn [app]. rewrite foldl_app. apply renamed_dir. }
  assert (C : content path (renamed x) = Some data) by (unfold content; rewrite D; cbn [mbind option_bind]; unfold renamed, change; cbn [dk_files]; by rewrite Fi).
  split_and!; [done | | |].
  - unfold content, sync_dir, dk_dir. cbn [dk_base dk_log foldl dk_files]. fold (dk_dir (renamed x)). rewrite D. cbn [mbind option_bind renamed change dk_files]. by rewrite Fi.
  - intros n g. rewrite !crash_content. unfold renamed, change. cbn [dk_base dk_log dk_files]. rewrite Lg, (ow_base _ O), <- app_assoc. cbn [app].
    rewrite take_app, foldl_app. destruct (n - length (dk_log d))%nat as [| [| m]] eqn:En.
    + right. cbn [take foldl]. destruct (foldl _ _ _ !! path) as [j |] eqn:L; [| done]. cbn [mbind option_bind].
      by rewrite (ow_files _ O) by (by apply (dw_used _ W) in L).
    + right. cbn [take foldl dir_op]. rewrite lookup_insert_ne by done. destruct (foldl _ _ _ !! path) as [j |] eqn:L; [| done]. cbn [mbind option_bind].
      by rewrite (ow_files _ O) by (by apply (dw_used _ W) in L).
    + left. rewrite (take_ge [Linked tmp i; Renamed tmp path]) by (cbn; lia). rewrite renamed_dir. cbn [mbind option_bind]. by rewrite Fi.
  - intros n g. rewrite crash_content. unfold sync_dir. cbn [dk_base dk_log dk_files]. rewrite take_nil. cbn [foldl]. rewrite D.
    cbn [mbind option_bind]. unfold renamed, change. cbn [dk_files]. by rewrite Fi.
Qed.

Lemma way_created : on_the_way (create tmp d).
Proof. split; cbn [create dk_files dk_base dk_log]; [| done | by left]. intros j Hj. rewrite lookup_insert_ne by lia. done. Qed.

Lemma way_put s b x : on_the_way x -> on_the_way (put i s b x).
Proof. intros [F B L]. split; cbn [put dk_files dk_base dk_log]; [| done | done]. intros j Hj. rewrite lookup_insert_ne by lia. by apply F. Qed.

Lemma way_cleaned x : on_the_way x -> dk_log x = dk_log d ++ [Linked tmp i] -> on_the_way (change (Unlinked tmp) x).
Proof. intros [F B _] Lg. split; cbn [change dk_files dk_base dk_log]; [done | done |]. right. by rewrite Lg, <- app_assoc. Qed.

(** Whichever call fails first, the path still names the old file. *)
Lemma failed_states f states e :
  Write path tmp data f d = (states, Some e) ->
  Forall on_the_way states /\ (io_unlink f = false -> dk_dir d !! tmp = None -> dk_dir (default d (last states)) !! tmp = None).
Proof.
  assert (C : forall x, on_the_way x -> dk_log x = dk_log d ++ [Linked tmp i] ->
    Forall on_the_way (if io_unlink f then [] else [change (Unlinked tmp) x]) /\
    (forall l, io_unlink f = false -> dk_dir (default d (last (l ++ (if io_unlink f then [] else [change (Unlinked tmp) x])))) !! tmp = None)).
  { intros x O Lg. destruct (io_unlink f); [split; [constructor | done] |]. split; [by apply Forall_singleton, way_cleaned |].
    intros l _. rewrite last_snoc. cbn [from_option id]. unfold dk_dir, change. cbn [dk_base dk_log]. rewrite foldl_app. apply lookup_delete_eq. }
  pose proof way_created as O1. unfold Write. destruct (_ || _).
  { intros [= <- <-]. split; [constructor |]. intros _ N. exact N. }
  fold i. assert (A : forall l x, Forall on_the_way l -> on_the_way x -> dk_log x = dk_log d ++ [Linked tmp i] ->
    Forall on_the_way (l ++ (if io_unlink f then [] else [change (Unlinked tmp) x])) /\
    (io_unlink f = false -> dk_dir d !! tmp = None -> dk_dir (default d (last (l ++ (if io_unlink f then [] else [change (Unlinked tmp) x])))) !! tmp = None)).
  { intros l x Fl O Lg. destruct (C x O Lg) as [C1 C2]. split; [by apply Forall_app |]. intros U _. by apply C2. }
  destruct (io_write f) as [k |].
  { intros [= <- <-]. apply (A [create tmp d; put i (take_s k data) false (create tmp d)]); [| by apply way_put | done].
    apply Forall_cons; split; [done |]. apply Forall_singleton. by apply way_put. }
  destruct (io_sync f).
  { intros [= <- <-]. apply (A [create tmp d; put i data false (create tmp d)]); [| by apply way_put | done]. apply Forall_cons; split; [done |]. apply Forall_singleton. by apply way_put. }
  assert (F3 : Forall on_the_way [create tmp d; put i data false (create tmp d); put i data true (put i data false (create tmp d))])
    by (repeat (apply Forall_cons; split; [repeat apply way_put; done |]); constructor).
  destruct (io_close f); [intros [= <- <-]; apply (A _ _ F3); [by repeat apply way_put | done] |].
  destruct (io_rename f); [intros [= <- <-]; apply (A _ _ F3); [by repeat apply way_put | done] |]. by intros [= <-].
Qed.

Lemma done_states f states :
  Write path tmp data f d = (states, None) ->
  exists x, on_the_way x /\ dk_log x = dk_log d ++ [Linked tmp i] /\ dk_files x !! i = Some (data, true) /\
    exists before, Forall on_the_way before /\ states = before ++ [renamed x] ++ (if io_dir f then [] else [sync_dir (renamed x)]).
Proof.
  unfold Write. destruct (_ || _); [done |]. destruct (io_write f); [done |]. destruct (io_sync f); [done |]. destruct (io_close f); [done |].
  destruct (io_rename f); [done |]. fold i. intros [= <-]. pose proof way_created as O1.
  exists (put i data true (put i data false (create tmp d))). split_and!; [by repeat apply way_put | done | apply lookup_insert_eq |].
  exists [create tmp d; put i data false (create tmp d); put i data true (put i data false (create tmp d))]. split; [| done].
  repeat (apply Forall_cons; split; [repeat apply way_put; done |]). constructor.
Qed.
End Write.

Lemma tmp_not_path path pid seq : tmp_name path pid seq <> path.
Proof. unfold tmp_name. intros E. apply (f_equal slen) in E. rewrite !slen_app in E. cbn in E. lia. Qed.

(** C18. A write is indivisible, also for a power cut.  Whatever call of a write
    fails, and at whatever point power is lost, with the directory changes up
    to any of them on the medium (they reach it in the order they were made)
    and any bytes in files that were not flushed:
    a reader, and the disk after the cut, has under the path what was there
    before or the new data in full.  A write that reports success is visible,
    and once the directory is flushed no cut can undo it; one that fails leaves
    the path as it was and, when it can, no temporary file. *)
Theorem write_is_atomic (path data : string) (pid seq : Z) (f : IOFaults) (d : Disk) :
  disk_wf d ->
  let tmp := tmp_name path pid seq in
  let '(states, err) := Write path tmp data f d in
  let final := default d (last states) in
  (forall s, s ∈ states -> (content path s = content path d \/ content path s = Some data) /\
     forall n g, content path (crash n g s) = content path (crash n g d) \/ content path (crash n g s) = Some data) /\
  match err with
  | None => content path final = Some data /\ (io_dir f = false -> forall n g, content path (crash n g final) = Some data)
  | Some _ => content path final = content path d /\ (io_unlink f = false -> dk_dir d !! tmp = None -> dk_dir final !! tmp = None)
  end.
Proof.
  intros W tmp. pose proof (tmp_not_path path pid seq) as T. fold tmp in T. clearbody tmp.
  destruct (Write path tmp data f d) as [states [e |]] eqn:E; cbn zeta.
  - destruct (failed_states path tmp data d f states e E) as [F U]. rewrite Forall_forall in F. split_and!.
    + intros s Hs. split; [left; by eapply way_content, F | intros n g; left; by eapply way_crash, F].
    + destruct (last states) as [x |] eqn:L; [| done]. cbn [from_option id]. apply (way_content path tmp d W T), F. by apply last_Some_elem_of in L.
    + exact U.
  - destruct (done_states path tmp data d f states E) as (x & O & Lg & Fi & before & F & ->). rewrite Forall_forall in F.
    destruct (renamed_states path tmp data d W T x O Lg Fi) as (C1 & C2 & C3 & C4). split_and!.
    + intros s [Hs | Hs]%elem_of_app; [split; [left; by eapply way_content, F | intros n g; left; by eapply way_crash, F] |].
      apply elem_of_app in Hs as [->%list_elem_of_singleton | Hs].
      * split; [by right |]. intros n g. destruct (C3 n g); auto.
      * destruct (io_dir f); [by apply not_elem_of_nil in Hs |]. apply list_elem_of_singleton in Hs as ->. split; [by right |]. intros n g. right. apply C4.
    + destruct (io_dir f); [by rewrite app_nil_r, last_snoc | by rewrite (app_assoc before), last_snoc].
    + intros Hd n g. rewrite Hd, (app_assoc before), last_snoc. apply C4.
Qed.

(** ** On a disk *)

Module DiskDemo.
Definition settled : Disk := mkDisk (<[0%nat := ("old", true)]> ∅) 1 (<["state" := 0%nat]> ∅) [].
Definition no_faults : IOFaults := mkIO false None false false false false false.

Lemma settled_wf : disk_wf settled.
Proof.
  split.
  - intros i Hi. cbn [settled dk_files dk_next] in *. rewrite lookup_insert_ne by lia. apply lookup_empty.
  - intros n name i. cbn [settled dk_base dk_log]. rewrite take_nil. cbn [foldl].
    intros [[_ <-] | [_ L]]%lookup_insert_Some; [cbn; lia | by rewrite lookup_empty in L].
Qed.

Lemma write_is_atomic_witness :
  let '(states, err) := Write "state" (tmp_name "state" 42 1) "new" no_faults settled in
  err = None /\ forall s n g, s ∈ states -> content "state" (crash n g s) = Some "old" \/ content "state" (crash n g s) = Some "new".
Proof.
  pose proof (write_is_atomic "state" "new" 42 1 no_faults settled settled_wf) as H.
  assert (E : (Write "state" (tmp_name "state" 42 1) "new" no_faults settled).2 = None) by reflexivity.
  cbn zeta in H. destruct (Write "state" (tmp_name "state" 42 1) "new" no_faults settled) as [states err]. cbn [snd] in E.
  split; [exact E |]. intros s n g Hs. destruct H as [H _]. destruct (H s Hs) as [_ C]. destruct (C n g) as [-> | ->]; [left | right; reflexivity].
  rewrite crash_content. cbn [settled dk_base dk_log dk_files]. rewrite take_nil. reflexivity.
Defined.
End DiskDemo.
