(* ===== verification/Crash.v ===== *)
(** * A command that is interrupted

    [PeersRemove] and [PeersAdd] of [internal/role/peerscmd.go] write several
    files, each atomically ([AtomicFile]), in an order chosen so that stopping
    in between is safe.  Here each command is the list of states it leaves on
    disk, one per file it has replaced. *)

From S2P Require Import Prelude Base64 NetAddr Crypto Protocol Authz AuthzFile TrustStore TrustProps TrustTheorems Scope Manifest ManifestProps Supervisor SupervisorProps AttemptProps SupervisorDemo.

Section Crash.
Context (yaml : string -> YamlDoc) (yaml_text : list RawBuddy -> string).

(** Revoking: the tombstone, the session, the manifest entry. *)
Definition remove_disk (today keyB64 : string) (fs : Files) : list Files :=
  match addRevokedLocked today keyB64 (ts_revoked (fl_trust fs)) with
  | Err _ => []
  | Ok (_, rv) =>
      mkFiles (mkTrust (ts_known (fl_trust fs)) rv) (fl_manifest fs) ::
      match removeSessionLocked (ts_known (fl_trust fs)) keyB64 with
      | Err _ => []
      | Ok (_, k) =>
          mkFiles (mkTrust k rv) (fl_manifest fs) ::
          match removeManifestEntryLocked yaml yaml_text keyB64 (fl_manifest fs) with
          | Err _ => []
          | Ok (_, m) => [mkFiles (mkTrust k rv) m]
          end
      end
  end.

(** Allowing again: the manifest entry, then the tombstone. *)
Definition readmit_disk (today keyB64 : string) (spec : peerSpec) (existing : list peerSpec) (fs : Files) : list Files :=
  let listed := existsb (fun s => String.eqb (PubKeyB64 (sp_pin s)) keyB64) existing in
  let m := if listed then fl_manifest fs else saveManifestLocked yaml_text (existing ++ [spec]) in
  mkFiles (fl_trust fs) m ::
  match removeRevokedLocked today keyB64 (ts_revoked (fl_trust fs)) with
  | Err _ => []
  | Ok (_, rv) => [mkFiles (mkTrust (ts_known (fl_trust fs)) rv) m]
  end.

(** The last state is what the command leaves when it is not interrupted. *)
Lemma remove_disk_final today ref keyB64 fs :
  resolveKeyRef yaml ref fs = Ok keyB64 ->
  exists r, RemovePeer yaml yaml_text true today ref fs = Ok (r, default fs (last (remove_disk today keyB64 fs))).
Proof.
  intros E. unfold RemovePeer, remove_disk, PeersRemove. rewrite E. cbn [negb]. destruct fs as [[kn rv] mf]. cbn [fl_trust fl_manifest ts_known ts_revoked].
  destruct (addRevokedLocked today keyB64 rv) as [[added rv'] |]; [| by eexists].
  destruct (removeSessionLocked kn keyB64) as [[n k] |]; [| by eexists].
  destruct (removeManifestEntryLocked _ _ _ _) as [[c m] |]; by eexists.
Qed.

Lemma readmit_disk_final today key token name expose pin fs r fs' :
  DecodePubKey key = Ok pin -> PeersAdd yaml yaml_text true today key token name expose fs = Ok (r, fs') -> r = AllowedAgain ->
  exists spec existing, sp_pin spec = pin /\ loadPeersFile yaml (fl_manifest fs) = Ok existing /\
    fs' = default fs (last (readmit_disk today (PubKeyB64 pin) spec existing fs)).
Proof.
  intros Ed. unfold PeersAdd. rewrite Ed. cbn [lift]. destruct (_ || _); [done |]. destruct (validateBuddyName name); [done |].
  destruct (if String.eqb expose "" then _ else _) as [scope |]; [| done].
  destruct (manifestNeedsMigration _) as [[] |]; [done | | done]. cbn [lift negb].
  destruct (loadPeersFile _ _) as [existing |] eqn:El; [| done]. cbn [lift].
  destruct (isRevokedLocked _ _) as [rev |]; [| done]. cbn [lift]. destruct (_ && _); [by intros [= <- <-] |].
  destruct (_ && _); [done |]. destruct rev; [| by intros [= <- <-]].
  destruct (removeRevokedLocked _ _ _) as [[b rv] |] eqn:Er; [| done]. cbn [lift snd]. intros [= <- <-] _.
  exists (mkSpec pin token name scope), existing. split_and!; [done | done |]. unfold readmit_disk. rewrite Er. done.
Qed.

(** ** Doing it again *)

Lemma addRevoked_again today today' pin f es b f' :
  loadRevokedLocked f = Ok es -> Forall entry_ok es -> key_bytes pin -> date today ->
  addRevokedLocked today (PubKeyB64 pin) f = Ok (b, f') ->
  addRevokedLocked today' (PubKeyB64 pin) f' = Ok (false, f') /\ isRevoked f' (PubKeyB64 pin) = Ok true.
Proof.
  intros Hl He Hp Hd Ha. destruct (addRevoked_keys today _ _ _ Hl He (key_canonical _ Hp) Hd) as (b' & f2 & es' & Ha' & Hl' & _ & Hk).
  assert (f2 = f') as -> by congruence. assert (K : PubKeyB64 pin ∈ re_key <$> es') by (apply Hk; by left). split.
  - unfold addRevokedLocked. by rewrite Hl', existsb_key, bool_decide_eq_true_2.
  - unfold isRevoked, revokedSet. rewrite Hl'. f_equal. apply bool_decide_eq_true. by apply elem_of_list_to_set.
Qed.

Lemma count_if_free k ls : Forall (not_session k) ls -> count_if (session_of k) ls = 0%nat.
Proof. induction 1 as [| l ls Hl _ IH]; [done |]. cbn [count_if]. unfold not_session in Hl. by rewrite Hl, IH. Qed.

Lemma removeSession_again kn k n f' : removeSessionLocked kn k = Ok (n, f') -> removeSessionLocked f' k = Ok (0, f').
Proof.
  intros Hr. pose proof (removeSession_free _ _ _ _ Hr) as Fr. destruct f' as [c |]; [| done]. unfold removeSessionLocked.
  assert (E : (file_lines (Some c)).2 = false).
  { unfold removeSessionLocked in Hr. destruct kn as [c0 |]; [| done]. destruct (file_lines (Some c0)) as [ls []] eqn:El; [done |].
    destruct (_ =? 0); [injection Hr as _ <-; by rewrite El |]. injection Hr as _ <-.
    destruct (String.eqb_spec (NetAddr.join nl_s (kept_lines k ls)) "") as [_ | Hj]; [done |].
    rewrite join_text by (intros Ek; by rewrite Ek in Hj). unfold file_lines at 1. rewrite scan_text; [done | |].
    - eapply Forall_sub; [apply kept_sub |]. pose proof (file_no_nl (Some c0)) as N. by rewrite El in N.
    - eapply Forall_sub; [apply kept_sub |]. by eapply file_fits. }
  destruct (file_lines (Some c)) as [ls err]. cbn [fst snd] in *. subst err. by rewrite count_if_free.
Qed.

(** Which of the three a state is. *)
Lemma remove_disk_states today keyB64 fs d :
  d ∈ remove_disk today keyB64 fs ->
  exists b rv, addRevokedLocked today keyB64 (ts_revoked (fl_trust fs)) = Ok (b, rv) /\ ts_revoked (fl_trust d) = rv /\
    (fl_manifest d = fl_manifest fs -> 
     d = mkFiles (mkTrust (ts_known (fl_trust fs)) rv) (fl_manifest fs) \/
     exists n k, removeSessionLocked (ts_known (fl_trust fs)) keyB64 = Ok (n, k) /\ d = mkFiles (mkTrust k rv) (fl_manifest fs)).
Proof.
  unfold remove_disk. destruct (addRevokedLocked _ _ _) as [[b rv] |]; [| by intros ?%not_elem_of_nil].
  intros [-> | I]%elem_of_cons; exists b, rv; split_and!; try done; [by left | |].
  - destruct (removeSessionLocked _ _) as [[n k] |]; [| by apply not_elem_of_nil in I].
    apply elem_of_cons in I as [-> | I]; [done |]. destruct (removeManifestEntryLocked _ _ _ _) as [[c m] |]; [| by apply not_elem_of_nil in I].
    by apply list_elem_of_singleton in I as ->.
  - intros Em. destruct (removeSessionLocked _ _) as [[n k] |]; [| by apply not_elem_of_nil in I]. right. exists n, k. split; [done |].
    apply elem_of_cons in I as [-> | I]; [done |]. destruct (removeManifestEntryLocked _ _ _ _) as [[c m] |]; [| by apply not_elem_of_nil in I].
    apply list_elem_of_singleton in I as ->. cbn [fl_manifest] in Em. by rewrite Em.
Qed.

(** C9. A revocation and its reversal survive interruption.  Wherever revoking a
    buddy stops after its first write, the buddy is refused in every way, and
    as long as the manifest is not yet rewritten, repeating the command leaves
    exactly the files the uninterrupted command leaves.  Wherever allowing a
    revoked buddy again stops before its last write, the buddy is still
    refused. *)
Theorem interruption_is_safe (today today' pin : string) (fs d : Files) :
  trust_inv (fl_trust fs) -> key_bytes pin -> date today ->
  (d ∈ remove_disk today (PubKeyB64 pin) fs ->
   refused yaml d pin /\
   (fl_manifest d = fl_manifest fs ->
    exists r r' fs', RemovePeer yaml yaml_text true today (PubKeyB64 pin) fs = Ok (r, fs') /\
                     RemovePeer yaml yaml_text true today' (PubKeyB64 pin) d = Ok (r', fs'))) /\
  (isRevoked (ts_revoked (fl_trust fs)) (PubKeyB64 pin) = Ok true ->
   forall spec existing final, readmit_disk today (PubKeyB64 pin) spec existing fs = [d; final] -> refused yaml d pin).
Proof.
  intros [(es & Hl & He) Hc] Hk Hd. split.
  - intros I. destruct (remove_disk_states _ _ _ _ I) as (b & rv & Ha & Erv & Cases).
    destruct (addRevoked_again today today' pin _ es b rv Hl He Hk Hd Ha) as [Again Rv].
    split; [apply revoked_refused; by rewrite Erv |]. intros Em.
    assert (Res : forall x, resolveKeyRef yaml (PubKeyB64 pin) x = Ok (PubKeyB64 pin)) by (intros x; unfold resolveKeyRef; by rewrite DecodePubKey_B64).
    destruct (remove_disk_final today _ _ fs (Res fs)) as [r Er]. destruct (remove_disk_final today' _ _ d (Res d)) as [r' Er'].
    exists r, r', (default fs (last (remove_disk today (PubKeyB64 pin) fs))). split; [done |]. rewrite Er'. do 2 f_equal.
    unfold remove_disk. rewrite Ha. destruct (Cases Em) as [-> | (n & k & Es & ->)]; cbn [fl_trust fl_manifest ts_known ts_revoked]; rewrite Again.
    + destruct (removeSessionLocked _ _) as [[n k] |]; [| done]. by destruct (removeManifestEntryLocked _ _ _ _) as [[c m] |].
    + rewrite Es, (removeSession_again _ _ _ _ Es). by destruct (removeManifestEntryLocked _ _ _ _) as [[c m] |].
  - intros Rv spec existing final E. unfold readmit_disk in E. injection E as <- _. by apply revoked_refused.
Qed.
End Crash.

Module CrashDemo.
Import SupDemo.

(** Power is lost right after the tombstone. *)
Definition cut_short : Files := default home (head (remove_disk demo_yaml demo_text "2026-01-01" (PubKeyB64 bob) home)).

Lemma interruption_is_safe_witness :
  refused demo_yaml cut_short bob /\
  exists r r' fs', RemovePeer demo_yaml demo_text true "2026-01-01" (PubKeyB64 bob) home = Ok (r, fs') /\
                   RemovePeer demo_yaml demo_text true "2026-01-02" (PubKeyB64 bob) cut_short = Ok (r', fs').
Proof.
  destruct (interruption_is_safe demo_yaml demo_text "2026-01-01" "2026-01-02" bob home cut_short) as [H _].
  - exact empty_inv.
  - reflexivity.
  - split; [vm_compute; repeat constructor | reflexivity].
  - destruct H as [R S].
    + unfold cut_short, remove_disk. destruct (addRevokedLocked _ _ _) as [[b rv] | e] eqn:E; [apply list_elem_of_here |].
      vm_compute in E. discriminate E.
    + split; [exact R |]. apply S. vm_compute. reflexivity.
Defined.
End CrashDemo.
