(* ===== verification/KeyFile.v ===== *)
(** * The identity of a node on disk

    The key file of [internal/crypto/keys.go]: loading, creating and the one
    thing start-up must never do, which is to replace an identity others have
    pinned. *)

From S2P Require Import Prelude Base64 NetAddr Crypto Authz AuthzFile TrustStore Sas SasProps.
From S2P Require TrustTheorems.

(** ** The file system *)

(** What a path names: a file with its permission bits, or a symbolic link. *)
Inductive Entry := Real (mode : Z) (data : string) | Symlink.

Abbreviation Dir := (gmap string Entry).

(** The calls that fail for a reason of their own; a failed write has written
    some bytes. *)
Record KeyIO := mkKeyIO {
  ki_open : bool; ki_stat : bool; ki_chmod : bool; ki_read : bool; ki_create : bool; ki_write : option nat; ki_close : bool;
}.

Inductive KeyErr :=
| KRand | KMissing | KSymlink | KOpen | KStat | KChmod | KRead | KDecode | KSeedLen (n : nat) | KCreate | KWrite | KClose.

Definition SeedSize : nat := 32.
Definition group_other : Z := 63. (* 0o077 *)
Definition owner_only : Z := 384. (* 0o600 *)

Section KeyFile.
(** [ed25519.NewKeyFromSeed]; a draw of [None] is a failing random source. *)
Context (from_seed : string -> string).

Definition createKeyFile (draw : option string) (io : KeyIO) (path : string) (fs : Dir) : result KeyErr string * Dir :=
  match draw with
  | None => (Err KRand, fs)
  | Some seed =>
      if ki_create io || bool_decide (is_Some (fs !! path)) then (Err KCreate, fs)
      else match ki_write io with
           | Some k => (Err KWrite, <[path := Real owner_only (take_s k (Std.EncodeToString seed))]> fs)
           | None =>
               let fs' := <[path := Real owner_only (Std.EncodeToString seed)]> fs in
               if ki_close io then (Err KClose, fs') else (Ok (from_seed seed), fs')
           end
  end.

(** [loadKey]: the key and whether it is new. *)
Definition loadKey (create : bool) (draw : option string) (io : KeyIO) (path : string) (fs : Dir) : result KeyErr (string * bool) * Dir :=
  if String.eqb path "" then (match draw with None => Err KRand | Some seed => Ok (from_seed seed, true) end, fs)
  else if ki_open io then (Err KOpen, fs)
  else match fs !! path with
  | Some Symlink => (Err KSymlink, fs)
  | None =>
      if negb create then (Err KMissing, fs)
      else match createKeyFile draw io path fs with (Ok k, fs') => (Ok (k, true), fs') | (Err e, fs') => (Err e, fs') end
  | Some (Real mode data) =>
      if ki_stat io then (Err KStat, fs)
      else
        let loose := negb (Z.land mode group_other =? 0) in
        if loose && ki_chmod io then (Err KChmod, fs)
        else
          let fs' := if loose then <[path := Real owner_only data]> fs else fs in
          if ki_read io then (Err KRead, fs')
          else match Std.DecodeString (TrimSpace data) with
               | None => (Err KDecode, fs')
               | Some seed => if (slen seed =? SeedSize)%nat then (Ok (from_seed seed, false), fs') else (Err (KSeedLen (slen seed)), fs')
               end
  end.

Definition LoadKey := loadKey false.
Definition LoadOrCreateKey := loadKey true.

Definition CreateKey (draw : option string) (io : KeyIO) (path : string) (fs : Dir) : result KeyErr string * Dir :=
  if String.eqb path "" then (match draw with None => Err KRand | Some seed => Ok (from_seed seed) end, fs)
  else createKeyFile draw io path fs.

(** ** Runs *)

Inductive KeyOp := OpLoad | OpLoadOrCreate | OpCreate.

Record KeyEvent := mkKeyEvent { ke_op : KeyOp; ke_draw : option string; ke_io : KeyIO; ke_path : string }.

Definition key_step (e : KeyEvent) (fs : Dir) : result KeyErr string * Dir :=
  match ke_op e with
  | OpLoad => let '(r, fs') := LoadKey (ke_draw e) (ke_io e) (ke_path e) fs in (match r with Ok (k, _) => Ok k | Err e => Err e end, fs')
  | OpLoadOrCreate =>
      let '(r, fs') := LoadOrCreateKey (ke_draw e) (ke_io e) (ke_path e) fs in (match r with Ok (k, _) => Ok k | Err e => Err e end, fs')
  | OpCreate => CreateKey (ke_draw e) (ke_io e) (ke_path e) fs
  end.

Definition key_run (es : list KeyEvent) (fs : Dir) : Dir := foldl (fun fs e => (key_step e fs).2) fs es.

(** ** An identity stays *)

(** The same file, its permissions possibly tightened. *)
Definition same_file (a b : option Entry) : Prop := b = a \/ exists m d, a = Some (Real m d) /\ b = Some (Real owner_only d).

Lemma same_file_trans a b c : same_file a b -> same_file b c -> same_file a c.
Proof. intros [-> | (m & d & -> & ->)]; [done |]. intros [-> | (m' & d' & [= <- <-] & ->)]; right; eauto. Qed.

Lemma create_keeps draw io path fs p : is_Some (fs !! p) -> (createKeyFile draw io path fs).2 !! p = fs !! p.
Proof.
  intros Hp. unfold createKeyFile. destruct draw as [seed |]; [| done]. destruct (ki_create io); [done |]. cbn [orb].
  case_bool_decide as E; [done |]. assert (p <> path) by (intros ->; done).
  destruct (ki_write io); [cbn [snd]; by rewrite lookup_insert_ne |]. destruct (ki_close io); cbn [snd]; by rewrite lookup_insert_ne.
Qed.

Lemma load_keeps create draw io path fs p : is_Some (fs !! p) -> same_file (fs !! p) ((loadKey create draw io path fs).2 !! p).
Proof.
  intros Hp. unfold loadKey. destruct (String.eqb path ""); [by left |]. destruct (ki_open io); [by left |].
  destruct (fs !! path) as [[mode data |] |] eqn:L; [| by left |].
  - destruct (ki_stat io); [by left |]. destruct (negb _) eqn:El; cbn [andb].
    + destruct (ki_chmod io); [by left |]. assert (S : same_file (fs !! p) (<[path := Real owner_only data]> fs !! p)).
      { destruct (decide (p = path)) as [-> | D]; [rewrite lookup_insert_eq, L; right; eauto | rewrite lookup_insert_ne by done; by left]. }
      destruct (ki_read io); [done |]. destruct (Std.DecodeString _); [| done]. by destruct (_ =? _)%nat.
    + destruct (ki_read io); [by left |]. destruct (Std.DecodeString _); [| by left]. destruct (_ =? _)%nat; by left.
  - destruct (negb create); [by left |]. pose proof (create_keeps draw io path fs p Hp) as C.
    destruct (createKeyFile draw io path fs) as [[k | e] fs']; cbn [snd] in *; rewrite C; by left.
Qed.

Lemma step_keeps e fs p : is_Some (fs !! p) -> same_file (fs !! p) ((key_step e fs).2 !! p).
Proof.
  intros Hp. unfold key_step. destruct (ke_op e).
  - pose proof (load_keeps false (ke_draw e) (ke_io e) (ke_path e) fs p Hp). unfold LoadKey. by destruct (loadKey _ _ _ _ _).
  - pose proof (load_keeps true (ke_draw e) (ke_io e) (ke_path e) fs p Hp). unfold LoadOrCreateKey. by destruct (loadKey _ _ _ _ _).
  - unfold CreateKey. destruct (String.eqb _ _); [by left |]. left. by apply create_keeps.
Qed.

Lemma run_keeps es fs p : is_Some (fs !! p) -> same_file (fs !! p) (key_run es fs !! p).
Proof.
  revert fs. induction es as [| e es IH]; intros fs Hp; [by left |]. cbn [key_run foldl].
  pose proof (step_keeps e fs p Hp) as S. eapply same_file_trans; [exact S |]. apply IH.
  destruct S as [-> | (m & d & _ & ->)]; done.
Qed.

Definition no_io_faults : KeyIO := mkKeyIO false false false false false None false.

(** The file of an identity: readable by its owner only, and holding the key. *)
Definition holds (fs : Dir) (path k : string) : Prop :=
  exists mode data seed, fs !! path = Some (Real mode data) /\ Z.land mode group_other = 0 /\
    Std.DecodeString (TrimSpace data) = Some seed /\ slen seed = SeedSize /\ k = from_seed seed.

Lemma holds_kept fs fs' path k : holds fs path k -> same_file (fs !! path) (fs' !! path) -> holds fs' path k.
Proof.
  intros (m & d & s & L & M & D & Sz & ->) S. rewrite L in S. destruct S as [E | (m' & d' & [= <- <-] & E)].
  - exists m, d, s. by split_and!.
  - exists owner_only, d, s. by split_and!.
Qed.

Lemma created_holds draw io path fs k fs' :
  (forall s, draw = Some s -> slen s = SeedSize) -> createKeyFile draw io path fs = (Ok k, fs') -> fs !! path = None /\ holds fs' path k.
Proof.
  intros Hd. unfold createKeyFile. destruct draw as [seed |]; [| done]. destruct (ki_create io); [done |]. cbn [orb].
  case_bool_decide as E; [done |]. destruct (ki_write io); [done |]. destruct (ki_close io); [done |]. intros [= <- <-].
  split; [destruct (fs !! path); [by destruct E | done] |]. exists owner_only, (Std.EncodeToString seed), seed.
  split_and!; [apply lookup_insert_eq | done | | by apply Hd | done].
  rewrite TrimSpace_solid by apply Std_encode_solid. apply Std_decode_encode.
Qed.

Lemma step_holds e fs k fs' :
  (forall s, ke_draw e = Some s -> slen s = SeedSize) -> ke_path e <> "" -> key_step e fs = (Ok k, fs') -> holds fs' (ke_path e) k.
Proof.
  intros Hd Hp. apply String.eqb_neq in Hp.
  assert (Ld : forall create b fs', loadKey create (ke_draw e) (ke_io e) (ke_path e) fs = (Ok (k, b), fs') -> holds fs' (ke_path e) k).
  { intros create b fs2. unfold loadKey. rewrite Hp. destruct (ki_open _); [done |]. destruct (fs !! ke_path e) as [[mode data |] |] eqn:L; [| done |].
    - destruct (ki_stat _); [done |]. destruct (Z.land mode group_other =? 0) eqn:El; cbn [negb andb].
      + destruct (ki_read _); [done |]. destruct (Std.DecodeString _) as [seed |] eqn:D; [| done]. destruct (_ =? _)%nat eqn:Sz; [| done].
        intros [= <- _ <-]. exists mode, data, seed. split_and!; [done | by apply Z.eqb_eq | done | by apply Nat.eqb_eq | done].
      + destruct (ki_chmod _); [done |]. destruct (ki_read _); [done |]. destruct (Std.DecodeString _) as [seed |] eqn:D; [| done].
        destruct (_ =? _)%nat eqn:Sz; [| done]. intros [= <- _ <-]. exists owner_only, data, seed.
        split_and!; [apply lookup_insert_eq | done | done | by apply Nat.eqb_eq | done].
    - destruct (negb create); [done |]. destruct (createKeyFile _ _ _ _) as [[k' |] fs3] eqn:C; [| done]. intros [= <- _ <-].
      by apply created_holds in C as [_ ?]. }
  unfold key_step, LoadKey, LoadOrCreateKey, CreateKey. destruct (ke_op e).
  - destruct (loadKey _ _ _ _ _) as [[[k' b] |] fs2] eqn:E; [| done]. intros [= <- <-]. by eapply Ld.
  - destruct (loadKey _ _ _ _ _) as [[[k' b] |] fs2] eqn:E; [| done]. intros [= <- <-]. by eapply Ld.
  - rewrite Hp. intros C. by apply created_holds in C as [_ ?].
Qed.

(** C19. An identity is permanent.  Once any call loaded or created the identity of
    a path, then after whatever other calls, on this or other paths and with
    any of them failing, the path still holds that identity, readable by its
    owner only: loading gives the same key and is not a creation, and creating
    one there is refused.  A server's start-up, which only loads, never brings
    a key file into being. *)
Theorem identity_is_permanent (e : KeyEvent) (es : list KeyEvent) (fs fs1 : Dir) (k : string) (draw : option string) (io : KeyIO) :
  (forall s, ke_draw e = Some s -> slen s = SeedSize) -> ke_path e <> "" -> key_step e fs = (Ok k, fs1) ->
  let fs2 := key_run es fs1 in
  holds fs2 (ke_path e) k /\
  (forall create, loadKey create draw no_io_faults (ke_path e) fs2 = (Ok (k, false), fs2)) /\
  is_ok (CreateKey draw io (ke_path e) fs2).1 = false /\
  (forall p, fs !! p = None -> (LoadKey draw io p fs).2 = fs).
Proof.
  intros Hd Hp E fs2. pose proof (step_holds e fs k fs1 Hd Hp E) as H1.
  assert (H2 : holds fs2 (ke_path e) k).
  { eapply holds_kept; [exact H1 |]. apply run_keeps. by destruct H1 as (m & d & s & -> & _). }
  split; [done |]. apply String.eqb_neq in Hp. destruct H2 as (m & d & s & L & M & D & Sz & ->). split_and!.
  - intros create. unfold loadKey. rewrite Hp. cbn [no_io_faults ki_open ki_stat ki_chmod ki_read]. rewrite L, M. cbn [Z.eqb negb andb].
    rewrite D, Sz. done.
  - unfold CreateKey, createKeyFile. rewrite Hp. destruct draw; [| done]. rewrite bool_decide_eq_true_2 by (rewrite L; done). by rewrite orb_true_r.
  - intros p Lp. unfold LoadKey, loadKey. destruct (String.eqb p ""); [done |]. destruct (ki_open io); [done |]. by rewrite Lp.
Qed.
End KeyFile.

Module KeyDemo.
Definition seed : string := "0123456789abcdef0123456789ABCDEF".

Definition first_start : KeyEvent := mkKeyEvent OpLoadOrCreate (Some seed) no_io_faults "id.key".
Definition later : list KeyEvent :=
  [mkKeyEvent OpCreate (Some TrustTheorems.TrustDemo.eve) no_io_faults "id.key"; mkKeyEvent OpLoad None no_io_faults "id.key"].

Lemma identity_is_permanent_witness :
  (LoadKey id None no_io_faults "id.key" (key_run id later (key_step id first_start ∅).2)).1 = Ok (seed, false).
Proof.
  destruct (key_step id first_start ∅) as [r fs1] eqn:E. assert (r = Ok seed) as -> by (vm_compute in E; injection E as <- _; reflexivity).
  destruct (identity_is_permanent id first_start later ∅ fs1 seed None no_io_faults) as (_ & L & _ & _).
  - intros s [= <-]. reflexivity.
  - discriminate.
  - exact E.
  - cbn [snd]. unfold LoadKey. pose proof (L false) as L0. change (ke_path first_start) with "id.key" in L0. rewrite L0. reflexivity.
Defined.

(** A first start that runs out of space leaves a file that is no key: the node
    then neither loads nor creates an identity. *)
Lemma torn_key_locks_out :
  let full := mkKeyIO false false false false false (Some 10%nat) false in
  let fs := (LoadOrCreateKey id (Some seed) full "id.key" ∅).2 in
  (LoadOrCreateKey id (Some seed) no_io_faults "id.key" fs).1 = Err KDecode /\
  (CreateKey id (Some seed) no_io_faults "id.key" fs).1 = Err KCreate.
Proof. split; vm_compute; reflexivity. Qed.
End KeyDemo.
