(* ===== verification/Lazy.v ===== *)
(** * The tunnel that is dialled on demand

    [lazyTunnel] of [internal/role/lazy.go] with the reconnect loop that serves
    it ([peerLoop] of [internal/role/supervisor.go], [buddyRun] of
    [internal/role/connect.go]) and the connections that wait for it
    ([lazyForward]).  Each critical section of the lock is one step; a
    connection that waits is released when the channel it holds is closed and
    reads the outcome in a later step, or gives up when the context ends.  The
    loop can return at each point where [peerLoop] does. *)

From S2P Require Import Prelude.

(** [ready] names the current channel, [closed] the channels closed so far;
    closing a closed channel is Go's panic. *)
Record lazyTunnel := mkLazy {
  lt_sess : option nat; lt_ready : nat; lt_waking : bool; lt_err : option nat; lt_wake : bool;
  closed : list nat; panicked : bool;
}.

Definition newLazyTunnel : lazyTunnel := mkLazy None 0 false None false [] false.

Inductive Entered := Have (sess : nat) | Wait (ready : nat).

(** [get] up to the point where it waits: the first waiter signals the loop. *)
Definition get_enter (lt : lazyTunnel) : lazyTunnel * Entered :=
  match lt_sess lt with
  | Some s => (lt, Have s)
  | None =>
      (if lt_waking lt then lt
       else mkLazy (lt_sess lt) (lt_ready lt) true (lt_err lt) true (closed lt) (panicked lt), Wait (lt_ready lt))
  end.

(** The read after the channel was closed: the session and the error. *)
Definition get_read (lt : lazyTunnel) : option nat * option nat := (lt_sess lt, lt_err lt).

Definition close_ready (lt : lazyTunnel) : lazyTunnel :=
  mkLazy (lt_sess lt) (lt_ready lt) (lt_waking lt) (lt_err lt) (lt_wake lt) (lt_ready lt :: closed lt)
    (panicked lt || bool_decide (lt_ready lt ∈ closed lt)).

Definition setSession (sess : nat) (lt : lazyTunnel) : lazyTunnel :=
  close_ready (mkLazy (Some sess) (lt_ready lt) (lt_waking lt) None (lt_wake lt) (closed lt) (panicked lt)).

Definition setFailed (err : nat) (lt : lazyTunnel) : lazyTunnel :=
  close_ready (mkLazy None (lt_ready lt) false (Some err) (lt_wake lt) (closed lt) (panicked lt)).

(** The fresh channel is one that was never used. *)
Definition markIdle (lt : lazyTunnel) : lazyTunnel :=
  mkLazy None (S (lt_ready lt)) false None (lt_wake lt) (closed lt) (panicked lt).

(** ** The loop and the waiting connections *)

(** Where the reconnect loop stands: waiting for a wake-up, drawing its next
    attempt, dialling, between reporting a failure and resetting, serving a
    session, waiting before the next round, or returned.  A failure is fatal
    when the code was rejected or not confirmed in time. *)
Inductive Loop :=
| Asleep | Drawing | Dialing | Failing (err : nat) (fatal : bool) | Connected (sess : nat) | Backoff (fatal : bool) | Ended.

(** A connection has left [get] with the context's error, or with what it read. *)
Inductive Conn := Waiting (ready : nat) | Got (sess : option nat) (err : option nat) | GaveUp.

(** [ls_ctx]: the context of the process was cancelled. *)
Record LazySys := mkSys { ls_lt : lazyTunnel; ls_loop : Loop; ls_conns : gmap nat Conn; ls_ctx : bool }.

Inductive LazyEvent :=
| Arrives (c : nat)
| Released (c : nat)
| Abandons (c : nat)         (* the context is done *)
| Cancels                    (* a signal, or [main] after a role returned an error *)
| Wakes
| Draws                      (* [next] gave an attempt, the invite is still valid *)
| DrawFails                  (* it did not, or the invite has expired *)
| DialUp (sess : nat)
| DialFails (err : nat) (fatal : bool)
| Resets
| SessionEnds
| Retries                    (* the delay has passed *)
| Stops.                     (* the loop returns on a fatal failure or a cancelled context *)

Definition set_conn (c : nat) (x : Conn) (s : LazySys) : LazySys := mkSys (ls_lt s) (ls_loop s) (<[c := x]> (ls_conns s)) (ls_ctx s).
Definition set_loop (l : Loop) (lt : lazyTunnel) (s : LazySys) : LazySys := mkSys lt l (ls_conns s) (ls_ctx s).

(** [<-lt.wake] *)
Definition take_wake (lt : lazyTunnel) : lazyTunnel :=
  mkLazy (lt_sess lt) (lt_ready lt) (lt_waking lt) (lt_err lt) false (closed lt) (panicked lt).

Definition lazy_step (e : LazyEvent) (s : LazySys) : option LazySys :=
  match e, ls_loop s with
  | Arrives c, _ =>
      match ls_conns s !! c with
      | Some _ => None
      | None =>
          let '(lt, r) := get_enter (ls_lt s) in
          Some (set_conn c (match r with Have x => Got (Some x) None | Wait r => Waiting r end) (set_loop (ls_loop s) lt s))
      end
  | Released c, _ =>
      match ls_conns s !! c with
      | Some (Waiting r) =>
          if bool_decide (r ∈ closed (ls_lt s)) then let '(x, y) := get_read (ls_lt s) in Some (set_conn c (Got x y) s) else None
      | _ => None
      end
  | Abandons c, _ =>
      match ls_conns s !! c with
      | Some (Waiting r) => if ls_ctx s then Some (set_conn c GaveUp s) else None
      | _ => None
      end
  | Cancels, _ => Some (mkSys (ls_lt s) (ls_loop s) (ls_conns s) true)
  | Wakes, Asleep => if lt_wake (ls_lt s) then Some (set_loop Drawing (take_wake (ls_lt s)) s) else None
  | Draws, Drawing => Some (set_loop Dialing (ls_lt s) s)
  | DrawFails, Drawing => Some (set_loop Ended (ls_lt s) s)
  | DialUp x, Dialing => Some (set_loop (Connected x) (setSession x (ls_lt s)) s)
  | DialFails y fatal, Dialing => Some (set_loop (Failing y fatal) (setFailed y (ls_lt s)) s)
  | Resets, Failing _ fatal => Some (set_loop (Backoff fatal) (markIdle (ls_lt s)) s)
  | SessionEnds, Connected _ => Some (set_loop (Backoff false) (markIdle (ls_lt s)) s)
  | Retries, Backoff false => Some (set_loop Asleep (ls_lt s) s)
  | Stops, Asleep => if ls_ctx s then Some (set_loop Ended (ls_lt s) s) else None
  | Stops, Backoff fatal => if fatal || ls_ctx s then Some (set_loop Ended (ls_lt s) s) else None
  | _, _ => None
  end.

Fixpoint lazy_run (es : list LazyEvent) (s : LazySys) : option LazySys :=
  match es with [] => Some s | e :: r => s' ← lazy_step e s; lazy_run r s' end.

Definition lazy_start : LazySys := mkSys newLazyTunnel Asleep ∅ false.

(** ** Invariant *)

(** What the loop's position says about the shared fields. *)
Definition fields_of (l : Loop) (lt : lazyTunnel) : Prop :=
  match l with
  | Failing y _ => lt_sess lt = None /\ lt_err lt = Some y /\ lt_ready lt ∈ closed lt
  | Connected x => lt_sess lt = Some x /\ lt_err lt = None /\ lt_ready lt ∈ closed lt
  | _ => lt_sess lt = None /\ lt_err lt = None /\ lt_ready lt ∉ closed lt
  end.

(** The loop has been told to dial, is about to, or will not any more. *)
Definition called (s : LazySys) : Prop :=
  lt_wake (ls_lt s) = true \/ match ls_loop s with Drawing | Dialing | Ended => True | _ => False end.

Record lazy_inv (s : LazySys) : Prop := {
  li_panic : panicked (ls_lt s) = false;
  li_closed : forall r, r ∈ closed (ls_lt s) -> (r <= lt_ready (ls_lt s))%nat;
  li_fields : fields_of (ls_loop s) (ls_lt s);
  li_waking : lt_waking (ls_lt s) = true -> called s \/ lt_ready (ls_lt s) ∈ closed (ls_lt s);
  li_wait : forall c r, ls_conns s !! c = Some (Waiting r) ->
              r ∈ closed (ls_lt s) \/ (r = lt_ready (ls_lt s) /\ lt_waking (ls_lt s) = true);
}.

Lemma lazy_start_inv : lazy_inv lazy_start.
Proof. split; cbn; try done; try set_solver. Qed.

(** A connection that stops waiting. *)
Lemma leaves_inv c x s : lazy_inv s -> (forall r, x <> Waiting r) -> lazy_inv (set_conn c x s).
Proof.
  intros Hi Nx. split; cbn; try apply Hi. intros c' r. destruct (decide (c' = c)) as [-> |];
    [rewrite lookup_insert_eq; by intros [= E%Nx] | rewrite lookup_insert_ne by done; apply (li_wait _ Hi)].
Qed.

Lemma arrives_inv c s s' : lazy_inv s -> lazy_step (Arrives c) s = Some s' -> lazy_inv s'.
Proof.
  intros Hi. cbn [lazy_step]. destruct (ls_conns s !! c) eqn:Ec; [done |]. unfold get_enter. destruct (lt_sess (ls_lt s)) as [x |] eqn:Es.
  - intros [= <-]. apply leaves_inv; [| done]. by destruct Hi.
  - assert (W : forall lt, closed lt = closed (ls_lt s) -> lt_ready lt = lt_ready (ls_lt s) -> lt_waking lt = true ->
                forall c' r, <[c := Waiting (lt_ready (ls_lt s))]> (ls_conns s) !! c' = Some (Waiting r) ->
                r ∈ closed lt \/ (r = lt_ready lt /\ lt_waking lt = true)).
    { intros lt E1 E2 E3 c' r. rewrite E1, E2, E3. destruct (decide (c' = c)) as [-> |].
      - rewrite lookup_insert_eq. intros [= <-]. by right.
      - rewrite lookup_insert_ne by done. intros [? | [? _]]%(li_wait _ Hi); [by left | by right]. }
    destruct (lt_waking (ls_lt s)) eqn:Ew; intros [= <-].
    + split; cbn; try apply Hi. by apply W.
    + split; cbn; try apply Hi; [| left; by left
        | exact (W (mkLazy None (lt_ready (ls_lt s)) true None true (closed (ls_lt s)) false) eq_refl eq_refl eq_refl)].
      pose proof (li_fields _ Hi) as F. unfold fields_of in *. rewrite Es in F. by destruct (ls_loop s).
Qed.

(** The channel is closed, for a session or for an error. *)
Lemma closing_inv l lt s :
  lazy_inv s -> ls_loop s = Dialing -> lt_ready lt = lt_ready (ls_lt s) -> closed lt = closed (ls_lt s) -> panicked lt = panicked (ls_lt s) ->
  fields_of l (close_ready lt) -> lazy_inv (set_loop l (close_ready lt) s).
Proof.
  intros Hi El Er Ec Ep F'. pose proof (li_fields _ Hi) as F. rewrite El in F. destruct F as (_ & _ & F3). split; cbn; [| | done | |].
  - rewrite Ep, Er, Ec, (li_panic _ Hi). by apply bool_decide_eq_false.
  - rewrite Er, Ec. intros r [-> | Hr]%elem_of_cons; [done | by apply (li_closed _ Hi)].
  - intros _. right. left.
  - rewrite Er, Ec. intros c r [? | [-> _]]%(li_wait _ Hi); left; [by right | left].
Qed.

(** The reset after a failure or a session: the channel was closed. *)
Lemma reset_inv l s :
  lazy_inv s -> lt_ready (ls_lt s) ∈ closed (ls_lt s) -> (forall lt, fields_of l lt <-> fields_of Asleep lt) ->
  lazy_inv (set_loop l (markIdle (ls_lt s)) s).
Proof.
  intros Hi Hc Hl. split; cbn; try apply Hi.
  - intros r Hr%(li_closed _ Hi). lia.
  - apply Hl. split_and!; [done | done |]. cbn. intros Hr%(li_closed _ Hi). lia.
  - done.
  - intros c r [? | [-> _]]%(li_wait _ Hi); by left.
Qed.

(** A step of the loop that leaves the shared fields alone, but for the signal. *)
Lemma moves_inv l lt s :
  lazy_inv s -> lt = ls_lt s \/ lt = take_wake (ls_lt s) ->
  (forall lt, fields_of (ls_loop s) lt <-> fields_of l lt) ->
  (called s -> lt_wake lt = true \/ match l with Drawing | Dialing | Ended => True | _ => False end) -> lazy_inv (set_loop l lt s).
Proof.
  intros Hi E Hl Hc. assert (Q : lt_sess lt = lt_sess (ls_lt s) /\ lt_ready lt = lt_ready (ls_lt s) /\ lt_waking lt = lt_waking (ls_lt s) /\
    lt_err lt = lt_err (ls_lt s) /\ closed lt = closed (ls_lt s) /\ panicked lt = panicked (ls_lt s)) by (by destruct E as [-> | ->]).
  destruct Q as (Q1 & Q2 & Q3 & Q4 & Q5 & Q6). split; cbn [set_loop ls_lt ls_loop ls_conns]; unfold called; cbn; rewrite ?Q2, ?Q3, ?Q5, ?Q6; try apply Hi.
  - apply Hl. pose proof (li_fields _ Hi) as F. unfold fields_of in *. rewrite Q1, Q2, Q4, Q5. done.
  - intros Hw. destruct (li_waking _ Hi Hw); [left; by apply Hc | by right].
Qed.

Lemma lazy_step_inv e s s' : lazy_inv s -> lazy_step e s = Some s' -> lazy_inv s'.
Proof.
  intros Hi. destruct e as [c | c | c | | | | | x | y fatal | | | |]; [by apply arrives_inv | ..]; cbn [lazy_step]; pose proof (li_fields _ Hi) as F.
  - destruct (ls_conns s !! c) as [[r | |] |]; try done. case_bool_decide; [| done]. intros [= <-]. by apply leaves_inv.
  - destruct (ls_conns s !! c) as [[r | |] |]; try done. destruct (ls_ctx s); [| done]. intros [= <-]. by apply leaves_inv.
  - intros [= <-]. by destruct Hi.
  - destruct (ls_loop s) eqn:El; try done. destruct (lt_wake (ls_lt s)); [| done]. intros [= <-].
    apply moves_inv; [done | by right | by rewrite El | by right].
  - destruct (ls_loop s) eqn:El; try done. intros [= <-]. apply moves_inv; [done | by left | by rewrite El | by right].
  - destruct (ls_loop s) eqn:El; try done. intros [= <-]. apply moves_inv; [done | by left | by rewrite El | by right].
  - destruct (ls_loop s) eqn:El; try done. intros [= <-]. apply closing_inv; try done. split_and!; [done | done | left].
  - destruct (ls_loop s) eqn:El; try done. intros [= <-]. apply closing_inv; try done. split_and!; [done | done | left].
  - destruct (ls_loop s) eqn:El; try done. intros [= <-]. apply reset_inv; [done | by destruct F as (_ & _ & ?) | done].
  - destruct (ls_loop s) eqn:El; try done. intros [= <-]. apply reset_inv; [done | by destruct F as (_ & _ & ?) | done].
  - destruct (ls_loop s) as [| | | | | [] |] eqn:El; try done. intros [= <-]. apply moves_inv; [done | by left | by rewrite El |].
    unfold called. by rewrite El.
  - destruct (ls_loop s) as [| | | | | f |] eqn:El; try done.
    + destruct (ls_ctx s); [| done]. intros [= <-]. apply moves_inv; [done | by left | by rewrite El | by right].
    + destruct (f || ls_ctx s); [| done]. intros [= <-]. apply moves_inv; [done | by left | by rewrite El | by right].
Qed.

Lemma lazy_run_inv es : forall s s', lazy_inv s -> lazy_run es s = Some s' -> lazy_inv s'.
Proof.
  induction es as [| e es IH]; intros s s' Hi; cbn [lazy_run]; [by intros [= <-] |].
  destruct (lazy_step e s) as [s1 |] eqn:E; [| done]. cbn [mbind option_bind]. apply IH. by eapply lazy_step_inv.
Qed.

(** ** Progress *)

(** The loop's own steps. *)
Definition loop_event (e : LazyEvent) : bool :=
  match e with Arrives _ | Released _ | Abandons _ | Cancels => false | _ => true end.

(** How far the loop is from the end of its next dial. *)
Definition distance (l : Loop) : nat :=
  match l with Failing _ _ | Connected _ => 5 | Backoff _ => 4 | Asleep => 3 | Drawing => 2 | Dialing => 1 | Ended => 0 end.

(** Somebody waits on an open channel: the loop can move, and moves towards it. *)
Lemma loop_progress s c r :
  lazy_inv s -> ls_conns s !! c = Some (Waiting r) -> r ∉ closed (ls_lt s) -> ls_loop s <> Ended ->
  (exists e s', loop_event e = true /\ lazy_step e s = Some s') /\
  (forall e s', loop_event e = true -> lazy_step e s = Some s' ->
     r ∈ closed (ls_lt s') \/ ls_loop s' = Ended \/ (ls_conns s' = ls_conns s /\ (distance (ls_loop s') < distance (ls_loop s))%nat)).
Proof.
  intros Hi Hc Hn Ne. pose proof (li_fields _ Hi) as F. destruct (li_wait _ Hi _ _ Hc) as [? | [-> Hw]]; [done |].
  destruct (li_waking _ Hi Hw) as [Cd | ?]; [| done]. unfold called in Cd.
  split.
  - destruct (ls_loop s) as [| | | y f | x | f |] eqn:El; try done.
    + exists Wakes. cbn. rewrite El. destruct Cd as [-> | ?]; [eauto | done].
    + exists Draws. cbn. rewrite El. eauto.
    + exists (DialUp 0). cbn. rewrite El. eauto.
    + by destruct F as (_ & _ & ?).
    + by destruct F as (_ & _ & ?).
    + destruct f; [exists Stops | exists Retries]; cbn; rewrite El; eauto.
  - intros e s' Oe. destruct e; try done; cbn [lazy_step]; destruct (ls_loop s) as [| | | y f | x | f |] eqn:El; try done;
      try (by destruct F as (_ & _ & ?)); repeat case_match; try done; intros [= <-]; cbn;
      first [ by right; left | left; left | right; right; split; [done | lia] ].
Qed.

(** C35. No connection waits for a tunnel nobody is dialling, as long as the
    reconnect loop runs.  In every state of every interleaving of arriving
    connections with the loop and a shutdown, no channel is closed twice, and
    for a connection that waits and has not been released: the loop can take a
    step of its own, and each such step releases the connection, ends the loop,
    or brings it nearer to the end of a dial, so that at most four of them
    release it unless the loop returns (no next attempt, invite expired, code
    not confirmed, or context cancelled).  After that nobody dials for it; once
    the context is cancelled, as the process does when the loop returns an
    error, every waiting connection can leave.  A released connection that
    reads while the session is up gets exactly that session, while the failure
    is being reported exactly that error, and neither a session nor an error if
    the tunnel was reset before it read. *)
Theorem lazy_no_lost_wakeup es s :
  lazy_run es lazy_start = Some s ->
  panicked (ls_lt s) = false /\
  (forall c r, ls_conns s !! c = Some (Waiting r) -> r ∉ closed (ls_lt s) -> ls_loop s <> Ended ->
     (distance (ls_loop s) <= 4)%nat /\
     (exists e s', loop_event e = true /\ lazy_step e s = Some s') /\
     (forall e s', loop_event e = true -> lazy_step e s = Some s' ->
        r ∈ closed (ls_lt s') \/ ls_loop s' = Ended \/ (ls_conns s' = ls_conns s /\ (distance (ls_loop s') < distance (ls_loop s))%nat))) /\
  (forall c r s', ls_conns s !! c = Some (Waiting r) -> lazy_step Cancels s = Some s' ->
     exists s'', lazy_step (Abandons c) s' = Some s'' /\ ls_conns s'' !! c = Some GaveUp) /\
  (forall c r s', ls_conns s !! c = Some (Waiting r) -> lazy_step (Released c) s = Some s' ->
     r ∈ closed (ls_lt s) /\
     match ls_loop s with
     | Connected x => ls_conns s' !! c = Some (Got (Some x) None)
     | Failing y _ => ls_conns s' !! c = Some (Got None (Some y))
     | _ => ls_conns s' !! c = Some (Got None None)
     end).
Proof.
  intros Hr. pose proof (lazy_run_inv _ _ _ lazy_start_inv Hr) as Hi. pose proof (li_fields _ Hi) as F. split_and!.
  - apply (li_panic _ Hi).
  - intros c r Hc Hn Ne. split; [| by eapply loop_progress]. destruct (li_wait _ Hi _ _ Hc) as [? | [-> _]]; [done |].
    destruct (ls_loop s); cbn; try lia; by destruct F as (_ & _ & ?).
  - intros c r s' Hc. cbn [lazy_step]. intros [= <-]. eexists. cbn. rewrite Hc. split; [done |]. apply lookup_insert_eq.
  - intros c r s' Hc. cbn [lazy_step]. rewrite Hc. case_bool_decide; [| done]. unfold get_read. intros [= <-]. split; [done |]. cbn.
    destruct (ls_loop s); destruct F as (-> & -> & _); by rewrite lookup_insert_eq.
Qed.

(** ** Concrete interleavings *)

Module LazyDemo.
Definition first_call : list LazyEvent := [Arrives 1; Wakes; Draws; Arrives 2].
Definition waiting : LazySys := default lazy_start (lazy_run first_call lazy_start).

Lemma lazy_no_lost_wakeup_witness :
  lazy_run first_call lazy_start = Some waiting /\ panicked (ls_lt waiting) = false /\
  ls_conns waiting !! 2%nat = Some (Waiting 0) /\
  forall s', lazy_step (DialUp 7) waiting = Some s' -> 0%nat ∈ closed (ls_lt s').
Proof.
  assert (E : lazy_run first_call lazy_start = Some waiting) by reflexivity.
  destruct (lazy_no_lost_wakeup _ _ E) as (P & L & _). split; [exact E |]. split; [exact P |]. split; [reflexivity |].
  intros s' D. destruct (L 2%nat 0%nat eq_refl) as (_ & _ & N).
  - intros I. apply not_elem_of_nil in I. exact I.
  - discriminate.
  - destruct (N (DialUp 7) s' eq_refl D) as [I | [I | [_ I]]]; [exact I | |]; injection D as <-; vm_compute in I; [discriminate I | lia].
Defined.

(** A connection that is released by a session but gets the lock only after the
    session ended reads neither a session nor an error, although the comments
    on [setSession] and [setFailed] say that one of them is never nil then. *)
Definition late_reader : list LazyEvent := [Arrives 1; Wakes; Draws; DialUp 7; SessionEnds; Released 1].

Lemma waiter_reads_nothing :
  exists s, lazy_run late_reader lazy_start = Some s /\ ls_conns s !! 1%nat = Some (Got None None).
Proof. eexists. split; reflexivity. Qed.

(** The loop returns after the wake-up without telling the connections: they
    wait on an open channel until the context is cancelled. *)
Lemma loop_returns_silently :
  exists s, lazy_run [Arrives 1; Wakes; DrawFails] lazy_start = Some s /\ ls_loop s = Ended /\
    ls_conns s !! 1%nat = Some (Waiting 0) /\ lazy_step (Released 1) s = None /\ forall e, loop_event e = true -> lazy_step e s = None.
Proof. eexists. split; [reflexivity |]. split_and!; try reflexivity. by intros []. Qed.
End LazyDemo.
