(* ===== verification/Control.v ===== *)
(** * The control listener

    [internal/tunnel/control.go]: who may open a control connection, how many at
    once, which bytes become a request and with which authenticated key.  QUIC
    and TLS are outside: a connection is a number, its life ends when its
    context is cancelled or its serving goroutine returns, in either order. *)

From S2P Require Import Prelude Base64 Sha256 Json NetAddr NetParse Crypto Protocol HsRegistry Authz Handshake.

Definition maxControlReq : Z := 8192.
Definition maxControlResp : Z := 65536.
Definition maxCtrlConns : Z := 256.
Definition maxCtrlConnsPerIP : Z := 16.
Definition rejectLogInterval : Z := 30 * second.

(** ** Identities *)

(** A leaf certificate as the X.509 parser sees it: unreadable, with a key of
    another kind, or with an Ed25519 key. *)
Inductive Leaf := LeafBad | LeafOther | LeafEd25519 (pub : string).

Inductive CertErr := NoCert | BadCert | NotEd25519 | WrongPeer.

Definition peerEd25519FromCerts (certs : list Leaf) : result CertErr string :=
  match certs with
  | [] => Err NoCert
  | LeafBad :: _ => Err BadCert
  | LeafOther :: _ => Err NotEd25519
  | LeafEd25519 pk :: _ => Ok pk
  end.

Definition pinnedPeerVerify (want : string) (certs : list Leaf) : option CertErr :=
  match peerEd25519FromCerts certs with
  | Err e => Some e
  | Ok pk => if negb (String.eqb pk want) then Some WrongPeer else None
  end.

Definition requireEd25519Client (certs : list Leaf) : option CertErr :=
  match peerEd25519FromCerts certs with Err e => Some e | Ok _ => None end.

(** [clientKeyOf]: the certificates are parsed already. *)
Definition clientKeyOf (certs : list Leaf) : result CertErr string :=
  match certs with
  | [] => Err NoCert
  | LeafEd25519 pk :: _ => Ok pk
  | _ => Err NotEd25519
  end.

(** The keep-alive period of a connection, none on the server's side. *)
Definition controlKeepAlive (idle : Z) (keepalive : bool) : option Z :=
  if keepalive then Some (let ka := Z.quot idle 4 in if ka <? 5 * second then 5 * second else ka) else None.

(** ** Connections *)

(** [slots] are the connections whose release has not run yet, with the key
    they are charged to: the state the release closures share. *)
Record ControlServer := mkControl {
  conns : Z; perIP : gmap string Z; rejected : Z; lastLogAt : Z; allowed : list Prefix;
  slots : gmap nat string; issued : nat;
}.

Definition ListenControl (allow : list Prefix) : ControlServer := mkControl 0 ∅ 0 zeroTime allow ∅ 0.

Definition sourceAllowed (remote : NetAddr) (s : ControlServer) : bool :=
  match allowed s with
  | [] => true
  | l => match remote with
         | AUDP ua => match AddrFromSlice (IPof ua) with
                      | None => false
                      | Some a => existsb (fun p => Contains p (Unmap a)) l
                      end
         | _ => false
         end
  end.

Definition count_of (m : gmap string Z) (key : string) : Z := default 0 (m !! key).

(** [admitConn]: the new connection's number, or a refusal that is counted. *)
Definition admitConn (remote : NetAddr) (s : ControlServer) : option nat * ControlServer :=
  let key := FromAddr remote in
  if (maxCtrlConns <=? conns s) || (maxCtrlConnsPerIP <=? count_of (perIP s) key) then
    (None, mkControl (conns s) (perIP s) (rejected s + 1) (lastLogAt s) (allowed s) (slots s) (issued s))
  else
    (Some (issued s),
     mkControl (conns s + 1) (<[key := count_of (perIP s) key + 1]> (perIP s)) (rejected s) (lastLogAt s) (allowed s)
       (<[issued s := key]> (slots s)) (S (issued s))).

(** The release closure of a connection: the first call gives the slot back,
    later ones do nothing. *)
Definition release (id : nat) (s : ControlServer) : ControlServer :=
  match slots s !! id with
  | None => s
  | Some key =>
      let n := count_of (perIP s) key - 1 in
      mkControl (conns s - 1) (if n <=? 0 then delete key (perIP s) else <[key := n]> (perIP s))
        (rejected s) (lastLogAt s) (allowed s) (delete id (slots s)) (issued s)
  end.

(** The line [noteRejection] logs, if any: how many refusals it stands for. *)
Definition noteRejection (now : Z) (s : ControlServer) : ControlServer * option Z :=
  if now - lastLogAt s <? rejectLogInterval then (s, None)
  else (mkControl (conns s) (perIP s) 0 now (allowed s) (slots s) (issued s), Some (rejected s)).

(** The gate before the TLS handshake. *)
Definition gateConn (now : Z) (verified : bool) (remote : NetAddr) (s : ControlServer)
    : option nat * ControlServer * option Z :=
  if negb verified then let '(s1, l) := noteRejection now s in (None, s1, l)
  else if negb (sourceAllowed remote s) then let '(s1, l) := noteRejection now s in (None, s1, l)
  else match admitConn remote s with
       | (None, s1) => let '(s2, l) := noteRejection now s1 in (None, s2, l)
       | (Some id, s1) => (Some id, s1, None)
       end.

(** ** Requests *)

(** What reading a stream gives: its bytes up to the end, or an error (a
    deadline among them). *)
Definition readRequest (remote : UDPAddr) (clientKey : string) (read : option string) (closing : bool) : option Request :=
  match read with
  | None => None
  | Some data =>
      let payload := take_s (Z.to_nat (maxControlReq + 1)) data in
      if maxControlReq <? Z.of_nat (slen payload) then None
      else if closing then None else Some (mkRequest (Some remote) payload clientKey)
  end.

(** [acceptStreams]: the streams of one connection in turn, until accepting one
    fails (the first-stream deadline, or the connection is gone). *)
Fixpoint stream_loop (remote : UDPAddr) (key : string) (streams : list (option string)) : list Request :=
  match streams with
  | [] => []
  | read :: r => match readRequest remote key read false with Some q => q :: stream_loop remote key r | None => stream_loop remote key r end
  end.

Definition acceptStreams (remote : UDPAddr) (certs : list Leaf) (streams : list (option string)) : list Request :=
  match clientKeyOf certs with Err _ => [] | Ok key => stream_loop remote key streams end.

(** The client's side of one exchange: the reply up to the limit. *)
Definition Roundtrip (reply : option string) : option string := take_s (Z.to_nat maxControlResp) <$> reply.

(** ** Runs *)

Inductive CtrlEvent :=
| Dial (now : Z) (verified : bool) (remote : NetAddr)
| ContextCancelled (id : nat)
| ServingReturns (id : nat).

Definition ctrl_step (s : ControlServer) (e : CtrlEvent) : ControlServer :=
  match e with
  | Dial now verified remote => (gateConn now verified remote s).1.2
  | ContextCancelled id | ServingReturns id => release id s
  end.

Definition ctrl_run (es : list CtrlEvent) (s : ControlServer) : ControlServer := foldl ctrl_step s es.
