(* ===== verification/ControlProps.v ===== *)
(** * The control listener: exact slots, fair shares, authenticated requests *)

From S2P Require Import Prelude Base64 Sha256 Json NetAddr NetParse Crypto Protocol HsRegistry Authz Handshake Control.

(** ** The slots held *)

(** The accounting keys of the connections that have not been released. *)
Definition held (s : ControlServer) : list string := (map_to_list (slots s)).*2.

Definition charged (k : string) (s : ControlServer) : Z := Z.of_nat (count_if (String.eqb k) (held s)).

Lemma held_insert (m : gmap nat string) id k :
  m !! id = None -> (map_to_list (<[id := k]> m)).*2 ≡ₚ k :: (map_to_list m).*2.
Proof. intros N. rewrite map_to_list_insert by done. done. Qed.

Lemma held_delete (m : gmap nat string) id k :
  m !! id = Some k -> (map_to_list m).*2 ≡ₚ k :: (map_to_list (delete id m)).*2.
Proof. intros L. rewrite <- (map_to_list_delete m id k L). done. Qed.

Record ctrl_wf (s : ControlServer) : Prop := {
  cw_conns : conns s = Z.of_nat (length (held s));
  cw_perIP : forall k, count_of (perIP s) k = charged k s;
  cw_live : forall k n, perIP s !! k = Some n -> 0 < n;
  cw_global : conns s <= maxCtrlConns;
  cw_source : forall k, charged k s <= maxCtrlConnsPerIP;
  cw_fresh : forall id k, slots s !! id = Some k -> (id < issued s)%nat;
}.

(** ** Preservation *)

Lemma count_of_insert m k k' n : count_of (<[k := n]> m) k' = if String.eqb k' k then n else count_of m k'.
Proof.
  unfold count_of. destruct (String.eqb_spec k' k) as [-> |]; [by rewrite lookup_insert_eq |].
  by rewrite lookup_insert_ne by congruence.
Qed.

Lemma count_of_delete m k k' : count_of (delete k m) k' = if String.eqb k' k then 0 else count_of m k'.
Proof.
  unfold count_of. destruct (String.eqb_spec k' k) as [-> |]; [by rewrite lookup_delete_eq |].
  by rewrite lookup_delete_ne by congruence.
Qed.

Lemma listen_wf allow : ctrl_wf (ListenControl allow).
Proof. split; cbn; try done; intros; unfold charged, held; cbn; rewrite ?map_to_list_empty; try done. Qed.

Lemma charged_nonneg k s : 0 <= charged k s.
Proof. unfold charged. lia. Qed.

Lemma fresh_slot s : ctrl_wf s -> slots s !! issued s = None.
Proof.
  intros W. destruct (slots s !! issued s) as [k |] eqn:E; [| done]. apply (cw_fresh _ W) in E. lia.
Qed.

Lemma admit_wf remote s : ctrl_wf s -> ctrl_wf (admitConn remote s).2.
Proof.
  intros W. pose proof (fresh_slot s W) as F. destruct W as [W1 W2 W3 W4 W5 W6]. unfold admitConn.
  destruct (_ || _) eqn:G; cbn [snd]; [by split |]. apply orb_false_iff in G as [G1 G2].
  apply Z.leb_gt in G1, G2. set (k := FromAddr remote) in *.
  assert (C : forall k', charged k' (mkControl (conns s + 1) (<[k := count_of (perIP s) k + 1]> (perIP s)) (rejected s)
     (lastLogAt s) (allowed s) (<[issued s := k]> (slots s)) (S (issued s)))
     = (if String.eqb k' k then 1 else 0) + charged k' s).
  { intros k'. unfold charged, held. cbn [slots].
    rewrite (count_if_Permutation _ _ _ (held_insert _ _ k F)). cbn [count_if]. destruct (String.eqb k' k); lia. }
  split; cbn [conns perIP slots issued].
  - unfold held in *. cbn [slots]. rewrite (Permutation_length (held_insert _ _ k F)). cbn [length]. lia.
  - intros k'. rewrite C, count_of_insert. destruct (String.eqb_spec k' k) as [-> |]; rewrite W2; lia.
  - intros k' n [[<- <-] | [_ L]]%lookup_insert_Some; [| by eapply W3]. rewrite W2. pose proof (charged_nonneg k s). lia.
  - lia.
  - intros k'. rewrite C. destruct (String.eqb_spec k' k) as [-> |]; [| specialize (W5 k'); lia]. rewrite W2 in G2. lia.
  - intros id k' [[<- _] | [_ L]]%lookup_insert_Some; [lia |]. specialize (W6 _ _ L). lia.
Qed.

Lemma release_wf id s : ctrl_wf s -> ctrl_wf (release id s).
Proof.
  intros [W1 W2 W3 W4 W5 W6]. unfold release. destruct (slots s !! id) as [k |] eqn:L; [| by split].
  set (n := count_of (perIP s) k - 1).
  set (m' := if n <=? 0 then delete k (perIP s) else <[k := n]> (perIP s)).
  set (s' := mkControl (conns s - 1) m' (rejected s) (lastLogAt s) (allowed s) (delete id (slots s)) (issued s)).
  assert (C : forall k', charged k' s = (if String.eqb k' k then 1 else 0) + charged k' s').
  { intros k'. unfold charged, held, s'. cbn [slots].
    rewrite (count_if_Permutation _ _ _ (held_delete _ _ k L)). cbn [count_if]. destruct (String.eqb k' k); lia. }
  pose proof (C k) as Ck. rewrite String.eqb_refl in Ck. pose proof (charged_nonneg k s') as Nn.
  assert (Hn : n = charged k s') by (unfold n; rewrite W2; lia).
  split; cbn [conns perIP slots issued s'].
  - rewrite W1. unfold held in *. cbn [slots s']. rewrite (Permutation_length (held_delete _ _ k L)). cbn [length]. lia.
  - intros k'. specialize (C k'). unfold m'.
    destruct (Z.leb_spec n 0); rewrite ?count_of_delete, ?count_of_insert;
      destruct (String.eqb_spec k' k) as [E |]; rewrite ?W2, ?E in *; lia.
  - intros k' v E. unfold m' in E. destruct (Z.leb_spec n 0).
    + apply lookup_delete_Some in E as [_ E]. by eapply W3.
    + apply lookup_insert_Some in E as [[<- <-] | [_ E]]; [lia | by eapply W3].
  - lia.
  - intros k'. specialize (C k'). specialize (W5 k'). destruct (String.eqb k' k); lia.
  - intros id' k' [_ E]%lookup_delete_Some. by eapply W6.
Qed.

Lemma note_wf now s : ctrl_wf s -> ctrl_wf (noteRejection now s).1.
Proof. intros [? ? ? ? ? ?]. unfold noteRejection. case_match; by split. Qed.

#[local] Hint Resolve listen_wf admit_wf release_wf note_wf : core.

Lemma gate_wf now v remote s : ctrl_wf s -> ctrl_wf (gateConn now v remote s).1.2.
Proof.
  intros W. unfold gateConn. pose proof (admit_wf remote s W) as A. pose proof (note_wf now s W) as N.
  destruct v; cbn [negb]; [| by destruct (noteRejection now s)].
  destruct (sourceAllowed remote s); cbn [negb]; [| by destruct (noteRejection now s)].
  destruct (admitConn remote s) as [[id |] s1]; [done |]. pose proof (note_wf now s1 A) as N1.
  by destruct (noteRejection now s1).
Qed.

Lemma step_wf s e : ctrl_wf s -> ctrl_wf (ctrl_step s e).
Proof. destruct e; cbn [ctrl_step]; auto using gate_wf. Qed.

Lemma run_wf es s : ctrl_wf s -> ctrl_wf (ctrl_run es s).
Proof. revert s. induction es as [| e es IH]; intros s W; [done |]. apply IH, step_wf, W. Qed.

(** ** Releases are final *)

(** A number handed out whose release has run. *)
Definition gone (id : nat) (s : ControlServer) : Prop := (id < issued s)%nat /\ slots s !! id = None.

Lemma admit_gone remote id s : gone id s -> gone id (admitConn remote s).2.
Proof.
  intros [I N]. unfold admitConn. destruct (_ || _); cbn [snd]; [done |]. split; cbn [issued slots]; [lia |].
  by rewrite lookup_insert_ne by lia.
Qed.

Lemma note_gone now id s : gone id s -> gone id (noteRejection now s).1.
Proof. intros G. unfold noteRejection. by case_match. Qed.

Lemma release_gone id' id s : gone id s -> gone id (release id' s).
Proof.
  intros [I N]. unfold release. destruct (slots s !! id') as [k |] eqn:L; [| done]. split; cbn [issued slots]; [done |].
  rewrite lookup_delete_ne; [done | congruence].
Qed.

Lemma step_gone id s e : gone id s -> gone id (ctrl_step s e).
Proof.
  intros G. destruct e as [now v remote | id' | id']; cbn [ctrl_step]; [| by apply release_gone ..].
  unfold gateConn. pose proof (admit_gone remote id s G) as A. pose proof (note_gone now id s G) as N.
  destruct v; cbn [negb]; [| by destruct (noteRejection now s)].
  destruct (sourceAllowed remote s); cbn [negb]; [| by destruct (noteRejection now s)].
  destruct (admitConn remote s) as [[i |] s1]; [done |]. pose proof (note_gone now id s1 A) as N1.
  by destruct (noteRejection now s1).
Qed.

Lemma run_gone id es s : gone id s -> gone id (ctrl_run es s).
Proof. revert s. induction es as [| e es IH]; intros s W; [done |]. apply IH, step_gone, W. Qed.

Lemma release_makes_gone id s : (id < issued s)%nat -> gone id (release id s).
Proof.
  intros I. unfold release. destruct (slots s !! id) as [k |] eqn:L; [| done].
  split; cbn [issued slots]; [done | apply lookup_delete_eq].
Qed.

(** C16. The connection accounting is exact.  After any sequence of dials and
    endings (a connection's context and its serving goroutine each release it,
    in any order and any number of times) the global counter is the number of
    connections not yet released, each source's counter is the number of those
    charged to it, no counter is kept at zero, and neither ceiling is ever
    passed.  A connection that ended once holds nothing ever again, and when
    all have ended both counters are empty. *)
Theorem control_slots_exact (allow : list Prefix) (es : list CtrlEvent) (s : ControlServer) :
  ctrl_run es (ListenControl allow) = s ->
  conns s = Z.of_nat (size (slots s)) /\ conns s <= maxCtrlConns /\
  (forall k, perIP s !! k = (if charged k s =? 0 then None else Some (charged k s)) /\ charged k s <= maxCtrlConnsPerIP) /\
  (forall id e es', (id < issued s)%nat -> e = ContextCancelled id \/ e = ServingReturns id ->
     slots (ctrl_run (e :: es') s) !! id = None) /\
  (slots s = ∅ -> conns s = 0 /\ perIP s = ∅).
Proof.
  intros <-. set (s := ctrl_run es (ListenControl allow)).
  assert (W : ctrl_wf s) by apply run_wf, listen_wf. destruct W as [W1 W2 W3 W4 W5 W6].
  assert (P : forall k, perIP s !! k = (if charged k s =? 0 then None else Some (charged k s))).
  { intros k. pose proof (W2 k) as E. unfold count_of in E. destruct (perIP s !! k) as [n |] eqn:L; cbn in E.
    - specialize (W3 _ _ L). destruct (Z.eqb_spec (charged k s) 0); [lia | congruence].
    - rewrite <- E. done. }
  split; [| split; [done | split; [done | split]]].
  - rewrite W1. unfold held. by rewrite length_fmap, length_map_to_list.
  - intros id e es' I [-> | ->]; cbn [ctrl_run foldl ctrl_step];
      apply (run_gone id es' _ (release_makes_gone id s I)).
  - intros E. unfold charged, held in *. rewrite E, map_to_list_empty in *. split; [done |].
    apply map_empty. intros k. by rewrite P.
Qed.

(** ** Fair shares *)

Lemma count_if_none {A} (P : A -> bool) l : (forall x, x ∈ l -> P x = false) -> count_if P l = 0%nat.
Proof.
  induction l as [| x l IH]; intros N; [done |]. cbn [count_if]. rewrite (N x) by apply list_elem_of_here.
  apply IH. intros y I. apply N. by apply list_elem_of_further.
Qed.

Lemma count_if_split (k : string) l :
  length l = (count_if (String.eqb k) l + length (List.filter (fun x => negb (String.eqb k x)) l))%nat.
Proof. induction l as [| x l IH]; [done |]. cbn. destruct (String.eqb k x); cbn; lia. Qed.

Lemma count_if_filter_le (k k' : string) l :
  (count_if (String.eqb k) (List.filter (fun x => negb (String.eqb k' x)) l) <= count_if (String.eqb k) l)%nat.
Proof. induction l as [| x l IH]; [done |]. cbn. destruct (String.eqb k' x); cbn; destruct (String.eqb k x); lia. Qed.

(** Keys drawn from [ks], each at most [m] times. *)
Lemma length_by_keys (m : nat) (ks l : list string) :
  (forall x, x ∈ l -> x ∈ ks) -> (forall k, (count_if (String.eqb k) l <= m)%nat) -> (length l <= m * length ks)%nat.
Proof.
  revert l. induction ks as [| k ks IH]; intros l S C.
  - destruct l as [| x l]; [cbn; lia |]. by specialize (S x (list_elem_of_here _ _)) as ?%not_elem_of_nil.
  - rewrite (count_if_split k l). pose proof (C k). cbn [length].
    assert (length (List.filter (fun x => negb (String.eqb k x)) l) <= m * length ks)%nat; [| lia].
    apply IH.
    + intros x [I E]%list_elem_of_In%filter_In. apply list_elem_of_In, S, elem_of_cons in I as [-> | I]; [| done].
      by rewrite String.eqb_refl in E.
    + intros k'. etransitivity; [apply count_if_filter_le | apply C].
Qed.

(** No small group of sources can lock another one out.  Whatever sequence
    of dials and endings came before, a source that passes the address checks
    and has fewer than sixteen open connections gets one, unless connections of
    at least sixteen other accounting keys are open. *)
Theorem control_fair_share (allow : list Prefix) (es : list CtrlEvent) (now : Z) (remote : NetAddr) (others : list string) :
  let s := ctrl_run es (ListenControl allow) in
  sourceAllowed remote s = true ->
  charged (FromAddr remote) s < maxCtrlConnsPerIP ->
  (forall id k, slots s !! id = Some k -> k = FromAddr remote \/ k ∈ others) ->
  (length others <= 15)%nat ->
  let '(got, s', line) := gateConn now true remote s in
  got = Some (issued s) /\ slots s' = <[issued s := FromAddr remote]> (slots s) /\
  charged (FromAddr remote) s' = charged (FromAddr remote) s + 1 /\ line = None.
Proof.
  intros s A C O L. assert (W : ctrl_wf s) by apply run_wf, listen_wf.
  pose proof W as [W1 W2 W3 W4 W5 W6]. set (k := FromAddr remote) in *.
  assert (Lo : (length (List.filter (fun x => negb (String.eqb k x)) (held s)) <= 16 * length others)%nat).
  { apply length_by_keys.
    - intros x [I E]%list_elem_of_In%filter_In. apply list_elem_of_In, list_elem_of_fmap in I as ([id x'] & -> & I).
      apply elem_of_map_to_list in I. cbn [snd] in *. apply O in I as [-> | I]; [| done]. by rewrite String.eqb_refl in E.
    - intros k'. etransitivity; [apply count_if_filter_le |]. specialize (W5 k'). unfold charged, maxCtrlConnsPerIP in W5. lia. }
  pose proof (count_if_split k (held s)) as Sp. unfold charged, maxCtrlConnsPerIP in C.
  unfold gateConn. cbn [negb]. rewrite A. cbn [negb]. unfold admitConn. fold k.
  destruct (Z.leb_spec maxCtrlConns (conns s)) as [G | G]; [unfold maxCtrlConns in G; lia |].
  destruct (Z.leb_spec maxCtrlConnsPerIP (count_of (perIP s) k)) as [G2 | G2];
    [rewrite W2 in G2; unfold charged, maxCtrlConnsPerIP in G2; lia |].
  cbn [orb slots]. split; [done |]. split; [done |]. split; [| done]. unfold charged, held. cbn [slots].
  rewrite (count_if_Permutation _ _ _ (held_insert _ _ k (fresh_slot s W))). cbn [count_if]. rewrite String.eqb_refl. lia.
Qed.

(** ** Requests *)

Lemma take_s_fits n s : (slen s <= n)%nat -> take_s n s = s.
Proof.
  revert n. induction s as [| c s IH]; intros [| n] L; cbn in *; try done; try lia. f_equal. apply IH. lia.
Qed.

(** What the control listener hands to the handshake server.  Of a
    connection the TLS check accepted, with leaf key [pk], exactly the streams
    that ended cleanly within 8192 bytes become requests, whole and in order,
    each with the connection's address and with [pk] as its authenticated key.
    A longer stream is refused, never cut to a prefix that could be served. *)
Theorem control_requests_exact (remote : UDPAddr) (certs : list Leaf) (streams : list (option string)) :
  requireEd25519Client certs = None ->
  exists pk rest, certs = LeafEd25519 pk :: rest /\
  acceptStreams remote certs streams =
    map (fun p => mkRequest (Some remote) p pk)
      (omap (fun r => match r with
                      | Some p => if Z.of_nat (slen p) <=? maxControlReq then Some p else None
                      | None => None end) streams).
Proof.
  unfold requireEd25519Client, acceptStreams. destruct certs as [| [| | pk] rest]; try done. intros _.
  exists pk, rest. split; [done |]. cbn [clientKeyOf].
  induction streams as [| r st IH]; [done |]. cbn [stream_loop omap list_omap].
  destruct r as [p |]; [| done]. unfold readRequest.
  destruct (Z.leb_spec (Z.of_nat (slen p)) maxControlReq) as [Hl | Hg].
  - rewrite take_s_fits by (unfold maxControlReq in *; lia).
    destruct (Z.ltb_spec maxControlReq (Z.of_nat (slen p))); [lia |]. cbn [map]. f_equal. apply IH.
  - assert (E : slen (take_s (Z.to_nat (maxControlReq + 1)) p) = Z.to_nat (maxControlReq + 1)).
    { rewrite slen_take. unfold maxControlReq in *. lia. }
    rewrite E. unfold maxControlReq. cbn. apply IH.
Qed.

(** ** On a small listener *)

Module ControlDemo.

Definition src (d : Z) : UDPAddr :=
  mkUDPAddr (String (byte_of 192) (String (byte_of 0) (String (byte_of 2) (String (byte_of d) "")))) 4000.

(** Two connections of one source and one of another; the second ends, both
    its context and its goroutine releasing it. *)
Definition events : list CtrlEvent :=
  [Dial 1 true (AUDP (src 1)); Dial 2 true (AUDP (src 1)); Dial 3 true (AUDP (src 2));
   ContextCancelled 1; ServingReturns 1].

Definition listener : ControlServer := ctrl_run events (ListenControl []).

Lemma listener_slots : map_to_list (slots listener) = [(2%nat, "192.0.2.2"%string); (0%nat, "192.0.2.1"%string)].
Proof. vm_compute. reflexivity. Qed.

Lemma control_slots_exact_witness :
  conns listener = Z.of_nat (size (slots listener)) /\ conns listener = 2 /\
  slots (ctrl_run [ServingReturns 0; ContextCancelled 0] listener) !! 0%nat = None.
Proof.
  destruct (control_slots_exact [] events listener eq_refl) as (C & _ & _ & R & _).
  split; [exact C |]. split; [vm_compute; reflexivity |].
  apply (R 0%nat (ServingReturns 0)); [vm_compute; lia | by right].
Defined.

Lemma control_fair_share_witness : (gateConn 9 true (AUDP (src 2)) listener).1.1 = Some 3%nat.
Proof.
  pose proof (control_fair_share [] events 9 (AUDP (src 2)) ["192.0.2.1"%string]) as T. cbn zeta in T. fold listener in T.
  destruct (gateConn 9 true (AUDP (src 2)) listener) as [[got s'] line].
  destruct T as [-> _].
  - vm_compute. reflexivity.
  - unfold charged, held. rewrite listener_slots. vm_compute. reflexivity.
  - intros id k L. apply elem_of_map_to_list in L. rewrite listener_slots in L.
    repeat (apply elem_of_cons in L as [L | L]; [injection L as -> -> |]);
      [left; vm_compute; reflexivity | right; apply list_elem_of_here | by apply not_elem_of_nil in L].
  - cbn. lia.
  - vm_compute. reflexivity.
Defined.

Lemma control_requests_exact_witness :
  acceptStreams (src 1) [LeafEd25519 "key"; LeafOther] [Some "register"; None; Some "poll"]
  = [mkRequest (Some (src 1)) "register" "key"; mkRequest (Some (src 1)) "poll" "key"].
Proof.
  destruct (control_requests_exact (src 1) [LeafEd25519 "key"; LeafOther] [Some "register"; None; Some "poll"] eq_refl)
    as (pk & rest & E & ->).
  injection E as <- _. reflexivity.
Defined.

(** A source refused by the allowlist is not counted, yet the line it may log
    reports the connection limit, with no refusal behind it. *)
Lemma allowlist_refusal_logs_limit :
  gateConn 9 true (AUDP (src 1)) (ListenControl [mkPrefix (Addr4 (IPof (src 9))) 32])
  = (None, mkControl 0 ∅ 0 9 [mkPrefix (Addr4 (IPof (src 9))) 32] ∅ 0, Some 0).
Proof. vm_compute. reflexivity. Qed.

End ControlDemo.
