(* ===== verification/Transport.v ===== *)
(** * Authenticated transports

    [internal/tunnel/quic.go] and the two ends of [internal/tunnel/control.go]:
    the TLS settings of the tunnel and of the control connection with what a
    handshake between two ends then proves, the listener of a tunnel over its
    life, and the way a control server closes.  Of [crypto/tls] the model has
    what these settings decide: a common protocol, the lowest version, whether
    a server asks for a certificate, whether a client checks the chain, when
    the verification callback and the proof of possession of the leaf's key are
    part of a handshake, and when they are not because a session is resumed. *)

From S2P Require Import Prelude Base64 NetAddr Crypto HsRegistry Authz Handshake Control.

(** ** TLS settings *)

Inductive ClientAuth := NoClientCert | RequireAnyClientCert.

Record TLSConfig := mkTLS {
  tc_cert : string;                           (* the private key of the own certificate *)
  tc_auth : ClientAuth;
  tc_skip : bool;                             (* InsecureSkipVerify *)
  tc_min13 : bool;
  tc_protos : list string;
  tc_verify : list Leaf -> option CertErr;
  tc_tickets : bool;                          (* not SessionTicketsDisabled *)
  tc_cache : bool;                            (* ClientSessionCache is set *)
}.

Definition ALPN : string := "buddynet/1".
Definition controlALPN : string := "buddynet-ctrl/1".

Section TLS.
Context `{Ed25519}.

Definition selfSignedCert (priv : string) : list Leaf := [LeafEd25519 (pub_of priv)].

(** The tunnel, the same at both ends. *)
Definition tlsConfig (priv partnerPub : string) : TLSConfig :=
  mkTLS priv RequireAnyClientCert true true [ALPN] (pinnedPeerVerify partnerPub) false false.

(** The control connection: a buddy pins the server, the server takes any
    Ed25519 identity. *)
Definition dial_tls (priv serverPub : string) : TLSConfig :=
  mkTLS priv NoClientCert true true [controlALPN] (pinnedPeerVerify serverPub) false false.
Definition listen_tls (priv : string) : TLSConfig :=
  mkTLS priv RequireAnyClientCert false true [controlALPN] requireEd25519Client false false.

(** An end as the other one meets it: the certificates it presents, whether
    they chain to an authority this host trusts for the name, the keys it can
    sign with, its protocols, whether it speaks TLS 1.3, and whether it comes
    with a session of an earlier connection. *)
Record Party := mkParty {
  pa_certs : list Leaf; pa_chain : bool; pa_holds : string -> Prop; pa_protos : list string; pa_v13 : bool; pa_ticket : bool;
}.

(** A node of ours presents its own certificate, which no authority signed. *)
Definition party (c : TLSConfig) : Party :=
  mkParty (selfSignedCert (tc_cert c)) false (fun pub => pub = pub_of (tc_cert c)) (tc_protos c) true false.

(** The end shows that it holds the key of its leaf; one with a key of another
    kind has nothing of ours to show. *)
Definition proves (p : Party) : Prop :=
  match pa_certs p with LeafEd25519 pub :: _ => pa_holds p pub | _ => True end.

(** A session is resumed when tickets are on and, at a client, sessions are
    kept: no certificate is exchanged and the callback does not run. *)
Definition resumes (c : TLSConfig) (server : bool) (p : Party) : Prop :=
  tc_tickets c && (server || tc_cache c) && pa_ticket p = true.

(** A full handshake.  A server that does not ask for a certificate learns
    nothing about its client, and its callback does not run; otherwise there
    is a certificate, its owner signs the transcript, a client that does not
    skip it checks the chain, and the callback decides. *)
Definition full_handshake (c : TLSConfig) (server : bool) (p : Party) : Prop :=
  match server, tc_auth c with
  | true, NoClientCert => True
  | _, _ => pa_certs p <> [] /\ proves p /\ server || tc_skip c || pa_chain p = true /\ tc_verify c (pa_certs p) = None
  end.

(** What an end with settings [c] requires of its peer before it sends or takes
    application data. *)
Definition accepts (c : TLSConfig) (server : bool) (p : Party) : Prop :=
  (exists a, a ∈ tc_protos c /\ a ∈ pa_protos p) /\ (tc_min13 c = true -> pa_v13 p = true) /\ (resumes c server p \/ full_handshake c server p).
End TLS.

(** ** The listener of a tunnel *)

(** [t.ln], the listeners of the transport that are open, how many were made,
    and whether the transport is closed. *)
Record QUICTransport := mkQuic { qt_ln : option nat; qt_open : gset nat; qt_made : nat; qt_closed : bool }.

Definition NewQUIC : QUICTransport := mkQuic None ∅ 0 false.

Definition keepAlive (idleTimeout : Z) : Z :=
  let k := Z.quot idleTimeout 4 in if k <? 5 * second then 5 * second else k.

(** [Listen]: the listener is made when there is none; a failed accept keeps it,
    a successful one hands it to a background close. *)
Definition Listen (listens accepts : bool) (t : QUICTransport) : bool * QUICTransport :=
  match (match qt_ln t with
         | Some n => Some (n, t)
         | None => if listens then Some (qt_made t, mkQuic (Some (qt_made t)) ({[ qt_made t ]} ∪ qt_open t) (S (qt_made t)) (qt_closed t)) else None
         end) with
  | None => (false, t)
  | Some (n, t1) => if accepts then (true, mkQuic None (qt_open t1) (qt_made t1) (qt_closed t1)) else (false, t1)
  end.

(** The background close of listener [n]; [Close] closes what is left. *)
Definition closes (n : nat) (t : QUICTransport) : QUICTransport := mkQuic (qt_ln t) (qt_open t ∖ {[ n ]}) (qt_made t) (qt_closed t).

Definition Close (t : QUICTransport) : QUICTransport :=
  mkQuic (qt_ln t) (match qt_ln t with Some n => qt_open t ∖ {[ n ]} | None => qt_open t end) (qt_made t) true.

(** An attempt is one call of [Listen]; a close finishes some time after the
    attempt that handed the listener over. *)
Inductive QuicEvent := Attempt (listens accepts : bool) | Background (n : nat).

Definition quic_step (t : QUICTransport) (e : QuicEvent) : QUICTransport :=
  match e with
  | Attempt l a => (Listen l a t).2
  | Background n => if bool_decide (qt_ln t = Some n) then t else closes n t
  end.

Definition quic_run (es : list QuicEvent) : QUICTransport := foldl quic_step NewQUIC es.

Definition succeeded (t : QUICTransport) (e : QuicEvent) : bool := match e with Attempt l a => (Listen l a t).1 | Background _ => false end.

(** ** Closing the control server *)

(** The channels of a server: a request that is offered, whether [done] is
    closed; closing a closed channel is Go's panic. *)
Record CtrlChans := mkChans { cc_once : bool; cc_done : bool; cc_panic : bool; cc_listener : bool; cc_offers : list nat }.

Definition open_chans : CtrlChans := mkChans false false false true [].

Definition CloseServer (c : CtrlChans) : CtrlChans :=
  if cc_once c then c
  else mkChans true true (cc_panic c || cc_done c) false (cc_offers c).

(** [Accept] returns one of what is ready; a reader that offers a request gives
    up when the server is closed. *)
Inductive Got := Req (r : nat) | ServerClosed | CtxDone.
#[export] Instance Got_eq_dec : EqDecision Got.
Proof. solve_decision. Defined.

Definition accept_ready (ctx : bool) (c : CtrlChans) : list Got :=
  (Req <$> cc_offers c) ++ (if cc_done c then [ServerClosed] else []) ++ (if ctx then [CtxDone] else []).

Definition take_offer (r : nat) (c : CtrlChans) : CtrlChans :=
  mkChans (cc_once c) (cc_done c) (cc_panic c) (cc_listener c) (filter (fun x => x <> r) (cc_offers c)).

Inductive ChanEvent := Offers (r : nat) | Takes (r : nat) | GivesUp (r : nat) | Closes.

Definition chan_step (e : ChanEvent) (c : CtrlChans) : option CtrlChans :=
  match e with
  | Offers r => if bool_decide (r ∈ cc_offers c) then None else Some (mkChans (cc_once c) (cc_done c) (cc_panic c) (cc_listener c) (r :: cc_offers c))
  | Takes r => if bool_decide (Req r ∈ accept_ready false c) then Some (take_offer r c) else None
  | GivesUp r => if cc_done c && bool_decide (r ∈ cc_offers c) then Some (take_offer r c) else None
  | Closes => Some (CloseServer c)
  end.

Fixpoint chan_run (es : list ChanEvent) (c : CtrlChans) : option CtrlChans :=
  match es with [] => Some c | e :: r => c' ← chan_step e c; chan_run r c' end.

(** ** What a handshake proves *)

Section Proofs.
Context `{Ed25519}.

Lemma pinned_leaf want certs : pinnedPeerVerify want certs = None <-> exists r, certs = LeafEd25519 want :: r.
Proof.
  unfold pinnedPeerVerify. split.
  - destruct certs as [| [] r]; cbn; try done. destruct (String.eqb_spec pub want) as [-> |]; [eauto | done].
  - intros [r ->]. cbn. by rewrite String.eqb_refl.
Qed.

Lemma shared_proto a b : (exists x : string, x ∈ [a] /\ x ∈ [b]) <-> a = b.
Proof. setoid_rewrite list_elem_of_singleton. naive_solver. Qed.

(** With these settings every handshake is a full one with a certificate. *)
Lemma asked c server p :
  tc_tickets c = false -> server = false \/ tc_auth c = RequireAnyClientCert -> tc_min13 c = true ->
  accepts c server p <-> (exists a, a ∈ tc_protos c /\ a ∈ pa_protos p) /\ pa_v13 p = true /\
    pa_certs p <> [] /\ proves p /\ server || tc_skip c || pa_chain p = true /\ tc_verify c (pa_certs p) = None.
Proof.
  intros T A M. unfold accepts, resumes, full_handshake. rewrite T, M. cbn [andb].
  destruct server, (tc_auth c); destruct A; try done; naive_solver.
Qed.

(** What a pinned end knows of its peer. *)
Lemma pinned_end c server p want a :
  tc_tickets c = false -> server = false \/ tc_auth c = RequireAnyClientCert -> tc_min13 c = true ->
  tc_verify c = pinnedPeerVerify want -> tc_protos c = [a] ->
  accepts c server p -> pa_holds p want /\ a ∈ pa_protos p /\ pa_v13 p = true.
Proof.
  intros T A M V P. rewrite asked, V, P by done. intros ((b & ->%list_elem_of_singleton & I) & V13 & _ & Pr & _ & (r & E)%pinned_leaf).
  unfold proves in Pr. by rewrite E in Pr.
Qed.

(** Two ends of one purpose accept each other just when each expects the other. *)
Lemma pinned_meets c server priv want a :
  tc_tickets c = false -> server = false \/ tc_auth c = RequireAnyClientCert -> tc_min13 c = true -> tc_skip c = true ->
  tc_verify c = pinnedPeerVerify want -> tc_protos c = [a] -> tc_protos priv = [a] ->
  accepts c server (party priv) <-> want = pub_of (tc_cert priv).
Proof.
  intros T A M K V P P'. rewrite asked, V, pinned_leaf, K, P by done. unfold proves, party, selfSignedCert. cbn. rewrite P'. split; [naive_solver |].
  intros ->. split_and!; [apply shared_proto; done | done | done | done | by rewrite orb_true_r | eauto].
Qed.

(** C24. A connection is with whom it says.  Whatever certificates and keys the
    other end has, and whether or not it comes with a session to resume, a
    tunnel that comes up, at its server end as at its client end, is over TLS
    1.3 and with a holder of the pinned partner's private key; a control
    connection is with a holder of the pinned server's, while the server learns
    a key its client holds; no handshake crosses from one purpose to the other.
    Among nodes of ours, whose certificates no authority signed, two ends of a
    tunnel meet if and only if each pins the other, and a buddy meets exactly
    the server it pinned, so the checks never refuse the right peer either. *)
Theorem connections_are_pinned priv partner server_pub server p :
  (accepts (tlsConfig priv partner) server p -> pa_holds p partner /\ ALPN ∈ pa_protos p /\ pa_v13 p = true) /\
  (accepts (dial_tls priv server_pub) false p -> pa_holds p server_pub /\ controlALPN ∈ pa_protos p /\ pa_v13 p = true) /\
  (accepts (listen_tls priv) true p -> exists pub, clientKeyOf (pa_certs p) = Ok pub /\ pa_holds p pub) /\
  (forall privB partnerB,
     accepts (tlsConfig priv partner) true (party (tlsConfig privB partnerB)) /\ accepts (tlsConfig privB partnerB) false (party (tlsConfig priv partner)) <->
     partner = pub_of privB /\ partnerB = pub_of priv) /\
  (forall privS, accepts (dial_tls priv server_pub) false (party (listen_tls privS)) /\ accepts (listen_tls privS) true (party (dial_tls priv server_pub)) <->
     server_pub = pub_of privS) /\
  forall privS, ~ accepts (tlsConfig priv partner) server (party (listen_tls privS)) /\ ~ accepts (listen_tls privS) server (party (tlsConfig priv partner)).
Proof.
  split_and!.
  - apply pinned_end; auto.
  - apply pinned_end; auto.
  - rewrite asked by auto. intros (_ & _ & _ & Pr & _ & V). cbn in V. unfold requireEd25519Client, proves in *.
    destruct (pa_certs p) as [| [] r]; try done. by exists pub.
  - intros privB partnerB. rewrite (pinned_meets _ _ _ partner ALPN), (pinned_meets _ _ _ partnerB ALPN) by auto. done.
  - intros privS. rewrite (pinned_meets _ _ _ server_pub controlALPN), asked by auto. cbn. split; [by intros [? _] |]. intros ->. split; [done |].
    split_and!; try done. exists controlALPN. split; by left.
  - intros privS. unfold accepts. cbn. rewrite !shared_proto. split; by intros [? _].
Qed.
End Proofs.

(** ** What listens *)

Record quic_inv (t : QUICTransport) (wins : nat) : Prop := {
  qi_cur : forall n, qt_ln t = Some n -> n ∈ qt_open t;
  qi_new : forall n, n ∈ qt_open t -> (n < qt_made t)%nat;
  qi_made : (qt_made t <= wins + match qt_ln t with Some _ => 1 | None => 0 end)%nat;
}.

Lemma quic_step_inv t e wins : quic_inv t wins -> quic_inv (quic_step t e) (wins + if succeeded t e then 1 else 0).
Proof.
  intros [C N M]. destruct e as [l a | n]; cbn [quic_step succeeded].
  - unfold Listen. destruct (qt_ln t) as [m |] eqn:L.
    + destruct a; cbn [fst snd]; [split; cbn; [done | done | lia] |]. split; rewrite ?L; [done | done | lia].
    + destruct l; cbn [fst snd]; [| split; rewrite ?L; [done | done | lia]].
      assert (N' : forall k, k ∈ {[ qt_made t ]} ∪ qt_open t -> (k < S (qt_made t))%nat)
        by (intros k [->%elem_of_singleton | K%N]%elem_of_union; lia).
      destruct a; cbn [fst snd]; split; cbn [qt_ln qt_open qt_made]; [done | done | lia | | done | lia].
      intros k [= <-]. apply elem_of_union_l. by apply elem_of_singleton.
  - rewrite Nat.add_0_r. case_bool_decide as D; [done |]. split; cbn; [| set_solver | done]. intros k K. pose proof (C k K).
    assert (k <> n) by congruence. set_solver.
Qed.

Fixpoint wins (es : list QuicEvent) (t : QUICTransport) : nat :=
  match es with [] => 0 | e :: r => (if succeeded t e then 1 else 0) + wins r (quic_step t e) end.

Lemma quic_run_inv es : forall t w, quic_inv t w -> quic_inv (foldl quic_step t es) (w + wins es t).
Proof.
  induction es as [| e es IH]; intros t w Hi; cbn [foldl wins]; [by rewrite Nat.add_0_r |].
  rewrite Nat.add_assoc. apply IH. by apply quic_step_inv.
Qed.

Lemma background_all ns : forall t,
  qt_ln (foldl quic_step t (Background <$> ns)) = qt_ln t /\
  forall n, n ∈ qt_open (foldl quic_step t (Background <$> ns)) <-> n ∈ qt_open t /\ (n ∉ ns \/ qt_ln t = Some n).
Proof.
  induction ns as [| m ns IH]; intros t; cbn [fmap list_fmap foldl]; [split; [done |]; intros n; rewrite elem_of_nil; tauto |].
  destruct (IH (quic_step t (Background m))) as [L O]. cbn [quic_step] in *.
  assert (E : qt_ln (if bool_decide (qt_ln t = Some m) then t else closes m t) = qt_ln t) by (by case_bool_decide).
  split; [congruence |]. intros n. rewrite O, E. rewrite not_elem_of_cons. case_bool_decide as D; cbn [closes qt_open].
  - destruct (decide (n = m)) as [-> |]; tauto.
  - rewrite elem_of_difference, elem_of_singleton. destruct (decide (n = m)) as [-> |]; tauto.
Qed.

(** A tunnel that is up leaves no door open.  Over any sequence of attempts,
    successful and not, and of background closes in any order: a listener that
    is needed is open, no more listeners are made than attempts that succeeded
    and one, and once the closes have run at most the one the next attempt will
    reuse is open, none at all if the last attempt succeeded. *)
Theorem listener_closed_after_success es :
  let t := quic_run es in
  (forall n, qt_ln t = Some n -> n ∈ qt_open t) /\ (qt_made t <= wins es NewQUIC + 1)%nat /\
  (forall n, n ∈ qt_open (foldl quic_step t (Background <$> seq 0 (qt_made t))) <-> qt_ln t = Some n) /\
  forall l a, succeeded t (Attempt l a) = true ->
    let t' := quic_step t (Attempt l a) in qt_open (foldl quic_step t' (Background <$> seq 0 (qt_made t'))) = ∅.
Proof.
  cbn zeta. set (t := quic_run es). assert (Hi : quic_inv t (0 + wins es NewQUIC)) by (apply quic_run_inv; split; cbn; [done | set_solver | lia]).
  assert (All : forall t w, quic_inv t w -> forall n, n ∈ qt_open (foldl quic_step t (Background <$> seq 0 (qt_made t))) <-> qt_ln t = Some n).
  { intros u w Hu n. rewrite (proj2 (background_all _ _)), elem_of_seq. split.
    - intros [I%(qi_new _ _ Hu) [C | C]]; [lia | done].
    - intros E. split; [by apply (qi_cur _ _ Hu) | by right]. }
  split_and!; [apply Hi | pose proof (qi_made _ _ Hi); destruct (qt_ln t); lia | by eapply All |].
  intros l a S. apply set_eq. intros n. rewrite (All _ _ (quic_step_inv _ (Attempt l a) _ Hi)). cbn [quic_step succeeded] in *.
  unfold Listen in *. split; [| set_solver]. destruct (qt_ln t); [by destruct a | destruct l; [by destruct a | done]].
Qed.

(** ** Closing twice *)

(** However often and whenever the server is closed, no channel is closed
    twice, and from the first close on [Accept] has an answer and every reader
    that still offers a request can give it up. *)
Theorem control_close_once es c :
  chan_run es open_chans = Some c ->
  cc_panic c = false /\ (Closes ∈ es <-> cc_done c = true) /\
  (Closes ∈ es -> ServerClosed ∈ accept_ready false c /\ cc_listener c = false /\ forall r, r ∈ cc_offers c -> exists c', chan_step (GivesUp r) c = Some c' /\ r ∉ cc_offers c').
Proof.
  assert (G : forall es c0 c, chan_run es c0 = Some c -> cc_panic c0 = false -> cc_once c0 = cc_done c0 -> cc_listener c0 = negb (cc_done c0) ->
            cc_panic c = false /\ cc_listener c = negb (cc_done c) /\ (cc_done c = true <-> cc_done c0 = true \/ Closes ∈ es)).
  { clear. induction es as [| e es IH]; intros c0 c; cbn [chan_run]; [intros [= <-]; set_solver |].
    destruct (chan_step e c0) as [c1 |] eqn:E; [| done]. cbn. intros R P O L.
    assert (K : cc_panic c1 = false /\ cc_once c1 = cc_done c1 /\ cc_listener c1 = negb (cc_done c1) /\ (cc_done c1 = true <-> cc_done c0 = true \/ Closes = e)).
    { destruct e; cbn [chan_step] in E; repeat case_match; simplify_eq; cbn; try (split_and!; [done | done | done | naive_solver]).
      unfold CloseServer. rewrite O. destruct (cc_done c0) eqn:D; cbn; [split_and!; [done | congruence | by rewrite L, D | naive_solver] | split_and!; [by rewrite P | done | done | naive_solver]]. }
    destruct K as (P1 & O1 & L1 & D1). destruct (IH _ _ R P1 O1 L1) as (P2 & L2 & D2). split_and!; [done | done |]. rewrite D2, D1, elem_of_cons. naive_solver. }
  intros R. destruct (G _ _ _ R) as (P & L & D); try done. assert (Q : cc_done c = true <-> Closes ∈ es) by (rewrite D; naive_solver).
  split_and!; [done | naive_solver |]. intros I%Q. rewrite L, I. split_and!; [unfold accept_ready; rewrite I; set_solver | done |].
  intros r Hr. exists (take_offer r c). cbn [chan_step]. rewrite I, bool_decide_eq_true_2 by done. split; [done |]. cbn. rewrite list_elem_of_filter. naive_solver.
Qed.

(** ** Two buddies and a stranger *)

Module TransportDemo.
#[local] Existing Instance Crypto.Toy.toy_ed.

Definition alice : TLSConfig := tlsConfig "alice" (pub_of "bob").
Definition bob : TLSConfig := tlsConfig "bob" (pub_of "alice").

(** It shows the certificate of bob without holding its key, or none at all, and
    has a session to resume. *)
Definition stranger (certs : list Leaf) : Party := mkParty certs true (fun pub => pub = pub_of "mallory") [ALPN; controlALPN] true true.

Lemma connections_are_pinned_witness :
  accepts alice true (party bob) /\ accepts bob false (party alice) /\
  (forall certs server, ~ accepts alice server (stranger certs)) /\
  accepts (listen_tls "server") true (party (dial_tls "alice" (pub_of "server"))).
Proof.
  destruct (connections_are_pinned "alice" (pub_of "bob") (pub_of "server") true (party bob)) as (_ & _ & _ & M & S & _).
  destruct (M "bob" (pub_of "alice")) as [_ [M1 M2]]; [split; reflexivity |].
  destruct (S "server") as [_ [_ S2]]; [reflexivity |]. split_and!; [exact M1 | exact M2 | | exact S2].
  intros certs server A. destruct (connections_are_pinned "alice" (pub_of "bob") "" server (stranger certs)) as (P & _).
  destruct (P A) as [Q _]. vm_compute in Q. discriminate Q.
Defined.

(** What the settings are for: a tunnel that did not ask its client for a
    certificate, or that resumed sessions, would let the stranger in. *)
Definition unasked : TLSConfig := mkTLS "alice" NoClientCert true true [ALPN] (pinnedPeerVerify (pub_of "bob")) false false.
Definition resuming : TLSConfig := mkTLS "alice" RequireAnyClientCert true true [ALPN] (pinnedPeerVerify (pub_of "bob")) true false.

Lemma settings_matter : accepts unasked true (stranger []) /\ accepts resuming true (stranger []).
Proof. split; (split; [exists ALPN; split; by left |]); (split; [done |]); [by right | by left]. Qed.
End TransportDemo.
