(* ===== verification/PeerCache.v ===== *)
(** * The peer cache and the names of peers

    [internal/peer/registry.go] and [discovery.go]: what a buddy remembers of its
    partners across runs, and which of them owns a name.
    [internal/dns/resolver.go] and the query handler of [server.go]: what those
    names resolve to. *)

From S2P Require Import Prelude Base64 Sha256 Json NetAddr NetParse Crypto Protocol HsRegistry Register.

(** ** The cache *)

(** [peers.json] as reading it finds it; [Roster l] stands for the JSON text of
    the list [l].  The encoding and decoding of that text are not modelled: what
    was written for a list is read back as that list. *)
Inductive CacheFile := CacheMissing | CacheUnreadable | CacheCorrupt | Roster (l : list Peer).

Record Registry := mkRegistry {
  rg_path : bool; rg_peers : gmap string Peer; nameByKey : gmap string string; keyByName : gmap string string;
}.

Definition with_name (p : Peer) (name : string) : Peer :=
  mkPeer (p_ID p) (p_PubKey p) (p_VirtualIP p) name (p_Candidates p) (p_Relay p) (p_LastSeen p).

Definition with_seen (p : Peer) (t : Z) : Peer :=
  mkPeer (p_ID p) (p_PubKey p) (p_VirtualIP p) (p_Name p) (p_Candidates p) (p_Relay p) t.

Definition empty_registry (path : bool) : Registry := mkRegistry path ∅ ∅ ∅.

(** One entry of the file. *)
Definition open_row (r : Registry) (p : Peer) : Registry :=
  if String.eqb (p_PubKey p) "" then r
  else
    let peers := <[p_PubKey p := p]> (rg_peers r) in
    if negb (String.eqb (p_Name p) "")
    then mkRegistry (rg_path r) peers (<[p_PubKey p := p_Name p]> (nameByKey r)) (<[p_Name p := p_PubKey p]> (keyByName r))
    else mkRegistry (rg_path r) peers (nameByKey r) (keyByName r).

(** [None] where the file cannot be read. *)
Definition Open (path : bool) (f : CacheFile) : option Registry :=
  if negb path then Some (empty_registry path)
  else match f with
       | CacheMissing | CacheCorrupt => Some (empty_registry path)
       | CacheUnreadable => None
       | Roster l => Some (foldl open_row (empty_registry path) l)
       end.

(** Names are pinned on first use: the name to store, and the pins after. *)
Definition pinNameLocked (pubkey name : string) (r : Registry) : string * Registry :=
  if String.eqb name "" then (default "" (nameByKey r !! pubkey), r)
  else match nameByKey r !! pubkey with
       | Some pinned => (pinned, r)
       | None =>
           let pin := (name, mkRegistry (rg_path r) (rg_peers r) (<[pubkey := name]> (nameByKey r)) (<[name := pubkey]> (keyByName r))) in
           match keyByName r !! name with
           | Some owner => if negb (String.eqb owner pubkey) then ("", r) else pin
           | None => pin
           end
       end.

(** [list]: sorted by id.  The order of equal ids is left open by [sort.Slice];
    no theorem depends on it. *)
Definition reg_list (r : Registry) : list Peer := merge_sort peer_le ((map_to_list (rg_peers r)).*2).

Definition reg_get (pubkey : string) (r : Registry) : option Peer := rg_peers r !! pubkey.

(** [save]: whether the write went through, and the file after; [io] is the
    outcome of the directory, the encoding and the atomic replacement. *)
Definition save (io : bool) (l : list Peer) (r : Registry) (f : CacheFile) : bool * CacheFile :=
  if negb (rg_path r) then (true, f) else if io then (true, Roster l) else (false, f).

(** [Upsert] at the second [now]. *)
Definition Upsert (now : Z) (io : bool) (p : Peer) (r : Registry) (f : CacheFile) : bool * Registry * CacheFile :=
  let p1 := if p_LastSeen p =? 0 then with_seen p now else p in
  let '(name, r1) := pinNameLocked (p_PubKey p1) (p_Name p1) r in
  let p2 := with_name p1 name in
  let r2 := mkRegistry (rg_path r1) (<[p_PubKey p2 := p2]> (rg_peers r1)) (nameByKey r1) (keyByName r1) in
  let '(ok, f') := save io (reg_list r2) r2 f in
  (ok, r2, f').

(** [rememberPeer] of [internal/role/connect.go]: a failed write costs the
    cache on disk, nothing else. *)
Definition rememberPeer (now : Z) (io : bool) (p : Peer) (r : Registry) (f : CacheFile) : Registry * CacheFile :=
  if String.eqb (p_PubKey p) "" then (r, f)
  else let '(_, r', f') := Upsert now io p r f in (r', f').

(** What happens to the cache: a partner is remembered, or the process starts
    again and reads the file. *)
Inductive CacheEvent := Remembered (now : Z) (io : bool) (p : Peer) | Restarted.

Definition cache_step (s : Registry * CacheFile) (e : CacheEvent) : Registry * CacheFile :=
  match e with
  | Remembered now io p => rememberPeer now io p s.1 s.2
  | Restarted => match Open (rg_path s.1) s.2 with Some r => (r, s.2) | None => s end
  end.

Definition cache_run (es : list CacheEvent) (s : Registry * CacheFile) : Registry * CacheFile := foldl cache_step s es.

Definition shortKey (pubkey : string) : string := if (slen pubkey <=? 8)%nat then pubkey else take_s 8 pubkey.

(** [Fresh] at the instant [now], in nanoseconds like [ttl]. *)
Definition Fresh (now ttl : Z) (p : Peer) : bool :=
  if p_LastSeen p =? 0 then false else now - of_unix (p_LastSeen p) <=? ttl.

(** ** Resolution *)

Definition buddyTLD : string := ".buddy".

(** [strings.TrimSuffix] *)
Fixpoint trim_suffix (suf s : string) : option string :=
  if String.eqb s suf then Some ""
  else match s with EmptyString => None | String c r => String c <$> trim_suffix suf r end.

Definition lower_char (c : Ascii.ascii) : Ascii.ascii := if between 65 90 c then byte_of (byte_val c + 32) else c.

Fixpoint lower_ascii (s : string) : string :=
  match s with EmptyString => "" | String c r => String (lower_char c) (lower_ascii r) end.

Section Resolver.
(** [strings.ToLower] of a text that is not plain ASCII; a query name never
    is, the DNS library escapes other bytes. *)
Context (lower_unicode : string -> string).

Definition ToLower (s : string) : string := if all_chars is_ascii s then lower_ascii s else lower_unicode s.

Definition Resolve (table : gmap string Addr) (qname : string) : option Addr :=
  let q := ToLower qname in
  let q := default q (trim_suffix "." q) in
  match trim_suffix buddyTLD q with
  | None => None
  | Some label => if String.eqb label "" || contains_char "." label then None else table !! label
  end.

(** The alias of a peer that has no name: [Protocol.fp8] of the key's text. *)
Definition fingerprint (pubkeyB64 : string) : string := take_s 8 (hex (sha256 pubkeyB64)).

(** An address may carry a zone; the table keeps the address. *)
Definition table_row (t : gmap string Addr) (p : Peer) : gmap string Addr :=
  match ParseAddr (p_VirtualIP p) with
  | None => t
  | Some (ip, _) =>
      <[fingerprint (p_PubKey p) := ip]> (if negb (String.eqb (p_Name p) "") then <[p_Name p := ip]> t else t)
  end.

Definition BuildTable (peers : list Peer) (selfName : string) (selfIP : option Addr) : gmap string Addr :=
  let t := foldl table_row ∅ peers in
  match selfIP with
  | Some ip => if negb (String.eqb selfName "") then <[selfName := ip]> t else t
  | None => t
  end.

(** The reply to one query: none asked, a name that does not exist, or one A
    record for the name as asked. *)
Inductive DnsReply := NoAnswer | NameError | Answer (a : Addr).

Definition handleBuddy (question : option (string * bool)) (r : Registry) (selfName : string) (selfIP : option Addr) : DnsReply :=
  match question with
  | None => NoAnswer
  | Some (name, is_A) =>
      if negb is_A then NameError
      else match Resolve (BuildTable (reg_list r) selfName selfIP) name with
           | None => NameError
           | Some a => Answer a
           end
  end.
End Resolver.
