(* ===== verification/PeerCacheProps.v ===== *)
(** * The peer cache: names are owned, survive restarts and resolve to their
    owner's address *)

From S2P Require Import Prelude Base64 Sha256 Json NetAddr NetParse Crypto Protocol HsRegistry Register PeerCache.

(** ** Pins and peers agree *)

Record reg_wf (r : Registry) : Prop := {
  rw_key : forall k p, rg_peers r !! k = Some p -> p_PubKey p = k;
  rw_name : forall k p, rg_peers r !! k = Some p -> p_Name p = default "" (nameByKey r !! k);
  rw_known : forall k n, nameByKey r !! k = Some n -> n <> "" /\ is_Some (rg_peers r !! k);
  rw_inverse : forall k n, nameByKey r !! k = Some n <-> keyByName r !! n = Some k;
}.

Lemma empty_wf path : reg_wf (empty_registry path).
Proof. by split; cbn; intros; rewrite ?lookup_empty in *. Qed.

(** The name a key holds. *)
Definition name_of (k : string) (r : Registry) : string := default "" (nameByKey r !! k).

Lemma pin_inverse k n r :
  (forall k n, nameByKey r !! k = Some n <-> keyByName r !! n = Some k) ->
  nameByKey r !! k = None -> keyByName r !! n = None ->
  forall k' n', <[k := n]> (nameByKey r) !! k' = Some n' <-> <[n := k]> (keyByName r) !! n' = Some k'.
Proof.
  intros W Nk Nn k' n'. rewrite !lookup_insert_Some. split.
  - intros [[<- <-] | [D L]]; [by left |]. right. split; [| by apply W]. intros ->. apply W in L. congruence.
  - intros [[<- <-] | [D L]]; [by left |]. right. split; [| by apply W]. intros ->. apply W in L. congruence.
Qed.

(** What pinning does to a well-formed registry: the name stored is the one the
    key holds afterwards, and a name held before stays. *)
Lemma pinName_spec k n r :
  reg_wf r ->
  let '(name, r1) := pinNameLocked k n r in
  rg_path r1 = rg_path r /\ rg_peers r1 = rg_peers r /\ name = default "" (nameByKey r1 !! k) /\
  (forall k' n', nameByKey r1 !! k' = Some n' <-> keyByName r1 !! n' = Some k') /\
  (forall k' n', nameByKey r !! k' = Some n' -> nameByKey r1 !! k' = Some n') /\
  (forall k' n', nameByKey r1 !! k' = Some n' -> n' <> "" /\ (k' = k \/ is_Some (rg_peers r !! k'))) /\
  (forall k', k' <> k -> nameByKey r1 !! k' = nameByKey r !! k').
Proof.
  intros [W1 W2 W3 W4]. unfold pinNameLocked.
  assert (Keep : forall k' n', nameByKey r !! k' = Some n' -> n' <> "" /\ (k' = k \/ is_Some (rg_peers r !! k')))
    by (intros k' n' L; apply W3 in L as [? ?]; auto).
  destruct (String.eqb_spec n "") as [-> | Nn]; [by auto 10 |].
  destruct (nameByKey r !! k) as [pinned |] eqn:Lk; [by rewrite Lk; auto 10 |].
  destruct (keyByName r !! n) as [owner |] eqn:Ln.
  - apply W4 in Ln as Lo. destruct (String.eqb_spec owner k) as [-> | D]; [congruence |].
    cbn [negb]. rewrite Lk. auto 10.
  - cbn [rg_path rg_peers nameByKey keyByName]. rewrite lookup_insert_eq. split_and!; try done.
    + by apply pin_inverse.
    + intros k' n' L. rewrite lookup_insert_ne; [done | congruence].
    + intros k' n' [[<- <-] | [_ L]]%lookup_insert_Some; [auto | by apply Keep].
    + intros k' D. by rewrite lookup_insert_ne.
Qed.

Lemma Upsert_wf now io p r f : reg_wf r -> reg_wf (Upsert now io p r f).1.2.
Proof.
  intros W. unfold Upsert. set (p1 := if p_LastSeen p =? 0 then with_seen p now else p).
  assert (K : p_PubKey p1 = p_PubKey p) by (unfold p1; by destruct (_ =? _)).
  pose proof (pinName_spec (p_PubKey p1) (p_Name p1) r W) as S. destruct W as [W1 W2 W3 W4].
  destruct (pinNameLocked _ _ r) as [name r1]. destruct S as (_ & Ep & En & Inv & Mono & Kn & Oth).
  set (r2 := mkRegistry _ _ _ _). destruct (save io (reg_list r2) r2 f) as [ok f']. cbn [fst snd].
  split; cbn [rg_peers nameByKey keyByName r2 with_name p_PubKey p_Name]; rewrite ?Ep.
  - intros k q [[<- <-] | [_ L]]%lookup_insert_Some; [done | by apply W1].
  - intros k q [[<- <-] | [D L]]%lookup_insert_Some; [done |]. rewrite Oth by congruence. by apply W2.
  - intros k n L. apply Kn in L as [? [-> | [q L]]]; split; try done; [by rewrite lookup_insert_eq |].
    destruct (decide (k = p_PubKey p1)) as [-> | D]; [by rewrite lookup_insert_eq |].
    rewrite lookup_insert_ne by congruence. eauto.
  - apply Inv.
Qed.

Lemma Upsert_keeps_names now io p r f k n :
  reg_wf r -> nameByKey r !! k = Some n -> nameByKey (Upsert now io p r f).1.2 !! k = Some n.
Proof.
  intros W L. unfold Upsert. set (p1 := if p_LastSeen p =? 0 then with_seen p now else p).
  pose proof (pinName_spec (p_PubKey p1) (p_Name p1) r W) as S.
  destruct (pinNameLocked _ _ r) as [name r1]. destruct S as (_ & _ & _ & _ & Mono & _).
  set (r2 := mkRegistry _ _ _ _). destruct (save io (reg_list r2) r2 f). cbn. by apply Mono.
Qed.

(** ** Restarts *)

Lemma reg_list_elem r p : p ∈ reg_list r <-> exists k, rg_peers r !! k = Some p.
Proof.
  unfold reg_list. rewrite merge_sort_Permutation, list_elem_of_fmap. split.
  - intros ([k q] & -> & I). exists k. by apply elem_of_map_to_list in I.
  - intros [k L]. exists (k, p). split; [done |]. by apply elem_of_map_to_list.
Qed.

Lemma reg_list_keys r : reg_wf r -> NoDup (p_PubKey <$> reg_list r).
Proof.
  intros W. unfold reg_list. rewrite merge_sort_Permutation.
  assert (E : p_PubKey <$> (map_to_list (rg_peers r)).*2 = (map_to_list (rg_peers r)).*1).
  { rewrite <- list_fmap_compose. apply list_fmap_ext. intros i [k q] L. cbn.
    apply list_elem_of_lookup_2, elem_of_map_to_list in L. by apply (rw_key _ W). }
  rewrite E. apply NoDup_fst_map_to_list.
Qed.

(** The peers read back, entry by entry. *)
Lemma open_rows path l : forall r,
  rg_path r = path -> NoDup (p_PubKey <$> l) -> (forall p, p ∈ l -> p_PubKey p <> "") ->
  (forall p q, p ∈ l -> q ∈ l -> p_Name p = p_Name q -> p_Name p <> "" -> p = q) ->
  let r' := foldl open_row r l in
  rg_path r' = path /\
  (forall p, p ∈ l -> rg_peers r' !! p_PubKey p = Some p) /\
  (forall k, (forall p, p ∈ l -> p_PubKey p <> k) -> rg_peers r' !! k = rg_peers r !! k) /\
  (forall p, p ∈ l -> p_Name p <> "" -> nameByKey r' !! p_PubKey p = Some (p_Name p) /\ keyByName r' !! p_Name p = Some (p_PubKey p)) /\
  (forall k, (forall p, p ∈ l -> p_Name p <> "" -> p_PubKey p <> k) -> nameByKey r' !! k = nameByKey r !! k) /\
  (forall n, (forall p, p ∈ l -> p_Name p <> "" -> p_Name p <> n) -> keyByName r' !! n = keyByName r !! n).
Proof.
  induction l as [| p l IH]; intros r Hp Nd Nk Un; cbn [foldl].
  - split_and!; auto; intros q I; by apply not_elem_of_nil in I.
  - cbn in Nd. apply NoDup_cons in Nd as [Np Nd].
    assert (Np' : forall q, q ∈ l -> p_PubKey q <> p_PubKey p).
    { intros q I E. apply Np. rewrite <- E. apply list_elem_of_fmap. eauto. }
    assert (Nn : forall q, q ∈ l -> p_Name q = p_Name p -> p_Name p = "").
    { intros q I E. destruct (decide (p_Name p = "")); [done |]. destruct (Np' q I).
      f_equal. apply Un; [by right | by left | done | congruence]. }
    assert (Hk : p_PubKey p <> "") by (apply Nk; left).
    assert (R1 : rg_path (open_row r p) = path /\ rg_peers (open_row r p) = <[p_PubKey p := p]> (rg_peers r) /\
      nameByKey (open_row r p) = (if String.eqb (p_Name p) "" then nameByKey r else <[p_PubKey p := p_Name p]> (nameByKey r)) /\
      keyByName (open_row r p) = (if String.eqb (p_Name p) "" then keyByName r else <[p_Name p := p_PubKey p]> (keyByName r))).
    { unfold open_row. destruct (String.eqb_spec (p_PubKey p) ""); [done |]. by destruct (String.eqb (p_Name p) ""). }
    destruct R1 as (Rp & Rs & Rn & Rk).
    destruct (IH (open_row r p) Rp Nd) as (I1 & I2 & I3 & I4 & I5 & I6);
      [intros q I; apply Nk; by right | intros q q' I I'; apply Un; by right |].
    split_and!; [done | | | | |].
    + intros q [-> | I]%elem_of_cons; [| by apply I2]. rewrite I3, Rs by done. apply lookup_insert_eq.
    + intros k D. rewrite I3 by (intros q I; apply D; by right). rewrite Rs. apply lookup_insert_ne, D. left.
    + intros q [-> | I]%elem_of_cons Hn; [| by apply I4].
      rewrite I5 by (intros q I _; by apply Np'). rewrite I6 by (intros q I _ E; by apply Hn, (Nn q)).
      rewrite Rn, Rk. destruct (String.eqb_spec (p_Name p) ""); [done |]. by rewrite !lookup_insert_eq.
    + intros k D. rewrite I5 by (intros q I; apply D; by right). rewrite Rn.
      destruct (String.eqb_spec (p_Name p) ""); [done |]. apply lookup_insert_ne, D; [by left | done].
    + intros n D. rewrite I6 by (intros q I; apply D; by right). rewrite Rk.
      destruct (String.eqb_spec (p_Name p) ""); [done |]. apply lookup_insert_ne, D; [by left | done].
Qed.

(** Two peers of a well-formed registry with one name are one peer. *)
Lemma names_unique r k1 k2 p q :
  reg_wf r -> rg_peers r !! k1 = Some p -> rg_peers r !! k2 = Some q -> p_Name p = p_Name q -> p_Name p <> "" -> k1 = k2.
Proof.
  intros W Lp Lq E N. pose proof (rw_name _ W _ _ Lp) as Hp. pose proof (rw_name _ W _ _ Lq) as Hq.
  destruct (nameByKey r !! k1) as [n1 |] eqn:E1; cbn in Hp; [| done].
  destruct (nameByKey r !! k2) as [n2 |] eqn:E2; cbn in Hq; [| congruence].
  apply (rw_inverse _ W) in E1, E2. congruence.
Qed.

Lemma name_of_peer r k n :
  reg_wf r -> nameByKey r !! k = Some n <-> exists p, rg_peers r !! k = Some p /\ p_Name p = n /\ n <> "".
Proof.
  intros W. split.
  - intros L. destruct (rw_known _ W _ _ L) as [N [p Lp]]. exists p. split_and!; try done. by rewrite (rw_name _ W _ _ Lp), L.
  - intros (p & Lp & <- & N). rewrite (rw_name _ W _ _ Lp) in *. by destruct (nameByKey r !! k).
Qed.

(** The peers determine the pins. *)
Lemma pins_ext (a b : Registry) :
  rg_path a = rg_path b -> rg_peers a = rg_peers b ->
  (forall k n, nameByKey a !! k = Some n <-> exists p, rg_peers b !! k = Some p /\ p_Name p = n /\ n <> "") ->
  (forall k n, keyByName a !! n = Some k <-> exists p, rg_peers b !! k = Some p /\ p_Name p = n /\ n <> "") ->
  reg_wf b -> a = b.
Proof.
  intros E1 E2 Ha Hk W. destruct a as [pa sa na ka], b as [pb sb nb kb]. cbn [rg_path rg_peers nameByKey keyByName] in *. subst.
  f_equal; apply map_eq; intros x; apply option_eq; intros y.
  - rewrite Ha. symmetry. apply (name_of_peer _ x y W).
  - rewrite Hk, <- (rw_inverse _ W y x). symmetry. apply (name_of_peer _ y x W).
Qed.

(** Reading back what was written gives the registry itself. *)
Lemma reopen r :
  reg_wf r -> rg_path r = true -> rg_peers r !! "" = None -> Open true (Roster (reg_list r)) = Some r.
Proof.
  intros W Hp Ne. unfold Open. cbn [negb]. f_equal.
  assert (El : forall p, p ∈ reg_list r <-> rg_peers r !! p_PubKey p = Some p).
  { intros p. rewrite reg_list_elem. split; [| eauto]. intros [k L]. by rewrite (rw_key _ W _ _ L). }
  destruct (open_rows true (reg_list r) (empty_registry true)) as (I1 & I2 & I3 & I4 & I5 & I6).
  - done.
  - by apply reg_list_keys.
  - intros p L%El E. congruence.
  - intros p q Lp%El Lq%El En Hn. pose proof (names_unique r _ _ p q W Lp Lq En Hn). congruence.
  - apply pins_ext; [by rewrite I1 | | | | done].
    + apply map_eq. intros k. destruct (rg_peers r !! k) as [p |] eqn:L.
      * pose proof (rw_key _ W _ _ L) as <-. by apply I2, El.
      * rewrite I3; [done |]. intros p Lp%El <-. congruence.
    + intros k n. split.
      * intros L. destruct (rg_peers r !! k) as [p |] eqn:Lp; [pose proof (rw_key _ W _ _ Lp) as <-; destruct (decide (p_Name p = "")) |].
        -- rewrite I5 in L; [done |]. intros q Lq%El Hn E. congruence.
        -- exists p. destruct (I4 p) as [L' _]; [by apply El | done |]. split_and!; congruence.
        -- rewrite I5 in L; [done |]. intros q Lq%El Hn <-. congruence.
      * intros (p & Lp & <- & Hn). pose proof (rw_key _ W _ _ Lp) as <-. by apply I4, Hn; apply El.
    + intros k n. split.
      * intros L. destruct (decide (Exists (fun p => p_Name p = n /\ n <> "") (reg_list r))) as [(p & Lp & <- & Hn)%Exists_exists | No].
        -- destruct (I4 p Lp Hn) as [_ L']. exists p. rewrite L' in L. injection L as <-. split_and!; [by apply El | done | done].
        -- rewrite I6 in L; [done |]. intros q Lq Hn <-. apply No, Exists_exists. eauto.
      * intros (p & Lp & <- & Hn). pose proof (rw_key _ W _ _ Lp) as <-. by apply I4, Hn; apply El.
Qed.

(** ** Histories *)

(** A registry that is kept on disk. *)
Record kept (r : Registry) : Prop := {
  kp_wf : reg_wf r; kp_path : rg_path r = true; kp_key : rg_peers r !! "" = None;
}.

Lemma kept_empty : kept (empty_registry true).
Proof. split; [apply empty_wf | done | done]. Qed.

Definition on_disk (f : CacheFile) : Prop := f = CacheMissing \/ exists r, kept r /\ f = Roster (reg_list r).

(** The file holds what memory holds. *)
Definition synced (s : Registry * CacheFile) : Prop :=
  (s.2 = CacheMissing /\ s.1 = empty_registry true) \/ s.2 = Roster (reg_list s.1).

Lemma Upsert_frame now io p r f :
  rg_path (Upsert now io p r f).1.2 = rg_path r /\
  (p_PubKey p <> "" -> rg_peers r !! "" = None -> rg_peers (Upsert now io p r f).1.2 !! "" = None) /\
  (rg_path r = true -> (Upsert now io p r f).2 = if io then Roster (reg_list (Upsert now io p r f).1.2) else f).
Proof.
  unfold Upsert. set (p1 := if p_LastSeen p =? 0 then with_seen p now else p).
  assert (K : p_PubKey p1 = p_PubKey p) by (unfold p1; by destruct (_ =? _)).
  assert (F : rg_path (pinNameLocked (p_PubKey p1) (p_Name p1) r).2 = rg_path r /\
              rg_peers (pinNameLocked (p_PubKey p1) (p_Name p1) r).2 = rg_peers r)
    by (unfold pinNameLocked; by repeat case_match).
  destruct (pinNameLocked _ _ r) as [name r1]. cbn [snd] in F. destruct F as [F1 F2].
  set (r2 := mkRegistry _ _ _ _). unfold save. cbn [rg_path r2]. rewrite F1. split_and!.
  - by destruct (rg_path r), io.
  - intros Hk Ne. assert (rg_peers r2 !! "" = None); [| by destruct (rg_path r), io].
    cbn [rg_peers r2 with_name p_PubKey]. rewrite F2, lookup_insert_ne; [done | congruence].
  - intros ->. by destruct io.
Qed.

Lemma remember_kept now io p r f :
  kept r -> on_disk f -> kept (rememberPeer now io p r f).1 /\ on_disk (rememberPeer now io p r f).2.
Proof.
  intros [W Hp Ne] D. unfold rememberPeer. destruct (String.eqb_spec (p_PubKey p) "") as [| Hk]; [by split |].
  pose proof (Upsert_wf now io p r f W) as W2. destruct (Upsert_frame now io p r f) as (F1 & F2 & F3).
  destruct (Upsert now io p r f) as [[ok r'] f']. cbn [fst snd] in *.
  assert (kept r') by (split; [done | congruence | auto]). split; [done |].
  rewrite F3 by done. destruct io; [| done]. right. eauto.
Qed.

Lemma reopen_kept r f :
  kept r -> on_disk f -> exists r', Open (rg_path r) f = Some r' /\ kept r' /\ (synced (r, f) -> r' = r).
Proof.
  intros K [-> | (r0 & K0 & ->)]; rewrite (kp_path _ K).
  - exists (empty_registry true). split; [done |]. split; [apply kept_empty |]. by intros [[_ E] | E].
  - exists r0. split; [by apply reopen; destruct K0 |]. split; [done |]. intros [[E _] | E]; cbn in E; [done |].
    injection E as E. pose proof (reopen r0 (kp_wf _ K0) (kp_path _ K0) (kp_key _ K0)) as R0.
    rewrite E, (reopen r (kp_wf _ K) (kp_path _ K) (kp_key _ K)) in R0. congruence.
Qed.

Lemma cache_step_kept s e : kept s.1 /\ on_disk s.2 -> kept (cache_step s e).1 /\ on_disk (cache_step s e).2.
Proof.
  destruct s as [r f]. cbn [fst snd]. intros [K D]. destruct e as [now io p |]; cbn [cache_step fst snd].
  - by apply remember_kept.
  - destruct (reopen_kept r f K D) as (r' & -> & K' & _). done.
Qed.

Lemma cache_run_kept es s : kept s.1 /\ on_disk s.2 -> kept (cache_run es s).1 /\ on_disk (cache_run es s).2.
Proof. revert s. induction es as [| e es IH]; intros s K; [done |]. apply IH, cache_step_kept, K. Qed.

Definition saved (e : CacheEvent) : Prop := match e with Remembered _ io _ => io = true | Restarted => True end.

(** One step with a good disk: memory and file stay in step, no name moves. *)
Lemma cache_step_synced s e :
  kept s.1 -> on_disk s.2 -> synced s -> saved e ->
  synced (cache_step s e) /\
  (forall k n, nameByKey s.1 !! k = Some n -> nameByKey (cache_step s e).1 !! k = Some n).
Proof.
  destruct s as [r f]. cbn [fst snd]. intros K D S Sv. destruct e as [now io p |]; cbn [cache_step fst snd].
  - cbn in Sv. subst io. unfold rememberPeer. destruct (String.eqb (p_PubKey p) ""); [done |].
    destruct (Upsert_frame now true p r f) as (F1 & F2 & F3).
    pose proof (fun k n => Upsert_keeps_names now true p r f k n (kp_wf _ K)) as Kn.
    destruct (Upsert now true p r f) as [[ok r'] f']. cbn [fst snd] in *. split; [| done].
    right. cbn. apply F3, K.
  - destruct (reopen_kept r f K D) as (r' & -> & K' & E). cbn [fst]. by rewrite (E S).
Qed.

Lemma cache_run_synced es s :
  kept s.1 -> on_disk s.2 -> synced s -> Forall saved es ->
  synced (cache_run es s) /\
  (forall k n, nameByKey s.1 !! k = Some n -> nameByKey (cache_run es s).1 !! k = Some n).
Proof.
  revert s. induction es as [| e es IH]; intros s K D S Sv; [done |]. apply Forall_cons in Sv as [Se Sv].
  destruct (cache_step_synced s e K D S Se) as [S' N]. destruct (cache_step_kept s e (conj K D)) as [K' D'].
  cbn [cache_run foldl]. destruct (IH _ K' D' S' Sv) as [S2 N2]. split; [done |]. auto.
Qed.

(** C39. A name belongs to one key.  After any history of partners remembered
    and restarts, no two cached keys have the same name and a key's entry
    carries the name pinned for it, whether or not the writes went through.
    While they do, a name once pinned to a key stays that key's for good,
    through every later claim of any key and every restart: the file read back
    is the registry that was written. *)
Theorem names_owned (es1 es2 : list CacheEvent) :
  let s1 := cache_run es1 (empty_registry true, CacheMissing) in
  let s2 := cache_run es2 s1 in
  (forall k k' p p', rg_peers s2.1 !! k = Some p -> rg_peers s2.1 !! k' = Some p' ->
     p_Name p = p_Name p' -> p_Name p <> "" -> k = k') /\
  (forall k p, rg_peers s2.1 !! k = Some p -> p_PubKey p = k /\ p_Name p = name_of k s2.1) /\
  (Forall saved (es1 ++ es2) ->
     (forall k, name_of k s1.1 <> "" -> name_of k s2.1 = name_of k s1.1) /\
     Open true s2.2 = Some s2.1).
Proof.
  intros s1 s2. destruct (cache_run_kept es1 (empty_registry true, CacheMissing)) as [K1 D1];
    [split; [apply kept_empty | by left] |].
  fold s1 in K1, D1. destruct (cache_run_kept es2 s1 (conj K1 D1)) as [K2 D2]. fold s2 in K2, D2.
  pose proof (kp_wf _ K2) as W2. split_and!.
  - intros k k' p p' L L' E N. by eapply names_unique.
  - intros k p L. split; [by apply (rw_key _ W2) | by apply (rw_name _ W2)].
  - intros [Sv1 Sv2]%Forall_app.
    destruct (cache_run_synced es1 (empty_registry true, CacheMissing)) as [S1 _];
      [apply kept_empty | by left | by left | done |]. fold s1 in S1.
    destruct (cache_run_synced es2 s1 K1 D1 S1 Sv2) as [S2 N2]. fold s2 in S2, N2. split.
    + intros k. unfold name_of. destruct (nameByKey s1.1 !! k) as [n |] eqn:L; [| done]. by rewrite (N2 _ _ L).
    + destruct (reopen_kept s2.1 s2.2 K2 D2) as (r' & E & _ & S). rewrite (kp_path _ K2) in E. rewrite E. f_equal.
      apply S. destruct s2. apply S2.
Qed.

(** ** Resolution *)

Lemma trim_suffix_app x suf : trim_suffix suf (x ⊕ suf) = Some x.
Proof.
  induction x as [| c x IH]; [destruct suf; cbn; by rewrite ?Ascii.eqb_refl, ?String.eqb_refl |].
  cbn [String.append trim_suffix]. destruct (String.eqb_spec (String c (x ⊕ suf)) suf) as [E | _]; [| by rewrite IH].
  apply (f_equal slen) in E. cbn in E. rewrite slen_app in E. lia.
Qed.

Lemma trim_dot_tld x : trim_suffix "." (x ⊕ buddyTLD) = None.
Proof.
  induction x as [| c x IH]; [done |]. cbn [String.append trim_suffix].
  destruct (String.eqb_spec (String c (x ⊕ buddyTLD)) ".") as [E | _]; [| by rewrite IH].
  apply (f_equal slen) in E. cbn in E. rewrite slen_app in E. cbn in E. lia.
Qed.

(** The labels [Resolve] looks up, as the final characters of a query decide. *)
Lemma Resolve_label lu (table : gmap string Addr) q n :
  ToLower lu q = n ⊕ buddyTLD \/ ToLower lu q = n ⊕ buddyTLD ⊕ "." ->
  n <> "" -> contains_char "." n = false -> Resolve lu table q = table !! n.
Proof.
  intros Hq Hn Hd. unfold Resolve. set (l := ToLower lu q) in *.
  assert (E : default l (trim_suffix "." l) = n ⊕ buddyTLD).
  { destruct Hq as [-> | ->].
    - by rewrite trim_dot_tld.
    - assert (n ⊕ buddyTLD ⊕ "." = (n ⊕ buddyTLD) ⊕ ".") as -> by by rewrite app_assoc_s.
      by rewrite trim_suffix_app. }
  rewrite E, trim_suffix_app, Hd, orb_false_r. by destruct (String.eqb_spec n "").
Qed.

Lemma table_row_name t p n :
  ValidName n = true ->
  table_row t p !! n = (if String.eqb (p_Name p) n
                        then match ParseAddr (p_VirtualIP p) with Some (ip, _) => Some ip | None => t !! n end else t !! n).
Proof.
  intros V. unfold table_row. destruct (ParseAddr (p_VirtualIP p)) as [[ip z] |]; [| by destruct (String.eqb _ n)].
  rewrite lookup_insert_ne by (intros E; by apply (proj2 (valid_name_spec n) (p_PubKey p) V)).
  destruct (String.eqb_spec (p_Name p) n) as [-> | D].
  - assert (negb (String.eqb n "") = true) as -> by (by destruct n). by rewrite lookup_insert_eq.
  - destruct (negb (String.eqb (p_Name p) "")); [by rewrite lookup_insert_ne | done].
Qed.

Lemma table_no_name l n :
  ValidName n = true -> (forall q, q ∈ l -> p_Name q <> n) -> foldl table_row ∅ l !! n = None.
Proof.
  intros V. induction l as [| q l IH] using rev_ind; intros N; [done |]. rewrite foldl_snoc, table_row_name by done.
  destruct (String.eqb_spec (p_Name q) n) as [E | _]; [| apply IH; intros; apply N, elem_of_app; by left].
  destruct (N q); [apply elem_of_app; right; by apply list_elem_of_singleton | done].
Qed.

Lemma table_name l p n :
  ValidName n = true -> (forall q, q ∈ l -> p_Name q = n -> q = p) -> p ∈ l -> p_Name p = n ->
  foldl table_row ∅ l !! n = fst <$> ParseAddr (p_VirtualIP p).
Proof.
  intros V. induction l as [| q l IH] using rev_ind; intros U I En; [by apply not_elem_of_nil in I |].
  assert (U' : forall q', q' ∈ l -> p_Name q' = n -> q' = p) by (intros q' I'; apply U, elem_of_app; by left).
  rewrite foldl_snoc, table_row_name by done. destruct (String.eqb_spec (p_Name q) n) as [Eq | Nq].
  - rewrite (U q) by (try done; apply elem_of_app; right; by apply list_elem_of_singleton).
    destruct (ParseAddr (p_VirtualIP p)) as [[ip z] |] eqn:P; [done |].
    destruct (decide (Exists (fun q' => p_Name q' = n) l)) as [(q' & I' & E')%Exists_exists | No].
    + apply IH; [done | | done]. by rewrite <- (U' q').
    + apply table_no_name; [done |]. intros q' I' E'. apply No, Exists_exists. eauto.
  - apply IH; [done | | done]. apply elem_of_app in I as [I | I]; [done |]. apply list_elem_of_singleton in I. congruence.
Qed.

(** ** What is known of every cached peer *)

Section Cached.
Context (Q : Peer -> Prop).
Hypothesis Q_name : forall p n, Q p -> Q (with_name p n).
Hypothesis Q_seen : forall p t, Q p -> Q (with_seen p t).

Definition all_cached (s : Registry * CacheFile) : Prop :=
  (forall k p, rg_peers s.1 !! k = Some p -> Q p) /\ (forall l p, s.2 = Roster l -> p ∈ l -> Q p).

Lemma open_rows_cached l : forall r,
  (forall p, p ∈ l -> Q p) -> (forall k p, rg_peers r !! k = Some p -> Q p) ->
  forall k p, rg_peers (foldl open_row r l) !! k = Some p -> Q p.
Proof.
  induction l as [| q l IH]; intros r Hl Hr; [done |]. cbn [foldl]. apply IH; [intros p I; apply Hl; by right |].
  intros k p. unfold open_row. destruct (String.eqb (p_PubKey q) ""); [apply Hr |].
  destruct (negb _); cbn [rg_peers]; intros [[_ <-] | [_ L]]%lookup_insert_Some; eauto; apply Hl; left.
Qed.

Lemma cache_step_cached s e :
  (match e with Remembered _ _ p => Q p | Restarted => True end) -> all_cached s -> all_cached (cache_step s e).
Proof.
  destruct s as [r f]. intros He [Hr Hf]. cbn [fst snd] in *. destruct e as [now io p |]; cbn [cache_step fst snd].
  - unfold rememberPeer. destruct (String.eqb (p_PubKey p) ""); [done |]. unfold Upsert.
    set (p1 := if p_LastSeen p =? 0 then with_seen p now else p).
    assert (Q1 : Q p1) by (unfold p1; destruct (_ =? _); auto).
    assert (F : rg_peers (pinNameLocked (p_PubKey p1) (p_Name p1) r).2 = rg_peers r)
      by (unfold pinNameLocked; by repeat case_match).
    destruct (pinNameLocked _ _ r) as [name r1]. cbn [snd] in F. set (r2 := mkRegistry _ _ _ _).
    assert (H2 : forall k q, rg_peers r2 !! k = Some q -> Q q).
    { intros k q. unfold r2. cbn [rg_peers]. rewrite F. intros [[_ <-] | [_ L]]%lookup_insert_Some; eauto. }
    unfold save. destruct (negb _); [by split |]. destruct io; [| by split]. split; [done |]. cbn [snd].
    intros l q [= <-] [k L]%reg_list_elem. eauto.
  - unfold Open. destruct (negb _); [by split |]. destruct f as [| | | l]; try by split.
    split; [| done]. cbn [fst]. apply open_rows_cached; [eauto |]. intros k q L. cbn in L. by rewrite lookup_empty in L.
Qed.

Lemma cache_run_cached es s :
  Forall (fun e => match e with Remembered _ _ p => Q p | Restarted => True end) es -> all_cached s -> all_cached (cache_run es s).
Proof.
  revert s. induction es as [| e es IH]; intros s Hs A; [done |]. apply Forall_cons in Hs as [He Hs].
  apply IH; [done |]. by apply cache_step_cached.
Qed.
End Cached.

(** A peer whose address, if it states one, is its key's: what a roster check
    and a direct partner guarantee. *)
Definition address_of_key (p : Peer) : Prop :=
  exists pub, DecodePubKey (p_PubKey p) = Ok pub /\ (p_VirtualIP p = "" \/ p_VirtualIP p = VirtualIPString pub).

Lemma parse_vip pub : ParseAddr (VirtualIPString pub) = Some (VirtualIP pub, "").
Proof. unfold VirtualIPString, VirtualIP. destruct (fold_host _ _). by apply ParseAddr_string4. Qed.

Lemma valid_name_label n : ValidName n = true -> n <> "" /\ contains_char "." n = false.
Proof.
  intros V. destruct (proj1 (valid_name_spec n)) as [S _]. destruct (S V) as ([L1 _] & A & _).
  split; [by intros -> |]. clear S V L1. induction n as [| c n IH]; [done |].
  cbn [contains_char all_chars] in *. apply andb_true_iff in A as [A1 A2]. rewrite IH by done.
  destruct (Ascii.eqb_spec "." c) as [<- |]; [by vm_compute in A1 | done].
Qed.

(** A buddy name resolves to the address of the key that owns it.  After any
    history of partners with honest addresses and restarts, an A query for a
    valid name, in any letter case and with or without the final dot, is
    answered with [a] exactly when [a] is the virtual address of the key the
    name is pinned to; the node's own name is answered with its own address,
    and a query of another type or another name is refused. *)
Theorem buddy_names_resolve (lu : string -> string) (es : list CacheEvent) (selfName n q : string) (selfIP : option Addr) (a : Addr) :
  let r := (cache_run es (empty_registry true, CacheMissing)).1 in
  Forall (fun e => match e with Remembered _ _ p => address_of_key p | Restarted => True end) es ->
  ValidName n = true -> all_chars is_ascii q = true ->
  lower_ascii q = n ⊕ buddyTLD \/ lower_ascii q = n ⊕ buddyTLD ⊕ "." ->
  (n = selfName -> handleBuddy lu (Some (q, true)) r selfName (Some a) = Answer a) /\
  (n <> selfName ->
     handleBuddy lu (Some (q, true)) r selfName selfIP = Answer a <->
     exists k p pub, rg_peers r !! k = Some p /\ name_of k r = n /\ p_VirtualIP p <> "" /\
       DecodePubKey k = Ok pub /\ a = VirtualIP pub) /\
  handleBuddy lu (Some (q, false)) r selfName selfIP = NameError.
Proof.
  intros r Hes V As Hq. destruct (valid_name_label n V) as [Nn Nd].
  assert (R : forall t, Resolve lu t q = t !! n).
  { intros t. apply Resolve_label; try done. unfold ToLower. by rewrite As. }
  destruct (cache_run_kept es (empty_registry true, CacheMissing)) as [K _];
    [split; [apply kept_empty | by left] |]. fold r in K. pose proof (kp_wf _ K) as W.
  destruct (cache_run_cached address_of_key (fun p n H => H) (fun p t H => H) es (empty_registry true, CacheMissing) Hes) as [A _];
    [split; cbn; [by intros k p L; rewrite lookup_empty in L | done] |]. fold r in A.
  unfold handleBuddy. cbn [negb]. rewrite !R. unfold BuildTable. split_and!; [| | done].
  - intros <-. destruct (String.eqb_spec n ""); [done |]. cbn [negb]. by rewrite lookup_insert_eq.
  - intros Ns. set (t := foldl table_row ∅ (reg_list r)).
    assert (E : (match selfIP with Some ip => if negb (String.eqb selfName "") then <[selfName := ip]> t else t | None => t end) !! n = t !! n).
    { destruct selfIP; [| done]. destruct (negb _); [| done]. by rewrite lookup_insert_ne. }
    rewrite E. clear E.
    assert (T : forall k p, rg_peers r !! k = Some p -> p_Name p = n -> t !! n = fst <$> ParseAddr (p_VirtualIP p)).
    { intros k p L En. apply table_name; [done | | apply reg_list_elem; eauto | done].
      intros q' [k' L']%reg_list_elem En'. assert (k' = k) as -> by (apply (names_unique r k' k q' p W L' L); congruence). congruence. }
    split.
    + intros H. destruct (t !! n) as [a' |] eqn:Tn; [| done]. injection H as ->.
      destruct (decide (Exists (fun p => p_Name p = n) (reg_list r))) as [(p & [k L]%reg_list_elem & En)%Exists_exists | No].
      * pose proof (rw_key _ W _ _ L) as Ek. destruct (A k p L) as (pub & Dp & Vp). rewrite Ek in Dp. exists k, p, pub.
        pose proof (T k p L En) as E. unfold name_of. rewrite <- (rw_name _ W _ _ L).
        destruct Vp as [Vp | Vp]; rewrite Vp in *; [done |]. rewrite parse_vip in E. injection E as ->.
        split_and!; try done. intros Ev. pose proof (parse_vip pub) as P. by rewrite Ev in P.
      * unfold t in Tn. rewrite table_no_name in Tn; [done | done |]. intros p I En. apply No, Exists_exists. eauto.
    + intros (k & p & pub & L & En & Ve & Dp & ->). unfold name_of in En. rewrite <- (rw_name _ W _ _ L) in En.
      rewrite (T k p L En). destruct (A k p L) as (pub' & Dp' & Vp). rewrite (rw_key _ W _ _ L) in Dp'.
      assert (pub' = pub) as -> by congruence. destruct Vp as [| ->]; [done |]. by rewrite parse_vip.
Qed.

(** ** On a small cache *)

Module CacheDemo.

Definition zero32 : string := String.string_of_list_ascii (replicate 32 zero).
Definition keyA : string := Std.EncodeToString zero32.

Definition alice : Peer := mkPeer "id1" keyA (VirtualIPString zero32) "alice" [] "" 1000.

Definition learned : list CacheEvent := [Remembered 2000 true alice].

Lemma keyA_decodes : DecodePubKey keyA = Ok zero32.
Proof. vm_compute. reflexivity. Qed.

Lemma buddy_names_resolve_witness :
  handleBuddy id (Some ("Alice.Buddy.", true)) (cache_run learned (empty_registry true, CacheMissing)).1 "me" None
  = Answer (VirtualIP zero32).
Proof.
  apply (buddy_names_resolve id learned "me" "alice" "Alice.Buddy." None (VirtualIP zero32)).
  - constructor; [| constructor]. exists zero32. split; [apply keyA_decodes | by right].
  - reflexivity.
  - reflexivity.
  - right. reflexivity.
  - discriminate.
  - exists keyA, alice, zero32. split; [reflexivity |]. split; [reflexivity |]. split; [| split; [apply keyA_decodes | done]].
    intros E. cbn [p_VirtualIP alice] in E. pose proof (parse_vip zero32) as P. by rewrite E in P.
Defined.

(** An older sighting replaces a newer one. *)
Lemma older_view_replaces_newer :
  let r := (cache_run [Remembered 2000 true (with_seen alice 1000); Remembered 2001 true (with_seen alice 900)]
              (empty_registry true, CacheMissing)).1 in
  p_LastSeen <$> reg_get keyA r = Some 900.
Proof. reflexivity. Qed.

(** Remembering a cached partner again leaves its age as it was. *)
Lemma cached_partner_ages :
  let s := cache_run [Remembered 2000 true alice] (empty_registry true, CacheMissing) in
  p_LastSeen <$> reg_get keyA (cache_run [Remembered 90000 true alice] s).1 = Some 1000 /\
  Fresh (of_unix 90000) (86400 * second) alice = false.
Proof. split; reflexivity. Qed.

(** One key in two spellings owns two names. *)
Lemma two_spellings_two_names :
  let other := mkPeer "id2" (keyA ⊕ String (byte_of 10) "") "" "bob" [] "" 1001 in
  let r := (cache_run [Remembered 2000 true alice; Remembered 2001 true other] (empty_registry true, CacheMissing)).1 in
  DecodePubKey (p_PubKey other) = DecodePubKey keyA /\ name_of keyA r = "alice" /\ name_of (p_PubKey other) r = "bob".
Proof. split_and!; vm_compute; reflexivity. Qed.

End CacheDemo.
