(* ===== verification/PeersList.v ===== *)
(** * Listing the buddies

    [PeersList] of [internal/role/peerscmd.go]: one row per key this node has
    anything to do with, and the handle by which the other commands take it. *)

From S2P Require Import Prelude Base64 Sha256 NetAddr NetParse Crypto Protocol HsRegistry Authz AuthzFile TrustStore TrustProps TrustTheorems Scope PeerCache Manifest ManifestProps SupervisorDemo.

(** The columns; the key column shows [shortKeyTag] of the key of [r_pin]. *)
Record Row := mkRow {
  r_pin : string; r_name : string; r_status : string; r_token : string; r_expose : string; r_source : string;
}.

Definition shortKeyTag (keyB64 : string) : string := if (slen keyB64 <? 6)%nat then keyB64 else take_s 6 keyB64.

Definition dash : string := "—".

(** Names from the peer cache; an unreadable cache gives none. *)
Definition loadPeerNames (path : bool) (cache : CacheFile) : gmap string string :=
  match Open path cache with
  | None => ∅
  | Some reg => foldl (fun m p => if String.eqb (p_Name p) "" then m else <[p_PubKey p := p_Name p]> m) ∅ (reg_list reg)
  end.

Section PeersList.
Context (yaml : string -> YamlDoc).

Definition emit (names : gmap string string) (pin name status tok expose source : string) : Row :=
  let name := if String.eqb name "" then default "" (names !! PubKeyB64 pin) else name in
  mkRow pin (if String.eqb name "" then dash else name) status tok expose source.

Definition status_of (paired revoked : bool) : string := if revoked then "REVOKED" else if paired then "paired" else "unpaired".

Definition manifest_row (names : gmap string string) (paired revoked : string -> bool) (s : peerSpec) : Row :=
  let keyB64 := PubKeyB64 (sp_pin s) in
  emit names (sp_pin s) (sp_name s) (status_of (paired keyB64) (revoked keyB64))
    (if String.eqb (sp_token s) "" then "no-token" else "token-set")
    (match sp_expose s with Some e => Scope_String e | None => "(inherit)" end) "manifest".

(** Sessions without a manifest entry, each once; and the keys shown so far. *)
Fixpoint session_rows (names : gmap string string) (revoked : string -> bool) (ss : list storedSession) (shown : list string)
    : list Row * list string :=
  match ss with
  | [] => ([], shown)
  | s :: r =>
      let keyB64 := PubKeyB64 (ss_pin s) in
      if bool_decide (keyB64 ∈ shown) then session_rows names revoked r shown
      else
        let '(rows, shown') := session_rows names revoked r (keyB64 :: shown) in
        (emit names (ss_pin s) "" (status_of true (revoked keyB64)) dash "(inherit)" "session-only" :: rows, shown')
  end.

(** [PeersList]: the rows, and whether the note on revoked buddies follows. *)
Definition PeersList (path : bool) (cache : CacheFile) (fs : Files) : result PeersErr (list Row * bool) :=
  let? specs := lift EManifest (loadPeersFile yaml (fl_manifest fs)) in
  let? sessions := lift ERead (loadSessions (ts_known (fl_trust fs))) in
  let? rv := lift ERead (revokedSet (ts_revoked (fl_trust fs))) in
  let names := loadPeerNames path cache in
  let paired k := bool_decide (k ∈ PubKeyB64 ∘ ss_pin <$> sessions) in
  let revoked k := bool_decide (k ∈ rv) in
  let listed := manifest_row names paired revoked <$> specs in
  let '(extra, shown) := session_rows names revoked sessions (PubKeyB64 ∘ sp_pin <$> specs) in
  let revokedKeys := merge_sort str_le (List.filter (fun k => negb (bool_decide (k ∈ shown))) (elements rv)) in
  let gone := omap (fun k => match DecodePubKey k with
                             | Ok pin => Some (emit names pin "" "REVOKED" dash dash "revoked")
                             | Err _ => None
                             end) revokedKeys in
  let rows := listed ++ extra ++ gone in
  Ok (rows, negb (bool_decide (rows = [])) && negb (bool_decide (revokedKeys = []))).

(** ** What is shown *)

(** A manifest that loads names each key once. *)
Lemma specs_loop_NoDup bs : forall i seen l, specs_loop i bs seen = Ok l ->
  NoDup (sp_pin <$> l) /\ forall p, p ∈ sp_pin <$> l -> PubKeyB64 p ∉ seen.
Proof.
  induction bs as [| b bs IH]; intros i seen l; cbn [specs_loop].
  { intros [= <-]. split; [constructor | intros p ?%not_elem_of_nil; done]. }
  destruct (toSpec b) as [s |]; [| done]. case_bool_decide as E; [done |].
  destruct (specs_loop (S i) bs _) as [l' |] eqn:El; [| done]. intros [= <-]. destruct (IH _ _ _ El) as [Hn Hd]. cbn [fmap list_fmap]. split.
  - apply NoDup_cons. split; [intros Hin; apply (Hd _ Hin); by left | done].
  - intros p [-> | Hin]%elem_of_cons; [done |]. intros Hs. apply (Hd _ Hin). by right.
Qed.

Lemma legacy_loop_NoDup ls : forall i seen l, legacy_loop i ls seen = Ok l ->
  NoDup (sp_pin <$> l) /\ forall p, p ∈ sp_pin <$> l -> PubKeyB64 p ∉ seen.
Proof.
  induction ls as [| t ls IH]; intros i seen l; cbn [legacy_loop].
  { intros [= <-]. split; [constructor | intros p ?%not_elem_of_nil; done]. }
  destruct (negb (content_line t)); [apply IH |]. destruct (Fields (TrimSpace t)) as [| key rest]; [apply IH |].
  destruct (_ <? _)%nat; [done |]. destruct (DecodePubKey key) as [pin |]; [| done]. case_bool_decide as E; [done |].
  destruct (legacy_loop (S i) ls _) as [l' |] eqn:El; [| done]. intros [= <-]. destruct (IH _ _ _ El) as [Hn Hd]. cbn [fmap list_fmap sp_pin]. split.
  - apply NoDup_cons. split; [intros Hin; apply (Hd _ Hin); by left | done].
  - intros p [-> | Hin]%elem_of_cons; [done |]. intros Hs. apply (Hd _ Hin). by right.
Qed.

Lemma manifest_NoDup f specs : loadPeersFile yaml f = Ok specs -> NoDup (sp_pin <$> specs).
Proof.
  unfold loadPeersFile. destruct (readManifest f) as [[data |] |]; [| intros [= <-]; constructor | done].
  destruct (manifestIsLegacy data).
  - unfold parseLegacyManifest. destruct (scan_lines data) as [ls err]. destruct (legacy_loop 1 ls []) as [l |] eqn:E; [| done].
    destruct err; [done |]. intros [= <-]. by apply legacy_loop_NoDup in E as [? _].
  - unfold parseYAMLManifest. destruct (yaml data) as [| | rows]; [intros [= <-]; constructor | done |].
    destruct (decode_rows rows) as [bs |]; [| done]. intros E. by apply specs_loop_NoDup in E as [? _].
Qed.

Lemma session_rows_spec names revoked ss : forall shown,
  let '(rows, shown') := session_rows names revoked ss shown in
  NoDup (r_pin <$> rows) /\
  (forall pin, pin ∈ r_pin <$> rows <-> pin ∈ ss_pin <$> ss /\ PubKeyB64 pin ∉ shown) /\
  (forall k, k ∈ shown' <-> k ∈ shown \/ k ∈ PubKeyB64 ∘ ss_pin <$> ss) /\
  Forall (fun r => r_status r = status_of true (revoked (PubKeyB64 (r_pin r)))) rows.
Proof.
  induction ss as [| s ss IH]; intros shown; cbn [session_rows].
  { split_and!; [constructor | | | constructor]; set_solver. }
  case_bool_decide as E.
  - specialize (IH shown). destruct (session_rows _ _ _ _) as [rows shown']. destruct IH as (N & P & K & F). split_and!; [done | | | done].
    + intros pin. rewrite P. cbn [fmap list_fmap]. rewrite elem_of_cons. split; [by intros [? ?]; auto |]. by intros [[-> | ?] ?].
    + intros k. rewrite K. cbn [fmap list_fmap compose]. rewrite elem_of_cons. cbn [compose]. split; [tauto |]. by intros [? | [-> | ?]]; auto.
  - specialize (IH (PubKeyB64 (ss_pin s) :: shown)). destruct (session_rows _ _ _ _) as [rows shown']. destruct IH as (N & P & K & F).
    cbn [fmap list_fmap r_pin emit]. split_and!.
    + apply NoDup_cons. split; [| done]. rewrite P. intros [_ Hn]. apply Hn. by left.
    + intros pin. rewrite !elem_of_cons, P, not_elem_of_cons. split; [intros [-> | (? & ? & ?)]; auto |].
      intros [[-> | Hin] Hn]; [by left |]. destruct (decide (pin = ss_pin s)) as [-> | Hne]; [by left | right]. split_and!; [done | | done].
      by intros ?%PubKeyB64_inj.
    + intros k. rewrite K, !elem_of_cons. cbn [compose]. tauto.
    + by constructor.
Qed.

(** A revoked key is a key. *)
Lemma revoked_decodes f rv k : revokedSet f = Ok rv -> k ∈ rv -> exists pin, k = PubKeyB64 pin /\ DecodePubKey k = Ok pin.
Proof.
  unfold revokedSet, loadRevokedLocked. destruct (file_lines f) as [ls err]. destruct err; [done |]. intros [= <-].
  intros (e & -> & He)%elem_of_list_to_set%list_elem_of_fmap.
  assert (D : forall l seen x, x ∈ dedup seen l -> x ∈ l).
  { induction l as [| y l IHl]; intros seen x; cbn [dedup]; [done |]. case_bool_decide; [intros ?%IHl; by right |].
    intros [-> | ?%IHl]%elem_of_cons; [by left | by right]. }
  apply D, list_elem_of_omap in He as (t & _ & Ht). unfold revoked_line in Ht. destruct (_ || _); [done |]. destruct (Fields _); [done |].
  destruct (DecodePubKey _) as [pin |] eqn:E; [| done]. injection Ht as <-. exists pin. cbn [re_key]. split; [done |].
  apply DecodePubKey_B64. unfold DecodePubKey in E. destruct (Std.DecodeString _) as [raw |]; [| done].
  destruct (slen raw =? PublicKeySize)%nat eqn:El; [| done]. injection E as <-. by apply Nat.eqb_eq.
Qed.

Lemma gone_rows_spec f rv names ks :
  revokedSet f = Ok rv -> (forall k, k ∈ ks -> k ∈ rv) ->
  let rows := omap (fun k => match DecodePubKey k with
                             | Ok pin => Some (emit names pin "" "REVOKED" dash dash "revoked") | Err _ => None end) ks in
  PubKeyB64 <$> (r_pin <$> rows) = ks /\ Forall (fun r => r_status r = "REVOKED") rows.
Proof.
  intros Hr Hin. induction ks as [| k ks IH]; [by split |].
  destruct IH as [E F]; [intros k' ?; apply Hin; by right |].
  destruct (revoked_decodes _ _ k Hr (Hin k ltac:(by left))) as (pin & -> & D). cbn [omap list_omap]. rewrite D. cbn [fmap list_fmap r_pin emit].
  split; [by f_equal | by constructor].
Qed.

(** ** The handle *)

Lemma decode_padded_len alph s : forall r, decode_padded alph s = Some r -> (slen r <= slen s)%nat.
Proof.
  induction s as [| a | a b | a b c | a b c d s IH] using string_ind4; intros r; cbn [decode_padded]; try done; [by intros [= <-] |].
  destruct (_ && _); [destruct s; [| done]; intros E; apply bind_Some in E as (x & _ & E); apply bind_Some in E as (y & _ & [= <-]); unfold bytes1; cbn [String.length]; lia |].
  destruct (Ascii.eqb d "=").
  { destruct s; [| done]. intros E. apply bind_Some in E as (x & _ & E). apply bind_Some in E as (y & _ & E).
    apply bind_Some in E as (z & _ & [= <-]). unfold bytes2. cbn [String.length]. lia. }
  intros E. apply bind_Some in E as (x & _ & E). apply bind_Some in E as (y & _ & E). apply bind_Some in E as (z & _ & E).
  apply bind_Some in E as (u & _ & E). apply bind_Some in E as (rest & Hr & [= <-]). apply IH in Hr. unfold bytes3. cbn [String.append String.length]. lia.
Qed.

Lemma drop_newlines_len s : (slen (drop_newlines s) <= slen s)%nat.
Proof. induction s as [| c s IH]; cbn [drop_newlines String.length]; [done |]. destruct (is_newline c); cbn [String.length]; lia. Qed.

Lemma short_no_key ref : (slen ref < PublicKeySize)%nat -> is_ok (DecodePubKey ref) = false.
Proof.
  intros L. unfold DecodePubKey, Std.DecodeString. destruct (decode_padded _ _) as [raw |] eqn:E; [| done].
  apply decode_padded_len in E. pose proof (drop_newlines_len ref). destruct (Nat.eqb_spec (slen raw) PublicKeySize); [lia | done].
Qed.

(** The handle of a known key selects it, or is refused as ambiguous. *)
Lemma handle_selects fs specs sessions rv k :
  loadPeersFile yaml (fl_manifest fs) = Ok specs -> loadSessions (ts_known (fl_trust fs)) = Ok sessions ->
  revokedSet (ts_revoked (fl_trust fs)) = Ok rv ->
  k ∈ PubKeyB64 ∘ sp_pin <$> specs \/ k ∈ PubKeyB64 ∘ ss_pin <$> sessions \/ k ∈ rv ->
  resolveKeyRef yaml (shortKeyTag k) fs = Ok k \/ exists n, resolveKeyRef yaml (shortKeyTag k) fs = Err (EAmbiguous n).
Proof.
  intros Hm Hs Hr Hk. unfold resolveKeyRef.
  assert (L : (slen (shortKeyTag k) < PublicKeySize)%nat).
  { unfold shortKeyTag. destruct (Nat.ltb_spec (slen k) 6); [unfold PublicKeySize; lia |]. rewrite slen_take. unfold PublicKeySize. lia. }
  apply short_no_key in L. destruct (DecodePubKey (shortKeyTag k)) as [pin |]; [done |]. rewrite Hm, Hs, Hr. cbn [lift].
  set (known := _ ∪ _ ∪ rv).
  assert (I : k ∈ merge_sort str_le (List.filter (has_prefix (shortKeyTag k)) (elements known))).
  { rewrite (merge_sort_Permutation str_le). apply elem_filter. split.
    - apply elem_of_elements. unfold known. rewrite !elem_of_union, !elem_of_list_to_set. tauto.
    - unfold shortKeyTag. apply has_prefix_spec. destruct (_ <? _)%nat; [exists "" | exists (drop_s 6 k)]; [| by rewrite take_drop_s].
      clear. induction k as [| c k IHk]; [done |]. cbn [String.append]. by f_equal. }
  destruct (merge_sort _ _) as [| a [| b l]]; [by apply not_elem_of_nil in I | | right; by eexists].
  apply list_elem_of_singleton in I as ->. by left.
Qed.

(** Keys and their encodings. *)
Lemma b64_elem {A} (f : A -> string) (l : list A) pin : pin ∈ f <$> l <-> PubKeyB64 pin ∈ PubKeyB64 ∘ f <$> l.
Proof.
  rewrite !list_elem_of_fmap. cbn [compose]. split; intros (x & E & Hx); exists x; (split; [| done]); [by rewrite E | by apply PubKeyB64_inj].
Qed.

(** Three lists without repetition and without common elements. *)
Lemma listed_NoDup (a b c : list string) :
  NoDup a -> NoDup b -> NoDup c -> (forall x, x ∈ a -> x ∉ b) -> (forall x, x ∈ a \/ x ∈ b -> x ∉ c) -> NoDup (a ++ b ++ c).
Proof.
  intros Na Nb Nc Hab Hc. apply NoDup_app. split_and!; [done | | apply NoDup_app; split_and!; auto].
  intros x Hx [Hb | Hx']%elem_of_app; [by apply (Hab x) | by apply (Hc x); auto].
Qed.

(** The list shows everything that matters, once.  Its rows are the keys of
    the manifest, of the stored sessions and of the revocation list, each
    exactly once; a row says REVOKED just when the key is revoked, and paired
    just when it is not and a session is stored; and the short handle it shows
    for a key, given to another command, selects that key or is refused as
    ambiguous. *)
Theorem peers_list_complete path cache fs rows note :
  PeersList path cache fs = Ok (rows, note) ->
  exists specs sessions rv,
    loadPeersFile yaml (fl_manifest fs) = Ok specs /\ loadSessions (ts_known (fl_trust fs)) = Ok sessions /\
    revokedSet (ts_revoked (fl_trust fs)) = Ok rv /\ NoDup (r_pin <$> rows) /\
    (forall pin, pin ∈ r_pin <$> rows <-> pin ∈ sp_pin <$> specs \/ pin ∈ ss_pin <$> sessions \/ PubKeyB64 pin ∈ rv) /\
    forall r, r ∈ rows ->
      let k := PubKeyB64 (r_pin r) in
      (r_status r = "REVOKED" <-> k ∈ rv) /\ (r_status r = "paired" <-> k ∉ rv /\ r_pin r ∈ ss_pin <$> sessions) /\
      (resolveKeyRef yaml (shortKeyTag k) fs = Ok k \/ exists n, resolveKeyRef yaml (shortKeyTag k) fs = Err (EAmbiguous n)).
Proof.
  unfold PeersList. destruct (loadPeersFile yaml _) as [specs |] eqn:Hm; [| done]. destruct (loadSessions _) as [sessions |] eqn:Hs; [| done].
  destruct (revokedSet _) as [rv |] eqn:Hr; [| done]. cbn [lift]. set (names := loadPeerNames path cache).
  set (paired := fun k => bool_decide (k ∈ PubKeyB64 ∘ ss_pin <$> sessions)). set (revoked := fun k => bool_decide (k ∈ rv)).
  pose proof (session_rows_spec names revoked sessions (PubKeyB64 ∘ sp_pin <$> specs)) as S.
  destruct (session_rows _ _ _ _) as [extra shown]. destruct S as (N2 & P2 & K2 & F2).
  set (ks := merge_sort str_le _).
  assert (Ek : forall k, k ∈ ks <-> k ∈ rv /\ k ∉ shown).
  { intros k. unfold ks. rewrite (merge_sort_Permutation str_le), elem_filter, elem_of_elements, negb_true_iff, bool_decide_eq_false. tauto. }
  destruct (gone_rows_spec _ _ names ks Hr ltac:(intros k Hk; by apply Ek in Hk as [? _])) as [P3 F3].
  set (gone := omap _ ks) in *.
  assert (G : forall pin, pin ∈ r_pin <$> gone <-> PubKeyB64 pin ∈ rv /\ PubKeyB64 pin ∉ shown)
    by (intros pin; by rewrite b64_elem, list_fmap_compose, P3, Ek).
  assert (L : r_pin <$> (manifest_row names paired revoked <$> specs) = sp_pin <$> specs) by (by rewrite <- list_fmap_compose).
  intros [= <- _]. exists specs, sessions, rv. split_and!; try done.
  - rewrite !fmap_app, L. apply listed_NoDup; [by eapply manifest_NoDup | done | | |].
    + apply (NoDup_fmap_1 PubKeyB64). rewrite P3. unfold ks. rewrite (merge_sort_Permutation str_le). apply NoDup_ListNoDup, List.NoDup_filter, NoDup_ListNoDup, NoDup_elements.
    + intros pin H1 H2. apply P2 in H2 as [_ H2]. apply H2. by apply (b64_elem sp_pin specs pin).
    + intros pin H1 H2. apply G in H2 as [_ H2]. apply H2, K2. rewrite <- !b64_elem. rewrite P2 in H1. tauto.
  - intros pin. rewrite !fmap_app, !elem_of_app, L, P2, G, K2, <- !b64_elem.
    destruct (decide (pin ∈ sp_pin <$> specs)), (decide (pin ∈ ss_pin <$> sessions)); tauto.
  - intros r Hin. set (k := PubKeyB64 (r_pin r)). assert (Hk : k ∈ PubKeyB64 ∘ sp_pin <$> specs \/ k ∈ PubKeyB64 ∘ ss_pin <$> sessions \/ k ∈ rv).
    { unfold k. rewrite <- !b64_elem. apply (list_elem_of_fmap_2 r_pin) in Hin. rewrite !fmap_app, !elem_of_app, L, P2, G in Hin. tauto. }
    assert (St : r_status r = status_of (bool_decide (r_pin r ∈ ss_pin <$> sessions)) (bool_decide (k ∈ rv))).
    { apply elem_of_app in Hin as [(t & -> & Ht)%list_elem_of_fmap | [Hin | Hin]%elem_of_app].
      - cbn [manifest_row emit r_status r_pin]. unfold paired, revoked, k. cbn [r_pin manifest_row emit]. f_equal. apply bool_decide_ext. symmetry. apply (b64_elem ss_pin sessions).
      - rewrite Forall_forall in F2. rewrite (F2 _ Hin). apply (list_elem_of_fmap_2 r_pin) in Hin. rewrite P2 in Hin. by rewrite (bool_decide_eq_true_2 _ (proj1 Hin)).
      - rewrite Forall_forall in F3. rewrite (F3 _ Hin). apply (list_elem_of_fmap_2 r_pin) in Hin. rewrite G in Hin. unfold k. by rewrite (bool_decide_eq_true_2 _ (proj1 Hin)). }
    split_and!; [| | by eapply handle_selects]; rewrite St; unfold status_of; repeat case_bool_decide; naive_solver.
Qed.
End PeersList.

Module ListDemo.
Import SupDemo.

Definition shown : result PeersErr (list Row * bool) := PeersList demo_yaml false CacheMissing home.

(** The list of the demonstration host. *)
Lemma peers_list_complete_witness :
  exists rows note, shown = Ok (rows, note) /\ rows <> [] /\
    exists specs sessions rv, loadPeersFile demo_yaml (fl_manifest home) = Ok specs /\
      loadSessions (ts_known (fl_trust home)) = Ok sessions /\ revokedSet (ts_revoked (fl_trust home)) = Ok rv /\ NoDup (r_pin <$> rows).
Proof.
  destruct shown as [[rows note] | e] eqn:E; [| vm_compute in E; discriminate E]. exists rows, note. split; [reflexivity |]. split.
  - intros ->. vm_compute in E. discriminate E.
  - destruct (peers_list_complete demo_yaml false CacheMissing home rows note E) as (specs & sessions & rv & H1 & H2 & H3 & H4 & _).
    exists specs, sessions, rv. exact (conj H1 (conj H2 (conj H3 H4))).
Defined.
End ListDemo.
