(* ===== verification/LocalTrust.v ===== *)
(** * What a buddy takes from its own configuration

    [internal/role/relaytrust.go]: which relay a buddy may bind to.
    [internal/role/direct.go]: direct mode, where the partner is configured and
    no server is involved. *)

From S2P Require Import Prelude Base64 Sha256 Json NetAddr NetParse Crypto Protocol RelayWire HsRegistry PeerCache.
From S2P Require Handshake.

(** What of the buddy's configuration a connection depends on. *)
Record ConnConfig := mkConn {
  cc_Server : string; cc_PeerKey : string; cc_PeerRelay : string; cc_PeerEndpoint : string; cc_ListenPort : Z;
  cc_Direct : bool; cc_WireGuard : bool; cc_SASShow : bool; cc_Interactive : bool;
}.

(** ** The relay *)

Record relayOffer := mkOffer { ro_endpoint : string; ro_skipped : string; ro_reason : string }.

Section LocalTrust.
(** [strings.ToLower] on a text that is not ASCII, and [net.LookupPort]: whether
    a port or service name is known for UDP. *)
Context (lower_unicode : string -> string) (lookup_port : string -> bool).

(** An address of the IPv6 family prints its zone. *)
Definition host_text (a : Addr) (zone : string) : string :=
  match Unmap a with
  | Addr4 b => Addr_String (Addr4 b)
  | Addr6 b => if String.eqb zone "" then Addr_String (Addr6 b) else Addr_String (Addr6 b) ⊕ "%" ⊕ zone
  end.

Definition hostOf (hostport : string) : option string :=
  '(host, _) ← SplitHostPort hostport;
  let host := ToLower lower_unicode (default host (trim_suffix "." host)) in
  Some (match ParseAddr host with Some (a, zone) => host_text a zone | None => host end).

Definition trustedRelay (local server advertised : string) : relayOffer :=
  if negb (String.eqb local "") then mkOffer local "" ""
  else if String.eqb advertised "" then mkOffer "" "" ""
  else match hostOf advertised with
       | None => mkOffer "" advertised "offer is not a HOST:PORT"
       | Some aHost =>
           match hostOf server with
           | None | Some "" => mkOffer "" advertised "no --server host to compare against"
           | Some sHost =>
               if negb (String.eqb aHost sHost)
               then mkOffer "" advertised "offer names a host other than --server; pass it as --peer-relay to allow it"
               else mkOffer advertised "" ""
           end
       end.

Definition maxRelayOfferLatch : nat := 64.

(** [noteSkipped]: whether a line is logged, and the values seen. *)
Definition noteSkipped (o : relayOffer) (seen : gset string) : bool * gset string :=
  if String.eqb (ro_skipped o) "" then (false, seen)
  else if bool_decide (ro_skipped o ∈ seen) then (false, seen)
  else (true, if (size seen <? maxRelayOfferLatch)%nat then {[ro_skipped o]} ∪ seen else seen).

(** ** Direct mode *)

Inductive DirectErr := DNoKey | DBadKey (e : DecodeErr) | DNoPath | DHostPort (what addr : string) | DNoHost (what addr : string)
| DPort (what addr port : string).

Definition directPartner (cfg : ConnConfig) : result DirectErr Peer :=
  if String.eqb (cc_PeerKey cfg) "" then Err DNoKey
  else match DecodePubKey (cc_PeerKey cfg) with
       | Err e => Err (DBadKey e)
       | Ok pub => Ok (mkPeer (HsRegistry.keyTag (cc_PeerKey cfg)) (PubKeyB64 pub) (VirtualIPString pub) "" [] "" 0)
       end.

Definition directListening (cfg : ConnConfig) (myPub peerPub : string) : bool :=
  let canDial := negb (String.eqb (cc_PeerEndpoint cfg) "") in
  let canListen := negb (cc_ListenPort cfg =? 0) in
  if canDial && canListen then str_ltb myPub peerPub else if canListen then true else false.

Definition validateHostPort (what addr : string) : option DirectErr :=
  if String.eqb addr "" then None
  else match SplitHostPort addr with
       | None => Some (DHostPort what addr)
       | Some (host, port) =>
           if String.eqb host "" then Some (DNoHost what addr)
           else if negb (lookup_port port) then Some (DPort what addr port) else None
       end.

Definition validateDirect (cfg : ConnConfig) : option DirectErr :=
  match validateHostPort "--peer-relay" (cc_PeerRelay cfg) with
  | Some e => Some e
  | None =>
      if negb (cc_Direct cfg) then None
      else if String.eqb (cc_PeerKey cfg) "" then Some DNoKey
      else if String.eqb (cc_PeerEndpoint cfg) "" && (cc_ListenPort cfg =? 0) then Some DNoPath
      else validateHostPort "--peer-endpoint" (cc_PeerEndpoint cfg)
  end.
End LocalTrust.

(** The relay session id of a pair that has no ticket. *)
Definition sessionToken (token pubA pubB : string) : string :=
  let '(lo, hi) := if str_ltb pubB pubA then (pubB, pubA) else (pubA, pubB) in
  RawURL.EncodeToString (take_s 16 (sha256 (token ⊕ String zero "" ⊕ lo ⊕ String zero "" ⊕ hi))).
