(* ===== verification/Startup.v ===== *)
(** * Starting a role

    [Buddy] of [internal/role/buddy.go] up to the loop it enters, and the relay
    role of [internal/role/relay.go] up to the server it runs.  What start-up
    reads (files, randomness, system calls) is an argument; what it decides is
    the result. *)

From S2P Require Import Prelude Base64 Sha256 Json NetAddr NetParse Crypto Protocol RelayWire HsRegistry Authz AuthzFile TrustStore Sas Scope Register PeerCache LocalTrust Manifest ManifestProps Supervisor SupervisorProps KeyFile.
From S2P Require Ticket RelayServer.

(** ** The configuration of a buddy *)

Record FullConfig := mkFull {
  f_Server : string; f_ServerKey : string; f_Token : string;
  f_PeerKey : string; f_KnownPeers : string;
  f_Direct : bool; f_PeerEndpoint : string; f_PeerRelay : string; f_ListenPort : Z;
  f_PeersFile : string; f_Insecure : bool; f_Code : string; f_KeyPath : string; f_PeersPath : string;
  f_LocalListen : string; f_Forward : string; f_VIPListen : string;
  f_PunchDur : Z; f_IdleTimeout : Z; f_Status : bool; f_ReauthInterval : Z;
  f_Interactive : bool; f_SASTimeout : Z; f_SASShow : bool; f_Inviting : bool;
  f_Ephemeral : bool; f_InviteTimeout : Z;
  f_Name : string; f_DNS : bool; f_Lazy : bool; f_WireGuard : bool; f_Expose : option Scope;
}.

(** What an attempt, its source and a registration see of it. *)
Definition conn_of (c : FullConfig) : ConnConfig :=
  mkConn (f_Server c) (f_PeerKey c) (f_PeerRelay c) (f_PeerEndpoint c) (f_ListenPort c)
         (f_Direct c) (f_WireGuard c) (f_SASShow c) (f_Interactive c).

Definition opts_of (c : FullConfig) : BuddyOpts :=
  mkOpts (f_PeerKey c) (f_Token c) (negb (String.eqb (f_PeersFile c) "")) (f_Insecure c) (f_Direct c) (f_Ephemeral c) (f_InviteTimeout c).

Definition reg_of (c : FullConfig) : BuddyConfig := mkBuddyConfig (f_Name c) (f_Code c).

Definition with_times (c : FullConfig) (punch idle sas invite : Z) : FullConfig :=
  mkFull (f_Server c) (f_ServerKey c) (f_Token c) (f_PeerKey c) (f_KnownPeers c) (f_Direct c) (f_PeerEndpoint c) (f_PeerRelay c)
    (f_ListenPort c) (f_PeersFile c) (f_Insecure c) (f_Code c) (f_KeyPath c) (f_PeersPath c) (f_LocalListen c) (f_Forward c)
    (f_VIPListen c) punch idle (f_Status c) (f_ReauthInterval c) (f_Interactive c) sas (f_SASShow c) (f_Inviting c)
    (f_Ephemeral c) invite (f_Name c) (f_DNS c) (f_Lazy c) (f_WireGuard c) (f_Expose c).

(** ** What start-up decides *)

Definition PunchDurMax : Z := 60 * second.

(** The loop a buddy enters: the one-shot probe, one worker per buddy of the
    manifest or per stored session, or one buddy, dialled on demand or not. *)
Inductive Plan := PlanProbe | PlanManifest (specs : list peerSpec) | PlanSessions (specs : list peerSpec) | PlanSingle (lazy : bool).

Record Started := mkStarted {
  sd_cfg : FullConfig; sd_node : node; sd_policy : trustPolicy; sd_reg : Registry;
  sd_created : bool;              (* a new identity was written *)
  sd_invite : option string;      (* the invite printed *)
  sd_keep : option (list Addr);   (* the loopback addresses kept; the rest of the range goes *)
  sd_plan : Plan;
}.

Inductive BuddyErr :=
| PunchTooLong (d : Z) | StartDirect (e : DirectErr) | BadServerKey (e : DecodeErr) | IdentityKey (e : KeyErr)
| BadPeerKey (e : DecodeErr) | NoTrustSource | CacheUnreadableErr | Assemble (e : PeersErr) | NoBuddies | LocalForMany (n : nat)
| LazyListen.

(** Random bytes of the identity and of the run, system calls, and whether the
    [-L] listener of lazy mode could be opened. *)
Record StartWorld := mkStartWorld { sw_seed : option string; sw_keyio : KeyIO; sw_rand : string; sw_listen : bool }.

Definition randomID (rand : string) : string := RawURL.EncodeToString rand.

Section Buddy.
Context `{Ed25519} (from_seed : string -> string) (yaml : string -> YamlDoc) (lookup_port : string -> bool).

(** The durations, with their defaults. *)
Definition with_defaults (c : FullConfig) : FullConfig :=
  with_times c (if f_PunchDur c =? 0 then 2 * second else f_PunchDur c)
    (if f_IdleTimeout c <? 10 * second then 60 * second else f_IdleTimeout c)
    (if f_SASTimeout c <=? 0 then 30 * second else f_SASTimeout c)
    (if f_InviteTimeout c <=? 0 then 15 * minute else f_InviteTimeout c).

(** Who the partner may be. *)
Definition trust_source (c : FullConfig) : result BuddyErr trustPolicy :=
  let store := negb (String.eqb (f_KnownPeers c) "") in
  if negb (String.eqb (f_PeerKey c) "") then
    match DecodePubKey (f_PeerKey c) with
    | Err e => Err (BadPeerKey e)
    | Ok p => Ok (mkTrustPolicy (Some p) (f_Insecure c) store)
    end
  else if f_Insecure c then Ok (mkTrustPolicy None true store)
  else if negb store then Err NoTrustSource
  else Ok (mkTrustPolicy None false store).

(** The loopback addresses this run will manage. *)
Definition managed_vips (fs : Files) (t : trustPolicy) : list Addr :=
  match assemblePeers yaml fs with Ok specs => VirtualIP ∘ sp_pin <$> specs | Err _ => [] end ++
  match tp_pinned t with Some p => [VirtualIP p] | None => [] end.

(** Which loop. *)
Definition choose_plan (c : FullConfig) (w : StartWorld) (fs : Files) : result BuddyErr Plan :=
  if negb (String.eqb (f_PeersFile c) "") then
    match assemblePeers yaml fs with
    | Err e => Err (Assemble e)
    | Ok [] => Err NoBuddies
    | Ok specs =>
        if (1 <? length specs)%nat && negb (String.eqb (f_LocalListen c) "") then Err (LocalForMany (length specs))
        else Ok (PlanManifest specs)
    end
  else
    let single := if f_Lazy c && negb (String.eqb (f_LocalListen c) "")
                  then if sw_listen w then Ok (PlanSingle true) else Err LazyListen
                  else Ok (PlanSingle false) in
    match loadSessions (ts_known (fl_trust fs)) with
    | Ok sessions =>
        if (1 <? length sessions)%nat then
          if negb (String.eqb (f_LocalListen c) "") then Err (LocalForMany (length sessions))
          else Ok (PlanSessions ((fun s => mkSpec (ss_pin s) "" "" None) <$> take MaxBuddies sessions))
        else single
    | Err _ => single
    end.

(** [Buddy], up to the loop. *)
Definition Buddy (c0 : FullConfig) (w : StartWorld) (fs : Files) (cache : CacheFile) (keys : Dir) : result BuddyErr Started * Dir :=
  let c := with_defaults c0 in
  if PunchDurMax <? f_PunchDur c then (Err (PunchTooLong (f_PunchDur c)), keys)
  else match validateDirect lookup_port (conn_of c) with
  | Some e => (Err (StartDirect e), keys)
  | None =>
      match (if f_Direct c then Ok "" else DecodePubKey (f_ServerKey c)) with
      | Err e => (Err (BadServerKey e), keys)
      | Ok serverPub =>
          match LoadOrCreateKey from_seed (sw_seed w) (sw_keyio w) (f_KeyPath c) keys with
          | (Err e, keys') => (Err (IdentityKey e), keys')
          | (Ok (priv, created), keys') =>
              let pub := pub_of priv in
              let nd := mkNode priv (PubKeyB64 pub) (randomID (sw_rand w)) (VirtualIPString pub) serverPub in
              let blob := if f_Inviting c then Some (Sas.Mint (f_Token c) pub) else None in
              (let? trust := trust_source c in
               match Open (negb (String.eqb (f_PeersPath c) "")) cache with
               | None => Err CacheUnreadableErr
               | Some reg =>
                   let started := mkStarted c nd trust reg (created && negb (String.eqb (f_KeyPath c) "")) blob in
                   if f_Status c then Ok (started None PlanProbe)
                   else
                     let keep := if String.eqb (f_VIPListen c) "" then None else Some (managed_vips fs trust) in
                     let? plan := choose_plan c w fs in Ok (started keep plan)
               end, keys')
          end
      end
  end.
End Buddy.

(** ** The relay role *)

Record RelayConfig := mkRelayConfig {
  rc_Listen : string; rc_TTL : Z; rc_ServerKeys : list string; rc_RelayID : string; rc_AllowCIDRs : list Prefix;
  rc_MaxSessions : Z; rc_MaxLegsPerIP : Z; rc_Debug : bool;
}.

Inductive RelayErr := OpenPrefix (p : Prefix) | NoRelayPolicy | TooManyKeys (n : nat) | NeedsRelayID (id : string) | RelaySocket.

Definition checkPolicy (c : RelayConfig) : option RelayErr :=
  match find (fun p => pfx_bits p =? 0) (rc_AllowCIDRs c) with
  | Some p => Some (OpenPrefix p)
  | None =>
      if bool_decide (rc_ServerKeys c = []) && bool_decide (rc_AllowCIDRs c = []) then Some NoRelayPolicy
      else if (2 <? length (rc_ServerKeys c))%nat then Some (TooManyKeys (length (rc_ServerKeys c)))
      else if negb (bool_decide (rc_ServerKeys c = [])) && negb (Ticket.ValidID (rc_RelayID c)) then Some (NeedsRelayID (rc_RelayID c))
      else None
  end.

(** What [relay.New] is given. *)
Definition relay_options (c : RelayConfig) : RelayServer.Options :=
  RelayServer.mkOptions (rc_TTL c) (rc_ServerKeys c) (rc_RelayID c) (rc_AllowCIDRs c) (rc_MaxSessions c) (rc_MaxLegsPerIP c) (rc_Debug c).

(** [Relay]: the server it runs, where its socket opens; [key] is the relay's
    random cookie key. *)
Definition Relay (c0 : RelayConfig) (socket : bool) (key : string) (now : Z) : result RelayErr RelayServer.Server :=
  let c := mkRelayConfig (rc_Listen c0) (if rc_TTL c0 =? 0 then 60 * second else rc_TTL c0) (rc_ServerKeys c0) (rc_RelayID c0)
             (rc_AllowCIDRs c0) (rc_MaxSessions c0) (rc_MaxLegsPerIP c0) (rc_Debug c0) in
  match checkPolicy c with
  | Some e => Err e
  | None => if negb socket then Err RelaySocket else Ok (RelayServer.New (relay_options c) key now)
  end.
