(* ===== verification/StartupProps.v ===== *)
(** * What start-up guarantees *)

From S2P Require Import Prelude Base64 Sha256 Json NetAddr NetParse Crypto Protocol HsRegistry Authz AuthzFile TrustStore Sas Scope Register PeerCache LocalTrust Manifest ManifestProps Supervisor KeyFile Startup.
From S2P Require Ticket RelayServer RelayProps RelayTheorems.

(** ** Buddies *)

Section Buddy.
Context `{Ed25519} (from_seed : string -> string) (yaml : string -> YamlDoc) (lookup_port : string -> bool).

Definition specs_of (p : Plan) : option (list peerSpec) :=
  match p with PlanManifest l | PlanSessions l => Some l | PlanProbe | PlanSingle _ => None end.

(** The durations after the defaults. *)
Lemma defaults_sound c :
  let k := with_defaults c in
  f_PunchDur k <> 0 /\ 10 * second <= f_IdleTimeout k /\ 0 < f_SASTimeout k /\ 0 < f_InviteTimeout k.
Proof.
  unfold with_defaults, with_times. cbn [f_PunchDur f_IdleTimeout f_SASTimeout f_InviteTimeout]. unfold minute, second.
  destruct (Z.eqb_spec (f_PunchDur c) 0), (Z.ltb_spec (f_IdleTimeout c) (10 * 1000000000)), (Z.leb_spec (f_SASTimeout c) 0),
    (Z.leb_spec (f_InviteTimeout c) 0); lia.
Qed.

Lemma trust_source_sound c t :
  trust_source c = Ok t ->
  tp_insecure t = f_Insecure c /\ tp_store t = negb (String.eqb (f_KnownPeers c) "") /\
  (if String.eqb (f_PeerKey c) "" then tp_pinned t = None else exists pin, DecodePubKey (f_PeerKey c) = Ok pin /\ tp_pinned t = Some pin) /\
  (is_Some (tp_pinned t) \/ tp_insecure t = true \/ tp_store t = true).
Proof.
  unfold trust_source. destruct (String.eqb_spec (f_PeerKey c) ""); cbn [negb].
  - destruct (f_Insecure c); [intros [= <-]; split_and!; cbn; auto |]. destruct (String.eqb (f_KnownPeers c) ""); [done |].
    intros [= <-]. split_and!; cbn; auto.
  - destruct (DecodePubKey _) as [p |]; [| done]. intros [= <-]. split_and!; cbn; eauto.
Qed.

Lemma validateDirect_sound c :
  validateDirect lookup_port c = None -> cc_Direct c = true -> cc_PeerKey c <> "" /\ (cc_PeerEndpoint c <> "" \/ cc_ListenPort c <> 0).
Proof.
  unfold validateDirect. destruct (validateHostPort _ _ _); [done |]. intros E Hd. rewrite Hd in E. cbn [negb] in E.
  destruct (String.eqb_spec (cc_PeerKey c) ""); [done |]. split; [done |].
  destruct (String.eqb_spec (cc_PeerEndpoint c) ""); [| by left]. destruct (Z.eqb_spec (cc_ListenPort c) 0); [done | by right].
Qed.

Lemma assemble_cap fs specs : assemblePeers yaml fs = Ok specs -> (length specs <= MaxBuddies)%nat.
Proof.
  unfold assemblePeers. destruct (lift _ (loadPeersFile _ _)); [| done]. destruct (lift _ (revokedSet _)); [| done].
  destruct (lift _ (loadSessions _)); [| done]. match goal with |- context [(MaxBuddies <? length ?l)%nat] => destruct (Nat.ltb_spec MaxBuddies (length l)) end; [done |].
  destruct (vip_collision _ _) as [[] |]; [done |]. by intros [= <-].
Qed.

(** What the worker list of a plan is. *)
Lemma choose_plan_sound c w fs p :
  choose_plan yaml c w fs = Ok p ->
  match p with
  | PlanManifest specs => f_PeersFile c <> "" /\ assemblePeers yaml fs = Ok specs
  | PlanSessions specs => f_PeersFile c = "" /\ exists ss, loadSessions (ts_known (fl_trust fs)) = Ok ss /\ (1 < length ss)%nat /\
      specs = (fun s => mkSpec (ss_pin s) "" "" None) <$> take MaxBuddies ss
  | PlanProbe => False
  | PlanSingle lazy => f_PeersFile c = "" /\ (lazy = true <-> f_Lazy c = true /\ f_LocalListen c <> "")
  end /\
  forall specs, specs_of p = Some specs -> specs <> [] /\ (length specs <= MaxBuddies)%nat /\ (f_LocalListen c <> "" -> length specs = 1%nat).
Proof.
  unfold choose_plan. destruct (String.eqb_spec (f_PeersFile c) "") as [Ef | Ef]; cbn [negb].
  - assert (S : forall q, (if f_Lazy c && negb (String.eqb (f_LocalListen c) "") then if sw_listen w then Ok (PlanSingle true) else Err LazyListen
                           else Ok (PlanSingle false)) = Ok q ->
              exists lazy, q = PlanSingle lazy /\ (lazy = true <-> f_Lazy c = true /\ f_LocalListen c <> "")).
    { intros q. destruct (f_Lazy c), (String.eqb_spec (f_LocalListen c) ""); cbn [andb negb]; try destruct (sw_listen w); intros [= <-]; eexists; split; try done; naive_solver. }
    destruct (loadSessions _) as [ss |] eqn:El.
    2: { intros (lazy & -> & L)%S. split; [done |]. by intros specs. }
    destruct (Nat.ltb_spec 1 (length ss)) as [Hl | Hl].
    2: { intros (lazy & -> & L)%S. split; [done |]. by intros specs. }
    destruct (String.eqb_spec (f_LocalListen c) "") as [E | E]; cbn [negb]; [| done]. intros [= <-]. split; [eauto 10 |].
    intros specs [= <-]. rewrite length_fmap, length_take. split_and!; [| lia | done].
    intros En%(f_equal length). rewrite length_fmap, length_take in En. unfold MaxBuddies in En. cbn [length] in En. lia.
  - destruct (assemblePeers yaml fs) as [[| s l] |] eqn:Ea; [done | | done]. destruct (_ && _) eqn:G; [done |]. intros [= <-]. split; [done |].
    intros specs [= <-]. split_and!; [done | by eapply assemble_cap |]. intros E. apply andb_false_iff in G as [G | G].
    + apply Nat.ltb_ge in G. cbn [length] in *. lia.
    + apply negb_false_iff, String.eqb_eq in G. done.
Qed.

(** Who the node is, the invite it prints, and whom it trusts. *)
Lemma buddy_identity c w fs cache keys s keys' :
  Buddy from_seed yaml lookup_port c w fs cache keys = (Ok s, keys') ->
  nd_pub (sd_node s) = PubKeyB64 (pub_of (nd_priv (sd_node s))) /\
  sd_invite s = (if f_Inviting c then Some (Sas.Mint (f_Token c) (pub_of (nd_priv (sd_node s)))) else None) /\
  trust_source (with_defaults c) = Ok (sd_policy s).
Proof.
  unfold Buddy. destruct (_ <? _); [done |]. destruct (validateDirect _ _); [done |]. destruct (if f_Direct _ then _ else _); [| done].
  destruct (LoadOrCreateKey _ _ _ _ _) as [[[priv created] |] k']; [| done]. destruct (trust_source _) as [t |]; [| done].
  destruct (Open _ _); [| done]. destruct (f_Status _); [by intros [= <- _] |]. destruct (choose_plan _ _ _ _); [| done]. by intros [= <- _].
Qed.

(** C20. Whatever starts is fit to run.  The durations a buddy runs with leave a
    relay ticket its bind window and are never zero; in direct mode the partner
    is pinned and there is a way to meet it, otherwise the server's key is
    pinned; there is a pin, a trust store or an explicit opt-out, and no
    opt-out that was not asked for; the workers are the assembled buddies or
    the stored sessions, at least one and at most 48, more than one only where
    no single local port would have to serve them all; and the supervisor takes
    them. *)
Theorem startup_is_sound c w fs cache keys s keys' :
  Buddy from_seed yaml lookup_port c w fs cache keys = (Ok s, keys') ->
  let k := sd_cfg s in let t := sd_policy s in
  (f_PunchDur k <= PunchDurMax /\ f_PunchDur k <> 0 /\ 10 * second <= f_IdleTimeout k /\ 0 < f_SASTimeout k /\ 0 < f_InviteTimeout k) /\
  (if f_Direct k
   then (exists pin, DecodePubKey (f_PeerKey k) = Ok pin /\ tp_pinned t = Some pin) /\ (f_PeerEndpoint k <> "" \/ f_ListenPort k <> 0)
   else DecodePubKey (f_ServerKey k) = Ok (nd_serverPub (sd_node s))) /\
  (is_Some (tp_pinned t) \/ tp_insecure t = true \/ tp_store t = true) /\ tp_insecure t = f_Insecure c /\
  match sd_plan s with
  | PlanProbe => f_Status c = true
  | PlanManifest specs => assemblePeers yaml fs = Ok specs
  | PlanSessions specs => exists ss, loadSessions (ts_known (fl_trust fs)) = Ok ss /\ specs = (fun s => mkSpec (ss_pin s) "" "" None) <$> take MaxBuddies ss
  | PlanSingle lazy => lazy = true <-> f_Lazy c = true /\ f_LocalListen c <> ""
  end /\
  forall specs, specs_of (sd_plan s) = Some specs ->
    specs <> [] /\ (f_LocalListen c <> "" -> length specs = 1%nat) /\ exists sup, supervise specs = Some sup.
Proof.
  unfold Buddy. pose proof (defaults_sound c) as D. cbn zeta in D. set (k := with_defaults c) in *.
  destruct (Z.ltb_spec PunchDurMax (f_PunchDur k)) as [| Hp]; [done |].
  destruct (validateDirect _ _) as [e |] eqn:Ev; [done |]. destruct (if f_Direct k then _ else _) as [serverPub |] eqn:Es; [| done].
  destruct (LoadOrCreateKey _ _ _ _ _) as [[[priv created] |] keys1]; [| done]. destruct (trust_source k) as [t |] eqn:Et; [| done].
  destruct (Open _ _) as [reg |]; [| done]. apply trust_source_sound in Et as (T1 & _ & T3 & T4).
  intros [= E _]. cbn zeta.
  assert (F : sd_cfg s = k /\ sd_policy s = t /\ nd_serverPub (sd_node s) = serverPub /\
              (sd_plan s = PlanProbe /\ f_Status c = true \/ choose_plan yaml k w fs = Ok (sd_plan s))).
  { revert E. destruct (f_Status c) eqn:St; [intros [= <-]; cbn; auto 6 |].
    destruct (choose_plan yaml k w fs) as [p |]; [| done]. intros [= <-]. cbn. auto 6. }
  destruct F as (-> & -> & -> & P). split_and!; try apply D; try done.
  - destruct (f_Direct k) eqn:Ed; [| done]. apply validateDirect_sound in Ev as [Hk Hm]; [| exact Ed]. split; [| exact Hm].
    change (cc_PeerKey (conn_of k)) with (f_PeerKey k) in Hk. by destruct (String.eqb_spec (f_PeerKey k) "").
  - destruct P as [[-> St] | P]; [done |]. apply choose_plan_sound in P as [P _]. destruct (sd_plan s); [done | tauto | | tauto].
    destruct P as (_ & ss & ? & _ & ?). eauto.
  - intros specs Hs. destruct P as [[E' _] | P]; [by rewrite E' in Hs |]. apply choose_plan_sound in P as [_ P].
    destruct (P specs Hs) as (N & L & One). split_and!; [done | done |]. unfold supervise. destruct (Nat.ltb_spec MaxBuddies (length specs)); [lia | eauto].
Qed.
End Buddy.
