(* ===== verification/CommandLine.v ===== *)
(** * The command line

    [cmd/buddynet/main.go]: from the flags the [flag] package delivers and the
    environment to the roles that are started, the refusals on the way, and the
    administrative commands. *)

From S2P Require Import Prelude Base64 Sha256 Json NetAddr NetParse Crypto Protocol HsRegistry Authz AuthzFile TrustStore Sas Scope PeerCache LocalTrust Manifest Supervisor PeersList KeyFile Startup.
From S2P Require Ticket Handshake.

(** [refuse! c with e in k]: Go's [if c { exit with e }]. *)
Notation "'refuse!' c 'with' e 'in' k" :=
  (if c then Some e else k) (at level 10, c at level 100, e at level 100, k at level 200) : go_scope.

Definition given (s : string) : bool := negb (String.eqb s "").

(** ** Roles *)

Inductive Role := RoleBuddy | RoleRelay | RoleHandshake.
#[export] Instance Role_eq_dec : EqDecision Role.
Proof. solve_decision. Defined.

Definition role_of (s : string) : option Role :=
  if String.eqb s "buddy" then Some RoleBuddy
  else if String.eqb s "relay" then Some RoleRelay
  else if String.eqb s "handshake" then Some RoleHandshake else None.

Inductive CLIErr :=
| RoleRequired | UnknownRole (r : string) | BadCIDR (entry : string) | BadServerKeyEntry (entry : string) (e : DecodeErr)
| RelayKeyFile (e : KeyErr) | BadInvite (e : BlobErr) | InviteKeyConflict
| StatusAlone | BadListenPort | PortWithManifest
| DirectNeedsKey | DirectNeedsPath | DirectWithServer | DirectWithManifest | DirectWithToken | DirectWithCode | DirectWithLab
| DirectWithStatus | NeedsServer | LabUnconfirmed | StatusNeedsToken | ExposeNeedsWG | BadExpose (e : ScopeErr) | WGWithLazy
| CarriesNothing | PunchOver | BadVIPPort | ManifestWithKey | ManifestWithInvite | ManifestWithLazy | LazyNeedsListen.

Fixpoint roles_loop (parts : list string) (out : list Role) : result CLIErr (list Role) :=
  match parts with
  | [] => Ok out
  | part :: rest =>
      let r := TrimSpace part in
      match role_of r with
      | Some role => roles_loop rest (if bool_decide (role ∈ out) then out else out ++ [role])
      | None => if String.eqb r "" then roles_loop rest out else Err (UnknownRole r)
      end
  end.

Definition parseRoles (s : string) : result CLIErr (list Role) :=
  if String.eqb (TrimSpace s) "" then Err RoleRequired
  else let? out := roles_loop (split_on "," s) [] in
       match out with [] => Err RoleRequired | _ => Ok out end.

Definition hasRole (roles : list Role) (r : Role) : bool := bool_decide (r ∈ roles).

(** ** Networks *)

(** [netip.ParsePrefix] *)
Definition BitLen (a : Addr) : Z := match a with Addr4 _ => 32 | Addr6 _ => 128 end.

Definition prefix_bits (s : string) : option Z :=
  match s with
  | EmptyString => None
  | String c r => if negb (String.eqb r "") && Ascii.eqb c "0" then None else digits_val 0 s
  end.

Definition ParsePrefix (s : string) : option Prefix :=
  '(ip, bits) ← cut_last "/" s;
  '(a, zone) ← ParseAddr ip;
  if Is6 a && given zone then None
  else n ← prefix_bits bits; if BitLen a <? n then None else Some (mkPrefix a n).

(** [p.Masked()] *)
Definition Masked (p : Prefix) : Prefix :=
  let low := BitLen (pfx_addr p) - pfx_bits p in
  let mask b := Z.shiftl (Z.shiftr (be_value 0 b) low) low in
  mkPrefix (match pfx_addr p with Addr4 b => Addr4 (be_bytes 4 (mask b)) | Addr6 b => Addr6 (be_bytes 16 (mask b)) end) (pfx_bits p).

Definition cidr_entry (part : string) : result CLIErr Prefix :=
  match ParsePrefix part with
  | Some p => Ok (Masked p)
  | None => match ParseAddr part with
            | Some (a, _) => Ok (mkPrefix a (BitLen a))
            | None => Err (BadCIDR part)
            end
  end.

Fixpoint cidrs_loop (parts : list string) : result CLIErr (list Prefix) :=
  match parts with
  | [] => Ok []
  | part :: rest =>
      let part := TrimSpace part in
      if String.eqb part "" then cidrs_loop rest
      else let? p := cidr_entry part in let? l := cidrs_loop rest in Ok (p :: l)
  end.

Definition parseCIDRs (s : string) : result CLIErr (list Prefix) :=
  let s := TrimSpace s in if String.eqb s "" then Ok [] else cidrs_loop (split_on "," s).

(** ** The keys a relay trusts *)

Fixpoint keys_loop (parts : list string) : result CLIErr (list string) :=
  match parts with
  | [] => Ok []
  | part :: rest =>
      let part := TrimSpace part in
      if String.eqb part "" then keys_loop rest
      else match DecodePubKey part with
           | Err e => Err (BadServerKeyEntry part e)
           | Ok k => let? l := keys_loop rest in Ok (k :: l)
           end
  end.

Definition parseServerKeys (s : string) : result CLIErr (list string) :=
  let s := TrimSpace s in if String.eqb s "" then Ok [] else keys_loop (split_on "," s).

Section Keys.
Context `{Ed25519} (from_seed : string -> string).

Definition relayKeys (roles : list Role) (serverKey keyPath : string) (io : KeyIO) (keys : Dir) : result CLIErr (list string) * Dir :=
  if given (TrimSpace serverKey) then (parseServerKeys serverKey, keys)
  else if negb (hasRole roles RoleHandshake) || String.eqb keyPath "" then (Ok [], keys)
  else match LoadKey from_seed None io keyPath keys with
       | (Err e, keys') => (Err (RelayKeyFile e), keys')
       | (Ok (priv, _), keys') => (Ok [pub_of priv], keys')
       end.
End Keys.

Definition DefaultHandshakeAddr : string := "[::]:51820".
Definition DefaultRelayAddr : string := "[::]:51821".

Definition relayListen (relayFlag listen : string) (roles : list Role) : string :=
  if given relayFlag then relayFlag else if given listen && (length roles =? 1)%nat then listen else DefaultRelayAddr.

Definition orDefault (v def : string) : string := if given v then v else def.

(** ** The arguments of a buddy *)

Record buddyArgs := mkArgs {
  a_server : string; a_serverKey : string; a_token : string; a_peerKey : string; a_knownPeers : string; a_code : string;
  a_keyPath : string; a_peersPath : string; a_peersFile : string; a_localListen : string; a_forward : string;
  a_vipListen : string; a_name : string; a_expose : string;
  a_lab : bool; a_status : bool; a_interactive : bool; a_ephemeral : bool; a_dns : bool; a_lazy : bool; a_wireguard : bool;
  a_inviting : bool; a_sasShow : bool; a_direct : bool;
  a_peerEndpoint : string; a_peerRelay : string; a_listenPort : Z;
  a_punchDur : Z; a_idleTimeout : Z; a_sasTimeout : Z; a_inviteTimeout : Z; a_reauthInterval : Z;
}.

Definition exposeScope (a : buddyArgs) : option Scope :=
  if negb (given (a_expose a)) then None
  else match ParseScope (a_expose a) with Ok s => Some s | Err _ => None end.

Definition config (a : buddyArgs) : FullConfig := {|
  f_Server := a_server a; f_ServerKey := a_serverKey a; f_Token := a_token a;
  f_PeerKey := a_peerKey a; f_KnownPeers := a_knownPeers a; f_Insecure := a_lab a;
  f_Code := a_code a; f_KeyPath := a_keyPath a; f_PeersPath := a_peersPath a; f_PeersFile := a_peersFile a;
  f_LocalListen := a_localListen a; f_Forward := a_forward a; f_VIPListen := a_vipListen a;
  f_PunchDur := a_punchDur a; f_IdleTimeout := a_idleTimeout a; f_Status := a_status a;
  f_Interactive := a_interactive a; f_SASTimeout := a_sasTimeout a;
  f_Ephemeral := a_ephemeral a; f_InviteTimeout := a_inviteTimeout a;
  f_Inviting := a_inviting a; f_SASShow := a_sasShow a;
  f_ReauthInterval := a_reauthInterval a;
  f_Name := a_name a; f_DNS := a_dns a; f_Lazy := a_lazy a;
  f_WireGuard := a_wireguard a; f_Expose := exposeScope a;
  f_Direct := a_direct a; f_PeerEndpoint := a_peerEndpoint a; f_PeerRelay := a_peerRelay a;
  f_ListenPort := a_listenPort a |}.

(** [validate]: the first thing wrong.  [lab_env] is [BUDDYNET_LAB=1] and
    [lookup_tcp] is [net.LookupPort] for TCP. *)
Definition validate (lab_env : bool) (lookup_tcp : string -> bool) (a : buddyArgs) : option CLIErr :=
  refuse! negb (a_listenPort a =? 0) && ((a_listenPort a <? 1) || (65535 <? a_listenPort a)) with BadListenPort in
  refuse! negb (a_listenPort a =? 0) && given (a_peersFile a) with PortWithManifest in
  refuse! a_direct a && negb (given (a_peerKey a)) with DirectNeedsKey in
  refuse! a_direct a && (negb (given (a_peerEndpoint a)) && (a_listenPort a =? 0)) with DirectNeedsPath in
  refuse! a_direct a && (given (a_server a) || given (a_serverKey a)) with DirectWithServer in
  refuse! a_direct a && given (a_peersFile a) with DirectWithManifest in
  refuse! a_direct a && given (a_token a) with DirectWithToken in
  refuse! a_direct a && given (a_code a) with DirectWithCode in
  refuse! a_direct a && a_lab a with DirectWithLab in
  refuse! a_direct a && a_status a with DirectWithStatus in
  refuse! negb (a_direct a) && (negb (given (a_server a)) || negb (given (a_serverKey a))) with NeedsServer in
  refuse! a_lab a && negb lab_env with LabUnconfirmed in
  refuse! a_status a && negb (given (a_token a)) with StatusNeedsToken in
  refuse! given (a_expose a) && negb (a_wireguard a) with ExposeNeedsWG in
  match (if given (a_expose a) then ParseScope (a_expose a) else Ok (mkScope false [])) with
  | Err e => Some (BadExpose e)
  | Ok _ =>
  refuse! a_wireguard a && a_lazy a with WGWithLazy in
  refuse! negb (a_wireguard a) && (negb (a_status a) && negb (given (a_localListen a)) && negb (given (a_forward a)) && negb (given (a_vipListen a)))
    with CarriesNothing in
  refuse! PunchDurMax <? a_punchDur a with PunchOver in
  refuse! given (a_vipListen a) && negb (lookup_tcp (a_vipListen a)) with BadVIPPort in
  refuse! given (a_peersFile a) && given (a_peerKey a) with ManifestWithKey in
  refuse! given (a_peersFile a) && a_ephemeral a with ManifestWithInvite in
  refuse! given (a_peersFile a) && a_lazy a with ManifestWithLazy in
  refuse! a_lazy a && negb (given (a_localListen a)) with LazyNeedsListen in
  None
  end.

(** [resolveJoin]: token, pin and whether this side shows its code. *)
Definition resolveJoin (join peerKey : string) : result CLIErr (string * string * bool) :=
  match Sas.Parse join with
  | Err e => Err (BadInvite e)
  | Ok (tok, None) => Ok (tok, peerKey, false)
  | Ok (tok, Some inviterPub) =>
      let pinned := PubKeyB64 inviterPub in
      if given peerKey && negb (String.eqb peerKey pinned) then Err InviteKeyConflict else Ok (tok, pinned, true)
  end.

(** ** Tokens *)

(** [secret.NewToken] and [secret.NewSessionToken] on the bytes drawn. *)
Definition NewToken (rand : option string) : option string := RawURL.EncodeToString ∘ take_s 48 <$> rand.
Definition NewSessionToken (rand : option string) : option string := RawURL.EncodeToString ∘ take_s 16 <$> rand.

(** ** The flags *)

Record cliFlags := mkFlags {
  g_role : string; g_keyPath : string; g_listen : string; g_relayListen : string; g_allowCIDR : string;
  g_relayMaxSessions : Z; g_relayMaxLegsPerIP : Z; g_ttl : Z; g_authorized : string; g_relayEndpoint : string; g_relayID : string;
  g_debug : bool; g_server : string; g_serverKey : string; g_peerKey : string; g_direct : bool; g_peerEndpoint : string;
  g_peerRelay : string; g_listenPort : Z; g_knownPeers : string; g_lab : bool; g_code : string; g_peersPath : string;
  g_peersFile : string; g_localListen : string; g_vipListen : string; g_forward : string; g_punchDur : Z; g_idleTimeout : Z;
  g_reauthInterval : Z; g_noInteractive : bool; g_sasTimeout : Z; g_inviteTimeout : Z; g_status : bool; g_invite : bool;
  g_join : string; g_name : string; g_dns : bool; g_lazy : bool; g_expose : string; g_wireguard : bool; g_showVersion : bool;
}.

(** The defaults; the two paths are [DefaultKnownPeersPath] and
    [DefaultPeersPath] under the user's configuration directory, if there is
    one. *)
Definition default_path (config_dir : option string) (name : string) : string :=
  match config_dir with None => "" | Some d => d ⊕ "/buddynet/" ⊕ name end.

Definition registerFlags (config_dir : option string) : cliFlags := {|
  g_role := ""; g_keyPath := ""; g_listen := ""; g_relayListen := ""; g_allowCIDR := "";
  g_relayMaxSessions := 0; g_relayMaxLegsPerIP := 0; g_ttl := 0; g_authorized := ""; g_relayEndpoint := ""; g_relayID := "";
  g_debug := false; g_server := ""; g_serverKey := ""; g_peerKey := ""; g_direct := false; g_peerEndpoint := "";
  g_peerRelay := ""; g_listenPort := 0; g_knownPeers := default_path config_dir "known_peers"; g_lab := false; g_code := "";
  g_peersPath := default_path config_dir "peers.json";
  g_peersFile := ""; g_localListen := ""; g_vipListen := ""; g_forward := ""; g_punchDur := 2 * second; g_idleTimeout := 60 * second;
  g_reauthInterval := 0; g_noInteractive := false; g_sasTimeout := 30 * second; g_inviteTimeout := 15 * minute;
  g_status := false; g_invite := false;
  g_join := ""; g_name := ""; g_dns := false; g_lazy := false; g_expose := ""; g_wireguard := false; g_showVersion := false |}.

Definition orEnv (getenv : string -> string) (v key : string) : string := if given v then v else getenv key.

Definition env_switch (getenv : string -> string) (v : bool) (key : string) : bool :=
  v || String.eqb (getenv key) "1" || String.eqb (getenv key) "true".

(** The fall-backs to the environment. *)
Definition with_env (getenv : string -> string) (f : cliFlags) : cliFlags :=
  mkFlags (orEnv getenv (g_role f) "BUDDYNET_ROLE") (g_keyPath f) (g_listen f) (g_relayListen f) (g_allowCIDR f)
    (g_relayMaxSessions f) (g_relayMaxLegsPerIP f) (g_ttl f) (g_authorized f) (g_relayEndpoint f) (g_relayID f)
    (g_debug f) (orEnv getenv (g_server f) "BUDDYNET_SERVER") (orEnv getenv (g_serverKey f) "BUDDYNET_SERVER_KEY")
    (orEnv getenv (g_peerKey f) "BUDDYNET_PEER_KEY") (g_direct f) (g_peerEndpoint f)
    (g_peerRelay f) (g_listenPort f) (orEnv getenv (g_knownPeers f) "BUDDYNET_KNOWN_PEERS") (g_lab f)
    (orEnv getenv (g_code f) "BUDDYNET_CODE") (g_peersPath f)
    (g_peersFile f) (g_localListen f) (g_vipListen f) (g_forward f) (g_punchDur f) (g_idleTimeout f)
    (g_reauthInterval f) (g_noInteractive f) (g_sasTimeout f) (g_inviteTimeout f) (g_status f) (g_invite f)
    (orEnv getenv (g_join f) "BUDDYNET_JOIN") (orEnv getenv (g_name f) "BUDDYNET_NAME")
    (env_switch getenv (g_dns f) "BUDDYNET_DNS") (env_switch getenv (g_lazy f) "BUDDYNET_LAZY")
    (g_expose f) (g_wireguard f) (g_showVersion f).

(** ** main *)

(** What the operator asked for, from the arguments after the flags. *)
Inductive Command := CVersion | CHelp | CGenToken | CGenRelayID | CIdentity | CInit | CAuth (cmd : string) (args : list string)
| CPeers (args : list string) | CRun.

Definition is_auth (cmd : string) : bool :=
  String.eqb cmd "approve" || String.eqb cmd "allowclient" || String.eqb cmd "list" || String.eqb cmd "revoke".

Definition command_of (showVersion : bool) (args : list string) : Command :=
  let cmd := default "" (head args) in
  if showVersion || String.eqb cmd "version" then CVersion
  else if String.eqb cmd "help" then CHelp
  else if String.eqb cmd "gen-token" then CGenToken
  else if String.eqb cmd "gen-relay-id" then CGenRelayID
  else if String.eqb cmd "identity" then CIdentity
  else if String.eqb cmd "init" then CInit
  else if is_auth cmd then CAuth cmd (tail args)
  else if String.eqb cmd "peers" then CPeers (tail args)
  else CRun.

(** A role as it is started: the listening address and identity of a handshake
    server are next to the settings [Handshake] takes. *)
Inductive RoleStart :=
| StartHandshake (listen keyPath : string) (debug : bool) (c : Handshake.HandshakeConfig)
| StartRelay (c : RelayConfig)
| StartBuddy (c : FullConfig).

Inductive Outcome :=
| Refused (e : CLIErr)          (* exit 2 *)
| NoToken                       (* exit 1: no random bytes *)
| Probing (c : FullConfig)      (* --status *)
| Running (roles : list RoleStart).

(** What main reads: the environment, whether a human is at the terminal,
    random bytes, the services known for TCP, the calls on the key file. *)
Record CLIWorld := mkCLI {
  cw_env : string -> string; cw_tty : bool; cw_rand : option string; cw_tcp : string -> bool; cw_keyio : KeyIO;
}.

Section Main.
Context `{Ed25519} (from_seed : string -> string) (w : CLIWorld).

(** Token, pin, display side, one-time: from [--join], then from [--invite]. *)
Definition pairing (f : cliFlags) (hasBuddy : bool) : result CLIErr (option string * string * bool * bool) :=
  if negb hasBuddy then Ok (Some "", g_peerKey f, false, false)
  else
    let? joined := (if given (g_join f)
                    then let? j := resolveJoin (g_join f) (g_peerKey f) in Ok (j.1.1, j.1.2, j.2, true)
                    else Ok ("", g_peerKey f, false, false)) in
    let '(tok, pin, show, eph) := joined in
    if g_invite f then Ok (NewToken (cw_rand w), pin, show, true) else Ok (Some tok, pin, show, eph).

Definition args_of (f : cliFlags) (token peerKey : string) (sasShow ephemeral : bool) : buddyArgs := {|
  a_server := g_server f; a_serverKey := g_serverKey f; a_token := token; a_peerKey := peerKey;
  a_knownPeers := g_knownPeers f; a_lab := g_lab f; a_code := g_code f; a_keyPath := g_keyPath f;
  a_peersPath := g_peersPath f; a_peersFile := g_peersFile f; a_localListen := g_localListen f; a_forward := g_forward f;
  a_vipListen := g_vipListen f; a_punchDur := g_punchDur f; a_idleTimeout := g_idleTimeout f; a_status := g_status f;
  a_interactive := negb (g_noInteractive f) && cw_tty w; a_sasTimeout := g_sasTimeout f;
  a_ephemeral := ephemeral; a_inviteTimeout := g_inviteTimeout f; a_inviting := g_invite f; a_sasShow := sasShow;
  a_reauthInterval := g_reauthInterval f; a_name := g_name f; a_dns := g_dns f; a_lazy := g_lazy f;
  a_wireguard := g_wireguard f; a_expose := g_expose f; a_direct := g_direct f; a_peerEndpoint := g_peerEndpoint f;
  a_peerRelay := g_peerRelay f; a_listenPort := g_listenPort f |}.

Definition role_start (f : cliFlags) (roles : list Role) (allowed : list Prefix) (relayServerKeys : list string) (a : buddyArgs)
    (r : Role) : RoleStart :=
  match r with
  | RoleHandshake =>
      StartHandshake (orDefault (g_listen f) DefaultHandshakeAddr) (g_keyPath f) (g_debug f)
        (Handshake.mkHandshakeConfig (g_authorized f) (g_ttl f) (g_relayEndpoint f) (g_relayID f) allowed)
  | RoleRelay =>
      StartRelay (mkRelayConfig (relayListen (g_relayListen f) (g_listen f) roles) (g_ttl f) relayServerKeys (g_relayID f) allowed
                    (g_relayMaxSessions f) (g_relayMaxLegsPerIP f) (g_debug f))
  | RoleBuddy => StartBuddy (config a)
  end.

(** [BUDDYNET_LAB=1] *)
Definition lab_env : bool := String.eqb (cw_env w "BUDDYNET_LAB") "1".

(** [main] where no command was given. *)
Definition main (f0 : cliFlags) (keys : Dir) : Outcome * Dir :=
  let f := with_env (cw_env w) f0 in
  match parseRoles (g_role f) with
  | Err e => (Refused e, keys)
  | Ok roles =>
      let hasBuddy := hasRole roles RoleBuddy in
      match pairing f hasBuddy with
      | Err e => (Refused e, keys)
      | Ok (None, _, _, _) => (NoToken, keys)
      | Ok (Some token, peerKey, sasShow, ephemeral) =>
          let a := args_of f token peerKey sasShow ephemeral in
          if g_status f then
            if negb (length roles =? 1)%nat || negb hasBuddy then (Refused StatusAlone, keys)
            else match validate lab_env (cw_tcp w) a with
                 | Some e => (Refused e, keys)
                 | None => (Probing (config a), keys)
                 end
          else match (if hasBuddy then validate lab_env (cw_tcp w) a else None) with
          | Some e => (Refused e, keys)
          | None =>
              match parseCIDRs (g_allowCIDR f) with
              | Err e => (Refused e, keys)
              | Ok allowed =>
                  match (if hasRole roles RoleRelay then relayKeys from_seed roles (g_serverKey f) (g_keyPath f) (cw_keyio w) keys
                         else (Ok [], keys)) with
                  | (Err e, keys') => (Refused e, keys')
                  | (Ok relayServerKeys, keys') => (Running (role_start f roles allowed relayServerKeys a <$> roles), keys')
                  end
              end
          end
      end
  end.
End Main.

(** ** The administrative commands *)

(** [parsePeersAddArgs]: positionals and options; the last of two equal options
    wins. *)
Inductive ArgErr := NeedsValue (name : string) | UnknownOption (name : string).

Fixpoint parsePeersAddArgs (args : list string) (positional : list string) (opts : gmap string string)
    : result ArgErr (list string * gmap string string) :=
  match args with
  | [] => Ok (positional, opts)
  | a :: rest =>
      if negb (has_prefix "--" a) then parsePeersAddArgs rest (positional ++ [a]) opts
      else
        let body := drop_s 2 a in
        match cut "=" body with
        | Some (name, value) =>
            if String.eqb name "name" || String.eqb name "expose" then parsePeersAddArgs rest positional (<[name := value]> opts)
            else Err (UnknownOption name)
        | None =>
            match rest with
            | [] => Err (NeedsValue body)
            | value :: rest' =>
                if String.eqb body "name" || String.eqb body "expose" then parsePeersAddArgs rest' positional (<[body := value]> opts)
                else Err (UnknownOption body)
            end
        end
  end.

Section Peers.
Context (yaml : string -> YamlDoc) (yaml_text : list RawBuddy -> string).

(** [runPeersCmd]: exit code and the files afterwards.  [peersFile] and
    [peersPath] are whether those paths are set; [today] stamps a revocation. *)
Definition runPeersCmd (peersFile peersPath lock_ok : bool) (today : string) (cache : CacheFile) (args : list string) (fs : Files)
    : Z * Files :=
  let code {A} (r : result PeersErr (A * Files)) : Z * Files := match r with Ok (_, fs') => (0, fs') | Err _ => (1, fs) end in
  match args with
  | [] => (2, fs)
  | cmd :: rest =>
      if String.eqb cmd "list" then (if is_ok (PeersList yaml peersPath cache fs) then 0 else 1, fs)
      else if String.eqb cmd "add" then
        match parsePeersAddArgs rest [] ∅ with
        | Err _ => (2, fs)
        | Ok (positional, opts) =>
            let add key token :=
              if negb peersFile then (1, fs)
              else code (PeersAdd yaml yaml_text lock_ok today key token (default "" (opts !! "name")) (default "" (opts !! "expose")) fs) in
            match positional with
            | [key] => add key ""
            | [key; token] => add key token
            | _ => (2, fs)
            end
        end
      else if String.eqb cmd "remove" then
        match rest with
        | [] => (2, fs)
        | key :: _ =>
            match RemovePeer yaml yaml_text lock_ok today key fs with
            | Err _ => (1, fs)
            | Ok (Removed _ _ _, fs') => (0, fs')
            | Ok (_, fs') => (1, fs')
            end
        end
      else if String.eqb cmd "allow" then
        match rest with
        | [] => (2, fs)
        | key :: _ =>
            match resolveKeyRef yaml key fs with
            | Err _ => (1, fs)
            | Ok keyB64 =>
                match PeersAllow lock_ok today keyB64 (fl_trust fs) with
                | Err _ => (1, fs)
                | Ok (_, t) => (0, mkFiles t (fl_manifest fs))
                end
            end
        end
      else if String.eqb cmd "migrate" then
        if negb peersFile then (1, fs)
        else match PeersMigrate yaml yaml_text lock_ok (fl_manifest fs) with
        | Err _ => (1, fs)
        | Ok None => (0, fs)
        | Ok (Some (new, _)) => (0, mkFiles (fl_trust fs) new)
        end
      else (2, fs)
  end.
End Peers.

(** [joinArgs] is the words with a space between; [runAuthCmd]: exit code and
    what the allowlist file holds afterwards. *)
Definition joinArgs (a : list string) : string := NetAddr.join " " a.

Definition runAuthCmd (path cmd : string) (args : list string) (lock_ok : bool) (f : FileView) : Z * option string :=
  let unchanged := match f with Ok (c, _) => Some c | Err _ => None end in
  if String.eqb path "" then (2, unchanged)
  else if String.eqb cmd "approve" then
    match args with
    | [] => (2, unchanged)
    | key :: label =>
        match ApproveKey lock_ok f key (joinArgs label) with
        | Err _ => (1, unchanged)
        | Ok AlreadyApproved => (0, unchanged)
        | Ok (Appended c) => (0, Some c)
        end
    end
  else if String.eqb cmd "allowclient" then (2, unchanged)
  else if String.eqb cmd "list" then (if is_ok (ListKeys f) then 0 else 1, unchanged)
  else if String.eqb cmd "revoke" then
    match args with
    | [] => (2, unchanged)
    | key :: _ =>
        match RevokeKey lock_ok f key with
        | Err _ => (1, unchanged)
        | Ok NotInList => (0, unchanged)
        | Ok (Rewritten _ c) => (0, Some c)
        end
    end
  else (0, unchanged).

Section Identity.
Context `{Ed25519} (from_seed : string -> string).

(** [printIdentity] and [initIdentity]: exit code and what is printed. *)
Definition printIdentity (io : KeyIO) (keyPath : string) (keys : Dir) : (Z * option string) * Dir :=
  if String.eqb keyPath "" then ((2, None), keys)
  else match LoadKey from_seed None io keyPath keys with
       | (Err KMissing, keys') => ((2, None), keys')
       | (Err _, keys') => ((1, None), keys')
       | (Ok (priv, _), keys') => ((0, Some (PubKeyB64 (pub_of priv))), keys')
       end.

Definition initIdentity (seed : option string) (io : KeyIO) (keyPath : string) (keys : Dir) : (Z * option string) * Dir :=
  if String.eqb keyPath "" then ((2, None), keys)
  else match CreateKey from_seed seed io keyPath keys with
       | (Err KCreate, keys') => ((if bool_decide (is_Some (keys !! keyPath)) && negb (ki_create io) then 2 else 1, None), keys')
       | (Err _, keys') => ((1, None), keys')
       | (Ok priv, keys') => ((0, Some (PubKeyB64 (pub_of priv))), keys')
       end.
End Identity.

(** ** Minting *)

(** [gen-token] and [gen-relay-id]: exit code and standard output; at a terminal
    a token is shown there and hidden again, never written to the output. *)
Definition genToken (rand : option string) (interactive : bool) : Z * option string :=
  match NewToken rand with
  | None => (1, None)
  | Some tok => (0, if interactive then None else Some tok)
  end.

Definition genRelayID (rand : option string) : Z * option string :=
  match rand with None => (1, None) | Some r => (0, Some (Ticket.NewID r)) end.

(** [appVersion]: the tag of the release, else the revision of the build, else
    the module's version. *)
Definition appVersion (release : string) (build : option (list (string * string) * string)) : string :=
  if given release then release
  else match build with
  | None => "dev"
  | Some (settings, module_version) =>
      let '(rev, modified) :=
        foldl (fun '(rev, modified) '(k, v) =>
                 if String.eqb k "vcs.revision" then (v, modified) else if String.eqb k "vcs.modified" then (rev, v) else (rev, modified))
              ("", "") settings in
      if given rev then "dev-" ⊕ take_s 12 rev ⊕ (if String.eqb modified "true" then "-dirty" else "")
      else if given module_version && negb (String.eqb module_version "(devel)") then module_version else "dev"
  end.

(** ** Running *)

(** Exit code of [runBuddy]: a probe's own code, 1 for anything local. *)
Definition runBuddy (r : result (option Z) unit) : Z :=
  match r with Ok _ => 0 | Err (Some code) => code | Err None => 1 end.

(** The roles run until each has returned; the first that fails is the one
    reported and cancels the others. *)
Record RunState := mkRun { ru_err : option (Role * string); ru_stopped : bool; ru_left : list Role }.

Definition role_returns (s : RunState) (e : Role * option string) : RunState :=
  let '(r, err) := e in
  let left := filter (fun x => x <> r) (ru_left s) in
  match err, ru_err s with
  | Some m, None => mkRun (Some (r, m)) true left
  | _, _ => mkRun (ru_err s) (ru_stopped s) left
  end.

(** [main] from its role goroutines to its exit code; [None] while one is still
    running. *)
Definition run_roles (roles : list Role) (es : list (Role * option string)) : option (Z * option (Role * string)) :=
  let s := foldl role_returns (mkRun None false roles) es in
  match ru_left s with
  | [] => Some (match ru_err s with None => (0, None) | Some e => (1, Some e) end)
  | _ => None
  end.
