(* ===== verification/CommandProps.v ===== *)
(** * What the command line guarantees *)

From S2P Require Import Prelude Base64 Sha256 Json NetAddr NetParse Crypto Protocol HsRegistry Authz AuthzFile TrustStore Sas SasProps Scope Register PeerCache LocalTrust Manifest Supervisor KeyFile Startup StartupProps CommandLine.
From S2P Require Ticket RelayServer RelayProps RelayTheorems Handshake.

(** ** A buddy's settings *)

(** What [validate] leaves. *)
Record consistent (lab : bool) (c : FullConfig) : Prop := {
  cs_direct : f_Direct c = true -> f_PeerKey c <> "" /\ (f_PeerEndpoint c <> "" \/ f_ListenPort c <> 0) /\ f_Server c = "" /\
    f_ServerKey c = "" /\ f_PeersFile c = "" /\ f_Token c = "" /\ f_Code c = "" /\ f_Insecure c = false /\ f_Status c = false;
  cs_server : f_Direct c = false -> f_Server c <> "" /\ f_ServerKey c <> "";
  cs_lab : f_Insecure c = true -> lab = true;
  cs_status : f_Status c = true -> f_Token c <> "";
  cs_port : f_ListenPort c = 0 \/ (1 <= f_ListenPort c <= 65535 /\ f_PeersFile c = "");
  cs_carries : f_WireGuard c = true \/ f_Status c = true \/ f_LocalListen c <> "" \/ f_Forward c <> "" \/ f_VIPListen c <> "";
  cs_lazy : f_Lazy c = true -> f_WireGuard c = false /\ f_LocalListen c <> "" /\ f_PeersFile c = "";
  cs_manifest : f_PeersFile c <> "" -> f_PeerKey c = "" /\ f_Ephemeral c = false;
  cs_punch : f_PunchDur c <= PunchDurMax;
}.

Lemma given_true s : given s = true <-> s <> "".
Proof. unfold given. destruct (String.eqb_spec s ""); naive_solver. Qed.

Lemma given_false s : given s = false <-> s = "".
Proof. unfold given. destruct (String.eqb_spec s ""); naive_solver. Qed.

(** Conclusions from guards that let a configuration pass. *)
Ltac passed :=
  repeat match goal with
  | H : negb _ = false |- _ => apply negb_false_iff in H
  | H : negb _ = true |- _ => apply negb_true_iff in H
  | H : _ && _ = false |- _ => apply andb_false_iff in H
  | H : _ || _ = false |- _ => apply orb_false_iff in H as [? ?]
  | H : (_ <? _) = false |- _ => apply Z.ltb_ge in H
  | H : (_ =? _) = false |- _ => apply Z.eqb_neq in H
  | H : (_ =? _) = true |- _ => apply Z.eqb_eq in H
  | H : given _ = true |- _ => apply given_true in H
  | H : given _ = false |- _ => apply given_false in H
  | H : ?b = false \/ _, K : ?b = true |- _ => destruct H as [H | H]; [congruence |]
  | H : negb ?b = false \/ _, K : ?b = false |- _ => destruct H as [H | H]; [rewrite K in H; discriminate H |]
  | H : given ?s = false \/ _, K : ?s <> "" |- _ => destruct H as [H | H]; [apply given_false in H; contradiction |]
  | H : negb (given ?s) = false \/ _, K : ?s = "" |- _ => destruct H as [H | H]; [rewrite K in H; discriminate H |]
  | H : negb (?n =? 0) = false \/ _, K : ?n <> 0 |- _ => destruct H as [H | H]; [apply negb_false_iff, Z.eqb_eq in H; contradiction |]
  end.

Lemma validate_sound lab tcp a : validate lab tcp a = None -> consistent lab (config a).
Proof.
  unfold validate.
  repeat match goal with
  | |- (if ?b then Some _ else _) = None -> _ => destruct b eqn:?; [done |]
  | |- (match ?r with Ok _ => _ | Err _ => _ end) = None -> _ => destruct r; [| done]
  end. intros _. passed.
  split; cbn [config f_Direct f_PeerKey f_PeerEndpoint f_ListenPort f_Server f_ServerKey f_PeersFile f_Token f_Code f_Insecure f_Status
              f_WireGuard f_LocalListen f_Forward f_VIPListen f_Lazy f_Ephemeral f_PunchDur]; intros; passed; split_and?; try done.
  - match goal with H : _ = false \/ (a_listenPort a =? 0) = false |- _ => destruct H as [H | H] end; passed; auto.
  - destruct (Z.eq_dec (a_listenPort a) 0) as [| N]; [by left | right]. passed. split; [lia | done].
  - destruct (a_wireguard a) eqn:W; [by left | right]. passed. destruct (a_status a) eqn:St; [by left | right]. cbn [negb andb] in *.
    destruct (given (a_localListen a)) eqn:E1; [left; by apply given_true | right]. destruct (given (a_forward a)) eqn:E2; [left; by apply given_true | right].
    cbn [negb andb] in *. match goal with H : true = false \/ negb (given (a_vipListen a)) = false |- _ => destruct H; [done |] end. by passed.
  - match goal with H : a_wireguard a = false \/ a_lazy a = false |- _ => destruct H; [done | congruence] end.
  - match goal with H : given (a_peersFile a) = false \/ a_lazy a = false |- _ => destruct H; [by passed | congruence] end.
Qed.

(** Which refusals the parts of start-up have. *)
Lemma hostport_errors lookup what addr e :
  validateHostPort lookup what addr = Some e -> match e with DNoKey | DNoPath => False | _ => True end.
Proof. unfold validateHostPort. repeat case_match; intros; by simplify_eq. Qed.

Lemma plan_errors yaml c sw fs e :
  choose_plan yaml c sw fs = Err e -> match e with PunchTooLong _ | StartDirect _ => False | _ => True end.
Proof. unfold choose_plan. repeat case_match; intros; by simplify_eq. Qed.

Lemma trust_errors c e : trust_source c = Err e -> match e with PunchTooLong _ | StartDirect _ => False | _ => True end.
Proof. unfold trust_source. repeat case_match; intros; by simplify_eq. Qed.

Section Main.
Context `{Ed25519} (from_seed : string -> string) (w : CLIWorld).

Definition buddies (o : Outcome) : list FullConfig :=
  match o with
  | Probing c => [c]
  | Running rs => omap (fun r => match r with StartBuddy c => Some c | _ => None end) rs
  | Refused _ | NoToken => []
  end.

Definition relays (o : Outcome) : list RelayConfig :=
  match o with Running rs => omap (fun r => match r with StartRelay c => Some c | _ => None end) rs | _ => [] end.

(** Where a buddy that is started comes from. *)
Lemma main_buddy f0 keys c :
  c ∈ buddies (main from_seed w f0 keys).1 ->
  exists tok pin show eph, let f := with_env (cw_env w) f0 in let a := args_of w f tok pin show eph in
    pairing w f true = Ok (Some tok, pin, show, eph) /\ validate (lab_env w) (cw_tcp w) a = None /\ c = config a.
Proof.
  unfold main. set (f := with_env (cw_env w) f0). destruct (parseRoles (g_role f)) as [roles |]; [| by intros ?%not_elem_of_nil].
  destruct (pairing w f (hasRole roles RoleBuddy)) as [[[[[tok |] pin] show] eph] |] eqn:Ep; try by intros ?%not_elem_of_nil.
  set (a := args_of w f tok pin show eph). intros Hin. exists tok, pin, show, eph. cbn zeta. fold f a.
  destruct (hasRole roles RoleBuddy) eqn:Hb; cbn [negb] in Hin.
  - rewrite orb_false_r in Hin. split; [done |]. destruct (g_status f).
    + destruct (negb (_ =? _)%nat); [by apply not_elem_of_nil in Hin |]. destruct (validate _ _ a); [by apply not_elem_of_nil in Hin |].
      by apply list_elem_of_singleton in Hin as ->.
    + destruct (validate _ _ a); [by apply not_elem_of_nil in Hin |]. split; [done |].
      destruct (parseCIDRs _); [| by apply not_elem_of_nil in Hin]. destruct (if hasRole roles RoleRelay then _ else _) as [[ks |] keys']; [| by apply not_elem_of_nil in Hin].
      apply list_elem_of_omap in Hin as (r & (role & -> & _)%list_elem_of_fmap & E). by destruct role; [injection E as <- | ..].
  - destruct (g_status f); [rewrite orb_true_r in Hin; by apply not_elem_of_nil in Hin |].
    destruct (parseCIDRs _); [| by apply not_elem_of_nil in Hin]. destruct (if hasRole roles RoleRelay then _ else _) as [[ks |] keys']; [| by apply not_elem_of_nil in Hin].
    apply list_elem_of_omap in Hin as (r & (role & -> & Hr)%list_elem_of_fmap & E). destruct role; [| done | done].
    by apply bool_decide_eq_false in Hb.
Qed.

(** C21. A command line that is accepted makes sense.  Every buddy that is started
    was checked first: direct mode has a pinned key and a way to meet and mixes
    with nothing that needs a server, otherwise a server and its key are named;
    verification is off only with the explicit environment switch; a fixed port
    or a manifest is not shared between incompatible modes; the tunnel carries
    something; nobody is asked a question without a terminal; what is exposed
    is exactly what was written, and nothing without it.  Start-up then refuses
    such a buddy neither for a punch that is too long nor, in direct mode, for
    a missing pin or a missing way to meet.  What is first looked at when the
    buddy starts (the encoding of keys, the form of addresses, the trust source
    and the files) can still be refused there. *)
Theorem accepted_line_is_consistent f0 keys c :
  c ∈ buddies (main from_seed w f0 keys).1 ->
  consistent (lab_env w) c /\ (f_Interactive c = true -> cw_tty w = true /\ g_noInteractive f0 = false) /\
  (if given (g_expose f0) then f_WireGuard c = true /\ exists sc, ParseScope (g_expose f0) = Ok sc /\ f_Expose c = Some sc else f_Expose c = None) /\
  forall yaml lookup_port sw fs cache dir,
    match (Buddy from_seed yaml lookup_port c sw fs cache dir).1 with
    | Err (PunchTooLong _) | Err (StartDirect DNoKey) | Err (StartDirect DNoPath) => False
    | _ => True
    end.
Proof.
  intros (tok & pin & show & eph & _ & V & E)%main_buddy. cbn zeta in V, E. set (f := with_env (cw_env w) f0) in *.
  set (a := args_of w f tok pin show eph) in *. pose proof (validate_sound _ _ _ V) as S. rewrite <- E in S. split_and!; [done | | |].
  - rewrite E. cbn. intros [B ->]%andb_true_iff. by apply negb_true_iff in B.
  - rewrite E. change (f_Expose (config a)) with (exposeScope a). change (f_WireGuard (config a)) with (a_wireguard a). unfold exposeScope.
    change (a_expose a) with (g_expose f0). destruct (given (g_expose f0)) eqn:G; cbn [negb]; [| done].
    revert V. unfold validate. change (a_expose a) with (g_expose f0). rewrite G.
    repeat match goal with |- (if ?b then Some _ else _) = None -> _ => destruct b eqn:?; [done |] end.
    destruct (ParseScope (g_expose f0)) as [sc |]; [| done]. intros _. split; [| eauto]. cbn [andb] in *. by passed.
  - intros yaml lookup_port sw fs cache dir. unfold Buddy. destruct (Z.ltb_spec PunchDurMax (f_PunchDur (with_defaults c))) as [L |].
    { exfalso. pose proof (cs_punch _ _ S) as P. cbn in L. unfold PunchDurMax, second in *. destruct (f_PunchDur c =? 0); lia. }
    destruct (validateDirect lookup_port _) as [e |] eqn:Ed.
    + cbn [fst]. destruct e; try done; exfalso; unfold validateDirect in Ed; revert Ed; cbn [conn_of with_defaults with_times cc_PeerRelay cc_Direct cc_PeerKey cc_PeerEndpoint cc_ListenPort f_PeerRelay f_Direct f_PeerKey f_PeerEndpoint f_ListenPort].
      all: destruct (validateHostPort _ "--peer-relay" _) as [e' |] eqn:Hh; [intros [= ->]; by apply hostport_errors in Hh |].
      all: destruct (f_Direct c) eqn:D; cbn [negb]; [| done]; destruct (cs_direct _ _ S D) as (K & M & _).
      all: destruct (String.eqb_spec (f_PeerKey c) ""); [done |].
      all: destruct (String.eqb_spec (f_PeerEndpoint c) ""), (Z.eqb_spec (f_ListenPort c) 0); cbn [andb]; try naive_solver.
      all: intros Hh'; by apply hostport_errors in Hh'.
    + destruct (if f_Direct _ then _ else _); [| done]. destruct (LoadOrCreateKey _ _ _ _ _) as [[[priv created] |] k']; [| done].
      destruct (trust_source (with_defaults c)) as [t | e] eqn:Et.
      * destruct (Open _ _); [| done]. destruct (f_Status _); [done |]. destruct (choose_plan yaml _ sw fs) as [p | e] eqn:Ec; [done |].
        cbn [fst]. destruct e; try done; by apply plan_errors in Ec.
      * cbn [fst]. destruct e; try done; by apply trust_errors in Et.
Qed.

(** ** A relay's settings *)

Lemma cidrs_named parts : forall l p, cidrs_loop parts = Ok l -> p ∈ l -> exists part, part ∈ parts /\ cidr_entry (TrimSpace part) = Ok p.
Proof.
  induction parts as [| part parts IH]; intros l p; cbn [cidrs_loop]; [by intros [= <-] ?%not_elem_of_nil |].
  destruct (String.eqb (TrimSpace part) "").
  { intros E I. destruct (IH l p E I) as (x & Hx & ?). exists x. split; [by right | done]. }
  destruct (cidr_entry (TrimSpace part)) as [q |] eqn:Eq; [| done]. destruct (cidrs_loop parts) as [l' |]; [| done]. intros [= <-].
  intros [-> | I]%elem_of_cons; [exists part; split; [by left | done] |]. destruct (IH l' p eq_refl I) as (x & Hx & ?). exists x. split; [by right | done].
Qed.

Lemma cidr_entry_bits part p : cidr_entry part = Ok p -> 0 <= pfx_bits p.
Proof.
  unfold cidr_entry, ParsePrefix. destruct (_ ≫= _) as [q |] eqn:E.
  - intros [= <-]. cbn [Masked pfx_bits]. apply bind_Some in E as ([ip bits] & _ & E). apply bind_Some in E as ([a zone] & _ & E).
    destruct (_ && _); [done |]. apply bind_Some in E as (n & En & E). destruct (_ <? _); [done |]. injection E as <-. cbn [pfx_bits].
    unfold prefix_bits in En. destruct bits as [| c r]; [done |]. destruct (_ && _); [done |]. by apply digits_val_nonneg in En.
  - destruct (ParseAddr part) as [[[b | b] z] |]; [| | done]; intros [= <-]; cbn; lia.
Qed.

Lemma main_relay f0 keys c :
  c ∈ relays (main from_seed w f0 keys).1 -> parseCIDRs (g_allowCIDR f0) = Ok (rc_AllowCIDRs c) /\ rc_RelayID c = g_relayID f0.
Proof.
  unfold main. set (f := with_env (cw_env w) f0). destruct (parseRoles (g_role f)) as [roles |]; [| by intros ?%not_elem_of_nil].
  destruct (pairing w f _) as [[[[[tok |] pin] show] eph] |]; try by intros ?%not_elem_of_nil. destruct (g_status f).
  { destruct (_ || _); [by intros ?%not_elem_of_nil |]. destruct (validate _ _ _); by intros ?%not_elem_of_nil. }
  destruct (if hasRole roles RoleBuddy then _ else _); [by intros ?%not_elem_of_nil |]. change (g_allowCIDR f) with (g_allowCIDR f0).
  destruct (parseCIDRs _) as [allowed |]; [| by intros ?%not_elem_of_nil]. destruct (if hasRole roles RoleRelay then _ else _) as [[ks |] keys']; [| by intros ?%not_elem_of_nil].
  intros (r & (role & -> & _)%list_elem_of_fmap & E)%list_elem_of_omap. destruct role; try done. by injection E as <-.
Qed.

(** C11. A relay is never open.  Whatever the command line, a relay that runs
    verifies the tickets of one or two named servers or serves only networks
    the operator wrote down, none of them everything in one entry; and whatever
    datagrams it then receives, each of its legs lies in one of those networks
    where there are any, and was opened by a ticket one of the servers signed
    for this relay and that very leg where it verifies tickets. *)
Theorem relay_never_open f0 keys c socket key now s0 :
  c ∈ relays (main from_seed w f0 keys).1 -> Relay c socket key now = Ok s0 ->
  (rc_ServerKeys c <> [] \/ rc_AllowCIDRs c <> []) /\ (length (rc_ServerKeys c) <= 2)%nat /\
  (forall p, p ∈ rc_AllowCIDRs c ->
     0 < pfx_bits p /\ exists part, part ∈ split_on "," (TrimSpace (g_allowCIDR f0)) /\ cidr_entry (TrimSpace part) = Ok p) /\
  forall es tok l, RelayProps.has_leg (RelayServer.tab (RelayServer.run es s0).1) tok l ->
    (rc_AllowCIDRs c <> [] -> exists a p, AddrFromSlice (IPof (RelayServer.addr l)) = Some a /\ p ∈ rc_AllowCIDRs c /\ Contains p (Unmap a) = true) /\
    (rc_ServerKeys c <> [] -> exists payload sig p, Ticket.Verify (rc_ServerKeys c) payload sig = true /\ Ticket.Parse payload = Ok p /\
       Ticket.CheckRelay p (g_relayID f0) = Ok tt /\ Ticket.SID p = tok /\ Ticket.Leg p = RelayServer.name l /\ Ticket.EPK p = RelayServer.epk l).
Proof.
  intros [Hc Hid]%main_relay. unfold Relay, checkPolicy. cbn [rc_AllowCIDRs rc_ServerKeys rc_RelayID].
  destruct (find _ (rc_AllowCIDRs c)) as [p |] eqn:Ef; [done |]. destruct (bool_decide (rc_ServerKeys c = []) && _) eqn:Ep; [done |]. destruct (Nat.ltb_spec 2 (length (rc_ServerKeys c))); [done |].
  destruct (negb (bool_decide (rc_ServerKeys c = [])) && _); [done |]. destruct (negb socket); [done |]. intros [= <-]. split_and!.
  - apply andb_false_iff in Ep as [Ep | Ep]; apply bool_decide_eq_false in Ep; auto.
  - lia.
  - intros p Hp. unfold parseCIDRs in Hc. destruct (String.eqb _ ""); [injection Hc as E; rewrite <- E in Hp; by apply not_elem_of_nil in Hp |].
    destruct (cidrs_named _ _ _ Hc Hp) as (part & I & Ee). split; [| by exists part]. pose proof (cidr_entry_bits _ _ Ee).
    apply list_elem_of_In in Hp. pose proof (find_none _ _ Ef p Hp) as N. apply Z.eqb_neq in N. lia.
  - intros es tok l Hl. split.
    + intros Hne. apply RelayTheorems.legs_allowed in Hl. cbn [relay_options RelayServer.o_AllowCIDRs rc_AllowCIDRs] in Hl. unfold cidrAllowed in Hl.
      destruct (rc_AllowCIDRs c) as [| q qs]; [done |]. destruct (AddrFromSlice _) as [a |]; [| done]. apply existsb_exists in Hl as (p & I & C).
      exists a, p. split_and!; [done | by apply list_elem_of_In | done].
    + intros Hne. apply RelayTheorems.ticket_legs_checked in Hl; [| unfold RelayServer.ticketMode; cbn; by destruct (rc_ServerKeys c)].
      destruct Hl as (es1 & es2 & n1 & n & j & payload & sig & bindSig & p & k & n' & _ & _ & _ & _ & H1 & H2 & _ & H3 & H4 & H5 & H6 & _).
      cbn in H3. rewrite Hid in H3. exists payload, sig, p. by split_and!.
Qed.
End Main.

(** ** An invite from one command line to another *)

Lemma pairing_invites w f tok pin show eph :
  g_invite f = true -> pairing w f true = Ok (tok, pin, show, eph) -> tok = NewToken (cw_rand w).
Proof.
  intros Hi. unfold pairing. cbn [negb]. rewrite Hi. destruct (given (g_join f)).
  - destruct (resolveJoin _ _) as [[[t p] sh] |]; [| done]. by intros [= <- _ _ _].
  - by intros [= <- _ _ _].
Qed.

Section Invite.
Context `{Ed25519Laws} (from_seed : string -> string) (yaml : string -> YamlDoc) (lookup_port : string -> bool).

(** C12. The key on an invite is the key that gets pinned.  Take any command line
    that invites and the invite its node prints once its identity is known, the
    random source having given the 48 bytes of its token, and any command line
    that joins with this invite and does not invite as well (with both options
    a line is accepted and uses a token of its own).  If the joining side starts at
    all (with a contradicting pin of its own it does not), it meets at the token
    of the inviter, pins the inviter's very key, shows its code instead of
    asking for one, and treats the token as spent after one pairing. *)
Theorem invite_pins_inviter wA fA keysA cA sw fs cache dir sA dir' blob rand wB fB keysB cB :
  cA ∈ buddies (main from_seed wA fA keysA).1 -> g_invite fA = true -> cw_rand wA = Some rand -> (48 <= slen rand)%nat ->
  Buddy from_seed yaml lookup_port cA sw fs cache dir = (Ok sA, dir') -> sd_invite sA = Some blob ->
  g_join fB = blob -> g_invite fB = false -> cB ∈ buddies (main from_seed wB fB keysB).1 ->
  f_Token cB = f_Token cA /\ f_PeerKey cB = nd_pub (sd_node sA) /\ f_SASShow cB = true /\ f_Inviting cB = false /\ f_Ephemeral cB = true /\
  forall yaml' lookup' sw' fs' cache' dir1 sB dir2, Buddy from_seed yaml' lookup' cB sw' fs' cache' dir1 = (Ok sB, dir2) ->
    tp_pinned (sd_policy sB) = Some (pub_of (nd_priv (sd_node sA))).
Proof.
  intros (tokA & pinA & showA & ephA & PA & _ & EA)%main_buddy Hi Hr Hl HB Hinv Hj Hni (tokB & pinB & showB & ephB & PB & _ & EB)%main_buddy.
  apply buddy_identity in HB as (Hpub & Hblob & _). cbn zeta in *.
  assert (T : f_Token cA = RawURL.EncodeToString (take_s 48 rand)).
  { apply pairing_invites in PA; [| exact Hi]. rewrite Hr in PA. cbn [NewToken fmap option_fmap option_map compose] in PA. injection PA as ->. by rewrite EA. }
  assert (I : f_Inviting cA = true) by (rewrite EA; exact Hi). rewrite I in Hblob. rewrite Hinv in Hblob. injection Hblob as ->.
  set (pub := pub_of (nd_priv (sd_node sA))) in *. assert (Sz : slen pub = PublicKeySize) by apply pub_size.
  assert (Hp : Sas.Parse (Sas.Mint (f_Token cA) pub) = Ok (f_Token cA, Some pub)).
  { apply invite_roundtrip_or_error; [| rewrite T; apply RawURL_encode_alphabet | done]. rewrite T. intros E%(f_equal slen).
    rewrite RawURL_encoded_len, slen_take in E. replace (Nat.min 48 (slen rand)) with 48%nat in E by lia. discriminate E. }
  assert (G : given (Sas.Mint (f_Token cA) pub) = true) by reflexivity.
  unfold pairing in PB. cbn [negb] in PB. replace (g_join (with_env (cw_env wB) fB)) with (Sas.Mint (f_Token cA) pub) in PB.
  2: { cbn [with_env g_join]. unfold orEnv. by rewrite Hj, G. }
  replace (g_invite (with_env (cw_env wB) fB)) with false in PB by (symmetry; exact Hni). rewrite G in PB. unfold resolveJoin in PB. rewrite Hp in PB.
  destruct (_ && _); [done |]. injection PB as <- <- <- <-. rewrite EB. cbn [config args_of f_Token f_PeerKey f_SASShow f_Inviting f_Ephemeral a_token a_peerKey a_sasShow a_inviting a_ephemeral].
  split_and!; [done | done | done | exact Hni | done |]. intros yaml' lookup' sw' fs' cache' dir1 sB dir2 (_ & _ & Ts)%buddy_identity.
  apply trust_source_sound in Ts as (_ & _ & Ts & _). cbn [config args_of with_defaults with_times f_PeerKey a_peerKey] in Ts.
  rewrite DecodePubKey_B64 in Ts by done. destruct (String.eqb_spec (PubKeyB64 pub) "") as [E | _].
  - apply (f_equal slen) in E. unfold PubKeyB64 in E. rewrite Std_encoded_len, Sz in E. discriminate E.
  - by destruct Ts as (pin & [= <-] & ->).
Qed.
End Invite.

(** ** A handshake server's settings *)

Section Server.
Context `{Ed25519} (from_seed : string -> string) (hkdf : string -> string -> string).

(** Approval mode is the operator's word, not the state of a file: a server
    started with [--authorized] has an allowlist whatever the file holds (or
    does not start), one started without has none, and it admits the networks
    and names the relay of its command line. *)
Theorem approval_mode_kept w f0 keys listen path debug c now key f hc srv :
  (exists rs, (main from_seed w f0 keys).1 = Running rs /\ StartHandshake listen path debug c ∈ rs) ->
  Handshake.Handshake hkdf c now key f = Ok (hc, srv) ->
  (is_Some (Handshake.hs_authz srv) <-> g_authorized f0 <> "") /\ parseCIDRs (g_allowCIDR f0) = Ok (Handshake.hc_allowed hc) /\
  Handshake.hc_adv hc = Handshake.mkRelayAdvert (g_relayEndpoint f0) (g_relayID f0).
Proof.
  intros (rs & Hm & Hin) Hh.
  assert (E : exists allowed, parseCIDRs (g_allowCIDR f0) = Ok allowed /\ c = Handshake.mkHandshakeConfig (g_authorized f0) (g_ttl f0) (g_relayEndpoint f0) (g_relayID f0) allowed).
  { revert Hm. unfold main. set (f1 := with_env (cw_env w) f0). destruct (parseRoles _) as [roles |]; [| done].
    destruct (pairing w f1 _) as [[[[[tok |] pin] show] eph] |]; try done. destruct (g_status f1); [destruct (_ || _); [done |]; by destruct (validate _ _ _) |].
    destruct (if hasRole roles RoleBuddy then _ else _); [done |]. change (g_allowCIDR f1) with (g_allowCIDR f0).
    destruct (parseCIDRs _) as [allowed |]; [| done]. destruct (if hasRole roles RoleRelay then _ else _) as [[ks |] keys']; [| done].
    intros [= <-]. apply list_elem_of_fmap in Hin as (r & Hr & _). destruct r; try done. injection Hr as _ _ _ ->. by exists allowed. }
  destruct E as (allowed & Hp & ->). rewrite Hp. revert Hh. unfold Handshake.Handshake. cbn [Handshake.cf_TTL Handshake.cf_Authorized Handshake.cf_RelayEndpoint Handshake.cf_RelayID Handshake.cf_AllowCIDRs].
  destruct key as [priv |]; [| done]. destruct (String.eqb_spec (g_authorized f0) "") as [-> | N]; cbn [negb].
  - destruct (Handshake.relayAdvertFor _ _) as [[adv nt] |] eqn:A; [| done]. intros [= <- <-]. cbn.
    split; [split; [by intros [? ?] | done] |]. split; [done |]. revert A. unfold Handshake.relayAdvertFor. repeat case_match; intros; by simplify_eq.
  - destruct (newAuthorizer _ _ _) as [a |]; [| done]. destruct (Handshake.relayAdvertFor _ _) as [[adv nt] |] eqn:A; [| done]. intros [= <- <-]. cbn.
    split; [split; [done | eauto] |]. split; [done |]. revert A. unfold Handshake.relayAdvertFor. repeat case_match; intros; by simplify_eq.
Qed.
End Server.

(** ** The end of a run *)

Lemma returns_spec es : forall s,
  (forall r, r ∈ ru_left (foldl role_returns s es) <-> r ∈ ru_left s /\ r ∉ es.*1) /\
  ru_err (foldl role_returns s es) = match ru_err s with Some e => Some e | None => head (omap (fun '(r, m) => (r,.) <$> m) es) end.
Proof.
  induction es as [| [r m] es IH]; intros s; cbn [foldl].
  - split; [intros r; rewrite elem_of_nil; tauto | by destruct (ru_err s)].
  - destruct (IH (role_returns s (r, m))) as [L E]. rewrite E. split.
    + assert (ru_left (role_returns s (r, m)) = filter (fun x => x <> r) (ru_left s)) as Q by (unfold role_returns; by repeat case_match).
      intros x. rewrite L, Q, list_elem_of_filter. cbn. rewrite not_elem_of_cons. tauto.
    + unfold role_returns. cbn [omap list_omap]. destruct m as [m |]; cbn; [by destruct (ru_err s) | by destruct (ru_err s)].
Qed.

(** The process ends only when every role has returned, fails just when one did,
    and then reports the first that failed. *)
Theorem run_reports_first roles es code e :
  run_roles roles es = Some (code, e) ->
  (forall r, r ∈ roles -> r ∈ es.*1) /\ e = head (omap (fun '(r, m) => (r,.) <$> m) es) /\ (code = 0 <-> forall r m, (r, m) ∈ es -> m = None).
Proof.
  unfold run_roles. destruct (returns_spec es (mkRun None false roles)) as [L E]. cbn in L, E. rewrite E. destruct (ru_left _) eqn:Q; [| done]. intros R.
  assert (A : forall r, r ∈ roles -> r ∈ es.*1).
  { intros r Hr. destruct (decide (r ∈ es.*1)) as [| N]; [done |]. exfalso. by apply (not_elem_of_nil r), L. }
  assert (H0 : head (omap (fun '(r, m) => (r,.) <$> m) es) = None <-> forall r m, (r, m) ∈ es -> m = None).
  { clear. induction es as [| [r m] es IH]; cbn [omap list_omap]; [split; [intros _ ? ? ?%not_elem_of_nil; done | done] |].
    setoid_rewrite elem_of_cons. destruct m as [m |]; cbn.
    - split; [done | intros F; by specialize (F r (Some m) ltac:(by left))].
    - rewrite IH. naive_solver. }
  rewrite <- H0. destruct (head _); injection R as <- <-; split_and!; try done.
Qed.
