(* ===== verification/CommandArgs.v ===== *)
(** * The grammar of [peers add]

    The hand-written argument loop against the grammar it stands for: words,
    and options in either of their two spellings. *)

From S2P Require Import Prelude NetAddr NetParse Crypto PeerCache Manifest CommandLine.

(** One word of the line as the operator means it, and, for an option, whether
    it is spelled [--opt=value] or [--opt value]. *)
Inductive OptName := OName | OExpose.
Inductive Word := WPos (s : string) | WOpt (o : OptName) (value : string) (joined : bool).

Definition opt_name (o : OptName) : string := match o with OName => "name" | OExpose => "expose" end.

Definition spell (x : Word) : list string :=
  match x with
  | WPos s => [s]
  | WOpt o v true => ["--" ⊕ opt_name o ⊕ "=" ⊕ v]
  | WOpt o v false => ["--" ⊕ opt_name o; v]
  end.

(** A positional is anything that does not look like an option. *)
Definition word_ok (x : Word) : Prop := match x with WPos s => has_prefix "--" s = false | WOpt _ _ _ => True end.

(** What the words mean: the positionals in order, the last value of each
    option. *)
Definition positionals (xs : list Word) : list string := omap (fun x => match x with WPos s => Some s | WOpt _ _ _ => None end) xs.

Definition options (xs : list Word) : gmap string string :=
  foldl (fun m x => match x with WPos _ => m | WOpt o v _ => <[opt_name o := v]> m end) ∅ xs.

(** The other spelling of every option. *)
Definition respell (x y : Word) : Prop :=
  match x, y with WPos s, WPos t => s = t | WOpt o v _, WOpt o' v' _ => o = o' /\ v = v' | _, _ => False end.

Lemma cut_spec c s a b : cut c s = Some (a, b) -> s = a ⊕ String c b.
Proof.
  revert a b. induction s as [| d s IH]; intros a b; cbn [cut]; [done |]. destruct (Ascii.eqb_spec d c) as [-> |].
  - by intros [= <- <-].
  - destruct (cut c s) as [[a' b'] |]; [| done]. intros [= <- <-]. cbn. f_equal. by apply IH.
Qed.

Lemma opt_known n : String.eqb n "name" || String.eqb n "expose" = true -> exists o, n = opt_name o.
Proof. intros [-> % String.eqb_eq | -> % String.eqb_eq] % orb_true_iff; [by exists OName | by exists OExpose]. Qed.

(** One word is one turn of the loop. *)
Lemma parse_word x rest pos opts :
  word_ok x ->
  parsePeersAddArgs (spell x ++ rest) pos opts =
  parsePeersAddArgs rest (pos ++ positionals [x]) (match x with WPos _ => opts | WOpt o v _ => <[opt_name o := v]> opts end).
Proof.
  destruct x as [s | [] v []]; cbn [spell word_ok app positionals omap list_omap]; rewrite ?app_nil_r; try done.
  intros E. cbn [parsePeersAddArgs]. by rewrite E.
Qed.

Lemma positionals_cons x xs : positionals (x :: xs) = positionals [x] ++ positionals xs.
Proof. by destruct x. Qed.

Lemma parse_words xs : forall pos opts,
  Forall word_ok xs ->
  parsePeersAddArgs (xs ≫= spell) pos opts =
  Ok (pos ++ positionals xs, foldl (fun m x => match x with WPos _ => m | WOpt o v _ => <[opt_name o := v]> m end) opts xs).
Proof.
  induction xs as [| x xs IH]; intros pos opts; [by rewrite app_nil_r |]. intros [Hx Hxs]%Forall_cons. cbn [mbind list_bind foldl].
  rewrite parse_word by done. rewrite IH by done. by rewrite (positionals_cons x xs), app_assoc.
Qed.

(** Every line that is accepted is a spelling of some words. *)
Lemma parse_spelled n : forall args pos opts r,
  (length args <= n)%nat -> parsePeersAddArgs args pos opts = Ok r -> exists xs, args = xs ≫= spell /\ Forall word_ok xs.
Proof.
  induction n as [| n IH]; intros [| a rest] pos opts r L; cbn [length] in L; try (intros _; by exists []); [lia |].
  cbn [parsePeersAddArgs]. destruct (has_prefix "--" a) eqn:P; cbn [negb].
  - apply has_prefix_spec in P as [body ->]. change (drop_s 2 ("--" ⊕ body)) with body.
    destruct (cut "=" body) as [[name value] |] eqn:C.
    + destruct (_ || _) eqn:K; [| done]. apply opt_known in K as [o ->]. apply cut_spec in C as ->.
      intros E%IH; [| lia]. destruct E as (xs & -> & ?). exists (WOpt o value true :: xs). split; [done | by constructor].
    + destruct rest as [| value rest]; [done |]. cbn [length] in L. destruct (_ || _) eqn:K; [| done]. apply opt_known in K as [o ->].
      intros E%IH; [| lia]. destruct E as (xs & -> & ?). exists (WOpt o value false :: xs). split; [done | by constructor].
  - intros E%IH; [| lia]. destruct E as (xs & -> & ?). exists (WPos a :: xs). split; [done | by constructor].
Qed.

Lemma respell_same xs ys :
  Forall2 respell xs ys -> positionals xs = positionals ys /\ options xs = options ys /\ (Forall word_ok xs -> Forall word_ok ys).
Proof.
  unfold options. generalize (∅ : gmap string string). intros m F. revert m.
  induction F as [| x y xs ys R F IH]; intros m; [done |]. cbn [foldl].
  destruct x as [s | o v j], y as [t | o' v' j']; try done; [cbn in R; subst | destruct R as [-> ->]].
  - destruct (IH m) as (P & O & W). split_and!; [cbn; by f_equal | done |]. intros [? ?]%Forall_cons. constructor; auto.
  - destruct (IH (<[opt_name o' := v']> m)) as (P & O & W). split_and!; [done | done |]. intros [? ?]%Forall_cons. constructor; auto.
Qed.

(** C37. The argument loop of [peers add] is exactly its grammar.  A line is
    accepted with some positionals and options if and only if it spells words
    with that meaning: positionals in order, the last value of each option,
    any value taken as it is (empty, with an equals sign, or looking like an
    option).  So [--name x] and [--name=x] are interchangeable anywhere, and
    the whole command then does the same to every file and exits with the same
    code. *)
Theorem peers_add_forms_agree :
  (forall args pos opts,
     parsePeersAddArgs args [] ∅ = Ok (pos, opts) <->
     exists xs, args = xs ≫= spell /\ Forall word_ok xs /\ pos = positionals xs /\ opts = options xs) /\
  (forall xs ys yaml yaml_text pf pp lock today cache fs,
     Forall word_ok xs -> Forall2 respell xs ys ->
     runPeersCmd yaml yaml_text pf pp lock today cache ("add" :: (xs ≫= spell)) fs =
     runPeersCmd yaml yaml_text pf pp lock today cache ("add" :: (ys ≫= spell)) fs).
Proof.
  split.
  - intros args pos opts. split.
    + intros E. destruct (parse_spelled _ _ _ _ _ (le_n _) E) as (xs & -> & W). exists xs. rewrite parse_words in E by done. by injection E as <- <-.
    + intros (xs & -> & W & -> & ->). by rewrite parse_words.
  - intros xs ys yaml yaml_text pf pp lock today cache fs W R. destruct (respell_same _ _ R) as (P & O & W').
    cbn [runPeersCmd]. cbn [String.eqb Ascii.eqb Bool.eqb]. rewrite !parse_words by auto. unfold options in O. by rewrite P, O.
Qed.

(** Both spellings, a value that looks like an option, a repeated option. *)
Definition demo_words : list Word := [WPos "key"; WOpt OName "--nas=1" false; WPos "token"; WOpt OExpose "" true; WOpt OName "nas" false].

Lemma peers_add_forms_agree_witness :
  parsePeersAddArgs ["key"; "--name"; "--nas=1"; "token"; "--expose="; "--name"; "nas"] [] ∅ =
    Ok (["key"; "token"], <["name" := "nas"]> (<["expose" := ""]> ∅)).
Proof.
  apply peers_add_forms_agree. exists demo_words.
  split_and!; [vm_compute; reflexivity | repeat constructor | vm_compute; reflexivity | vm_compute; reflexivity].
Defined.
