(* ===== verification/MatchServer.v ===== *)
(** * The public matchmaking server

    [cmd/buddynet-handshake/main.go]: the second binary, which runs the
    handshake server only, with its two identity commands. *)

From S2P Require Import Prelude Base64 Sha256 Json NetAddr NetParse Crypto Protocol HsRegistry Authz AuthzFile TrustStore Sas SasProps KeyFile PeersList Startup CommandLine.
From S2P Require Handshake.

Record serverFlags := mkServerFlags { sf_listen : string; sf_keyPath : string; sf_ttl : Z; sf_allowCIDR : string; sf_debug : bool }.

Definition envOr (getenv : string -> string) (key def : string) : string := if given (getenv key) then getenv key else def.

Definition default_flags (getenv : string -> string) : serverFlags :=
  mkServerFlags (envOr getenv "BUDDYNET_LISTEN" DefaultHandshakeAddr) (getenv "BUDDYNET_KEY_PATH") 0 "" false.

(** [parseCIDRs] of this binary, with its accumulator. *)
Fixpoint parse_parts (parts : list string) (out : list Prefix) : result CLIErr (list Prefix) :=
  match parts with
  | [] => Ok out
  | part :: rest =>
      let part := TrimSpace part in
      if String.eqb part "" then parse_parts rest out
      else match ParsePrefix part with
           | Some p => parse_parts rest (out ++ [Masked p])
           | None => match ParseAddr part with
                     | None => Err (BadCIDR part)
                     | Some (a, _) => parse_parts rest (out ++ [mkPrefix a (BitLen a)])
                     end
           end
  end.

Definition server_parseCIDRs (s : string) : result CLIErr (list Prefix) :=
  let s := TrimSpace s in if String.eqb s "" then Ok [] else parse_parts (split_on "," s) [].

(** What the process does: it prints a key or nothing and exits, or it serves. *)
Inductive ServerOutcome := Exits (code : Z) (out : option string) | ServeFails | Serves (c : Handshake.HsConfig) (s : Handshake.HsServer).

Section Server.
Context `{Ed25519} (from_seed : string -> string) (hkdf : string -> string -> string).

Definition print_key (priv : string) : ServerOutcome := Exits 0 (Some (PubKeyB64 (pub_of priv))).

(** [draw] is the seed a new identity gets, [seed] the one of a server without a
    key file.  The key is loaded twice on the way to serving, each time with
    faults of its own: [io] for [main], [io2] for [role.Handshake]. *)
Definition server_main (f : serverFlags) (arg : string) (now : Z) (draw seed : option string) (io io2 : KeyIO) (keys : Dir) : ServerOutcome * Dir :=
  if String.eqb arg "identity" then
    if negb (given (sf_keyPath f)) then (Exits 1 None, keys)
    else match LoadKey from_seed seed io (sf_keyPath f) keys with
         | (Err _, keys') => (Exits 1 None, keys')
         | (Ok (priv, _), keys') => (print_key priv, keys')
         end
  else if String.eqb arg "init" then
    if negb (given (sf_keyPath f)) then (Exits 1 None, keys)
    else match CreateKey from_seed draw io (sf_keyPath f) keys with
         | (Err _, keys') => (Exits 1 None, keys')
         | (Ok priv, keys') => (print_key priv, keys')
         end
  else match server_parseCIDRs (sf_allowCIDR f) with
  | Err _ => (Exits 1 None, keys)
  | Ok allowed =>
      match (if given (sf_keyPath f) then LoadKey from_seed seed io (sf_keyPath f) keys else (Err KRead, keys)) with
      | (Err KMissing, keys') => (Exits 1 None, keys')
      | (_, keys') =>
          (* role.Handshake loads the key for itself *)
          let '(r, keys'') := LoadKey from_seed seed io2 (sf_keyPath f) keys' in
          let key := match r with Ok (priv, _) => Ok priv | Err _ => Err "identity key" end in
          match Handshake.Handshake hkdf (Handshake.mkHandshakeConfig "" (sf_ttl f) "" "" allowed) now key (Ok ("", 0)) with
          | Err _ => (ServeFails, keys'')
          | Ok (c, s) => (Serves c s, keys'')
          end
      end
  end.

(** ** Both binaries read networks alike *)

Lemma parse_parts_same parts : forall out, parse_parts parts out = match cidrs_loop parts with Ok l => Ok (out ++ l) | Err e => Err e end.
Proof.
  induction parts as [| part parts IH]; intros out; cbn [parse_parts cidrs_loop]; [by rewrite app_nil_r |].
  destruct (String.eqb (TrimSpace part) ""); [apply IH |]. unfold cidr_entry.
  destruct (ParsePrefix (TrimSpace part)) as [p |]; [| destruct (ParseAddr (TrimSpace part)) as [[a z] |]; [| done]];
    rewrite IH; destruct (cidrs_loop parts); try done; by rewrite <- app_assoc.
Qed.

Lemma parsers_agree s : server_parseCIDRs s = parseCIDRs s.
Proof.
  unfold server_parseCIDRs, parseCIDRs. destruct (String.eqb (TrimSpace s) ""); [done |]. rewrite parse_parts_same. by destruct (cidrs_loop _).
Qed.

(** ** The identity *)

Lemma load_key_holds seed io path keys k b keys' :
  path <> "" -> LoadKey from_seed seed io path keys = (Ok (k, b), keys') -> holds from_seed keys' path k.
Proof.
  intros Hp E. assert (E' : LoadKey from_seed None io path keys = (Ok (k, b), keys')).
  { rewrite <- E. unfold LoadKey, loadKey. apply String.eqb_neq in Hp. by rewrite Hp. }
  apply (step_holds from_seed (mkKeyEvent OpLoad None io path) keys k keys'); [done | done |]. cbn. by rewrite E'.
Qed.

(** The paths a load may touch. *)
Lemma load_only_tightens seed io path keys p : same_file (keys !! p) ((LoadKey from_seed seed io path keys).2 !! p).
Proof.
  destruct (keys !! p) as [x |] eqn:L; [rewrite <- L; apply load_keeps; by rewrite L |]. left.
  unfold LoadKey, loadKey. destruct (String.eqb path ""); [done |]. destruct (ki_open io); [done |].
  destruct (keys !! path) as [[m d |] |] eqn:Lp; [| done | done]. assert (path <> p) by congruence.
  repeat (case_match; cbn [snd]; try done; rewrite ?lookup_insert_ne by done; try done).
Qed.

Lemma load_missing seed io path keys : path <> "" -> keys !! path = None -> exists e, LoadKey from_seed seed io path keys = (Err e, keys).
Proof.
  intros Hp L. unfold LoadKey, loadKey. apply String.eqb_neq in Hp. rewrite Hp, L. destruct (ki_open io); eauto.
Qed.

Lemma server_without_key f arg now draw seed io io2 keys o keys' :
  server_main f arg now draw seed io io2 keys = (o, keys') -> arg <> "init" -> sf_keyPath f <> "" -> keys !! sf_keyPath f = None ->
  (exists code, o = Exits code None /\ code <> 0) \/ o = ServeFails.
Proof.
  intros E Ha Hp Hn. revert E. unfold server_main. apply String.eqb_neq in Ha. rewrite Ha.
  assert (G : given (sf_keyPath f) = true) by (unfold given; apply String.eqb_neq in Hp; by rewrite Hp). rewrite G. cbn [negb].
  destruct (load_missing seed io _ _ Hp Hn) as [e1 ->], (load_missing seed io2 _ _ Hp Hn) as [e2 E2].
  destruct (String.eqb arg "identity"); [intros [= <- _]; left; by exists 1 |].
  destruct (server_parseCIDRs _); [| intros [= <- _]; left; by exists 1].
  destruct e1; rewrite ?E2; cbn; try (intros [= <- _]; by right). intros [= <- _]. left. by exists 1.
Qed.

(** C32. A public server is the key it was given.  Whatever the settings, the state
    of the disk and the faults of each access to the key: only [init] can bring
    a key file into being or give one contents, and it never replaces one;
    serving and printing at most tighten the permissions of files, and without
    the file they fail, contrary to the help text of [--key], which says that
    it is created if missing.  A server that serves with a key path holds the
    identity stored there; it has no allowlist and names no relay. *)
Theorem public_server_keeps_identity f arg now draw seed io io2 keys o keys' :
  server_main f arg now draw seed io io2 keys = (o, keys') ->
  (arg <> "init" -> sf_keyPath f <> "" -> keys !! sf_keyPath f = None -> (exists code, o = Exits code None /\ code <> 0) \/ o = ServeFails) /\
  (forall p, arg <> "init" -> same_file (keys !! p) (keys' !! p)) /\
  (forall p, is_Some (keys !! p) -> same_file (keys !! p) (keys' !! p)) /\
  match o with
  | Serves c s => (sf_keyPath f <> "" -> holds from_seed keys' (sf_keyPath f) (Handshake.hc_priv c)) /\ Handshake.hs_authz s = None /\
                  Handshake.hc_adv c = Handshake.mkRelayAdvert "" "" /\ parseCIDRs (sf_allowCIDR f) = Ok (Handshake.hc_allowed c)
  | Exits 0 (Some out) => arg = "identity" \/ arg = "init" /\ keys !! sf_keyPath f = None
  | _ => True
  end.
Proof.
  intros E.
  assert (T : forall p, arg <> "init" -> same_file (keys !! p) (keys' !! p)).
  { intros p Ha. revert E. unfold server_main. destruct (String.eqb arg "identity").
    - destruct (negb _); [intros [= _ <-]; by left |]. pose proof (load_only_tightens seed io (sf_keyPath f) keys p) as S.
      destruct (LoadKey _ _ _ _ _) as [[[priv b] |] k1]; intros [= _ <-]; exact S.
    - apply String.eqb_neq in Ha. rewrite Ha. destruct (server_parseCIDRs _) as [allowed |]; [| intros [= _ <-]; by left].
      assert (S1 : same_file (keys !! p) ((if given (sf_keyPath f) then LoadKey from_seed seed io (sf_keyPath f) keys else (Err KRead, keys)).2 !! p))
        by (destruct (given _); [apply load_only_tightens | by left]).
      destruct (if given _ then _ else _) as [r1 k1]. cbn [snd] in S1. pose proof (load_only_tightens seed io2 (sf_keyPath f) k1 p) as S2.
      destruct (LoadKey _ _ _ _ k1) as [r2 k2]. cbn [snd] in S2. pose proof (same_file_trans _ _ _ S1 S2).
      destruct r1 as [x | []]; repeat case_match; by intros [= _ <-]. }
  split; [intros Ha Hp Hn; by eapply server_without_key |]. split; [done |]. split.
  - intros p Hp. destruct (decide (arg = "init")) as [-> |]; [| by apply T]. revert E. unfold server_main. cbn [String.eqb Ascii.eqb Bool.eqb].
    destruct (given (sf_keyPath f)) eqn:G; cbn [negb]; [| intros [= _ <-]; by left]. unfold CreateKey. destruct (String.eqb (sf_keyPath f) "") eqn:Q; [unfold given in G; by rewrite Q in G |].
    pose proof (create_keeps from_seed draw io (sf_keyPath f) keys p Hp) as S. destruct (createKeyFile _ _ _ _ _) as [[k |] k1]; intros [= _ <-]; left; exact S.
  - revert E. unfold server_main. destruct (String.eqb_spec arg "identity") as [-> |].
    { destruct (negb _); [by intros [= <- _] |]. destruct (LoadKey _ _ _ _ _) as [[[priv b] |] k1]; intros [= <- _]; [by left | done]. }
    destruct (String.eqb_spec arg "init") as [-> |].
    { destruct (given (sf_keyPath f)) eqn:G; cbn [negb]; [| by intros [= <- _]]. unfold CreateKey, createKeyFile. unfold given in G. apply negb_true_iff in G. rewrite G.
      destruct draw; [| by intros [= <- _]]. destruct (ki_create io); [by intros [= <- _] |]. cbn [orb]. case_bool_decide as D; [by intros [= <- _] |].
      apply eq_None_not_Some in D. repeat case_match; intros [= <- _]; auto. }
    rewrite parsers_agree. destruct (parseCIDRs _) as [allowed |]; [| by intros [= <- _]]. destruct (if given _ then _ else _) as [r1 k1].
    destruct (LoadKey from_seed seed io2 (sf_keyPath f) k1) as [r2 k2] eqn:L2.
    assert (K : forall o', (match Handshake.Handshake hkdf (Handshake.mkHandshakeConfig "" (sf_ttl f) "" "" allowed) now
                         (match r2 with Ok (priv, _) => Ok priv | Err _ => Err "identity key" end) (Ok ("", 0)) with
                       | Err _ => (ServeFails, k2) | Ok (c, s) => (Serves c s, k2) end) = (o', keys') ->
              match o' with Serves c s => (sf_keyPath f <> "" -> holds from_seed keys' (sf_keyPath f) (Handshake.hc_priv c)) /\ Handshake.hs_authz s = None /\
                  Handshake.hc_adv c = Handshake.mkRelayAdvert "" "" /\ Ok allowed = Ok (E := CLIErr) (Handshake.hc_allowed c) | Exits 0 (Some _) => False | _ => True end).
    { intros o'. destruct r2 as [[priv b] |]; cbn; [| by intros [= <- _]]. intros [= <- <-]. cbn. split_and!; try done. intros Hp. by eapply load_key_holds. }
    destruct r1 as [x | []]; try (intros E; apply K in E; destruct o as [[| |] [] | |]; done). by intros [= <- _].
Qed.
End Server.

Module ServerDemo.
#[local] Existing Instance Crypto.Toy.toy_ed.

Definition key_file : Dir := {[ "/run/id.key" := Real owner_only (Std.EncodeToString KeyDemo.seed) ]}.
Definition flags : serverFlags := mkServerFlags "[::]:51820" "/run/id.key" 0 "192.0.2.0/24" false.

(** A server with its key mounted serves under that key. *)
Lemma public_server_keeps_identity_witness :
  exists c s, server_main id (fun _ _ => "") flags "" 0 None None no_io_faults no_io_faults key_file = (Serves c s, key_file) /\
    holds id key_file "/run/id.key" (Handshake.hc_priv c).
Proof.
  destruct (server_main id (fun _ _ => "") flags "" 0 None None no_io_faults no_io_faults key_file) as [o keys'] eqn:E.
  pose proof (public_server_keeps_identity id (fun _ _ => "") flags "" 0 None None no_io_faults no_io_faults key_file o keys' E) as (_ & _ & _ & K).
  destruct o as [| | c s]; [vm_compute in E; discriminate E | vm_compute in E; discriminate E |]. exists c, s.
  assert (keys' = key_file) as -> by (vm_compute in E; injection E as _ _ <-; reflexivity). split; [reflexivity |]. apply K. discriminate.
Defined.
End ServerDemo.
