(* ===== verification/Wg.v ===== *)
(** * The WireGuard interface of one buddy

    [internal/wg/wg.go]: the interface configuration derived from the two
    identities and the wait for a handshake that proves the partner.  The
    kernel is outside. *)

From S2P Require Import Prelude Sha256 NetAddr NetParse Crypto.

Record WgPeer := mkWgPeer { wp_PublicKey : string; wp_Endpoint : option (Addr * Z); wp_AllowedIPs : list Prefix; wp_Keepalive : Z }.

Record WgConfig := mkWgConfig {
  wc_IfName : string; wc_PrivateKey : string; wc_ListenPort : Z; wc_Address : Prefix; wc_Peer : WgPeer; wc_Routes : list Prefix;
}.

Definition zeroKey : string := String.string_of_list_ascii (replicate 32 zero).

(** [netip.Prefix.IsValid] *)
Definition Prefix_IsValid (p : Prefix) : bool :=
  (0 <=? pfx_bits p) && (pfx_bits p <=? match pfx_addr p with Addr4 _ => 32 | Addr6 _ => 128 end).

Inductive WgErr := BadIfName | ZeroPrivate | ZeroPeer | BadAllowedIP | NotIPv4 | BadPartnerKey | NoHandshake | KernelErr.

Definition validate (c : WgConfig) : option WgErr :=
  if String.eqb (wc_IfName c) "" || (15 <? slen (wc_IfName c))%nat then Some BadIfName
  else if String.eqb (wc_PrivateKey c) zeroKey then Some ZeroPrivate
  else if String.eqb (wp_PublicKey (wc_Peer c)) zeroKey then Some ZeroPeer
  else if existsb (fun p => negb (Prefix_IsValid p)) (wp_AllowedIPs (wc_Peer c)) then Some BadAllowedIP
  else if Prefix_IsValid (wc_Address c) && Is6 (pfx_addr (wc_Address c)) then Some NotIPv4 else None.

Section Wg.
(** The conversions of identity keys to X25519 ([internal/crypto]); a point off
    the curve has none. *)
Context `{Ed25519} (x_public : string -> option string) (x_private : string -> string).

Definition ConfigForPeer (ifName : string) (listenPort : Z) (myPriv partnerPub : string) (endpoint : option (Addr * Z))
    : result WgErr WgConfig :=
  match x_public partnerPub with
  | None => Err BadPartnerKey
  | Some peerX =>
      let peerVIP := [mkPrefix (VirtualIP partnerPub) 32] in
      Ok (mkWgConfig ifName (x_private myPriv) listenPort (mkPrefix (VirtualIP (pub_of myPriv)) 32)
            (mkWgPeer peerX endpoint peerVIP 25) peerVIP)
  end.

Definition handshakeProbeEvery : Z := 4.

(** The polls until the deadline: an error, no handshake yet (0), or its time;
    with the probes sent.  Running out of polls is the deadline. *)
Fixpoint confirm_loop (i : Z) (polls : list (result unit Z)) : Z * result WgErr Z :=
  match polls with
  | [] => (0, Err NoHandshake)
  | Err _ :: _ => (0, Err KernelErr)
  | Ok ts :: rest =>
      if negb (ts =? 0) then (0, Ok ts)
      else let '(n, r) := confirm_loop (i + 1) rest in ((if i mod handshakeProbeEvery =? 0 then 1 else 0) + n, r)
  end.

Definition ConfirmHandshake (partnerPub : string) (polls : list (result unit Z)) : Z * result WgErr Z :=
  match x_public partnerPub with None => (0, Err BadPartnerKey) | Some _ => confirm_loop 0 polls end.
End Wg.
