(* ===== verification/Netlink.v ===== *)
(** * Netlink messages

    The encoders [internal/wg/wg_linux.go], [internal/nft/nft_linux.go] and
    [internal/vip/bind_linux.go] share, the attribute walk of [wg_linux.go], and
    [syscall.ParseNetlinkMessage].  The byte order of the machine is a
    parameter. *)

From S2P Require Import Prelude Sha256 NetAddr.

(** ** Bytes in machine order *)

Fixpoint rev_s (s : string) : string :=
  match s with EmptyString => "" | String c r => rev_s r ⊕ String c "" end.

Lemma slen_rev s : slen (rev_s s) = slen s.
Proof. induction s as [| c s IH]; [done |]. cbn. rewrite slen_app, IH. cbn. lia. Qed.

Lemma rev_app s t : rev_s (s ⊕ t) = rev_s t ⊕ rev_s s.
Proof. induction s as [| c s IH]; cbn; [by rewrite app_empty_r |]. by rewrite IH, app_assoc_s. Qed.

Lemma rev_rev s : rev_s (rev_s s) = s.
Proof. induction s as [| c s IH]; [done |]. cbn. by rewrite rev_app, IH. Qed.

Section Native.
Context (big : bool).

Definition native (n : nat) (v : Z) : string := if big then be_bytes n v else rev_s (be_bytes n v).
Definition native_val (s : string) : Z := be_value 0 (if big then s else rev_s s).

Lemma slen_native n v : slen (native n v) = n.
Proof. unfold native. destruct big; rewrite ?slen_rev; apply slen_be_bytes. Qed.

Lemma be_value_bytes n v acc : be_value acc (be_bytes n v) = acc * 2 ^ (8 * Z.of_nat n) + v mod 2 ^ (8 * Z.of_nat n).
Proof.
  revert acc. induction n as [| n IH]; intros acc; cbn [be_bytes be_value].
  - change (2 ^ (8 * Z.of_nat 0)) with 1. rewrite Z.mod_1_r. lia.
  - rewrite IH, byte_val_of. rewrite Nat2Z.inj_succ.
    replace (8 * Z.succ (Z.of_nat n)) with (8 * Z.of_nat n + 8) by lia. rewrite Z.pow_add_r by lia.
    set (m := 2 ^ (8 * Z.of_nat n)). assert (0 < m) by (apply Z.pow_pos_nonneg; lia).
    change (2 ^ 8) with 256. rewrite (Z.rem_mul_r v m 256) by lia. lia.
Qed.

Lemma native_val_mod n v : native_val (native n v) = v mod 2 ^ (8 * Z.of_nat n).
Proof. unfold native_val, native. destruct big; rewrite ?rev_rev, be_value_bytes; lia. Qed.

Lemma native_val_native n v : 0 <= v < 2 ^ (8 * Z.of_nat n) -> native_val (native n v) = v.
Proof. intros B. rewrite native_val_mod. by apply Z.mod_small. Qed.

(** ** Attributes *)

Definition nlaFNested : Z := 0x8000.
Definition nlaTypeMask : Z := 0x3fff.

(** Rounded up to a multiple of four. *)
Definition align4 (n : nat) : nat := ((n + 3) / 4 * 4)%nat.

Definition nlAttr (typ : Z) (data : string) : string :=
  let l := (4 + slen data)%nat in
  native 2 (Z.of_nat l) ⊕ native 2 typ ⊕ data ⊕ zeros (align4 l - l).

Definition nlAttrU8 (typ v : Z) : string := nlAttr typ (be_bytes 1 v).
Definition nlAttrU16 (typ v : Z) : string := nlAttr typ (native 2 v).
Definition nlAttrU32 (typ v : Z) : string := nlAttr typ (native 4 v).
Definition nlAttrBE32 (typ v : Z) : string := nlAttr typ (be_bytes 4 v).
Definition nlAttrStrZ (typ : Z) (s : string) : string := nlAttr typ (s ⊕ String zero "").
Definition nlNested (typ : Z) (payload : string) : string := nlAttr (Z.lor typ nlaFNested) payload.

Definition sub_s (from to : nat) (s : string) : string := take_s (to - from) (drop_s from s).

Fixpoint walk (fuel : nat) (b : string) : list (Z * string) :=
  match fuel with
  | O => []
  | S f =>
      if (slen b <? 4)%nat then []
      else
        let l := Z.to_nat (native_val (sub_s 0 2 b)) in
        let t := native_val (sub_s 2 4 b) in
        if ((l <? 4) || (slen b <? l))%nat then []
        else (Z.land t nlaTypeMask, sub_s 4 l b) :: (if (slen b <? align4 l)%nat then [] else walk f (drop_s (align4 l) b))
  end.

(** [attrWalk]: the attributes in order; each is at least four bytes, so the
    length of the text bounds their number. *)
Definition attrWalk (b : string) : list (Z * string) := walk (slen b) b.

(** ** Messages *)

(** [nlMessage]: the sixteen bytes of header, then the body. *)
Definition nlMessage (msgType flags seq : Z) (body : string) : string :=
  native 4 (Z.of_nat (16 + slen body)) ⊕ native 2 msgType ⊕ native 2 flags ⊕ native 4 seq ⊕ native 4 0 ⊕ body.

Record NlMsg := mkMsg { nm_type : Z; nm_flags : Z; nm_seq : Z; nm_data : string }.

Fixpoint parse_messages (fuel : nat) (b : string) : option (list NlMsg) :=
  match fuel with
  | O => Some []
  | S f =>
      if (slen b <? 16)%nat then Some []
      else
        let l := Z.to_nat (native_val (sub_s 0 4 b)) in
        if ((l <? 16) || (slen b <? align4 l))%nat then None
        else
          rest ← parse_messages f (drop_s (align4 l) b);
          Some (mkMsg (native_val (sub_s 4 6 b)) (native_val (sub_s 6 8 b)) (native_val (sub_s 8 12 b)) (sub_s 16 l b) :: rest)
  end.

(** [syscall.ParseNetlinkMessage]; [None] for its error. *)
Definition ParseNetlinkMessage (b : string) : option (list NlMsg) := parse_messages (slen b) b.

(** ** Reading back what was written *)

Lemma slen_zeros n : slen (zeros n) = n.
Proof. induction n; cbn; congruence. Qed.

Lemma align4_spec n : (n <= align4 n < n + 4)%nat /\ (align4 n mod 4 = 0)%nat.
Proof.
  unfold align4. pose proof (Nat.div_mod_eq (n + 3) 4) as D.
  assert (M : ((n + 3) mod 4 < 4)%nat) by (apply Nat.mod_upper_bound; discriminate). split; [lia | apply Nat.Div0.mod_mul].
Qed.

Lemma align4_id n : (n mod 4 = 0)%nat -> align4 n = n.
Proof.
  intros M. pose proof (align4_spec n) as [A B]. apply Nat.Div0.div_exact in M, B. lia.
Qed.

Lemma slen_nlAttr t d : slen (nlAttr t d) = align4 (4 + slen d).
Proof.
  unfold nlAttr. rewrite !slen_app, !slen_native, slen_zeros. pose proof (align4_spec (4 + slen d)). lia.
Qed.

Lemma drop_s_ge n s : (slen s <= n)%nat -> drop_s n s = "".
Proof. revert n. induction s as [| c s IH]; intros [| n] L; cbn in *; try done; [lia |]. apply IH. lia. Qed.

Lemma walk_fuel f : forall b, (slen b <= f)%nat -> walk f b = walk (slen b) b.
Proof.
  induction f as [f IH] using (well_founded_induction lt_wf). intros b L.
  destruct f as [| f]; [destruct b; [done | cbn in L; lia] |]. destruct (slen b) as [| n] eqn:E; [cbn; by rewrite E |].
  cbn [walk]. rewrite E. destruct (Nat.ltb_spec (S n) 4); [done |].
  set (l := Z.to_nat (native_val (sub_s 0 2 b))). destruct (Nat.ltb_spec l 4); [done |].
  destruct (Nat.ltb_spec (S n) l); [done |]. cbn [orb]. f_equal.
  destruct (Nat.ltb_spec (S n) (align4 l)); [done |]. pose proof (align4_spec l).
  transitivity (walk (slen (drop_s (align4 l) b)) (drop_s (align4 l) b)); [| symmetry];
    (apply IH; [lia | rewrite slen_drop, E; lia]).
Qed.

(** The attribute at the front of a text. *)
Lemma attrWalk_cons t d rest :
  0 <= t < 65536 -> 4 + Z.of_nat (slen d) < 65536 ->
  attrWalk (nlAttr t d ⊕ rest) = (Z.land t nlaTypeMask, d) :: attrWalk rest.
Proof.
  intros Ht Hd. unfold attrWalk at 1. set (b := nlAttr t d ⊕ rest).
  assert (Lb : slen b = (align4 (4 + slen d) + slen rest)%nat) by (unfold b; by rewrite slen_app, slen_nlAttr).
  pose proof (align4_spec (4 + slen d)) as [A _].
  destruct (slen b) as [| n] eqn:En; [lia |]. cbn [walk]. rewrite En, Lb.
  assert (E0 : b = native 2 (Z.of_nat (4 + slen d)) ⊕ native 2 t ⊕ d ⊕ zeros (align4 (4 + slen d) - (4 + slen d)) ⊕ rest)
    by (unfold b, nlAttr; by rewrite !app_assoc_s).
  assert (D2 : drop_s 2 b = native 2 t ⊕ d ⊕ zeros (align4 (4 + slen d) - (4 + slen d)) ⊕ rest)
    by (rewrite E0; apply drop_s_len, slen_native).
  assert (D4 : drop_s 4 b = d ⊕ zeros (align4 (4 + slen d) - (4 + slen d)) ⊕ rest)
    by (change 4%nat with (2 + 2)%nat; rewrite drop_s_add, D2; apply drop_s_len, slen_native).
  assert (S0 : native_val (sub_s 0 2 b) = Z.of_nat (4 + slen d)).
  { unfold sub_s. cbn [Nat.sub drop_s]. rewrite E0, take_s_len by apply slen_native. apply native_val_native.
    change (2 ^ (8 * Z.of_nat 2)) with 65536. lia. }
  assert (S2 : native_val (sub_s 2 4 b) = t).
  { unfold sub_s. cbn [Nat.sub]. rewrite D2, take_s_len by apply slen_native. by apply native_val_native. }
  rewrite S0, S2, Nat2Z.id. destruct (Nat.ltb_spec (align4 (4 + slen d) + slen rest) 4); [lia |].
  destruct (Nat.ltb_spec (4 + slen d) 4); [lia |].
  destruct (Nat.ltb_spec (align4 (4 + slen d) + slen rest) (4 + slen d)); [lia |]. cbn [orb].
  destruct (Nat.ltb_spec (align4 (4 + slen d) + slen rest) (align4 (4 + slen d))); [lia |].
  assert (Dr : drop_s (align4 (4 + slen d)) b = rest) by (unfold b; apply drop_s_len, slen_nlAttr).
  rewrite Dr, walk_fuel by lia. do 2 f_equal. unfold sub_s. rewrite D4.
  replace (4 + slen d - 4)%nat with (slen d) by lia. by apply take_s_len.
Qed.

Lemma attrWalk_nil : attrWalk "" = [].
Proof. done. Qed.

Lemma attrWalk_one t d :
  0 <= t < 65536 -> 4 + Z.of_nat (slen d) < 65536 -> attrWalk (nlAttr t d) = [(Z.land t nlaTypeMask, d)].
Proof. intros Ht Hd. rewrite <- (app_empty_r (nlAttr t d)), attrWalk_cons by done. by rewrite attrWalk_nil. Qed.

Lemma parse_messages_fuel f : forall b, (slen b <= f)%nat -> parse_messages f b = parse_messages (slen b) b.
Proof.
  induction f as [f IH] using (well_founded_induction lt_wf). intros b L.
  destruct f as [| f]; [destruct b; [done | cbn in L; lia] |]. destruct (slen b) as [| n] eqn:E; [cbn; by rewrite E |].
  cbn [parse_messages]. rewrite E. destruct (Nat.ltb_spec (S n) 16); [done |].
  set (l := Z.to_nat (native_val (sub_s 0 4 b))). destruct (Nat.ltb_spec l 16); [done |].
  destruct (Nat.ltb_spec (S n) (align4 l)); [done |]. cbn [orb]. f_equal. pose proof (align4_spec l).
  transitivity (parse_messages (slen (drop_s (align4 l) b)) (drop_s (align4 l) b)); [| symmetry];
    (apply IH; [lia | rewrite slen_drop, E; lia]).
Qed.

Lemma slen_nlMessage t f s body : slen (nlMessage t f s body) = (16 + slen body)%nat.
Proof. unfold nlMessage. rewrite !slen_app, !slen_native. lia. Qed.

(** The message at the front of a buffer. *)
Lemma ParseNetlinkMessage_cons t f s body rest :
  0 <= t < 65536 -> 0 <= f < 65536 -> 16 + Z.of_nat (slen body) < 2 ^ 32 -> (slen body mod 4 = 0)%nat ->
  ParseNetlinkMessage (nlMessage t f s body ⊕ rest) = (cons (mkMsg t f (s mod 2 ^ 32) body)) <$> ParseNetlinkMessage rest.
Proof.
  intros Ht Hf Hb Hm. unfold ParseNetlinkMessage at 1. set (b := nlMessage t f s body ⊕ rest).
  assert (Lb : slen b = (16 + slen body + slen rest)%nat) by (unfold b; by rewrite slen_app, slen_nlMessage).
  assert (Al : align4 (16 + slen body) = (16 + slen body)%nat).
  { apply align4_id. apply Nat.Div0.div_exact in Hm. replace (16 + slen body)%nat with ((4 + slen body / 4) * 4)%nat by lia.
    apply Nat.Div0.mod_mul. }
  set (bt := body ⊕ rest).
  assert (E0 : b = native 4 (Z.of_nat (16 + slen body)) ⊕ native 2 t ⊕ native 2 f ⊕ native 4 s ⊕ native 4 0 ⊕ bt)
    by (unfold b, nlMessage, bt; by rewrite !app_assoc_s).
  assert (D4 : drop_s 4 b = native 2 t ⊕ native 2 f ⊕ native 4 s ⊕ native 4 0 ⊕ bt)
    by (rewrite E0; apply drop_s_len, slen_native).
  assert (D6 : drop_s 6 b = native 2 f ⊕ native 4 s ⊕ native 4 0 ⊕ bt)
    by (change 6%nat with (4 + 2)%nat; rewrite drop_s_add, D4; apply drop_s_len, slen_native).
  assert (D8 : drop_s 8 b = native 4 s ⊕ native 4 0 ⊕ bt)
    by (change 8%nat with (6 + 2)%nat; rewrite drop_s_add, D6; apply drop_s_len, slen_native).
  assert (D16 : drop_s 16 b = bt).
  { change 16%nat with (8 + (4 + 4))%nat. rewrite drop_s_add, D8, drop_s_add, drop_s_len by apply slen_native.
    apply drop_s_len, slen_native. }
  destruct (slen b) as [| n] eqn:En; [lia |]. cbn [parse_messages]. rewrite En, Lb. unfold sub_s.
  rewrite D4, D6, D8, D16. cbn [Nat.sub drop_s]. assert (T4 : take_s 4 b = native 4 (Z.of_nat (16 + slen body))) by (rewrite E0; apply take_s_len, slen_native). rewrite T4.
  rewrite !take_s_len by apply slen_native. rewrite (native_val_mod 4 s), !native_val_native by (done || lia).
  rewrite Nat2Z.id, Al. destruct (Nat.ltb_spec (16 + slen body + slen rest) 16); [lia |].
  destruct (Nat.ltb_spec (16 + slen body) 16); [lia |].
  destruct (Nat.ltb_spec (16 + slen body + slen rest) (16 + slen body)); [lia |]. cbn [orb].
  assert (Dr : drop_s (16 + slen body) b = rest) by (rewrite drop_s_add, D16; by apply drop_s_len).
  rewrite Dr, parse_messages_fuel by lia. fold (ParseNetlinkMessage rest).
  replace (16 + slen body - 16)%nat with (slen body) by lia. unfold bt. rewrite take_s_len by done.
  by destruct (ParseNetlinkMessage rest).
Qed.
End Native.
