(* ===== verification/Nft.v ===== *)
(** * Programming the exposure scopes

    [internal/nft/nft_linux.go]: the nftables batch that says what each buddy may
    reach on this host and through it, byte by byte, and the per-interface
    state it is rendered from. *)

From S2P Require Import Prelude Sha256 NetAddr Netlink Scope.

(** ** Constants *)

Definition nfnlSubsysNftables : Z := 10.
Definition nfnlMsgBatchBegin : Z := 0x10.
Definition nfnlMsgBatchEnd : Z := 0x11.
Definition nftMsgNewTable : Z := 0.
Definition nftMsgDelTable : Z := 2.
Definition nftMsgNewChain : Z := 3.
Definition nftMsgNewRule : Z := 6.
Definition nfprotoInet : Z := 1.
Definition nfInetLocalIn : Z := 1.
Definition nfInetForward : Z := 2.
Definition nfAccept : Z := 1.
Definition nfDrop : Z := 0.
Definition nftMetaIifname : Z := 6.
Definition nftMetaL4Proto : Z := 16.
Definition nftCmpEq : Z := 0.
Definition nftCmpNeq : Z := 1.
Definition nftPayloadTransportHeader : Z := 2.
Definition nftCtState : Z := 0.
Definition ctStateEstablished : Z := 2.
Definition ctStateRelated : Z := 4.
Definition ifNameSize : nat := 16.
Definition tableName : string := "buddynet".
Definition chainName : string := "in".
Definition fwdChainName : string := "fwd".
Definition IPPROTO_ICMP : Z := 1.
Definition IPPROTO_TCP : Z := 6.
Definition IPPROTO_UDP : Z := 17.
Definition IPPROTO_ICMPV6 : Z := 58.
Definition NLM_F_REQUEST : Z := 1.
Definition NLM_F_ACK : Z := 4.
Definition NLM_F_CREATE : Z := 0x400.
Definition NLM_F_APPEND : Z := 0x800.

Section Encode.
Context (big : bool).

(** ** Expressions *)

Definition expr (name data : string) : string :=
  nlNested big 1 (nlAttrStrZ big 1 name ⊕ nlNested big 2 data).

Definition dataValue (typ : Z) (b : string) : string := nlNested big typ (nlAttr big 1 b).

(** [exprCmp]: register 1 against a constant. *)
Definition exprCmp (op : Z) (value : string) : string :=
  expr "cmp" (nlAttrBE32 big 1 1 ⊕ nlAttrBE32 big 2 op ⊕ dataValue 3 value).

Definition meta (key : Z) : string := expr "meta" (nlAttrBE32 big 1 1 ⊕ nlAttrBE32 big 2 key).

(** A name as the kernel keeps it: sixteen bytes, zero-padded. *)
Definition padded (name : string) : string :=
  take_s ifNameSize name ⊕ zeros (ifNameSize - slen (take_s ifNameSize name)).

Definition exprsIifname (name : string) : string := meta nftMetaIifname ⊕ exprCmp nftCmpEq (padded name).

Definition exprsL4Proto (proto : Z) : string := meta nftMetaL4Proto ⊕ exprCmp nftCmpEq (be_bytes 1 proto).

Definition exprsDport (port : Z) : string :=
  expr "payload" (nlAttrBE32 big 1 1 ⊕ nlAttrBE32 big 2 nftPayloadTransportHeader ⊕ nlAttrBE32 big 3 2 ⊕ nlAttrBE32 big 4 2)
  ⊕ exprCmp nftCmpEq (be_bytes 2 port).

Definition exprsCtStateEstRel : string :=
  expr "ct" (nlAttrBE32 big 1 1 ⊕ nlAttrBE32 big 2 nftCtState)
  ⊕ expr "bitwise" (nlAttrBE32 big 1 1 ⊕ nlAttrBE32 big 2 1 ⊕ nlAttrBE32 big 3 4
       ⊕ dataValue 4 (native big 4 (Z.lor ctStateEstablished ctStateRelated)) ⊕ dataValue 5 (zeros 4))
  ⊕ exprCmp nftCmpNeq (zeros 4).

Definition exprVerdict (code : Z) : string :=
  expr "immediate" (nlAttrBE32 big 1 0 ⊕ nlNested big 2 (nlNested big 2 (nlAttrBE32 big 1 code))).

(** ** Rules *)

Definition proto_of (p : Port) : Z := if String.eqb (Proto p) "udp" then IPPROTO_UDP else IPPROTO_TCP.

Definition ruleExprs (ifName : string) (s : Scope) : list string :=
  if All s then []
  else
    [exprsIifname ifName ⊕ exprsCtStateEstRel ⊕ exprVerdict nfAccept] ++
    ((fun p => exprsIifname ifName ⊕ exprsL4Proto (proto_of p) ⊕ exprsDport (Num p) ⊕ exprVerdict nfAccept) <$> Ports s) ++
    [exprsIifname ifName ⊕ exprsL4Proto IPPROTO_ICMP ⊕ exprVerdict nfAccept;
     exprsIifname ifName ⊕ exprsL4Proto IPPROTO_ICMPV6 ⊕ exprVerdict nfAccept;
     exprsIifname ifName ⊕ exprVerdict nfDrop].

Definition forwardExprs (ifName : string) : list string := [exprsIifname ifName ⊕ exprVerdict nfDrop].

(** ** Messages *)

Definition nftMessage (msgType flags seq family : Z) (attrs : string) : string :=
  nlMessage big msgType flags seq (be_bytes 1 family ⊕ zeros 3 ⊕ attrs).

Definition batchDelim (msgType seq : Z) : string :=
  nlMessage big msgType NLM_F_REQUEST seq (zeros 2 ⊕ be_bytes 2 nfnlSubsysNftables).

Definition nft (msg : Z) : Z := Z.lor (Z.shiftl nfnlSubsysNftables 8) msg.

Definition create : Z := Z.lor NLM_F_REQUEST NLM_F_CREATE.

(** One inner message before it is numbered: type, flags, attributes. *)
Record Inner := mkInner { in_type : Z; in_flags : Z; in_attrs : string }.

Definition newChain (name : string) (hook : Z) : Inner :=
  mkInner (nft nftMsgNewChain) create
    (nlAttrStrZ big 1 tableName ⊕ nlAttrStrZ big 3 name ⊕ nlNested big 4 (nlAttrBE32 big 1 hook ⊕ nlAttrBE32 big 2 0)
     ⊕ nlAttrBE32 big 5 nfAccept ⊕ nlAttrStrZ big 7 "filter").

Definition newRule (chain exprs : string) : Inner :=
  mkInner (nft nftMsgNewRule) (Z.lor create NLM_F_APPEND)
    (nlAttrStrZ big 1 tableName ⊕ nlAttrStrZ big 2 chain ⊕ nlNested big 4 exprs).

Definition if_rules (scopes : gmap string Scope) (ifName : string) : list Inner :=
  (newRule chainName <$> ruleExprs ifName (default (mkScope false []) (scopes !! ifName)))
  ++ (newRule fwdChainName <$> forwardExprs ifName).

Definition inner_messages (scopes : gmap string Scope) (order : list string) : list Inner :=
  let tbl := nlAttrStrZ big 1 tableName in
  [mkInner (nft nftMsgNewTable) create tbl; mkInner (nft nftMsgDelTable) NLM_F_REQUEST tbl] ++
  (if bool_decide (scopes = ∅) then []
   else [mkInner (nft nftMsgNewTable) create tbl; newChain chainName nfInetLocalIn; newChain fwdChainName nfInetForward]
        ++ flat_map (if_rules scopes) order).

(** The messages numbered from [seq]; the last one asks for the answer. *)
Fixpoint number (seq : Z) (l : list Inner) : string :=
  match l with
  | [] => ""
  | m :: r =>
      nftMessage (in_type m) (match r with [] => Z.lor (in_flags m) NLM_F_ACK | _ => in_flags m end) seq nfprotoInet (in_attrs m)
      ⊕ number (seq + 1) r
  end.

Definition buildBatch (scopes : gmap string Scope) (order : list string) : string :=
  let inner := inner_messages scopes order in
  batchDelim nfnlMsgBatchBegin 1 ⊕ number 2 inner ⊕ batchDelim nfnlMsgBatchEnd (2 + Z.of_nat (length inner)).

(** ** The state *)

Record NftState := mkNft { nf_scopes : gmap string Scope; nf_order : list string }.

Definition nft_empty : NftState := mkNft ∅ [].

(** [sendBatch] succeeds when the kernel took the batch. *)
Definition Apply (send : string -> bool) (ifName : string) (s : Scope) (st : NftState) : bool * NftState :=
  let order := if bool_decide (is_Some (nf_scopes st !! ifName)) then nf_order st else nf_order st ++ [ifName] in
  let scopes := <[ifName := s]> (nf_scopes st) in
  if send (buildBatch scopes order) then (true, mkNft scopes order)
  else
    (* undone: the previous scope, or the interface unlisted again *)
    (false, match nf_scopes st !! ifName with
            | Some prev => mkNft (<[ifName := prev]> scopes) order
            | None => mkNft (delete ifName scopes) (take (length order - 1) order)
            end).

Fixpoint remove_first (x : string) (l : list string) : list string :=
  match l with [] => [] | y :: r => if String.eqb y x then r else y :: remove_first x r end.

Definition Remove (send : string -> bool) (ifName : string) (st : NftState) : bool * NftState :=
  match nf_scopes st !! ifName with
  | None => (true, st)
  | Some _ =>
      let st' := mkNft (delete ifName (nf_scopes st)) (remove_first ifName (nf_order st)) in
      (send (buildBatch (nf_scopes st') (nf_order st')), st')
  end.
End Encode.

(** ** The answer *)

(** [sendBatch] on the reply: the first error it reports, if any. *)
Definition reply_ok (big : bool) (reply : string) : bool :=
  match ParseNetlinkMessage big reply with
  | None => false
  | Some msgs =>
      forallb (fun m => negb (nm_type m =? 2) ||
                        ((4 <=? slen (nm_data m))%nat && (native_val big (sub_s 0 4 (nm_data m)) =? 0))) msgs
  end.
