(* ===== verification/NftKernel.v ===== *)
(** * What nftables does with a batch

    The reference against which [Nft.v] is proved: how the kernel reads a batch
    (messages, attributes, expressions), keeps tables, chains and rules, and
    decides on a packet.  This is nftables as documented, for the expressions
    the program uses; nothing here models code of the repository. *)

From S2P Require Import Prelude Sha256 NetAddr Netlink.

(** ** Expressions *)

Inductive Expr :=
| EMeta (key : Z)
| EPayload (base offset len : Z)
| ECt (key : Z)
| EBitwise (mask xor : string)
| ECmp (op : Z) (value : string)
| EVerdict (code : Z).

Definition attr (t : Z) (l : list (Z * string)) : option string := snd <$> find (fun a => a.1 =? t) l.

Definition attr_be32 (t : Z) (l : list (Z * string)) : option Z :=
  v ← attr t l; if (slen v =? 4)%nat then Some (be_value 0 v) else None.

(** A text that ends in its only zero byte. *)
Definition attr_str (t : Z) (l : list (Z * string)) : option string :=
  v ← attr t l; '(s, rest) ← match v with EmptyString => None | _ => Some (take_s (slen v - 1) v, drop_s (slen v - 1) v) end;
  if String.eqb rest (String zero "") then Some s else None.

Section Decode.
Context (big : bool).
Local Notation attrs := (attrWalk big).

Definition attr_value (t : Z) (l : list (Z * string)) : option string := v ← attr t l; attr 1 (attrs v).

(** One element of an expression list; register 1 is the only one used. *)
Definition decode_expr (b : string) : option Expr :=
  let l := attrs b in
  name ← attr_str 1 l; body ← attr 2 l;
  let d := attrs body in
  if String.eqb name "meta" then
    dreg ← attr_be32 1 d; key ← attr_be32 2 d; if dreg =? 1 then Some (EMeta key) else None
  else if String.eqb name "payload" then
    dreg ← attr_be32 1 d; base ← attr_be32 2 d; off ← attr_be32 3 d; len ← attr_be32 4 d;
    if dreg =? 1 then Some (EPayload base off len) else None
  else if String.eqb name "ct" then
    dreg ← attr_be32 1 d; key ← attr_be32 2 d; if dreg =? 1 then Some (ECt key) else None
  else if String.eqb name "bitwise" then
    sreg ← attr_be32 1 d; dreg ← attr_be32 2 d; len ← attr_be32 3 d; mask ← attr_value 4 d; xor ← attr_value 5 d;
    if (sreg =? 1) && (dreg =? 1) && (len =? 4) && (slen mask =? 4)%nat && (slen xor =? 4)%nat
    then Some (EBitwise mask xor) else None
  else if String.eqb name "cmp" then
    sreg ← attr_be32 1 d; op ← attr_be32 2 d; v ← attr_value 3 d; if sreg =? 1 then Some (ECmp op v) else None
  else if String.eqb name "immediate" then
    dreg ← attr_be32 1 d; v ← attr 2 d; verdict ← attr 2 (attrs v); code ← attr_be32 1 (attrs verdict);
    if dreg =? 0 then Some (EVerdict code) else None
  else None.

(** Every element of a rule's expression list. *)
Definition decode_rule (b : string) : option (list Expr) :=
  mapM (fun a => if a.1 =? 1 then decode_expr a.2 else None) (attrs b).
End Decode.

(** ** Packets *)

(** A packet as the hooks see it: the interface it came in on, its transport
    protocol, its transport header, and its connection-tracking state. *)
Record Packet := mkPacket { pk_iif : string; pk_proto : Z; pk_transport : string; pk_ctstate : Z }.

Definition pad16 (name : string) : string := take_s 16 name ⊕ zeros (16 - slen (take_s 16 name)).

(** The bytes of two strings combined, up to the shorter. *)
Fixpoint zip_bytes (f : Z -> Z -> Z) (a b : string) : string :=
  match a, b with
  | String x a', String y b' => String (byte_of (f (byte_val x) (byte_val y))) (zip_bytes f a' b')
  | _, _ => ""
  end.

Inductive Step := Next (reg : string) | Break | Verdict (code : Z).

Section Eval.
Context (big : bool) (p : Packet).

Definition eval_expr (e : Expr) (reg : string) : Step :=
  match e with
  | EMeta key => if key =? 6 then Next (pad16 (pk_iif p)) else if key =? 16 then Next (be_bytes 1 (pk_proto p)) else Break
  | EPayload base off len =>
      if (base =? 2) && (off + len <=? Z.of_nat (slen (pk_transport p)))
      then Next (sub_s (Z.to_nat off) (Z.to_nat (off + len)) (pk_transport p)) else Break
  | ECt key => if key =? 0 then Next (native big 4 (pk_ctstate p)) else Break
  | EBitwise mask xor => Next (zip_bytes Z.lxor (zip_bytes Z.land reg mask) xor)
  | ECmp op v =>
      if op =? 0 then (if String.eqb reg v then Next reg else Break)
      else if op =? 1 then (if String.eqb reg v then Break else Next reg) else Break
  | EVerdict code => Verdict code
  end.

(** A rule's verdict, if it matches to the end. *)
Fixpoint eval_rule (es : list Expr) (reg : string) : option Z :=
  match es with
  | [] => None
  | e :: r => match eval_expr e reg with Next reg' => eval_rule r reg' | Break => None | Verdict c => Some c end
  end.

(** A chain: the first verdict, or the policy. *)
Fixpoint eval_rules (policy : Z) (rules : list (list Expr)) : Z :=
  match rules with
  | [] => policy
  | r :: rest => match eval_rule r "" with Some c => c | None => eval_rules policy rest end
  end.
End Eval.

(** ** Tables *)

Record KChain := mkChain { kc_hook : Z; kc_policy : Z; kc_rules : list (list Expr) }.

(** Tables of the inet family by name, chains by name. *)
Abbreviation Ruleset := (gmap string (gmap string KChain)).

(** What the kernel decides at a hook: a packet dropped by one chain is
    dropped. *)
Definition hook_verdict (big : bool) (rs : Ruleset) (hook : Z) (p : Packet) : Z :=
  if existsb (fun tab => existsb (fun c => (kc_hook c =? hook) && (eval_rules big p (kc_policy c) (kc_rules c) =? 0)) (map_to_list tab.2).*2)
       (map_to_list rs)
  then 0 else 1.

Section Kernel.
Context (big : bool).
Local Notation attrs := (attrWalk big).

Definition new_table (l : list (Z * string)) (rs : Ruleset) : option Ruleset :=
  t ← attr_str 1 l; Some (match rs !! t with Some _ => rs | None => <[t := ∅]> rs end).

Definition del_table (l : list (Z * string)) (rs : Ruleset) : option Ruleset :=
  t ← attr_str 1 l; _ ← rs !! t; Some (delete t rs).

Definition new_chain (l : list (Z * string)) (rs : Ruleset) : option Ruleset :=
  t ← attr_str 1 l; name ← attr_str 3 l; h ← attr 4 l; hook ← attr_be32 1 (attrs h); prio ← attr_be32 2 (attrs h);
  policy ← attr_be32 5 l; ty ← attr_str 7 l; tab ← rs !! t;
  if negb (String.eqb ty "filter") then None
  else match tab !! name with
       | Some _ => None
       | None => Some (<[t := <[name := mkChain hook policy []]> tab]> rs)
       end.

Definition new_rule (l : list (Z * string)) (rs : Ruleset) : option Ruleset :=
  t ← attr_str 1 l; name ← attr_str 2 l; es ← attr 4 l; rule ← decode_rule big es; tab ← rs !! t; c ← tab !! name;
  Some (<[t := <[name := mkChain (kc_hook c) (kc_policy c) (kc_rules c ++ [rule])]> tab]> rs).

(** One message inside a batch: nftables, family inet. *)
Definition kernel_msg (m : NlMsg) (rs : Ruleset) : option Ruleset :=
  let op := nm_type m - 10 * 256 in
  let l := attrs (drop_s 4 (nm_data m)) in
  if negb (String.eqb (take_s 1 (nm_data m)) (be_bytes 1 1)) then None
  else if op =? 0 then new_table l rs
  else if op =? 2 then del_table l rs
  else if op =? 3 then new_chain l rs
  else if op =? 6 then new_rule l rs
  else None.

Fixpoint kernel_msgs (ms : list NlMsg) (rs : Ruleset) : option Ruleset :=
  match ms with [] => Some rs | m :: r => rs' ← kernel_msg m rs; kernel_msgs r rs' end.

(** A batch: delimited, for nftables, all or nothing. *)
Definition is_delim (t : Z) (m : NlMsg) : bool := (nm_type m =? t) && String.eqb (sub_s 2 4 (nm_data m)) (be_bytes 2 10).

Definition kernel_batch (b : string) (rs : Ruleset) : option Ruleset :=
  ms ← ParseNetlinkMessage big b;
  match ms with
  | first :: rest =>
      match reverse rest with
      | lst :: middle => if is_delim 16 first && is_delim 17 lst then kernel_msgs (reverse middle) rs else None
      | [] => None
      end
  | [] => None
  end.
End Kernel.
