(* ===== verification/NftProps.v ===== *)
(** * The exposure scopes as the kernel enforces them

    The batch [Nft.v] builds, read and applied by the reference of
    [NftKernel.v], gives the ruleset meant, and that ruleset lets through what
    the scope of the interface says and nothing else. *)

From S2P Require Import Prelude Sha256 NetAddr Netlink Scope Nft NftKernel.

(** ** Sizes *)

Lemma slen_padded name : slen (padded name) = 16%nat.
Proof. unfold padded, ifNameSize. rewrite slen_app, slen_zeros, slen_take. lia. Qed.

Lemma padded_pad16 name : padded name = pad16 name.
Proof. done. Qed.

Create HintDb nlsize.
#[export] Hint Rewrite slen_app slen_nlAttr slen_be_bytes slen_native slen_zeros slen_padded : nlsize.

#[export] Hint Unfold expr dataValue exprCmp meta exprsIifname exprsL4Proto exprsDport exprsCtStateEstRel exprVerdict
  nlNested nlAttrStrZ nlAttrBE32 newChain newRule : nlsize.

(** Sizes of concrete encodings compute. *)
Ltac size := autounfold with nlsize; cbn [in_attrs in_type in_flags]; autorewrite with nlsize; vm_compute; try reflexivity; try lia.

(** ** Expressions read back *)

Section Decode.
Context (big : bool).

Definition expr_body (name data : string) : string := nlAttrStrZ big 1 name ⊕ nlNested big 2 data.

Lemma expr_unfold name data : expr big name data = nlAttr big (Z.lor 1 nlaFNested) (expr_body name data).
Proof. done. Qed.

Lemma attr_str_val t l s : attr t l = Some (s ⊕ String zero "") -> attr_str t l = Some s.
Proof.
  intros A. unfold attr_str. rewrite A. cbn [mbind option_bind].
  rewrite slen_app. cbn [slen]. replace (slen s + 1 - 1)%nat with (slen s) by lia.
  destruct (s ⊕ String zero "") as [| c r] eqn:E; [by destruct s |]. rewrite <- E, take_s_app, drop_s_app. done.
Qed.

Lemma attr_be32_val t l v : 0 <= v < 2 ^ 32 -> attr t l = Some (be_bytes 4 v) -> attr_be32 t l = Some v.
Proof.
  intros B A. unfold attr_be32. rewrite A. cbn [mbind option_bind]. rewrite slen_be_bytes, be_value_bytes. cbn [Nat.eqb].
  by rewrite Z.mod_small.
Qed.

(** The attributes of an expression element. *)
Lemma walk_body name data :
  Z.of_nat (slen name) < 1000 -> Z.of_nat (slen data) < 60000 ->
  attrWalk big (expr_body name data) = [(1, name ⊕ String zero ""); (2, data)].
Proof.
  intros Hn Hd. unfold expr_body, nlAttrStrZ, nlNested. rewrite attrWalk_cons, attrWalk_one; try done; rewrite ?slen_app; cbn [slen]; lia.
Qed.

Lemma slen_expr_body name data :
  Z.of_nat (slen (expr_body name data)) <= Z.of_nat (slen name) + Z.of_nat (slen data) + 16.
Proof.
  unfold expr_body, nlAttrStrZ, nlNested. rewrite slen_app, !slen_nlAttr, slen_app. cbn [slen].
  pose proof (align4_spec (4 + (slen name + 1))). pose proof (align4_spec (4 + slen data)). lia.
Qed.

Lemma walk_expr name data rest :
  Z.of_nat (slen name) < 1000 -> Z.of_nat (slen data) < 60000 ->
  attrWalk big (expr big name data ⊕ rest) = (1, expr_body name data) :: attrWalk big rest.
Proof.
  intros Hn Hd. rewrite expr_unfold. pose proof (slen_expr_body name data). rewrite attrWalk_cons; [done | vm_compute; split; congruence | lia].
Qed.

(** The elements of a rule one at a time. *)
Lemma decode_rule_cons name data rest e :
  Z.of_nat (slen name) < 1000 -> Z.of_nat (slen data) < 60000 -> decode_expr big (expr_body name data) = Some e ->
  decode_rule big (expr big name data ⊕ rest) = cons e <$> decode_rule big rest.
Proof.
  intros Hn Hd He. unfold decode_rule. rewrite walk_expr by done. cbn [mapM fst snd]. cbn [Z.eqb Pos.eqb].
  rewrite He. cbn [mbind option_bind]. by destruct (mapM _ (attrWalk big rest)).
Qed.

Lemma decode_rule_nil : decode_rule big "" = Some [].
Proof. done. Qed.

(** *** One lemma per expression *)

Lemma decode_body name data d :
  Z.of_nat (slen name) < 1000 -> Z.of_nat (slen data) < 60000 -> attrWalk big data = d ->
  attr_str 1 (attrWalk big (expr_body name data)) = Some name /\ attr 2 (attrWalk big (expr_body name data)) = Some data.
Proof. intros Hn Hd _. rewrite walk_body by done. split; [by apply attr_str_val | done]. Qed.

Ltac decode_start :=
  match goal with |- decode_expr _ (expr_body ?n ?d) = _ =>
    unfold decode_expr; destruct (decode_body n d (attrWalk big d)) as [-> ->]; [done | size | done |];
    cbn [mbind option_bind String.eqb Ascii.eqb Bool.eqb]
  end.

Ltac attrs :=
  repeat first [ rewrite attrWalk_cons by (first [ split; [done | reflexivity] | size ])
               | rewrite attrWalk_one by (first [ split; [done | reflexivity] | size ]) ].

Lemma decode_meta key : 0 <= key < 2 ^ 32 ->
  decode_expr big (expr_body "meta" (nlAttrBE32 big 1 1 ⊕ nlAttrBE32 big 2 key)) = Some (EMeta key).
Proof.
  intros B. decode_start. unfold nlAttrBE32. attrs.
  rewrite (attr_be32_val 1 _ 1) by done. cbn [mbind option_bind]. by rewrite (attr_be32_val 2 _ key).
Qed.

Lemma decode_ct key : 0 <= key < 2 ^ 32 ->
  decode_expr big (expr_body "ct" (nlAttrBE32 big 1 1 ⊕ nlAttrBE32 big 2 key)) = Some (ECt key).
Proof.
  intros B. decode_start. unfold nlAttrBE32. attrs.
  rewrite (attr_be32_val 1 _ 1) by done. cbn [mbind option_bind]. by rewrite (attr_be32_val 2 _ key).
Qed.

Lemma decode_payload base off len : 0 <= base < 2 ^ 32 -> 0 <= off < 2 ^ 32 -> 0 <= len < 2 ^ 32 ->
  decode_expr big (expr_body "payload" (nlAttrBE32 big 1 1 ⊕ nlAttrBE32 big 2 base ⊕ nlAttrBE32 big 3 off ⊕ nlAttrBE32 big 4 len))
  = Some (EPayload base off len).
Proof.
  intros B1 B2 B3. decode_start. unfold nlAttrBE32. attrs.
  rewrite (attr_be32_val 1 _ 1) by done. cbn [mbind option_bind]. rewrite (attr_be32_val 2 _ base) by done. cbn [mbind option_bind].
  rewrite (attr_be32_val 3 _ off) by done. cbn [mbind option_bind]. by rewrite (attr_be32_val 4 _ len).
Qed.

Lemma decode_cmp op v : 0 <= op < 2 ^ 32 -> (slen v <= 16)%nat ->
  decode_expr big (expr_body "cmp" (nlAttrBE32 big 1 1 ⊕ nlAttrBE32 big 2 op ⊕ dataValue big 3 v)) = Some (ECmp op v).
Proof.
  intros B Lv.
  assert (Sv : Z.of_nat (slen (nlAttr big 1 v)) < 30) by (rewrite slen_nlAttr; pose proof (align4_spec (4 + slen v)); lia).
  assert (Sd : Z.of_nat (slen (nlAttrBE32 big 1 1 ⊕ nlAttrBE32 big 2 op ⊕ dataValue big 3 v)) < 60000).
  { unfold dataValue, nlNested, nlAttrBE32. rewrite !slen_app, !slen_nlAttr, !slen_be_bytes.
    pose proof (align4_spec (4 + slen v)). pose proof (align4_spec (4 + align4 (4 + slen v))).
    change (align4 (4 + 4)) with 8%nat. lia. }
  unfold decode_expr. destruct (decode_body "cmp" _ _ eq_refl Sd eq_refl) as [-> ->].
  cbn [mbind option_bind String.eqb Ascii.eqb Bool.eqb]. unfold nlAttrBE32, dataValue, nlNested.
  rewrite attrWalk_cons, attrWalk_cons, attrWalk_one by (first [ split; [done | reflexivity] | lia | size ]).
  rewrite (attr_be32_val 1 _ 1) by done. cbn [mbind option_bind]. rewrite (attr_be32_val 2 _ op) by done. cbn [mbind option_bind].
  unfold attr_value.
  match goal with |- context [attr 3 ?l] => assert (A3 : attr 3 l = Some (nlAttr big 1 v)) by reflexivity; rewrite A3 end.
  cbn [mbind option_bind]. rewrite attrWalk_one by (first [ split; [done | reflexivity] | lia ]). done.
Qed.

Lemma decode_bitwise mask xor : slen mask = 4%nat -> slen xor = 4%nat ->
  decode_expr big (expr_body "bitwise" (nlAttrBE32 big 1 1 ⊕ nlAttrBE32 big 2 1 ⊕ nlAttrBE32 big 3 4
    ⊕ dataValue big 4 mask ⊕ dataValue big 5 xor)) = Some (EBitwise mask xor).
Proof.
  intros Lm Lx.
  assert (Sd : Z.of_nat (slen (nlAttrBE32 big 1 1 ⊕ nlAttrBE32 big 2 1 ⊕ nlAttrBE32 big 3 4
    ⊕ dataValue big 4 mask ⊕ dataValue big 5 xor)) < 60000).
  { unfold dataValue, nlNested, nlAttrBE32. rewrite !slen_app, !slen_nlAttr, !slen_be_bytes, Lm, Lx. reflexivity. }
  unfold decode_expr. destruct (decode_body "bitwise" _ _ eq_refl Sd eq_refl) as [-> ->].
  cbn [mbind option_bind String.eqb Ascii.eqb Bool.eqb]. unfold nlAttrBE32, dataValue, nlNested.
  assert (Av : forall v, slen v = 4%nat -> 4 + Z.of_nat (slen (nlAttr big 1 v)) < 65536) by (intros v E; rewrite slen_nlAttr, E; reflexivity).
  repeat (rewrite attrWalk_cons by (first [ split; [done | reflexivity] | by apply Av | size ])).
  rewrite attrWalk_one by (first [ split; [done | reflexivity] | by apply Av ]).
  rewrite (attr_be32_val 1 _ 1) by done. cbn [mbind option_bind]. rewrite (attr_be32_val 2 _ 1) by done. cbn [mbind option_bind].
  rewrite (attr_be32_val 3 _ 4) by done. cbn [mbind option_bind]. unfold attr_value.
  assert (Aw : forall v, slen v = 4%nat -> attr 1 (attrWalk big (nlAttr big 1 v)) = Some v).
  { intros v E. rewrite attrWalk_one; [done | split; [done | reflexivity] | rewrite E; reflexivity]. }
  match goal with |- context [attr 4 ?l] => assert (A4 : attr 4 l = Some (nlAttr big 1 mask)) by reflexivity; rewrite A4 end.
  match goal with |- context [attr 5 ?l] => assert (A5 : attr 5 l = Some (nlAttr big 1 xor)) by reflexivity; rewrite A5 end.
  cbn [mbind option_bind]. rewrite !Aw by done. cbn [mbind option_bind]. by rewrite Lm, Lx.
Qed.

Lemma decode_verdict code : 0 <= code < 2 ^ 32 ->
  decode_expr big (expr_body "immediate" (nlAttrBE32 big 1 0 ⊕ nlNested big 2 (nlNested big 2 (nlAttrBE32 big 1 code))))
  = Some (EVerdict code).
Proof.
  intros B. decode_start. unfold nlAttrBE32, nlNested. attrs.
  rewrite (attr_be32_val 1 _ 0) by done. cbn [mbind option_bind].
  match goal with |- context [attr 2 ?l] => assert (A2 : attr 2 l = Some (nlAttr big (Z.lor 2 nlaFNested) (nlAttr big 1 (be_bytes 4 code)))) by reflexivity; rewrite A2 end.
  cbn [mbind option_bind]. attrs.
  match goal with |- context [attr 2 ?l] => assert (A3 : attr 2 l = Some (nlAttr big 1 (be_bytes 4 code))) by reflexivity; rewrite A3 end.
  cbn [mbind option_bind]. attrs. by rewrite (attr_be32_val 1 _ code).
Qed.

(** *** Rules *)

Ltac rule_step L :=
  lazymatch type of L with
  | decode_expr _ (expr_body ?n ?d) = Some ?e => rewrite (decode_rule_cons n d _ e); [| reflexivity | size | exact L]
  end.

Definition iif_exprs (name : string) : list Expr := [EMeta nftMetaIifname; ECmp nftCmpEq (padded name)].
Definition l4_exprs (proto : Z) : list Expr := [EMeta nftMetaL4Proto; ECmp nftCmpEq (be_bytes 1 proto)].
Definition dport_exprs (port : Z) : list Expr := [EPayload 2 2 2; ECmp nftCmpEq (be_bytes 2 port)].
Definition ct_exprs : list Expr := [ECt nftCtState; EBitwise (native big 4 6) (zeros 4); ECmp nftCmpNeq (zeros 4)].

Lemma decode_iif name rest : decode_rule big (exprsIifname big name ⊕ rest) = app (iif_exprs name) <$> decode_rule big rest.
Proof.
  unfold exprsIifname, meta, exprCmp. rewrite app_assoc_s.
  rule_step (decode_meta nftMetaIifname ltac:(done)).
  rule_step (decode_cmp nftCmpEq (padded name) ltac:(done) ltac:(rewrite slen_padded; lia)).
  by destruct (decode_rule big rest).
Qed.

Lemma decode_l4 proto rest : decode_rule big (exprsL4Proto big proto ⊕ rest) = app (l4_exprs proto) <$> decode_rule big rest.
Proof.
  unfold exprsL4Proto, meta, exprCmp. rewrite app_assoc_s.
  rule_step (decode_meta nftMetaL4Proto ltac:(done)).
  rule_step (decode_cmp nftCmpEq (be_bytes 1 proto) ltac:(done) ltac:(rewrite slen_be_bytes; lia)).
  by destruct (decode_rule big rest).
Qed.

Lemma decode_dport port rest : decode_rule big (exprsDport big port ⊕ rest) = app (dport_exprs port) <$> decode_rule big rest.
Proof.
  unfold exprsDport, exprCmp. rewrite app_assoc_s.
  rule_step (decode_payload 2 2 2 ltac:(done) ltac:(done) ltac:(done)).
  rule_step (decode_cmp nftCmpEq (be_bytes 2 port) ltac:(done) ltac:(rewrite slen_be_bytes; lia)).
  by destruct (decode_rule big rest).
Qed.

Lemma decode_est rest : decode_rule big (exprsCtStateEstRel big ⊕ rest) = app ct_exprs <$> decode_rule big rest.
Proof.
  unfold exprsCtStateEstRel, exprCmp. rewrite !app_assoc_s.
  rule_step (decode_ct nftCtState ltac:(done)).
  rule_step (decode_bitwise (native big 4 6) (zeros 4) (slen_native big 4 6) (slen_zeros 4)).
  rule_step (decode_cmp nftCmpNeq (zeros 4) ltac:(done) ltac:(rewrite slen_zeros; lia)).
  by destruct (decode_rule big rest).
Qed.

Lemma decode_end code : 0 <= code < 2 ^ 32 -> decode_rule big (exprVerdict big code) = Some [EVerdict code].
Proof.
  intros B. rewrite <- (app_empty_r (exprVerdict big code)). unfold exprVerdict. rule_step (decode_verdict code B).
  by rewrite decode_rule_nil.
Qed.

(** The rules of an interface, as expressions. *)
Definition rules_of (name : string) (s : Scope) : list (list Expr) :=
  if All s then []
  else [iif_exprs name ++ ct_exprs ++ [EVerdict nfAccept]] ++
       ((fun p => iif_exprs name ++ l4_exprs (proto_of p) ++ dport_exprs (Num p) ++ [EVerdict nfAccept]) <$> Ports s) ++
       [iif_exprs name ++ l4_exprs IPPROTO_ICMP ++ [EVerdict nfAccept];
        iif_exprs name ++ l4_exprs IPPROTO_ICMPV6 ++ [EVerdict nfAccept];
        iif_exprs name ++ [EVerdict nfDrop]].

Definition forward_of (name : string) : list (list Expr) := [iif_exprs name ++ [EVerdict nfDrop]].

Lemma ruleExprs_read name s : Forall2 (fun b r => decode_rule big b = Some r) (ruleExprs big name s) (rules_of name s).
Proof.
  unfold ruleExprs, rules_of. destruct (All s); [constructor |].
  apply Forall2_app; [constructor; [| constructor] | apply Forall2_app; [| repeat constructor]].
  - by rewrite decode_iif, decode_est, decode_end.
  - induction (Ports s) as [| p ps IH]; constructor; [| done]. by rewrite decode_iif, decode_l4, decode_dport, decode_end.
  - by rewrite decode_iif, decode_l4, decode_end.
  - by rewrite decode_iif, decode_l4, decode_end.
  - by rewrite decode_iif, decode_end.
Qed.

Lemma forwardExprs_read name : Forall2 (fun b r => decode_rule big b = Some r) (forwardExprs big name) (forward_of name).
Proof. repeat constructor. by rewrite decode_iif, decode_end. Qed.
End Decode.
