(* ===== verification/NftEval.v ===== *)
(** * What the rules of an interface decide on a packet *)

From S2P Require Import Prelude Sha256 NetAddr Netlink Scope Nft NftKernel NftProps.

(** ** Names and bytes *)

(** A name an interface can have: at most fifteen bytes, none of them zero. *)
Definition ifname_ok (n : string) : Prop := (slen n <= 15)%nat /\ contains_char zero n = false.

Lemma pad_split (a b : string) k l :
  contains_char zero a = false -> contains_char zero b = false -> a ⊕ zeros k = b ⊕ zeros l -> a = b.
Proof.
  revert b. induction a as [| c a IH]; intros [| d b] Ha Hb E; cbn [contains_char String.append] in *; try done.
  - destruct k; cbn in E; [done |]. injection E as <- _. by rewrite Ascii.eqb_refl in Hb.
  - destruct l; cbn in E; [done |]. injection E as -> _. by rewrite Ascii.eqb_refl in Ha.
  - injection E as -> E. apply orb_false_iff in Ha as [_ Ha], Hb as [_ Hb]. f_equal. by apply IH.
Qed.

Lemma padded_inj a b : ifname_ok a -> ifname_ok b -> padded a = padded b -> a = b.
Proof.
  intros [La Za] [Lb Zb]. unfold padded, ifNameSize.
  assert (F : forall s, (slen s <= 15)%nat -> take_s 16 s = s).
  { intros s L. rewrite <- (take_drop_s 16 s) at 2. assert (slen (drop_s 16 s) = 0%nat) as E by (rewrite slen_drop; lia).
    destruct (drop_s 16 s); [by rewrite app_empty_r | done]. }
  rewrite !F by done. by apply pad_split.
Qed.

Lemma byte_land a b : byte_of (Z.land (byte_val (byte_of a)) (byte_val (byte_of b))) = byte_of (Z.land a b).
Proof.
  rewrite !byte_val_of. apply byte_val_inj. rewrite !byte_val_of.
  change 256 with (2 ^ 8). rewrite <- !Z.land_ones by lia. apply Z.bits_inj'. intros i Hi. rewrite !Z.land_spec.
  by destruct (Z.testbit a i), (Z.testbit b i), (Z.testbit (Z.ones 8) i).
Qed.

Lemma byte_xor0 c : byte_of (Z.lxor (byte_val c) (byte_val zero)) = c.
Proof. change (byte_val zero) with 0. by rewrite Z.lxor_0_r, byte_of_val. Qed.

Lemma zip_land n a b : zip_bytes Z.land (be_bytes n a) (be_bytes n b) = be_bytes n (Z.land a b).
Proof.
  induction n as [| n IH]; [done |]. cbn [be_bytes zip_bytes]. rewrite IH, byte_land. f_equal. f_equal.
  assert (0 <= 8 * Z.of_nat n) by lia. rewrite <- !Z.shiftr_div_pow2 by done. symmetry. apply Z.shiftr_land.
Qed.

Lemma zip_app f a b c d : slen a = slen c -> zip_bytes f (a ⊕ b) (c ⊕ d) = zip_bytes f a c ⊕ zip_bytes f b d.
Proof. revert c. induction a as [| x a IH]; intros [| y c] L; try done. cbn. f_equal. apply IH. by injection L. Qed.

Lemma zip_rev f a b : slen a = slen b -> zip_bytes f (rev_s a) (rev_s b) = rev_s (zip_bytes f a b).
Proof.
  revert b. induction a as [| x a IH]; intros [| y b] L; try done. injection L as L. cbn.
  rewrite zip_app by by rewrite !slen_rev. by rewrite IH.
Qed.

Lemma zip_native big n a b : zip_bytes Z.land (native big n a) (native big n b) = native big n (Z.land a b).
Proof.
  unfold native. destruct big; [apply zip_land |]. rewrite zip_rev by by rewrite !slen_be_bytes. by rewrite zip_land.
Qed.

Lemma zip_xor0 s : zip_bytes Z.lxor s (zeros (slen s)) = s.
Proof. induction s as [| c s IH]; [done |]. cbn [slen zeros zip_bytes]. by rewrite byte_xor0, IH. Qed.

Lemma native_zero big : native big 4 0 = zeros 4.
Proof. by destruct big. Qed.

(** ** Matching *)

Section Match.
Context (big : bool) (p : Packet).
Hypothesis p_iif : ifname_ok (pk_iif p).
Hypothesis p_proto : 0 <= pk_proto p < 256.
Hypothesis p_ct : 0 <= pk_ctstate p < 2 ^ 32.

Definition established : bool := negb (Z.land (pk_ctstate p) 6 =? 0).

Definition dport : option Z :=
  if (4 <=? slen (pk_transport p))%nat then Some (be_value 0 (sub_s 2 4 (pk_transport p))) else None.

Definition to_port (q : Port) : bool := (pk_proto p =? proto_of q) && bool_decide (dport = Some (Num q)).

Lemma eval_iif n rest reg :
  ifname_ok n ->
  eval_rule big p (iif_exprs n ++ rest) reg = if String.eqb (pk_iif p) n then eval_rule big p rest (padded n) else None.
Proof.
  intros Hn. cbn. rewrite <- padded_pad16. destruct (String.eqb_spec (padded (pk_iif p)) (padded n)) as [E | E].
  - apply padded_inj in E; [| done | done]. by rewrite E, String.eqb_refl.
  - destruct (String.eqb_spec (pk_iif p) n); [congruence | done].
Qed.

Lemma eval_l4 proto rest reg :
  0 <= proto < 256 ->
  eval_rule big p (l4_exprs proto ++ rest) reg = if pk_proto p =? proto then eval_rule big p rest (be_bytes 1 proto) else None.
Proof.
  intros B. unfold l4_exprs. cbn [app eval_rule eval_expr]. change (nftMetaL4Proto =? 6) with false. change (nftMetaL4Proto =? 16) with true.
  change (nftCmpEq =? 0) with true. cbn match.
  destruct (String.eqb_spec (be_bytes 1 (pk_proto p)) (be_bytes 1 proto)) as [E | E].
  - apply be_bytes_inj in E; [| done | done]. rewrite E, Z.eqb_refl. done.
  - destruct (Z.eqb_spec (pk_proto p) proto); [congruence | done].
Qed.

Lemma be_value_sub s : (4 <= slen s)%nat -> be_bytes 2 (be_value 0 (sub_s 2 4 s)) = sub_s 2 4 s.
Proof.
  intros L. unfold sub_s. cbn [Nat.sub]. destruct s as [| a [| b [| c [| d s]]]]; cbn in L; try lia. cbn.
  pose proof (byte_val_range c). pose proof (byte_val_range d). f_equal; [| f_equal]; apply byte_val_inj; rewrite byte_val_of.
  - change (2 ^ (8 * 1)) with 256. Z.to_euclidean_division_equations. lia.
  - rewrite Z.div_1_r. Z.to_euclidean_division_equations. lia.
Qed.

Lemma eval_dport port rest reg :
  0 <= port < 65536 ->
  eval_rule big p (dport_exprs port ++ rest) reg
  = if bool_decide (dport = Some port) then eval_rule big p rest (be_bytes 2 port) else None.
Proof.
  intros B. unfold dport_exprs, dport. cbn [app eval_rule eval_expr]. change (2 =? 2) with true. cbn [andb].
  change (2 + 2) with 4. change (nftCmpEq =? 0) with true. cbn match.
  destruct (Nat.leb_spec 4 (slen (pk_transport p))) as [L | L].
  - destruct (Z.leb_spec 4 (Z.of_nat (slen (pk_transport p)))); [| lia].
    change (Z.to_nat 2) with 2%nat. change (Z.to_nat 4) with 4%nat.
    destruct (String.eqb_spec (sub_s 2 4 (pk_transport p)) (be_bytes 2 port)) as [E | E].
    + rewrite bool_decide_eq_true_2; [by rewrite E |]. f_equal. rewrite E, be_value_bytes, Z.mod_small by done. lia.
    + rewrite bool_decide_eq_false_2; [done |]. intros [= E2]. apply E. by rewrite <- E2, be_value_sub.
  - destruct (Z.leb_spec 4 (Z.of_nat (slen (pk_transport p)))); [lia |]. by rewrite bool_decide_eq_false_2.
Qed.

Lemma eval_ct rest reg :
  exists reg', eval_rule big p (ct_exprs big ++ rest) reg = if established then eval_rule big p rest reg' else None.
Proof.
  exists (native big 4 (Z.land (pk_ctstate p) 6)). unfold ct_exprs. cbn [app eval_rule eval_expr]. change (nftCtState =? 0) with true.
  change (nftCmpNeq =? 0) with false. change (nftCmpNeq =? 1) with true. cbn match.
  rewrite zip_native. pose proof (zip_xor0 (native big 4 (Z.land (pk_ctstate p) 6))) as X0. rewrite slen_native in X0. rewrite X0.
  unfold established. assert (B : 0 <= Z.land (pk_ctstate p) 6 < 2 ^ (8 * Z.of_nat 4)).
  { assert (N : 0 <= Z.land (pk_ctstate p) 6) by (apply Z.land_nonneg; lia). split; [done |].
    destruct (Z.eq_dec (Z.land (pk_ctstate p) 6) 0) as [-> | D]; [done |]. apply Z.log2_lt_pow2; [lia |].
    pose proof (Z.log2_land (pk_ctstate p) 6 ltac:(lia) ltac:(lia)) as L. change (Z.log2 6) with 2 in L. lia. }
  destruct (Z.eqb_spec (Z.land (pk_ctstate p) 6) 0) as [E | E]; cbn [negb].
  - rewrite E, native_zero. by rewrite String.eqb_refl.
  - destruct (String.eqb_spec (native big 4 (Z.land (pk_ctstate p) 6)) (zeros 4)) as [E2 | E2]; [| done].
    destruct E. rewrite <- (native_val_native big 4 _ B), E2, <- (native_zero big). by apply native_val_native.
Qed.

(** ** Chains *)

Definition scope_ok (s : Scope) : Prop := forall q, q ∈ Ports s -> 0 <= Num q < 65536.

(** What the scope of its interface lets a packet reach on this host. *)
Definition admitted (s : Scope) : bool :=
  All s || established || existsb to_port (Ports s) || (pk_proto p =? IPPROTO_ICMP) || (pk_proto p =? IPPROTO_ICMPV6).

Lemma eval_rules_skip policy a b :
  (forall r, r ∈ a -> eval_rule big p r "" = None) -> eval_rules big p policy (a ++ b) = eval_rules big p policy b.
Proof.
  induction a as [| r a IH]; intros N; [done |]. cbn [app eval_rules]. rewrite N by by left. apply IH. intros r' I. apply N. by right.
Qed.

Lemma rules_skip n s r : ifname_ok n -> pk_iif p <> n -> r ∈ rules_of big n s -> eval_rule big p r "" = None.
Proof.
  intros Hn D I. assert (E : exists t, r = iif_exprs n ++ t).
  { unfold rules_of in I. destruct (All s); [by apply not_elem_of_nil in I |].
    rewrite !elem_of_app, list_elem_of_fmap in I. set_unfold in I. naive_solver. }
  destruct E as [t ->]. rewrite eval_iif by done. by destruct (String.eqb_spec (pk_iif p) n).
Qed.

Lemma forward_skip n r : ifname_ok n -> pk_iif p <> n -> r ∈ forward_of n -> eval_rule big p r "" = None.
Proof.
  intros Hn D ->%list_elem_of_singleton. rewrite eval_iif by done. by destruct (String.eqb_spec (pk_iif p) n).
Qed.

Lemma port_rules_own n ps rest :
  ifname_ok n -> pk_iif p = n -> (forall q, q ∈ ps -> 0 <= Num q < 65536) ->
  eval_rules big p nfAccept (((fun q => iif_exprs n ++ l4_exprs (proto_of q) ++ dport_exprs (Num q) ++ [EVerdict nfAccept]) <$> ps) ++ rest)
  = if existsb to_port ps then nfAccept else eval_rules big p nfAccept rest.
Proof.
  intros Hn E. induction ps as [| q ps IH]; intros B; [done |]. cbn [fmap list_fmap app eval_rules existsb].
  rewrite eval_iif, E, String.eqb_refl by done.
  rewrite eval_l4 by (unfold proto_of, IPPROTO_UDP, IPPROTO_TCP; destruct (String.eqb (Proto q) _); lia). rewrite eval_dport by (apply B; left).
  unfold to_port at 1. destruct (pk_proto p =? proto_of q); cbn [andb orb]; [| apply IH; intros; apply B; by right].
  destruct (bool_decide _); [done |]. apply IH. intros. apply B. by right.
Qed.

Lemma rules_own n s rest :
  ifname_ok n -> pk_iif p = n -> scope_ok s ->
  eval_rules big p nfAccept (rules_of big n s ++ rest)
  = if All s then eval_rules big p nfAccept rest else if admitted s then nfAccept else nfDrop.
Proof.
  intros Hn E B. unfold rules_of, admitted. destruct (All s); [done |]. rewrite <- !app_assoc. cbn [app eval_rules orb].
  rewrite eval_iif, E, String.eqb_refl by done. destruct (eval_ct [EVerdict nfAccept] (padded n)) as [r' ->].
  destruct established; cbn [orb]; [done |]. rewrite port_rules_own by done.
  destruct (existsb to_port (Ports s)); cbn [orb]; [done |]. cbn [app eval_rules].
  rewrite !eval_iif, E, String.eqb_refl, !eval_l4 by (done || (unfold IPPROTO_ICMP, IPPROTO_ICMPV6; lia)).
  destruct (pk_proto p =? IPPROTO_ICMP), (pk_proto p =? IPPROTO_ICMPV6); done.
Qed.

(** The rules of several interfaces in one chain. *)
Lemma in_chain (scopes : gmap string Scope) order :
  Forall ifname_ok order -> NoDup order -> (forall n s, scopes !! n = Some s -> scope_ok s) ->
  eval_rules big p nfAccept (flat_map (fun n => rules_of big n (default (mkScope false []) (scopes !! n))) order)
  = if bool_decide (pk_iif p ∈ order) && negb (admitted (default (mkScope false []) (scopes !! pk_iif p))) then nfDrop else nfAccept.
Proof.
  intros F Nd B. induction order as [| n order IH]; [done |]. cbn [flat_map]. apply Forall_cons in F as [Hn F]. apply NoDup_cons in Nd as [Nn Nd].
  destruct (decide (pk_iif p = n)) as [E | D].
  - rewrite (bool_decide_eq_true_2 (pk_iif p ∈ n :: order)) by (rewrite E; left). rewrite E.
    assert (So : scope_ok (default (mkScope false []) (scopes !! n))).
    { destruct (scopes !! n) as [s |] eqn:L; [by eapply B |]. intros q I. by apply not_elem_of_nil in I. }
    rewrite rules_own by done. rewrite IH by done. rewrite (bool_decide_eq_false_2 (pk_iif p ∈ order)) by (by rewrite E).
    cbn [andb]. unfold admitted. destruct (All _); [done |]. by destruct (_ || _).
  - rewrite eval_rules_skip by (intros r I; by eapply rules_skip). rewrite IH by done.
    by rewrite (bool_decide_ext (pk_iif p ∈ n :: order) (pk_iif p ∈ order)) by set_solver.
Qed.

Lemma forward_chain order :
  Forall ifname_ok order ->
  eval_rules big p nfAccept (flat_map forward_of order) = if bool_decide (pk_iif p ∈ order) then nfDrop else nfAccept.
Proof.
  intros F. induction order as [| n order IH]; [done |]. cbn [flat_map]. apply Forall_cons in F as [Hn F].
  destruct (decide (pk_iif p = n)) as [E | D].
  - rewrite bool_decide_eq_true_2 by (rewrite E; left). cbn [forward_of app eval_rules]. rewrite eval_iif by done.
    by rewrite E, String.eqb_refl.
  - rewrite eval_rules_skip by (intros r I; by eapply forward_skip). rewrite IH by done.
    by rewrite (bool_decide_ext (pk_iif p ∈ n :: order) (pk_iif p ∈ order)) by set_solver.
Qed.
End Match.
