(* ===== verification/NftBatch.v ===== *)
(** * The batch as the kernel applies it *)

From S2P Require Import Prelude Sha256 NetAddr Netlink Scope Nft NftKernel NftProps NftEval.

Section Batch.
Context (big : bool).

(** ** Framing *)

Definition inner_body (m : Inner) : string := be_bytes 1 nfprotoInet ⊕ zeros 3 ⊕ in_attrs m.

Record inner_ok (m : Inner) : Prop := {
  io_type : 0 <= in_type m < 65536; io_flags : 0 <= in_flags m < 65536 /\ Z.lor (in_flags m) NLM_F_ACK < 65536;
  io_size : Z.of_nat (slen (in_attrs m)) < 2 ^ 31; io_align : (slen (in_attrs m) mod 4 = 0)%nat;
}.

(** The messages as the receiver gets them. *)
Fixpoint msgs_of (seq : Z) (l : list Inner) : list NlMsg :=
  match l with
  | [] => []
  | m :: r =>
      mkMsg (in_type m) (match r with [] => Z.lor (in_flags m) NLM_F_ACK | _ => in_flags m end) (seq mod 2 ^ 32) (inner_body m)
      :: msgs_of (seq + 1) r
  end.

Lemma parse_number l : forall seq rest,
  Forall inner_ok l -> ParseNetlinkMessage big (number big seq l ⊕ rest) = app (msgs_of seq l) <$> ParseNetlinkMessage big rest.
Proof.
  induction l as [| m l IH]; intros seq rest F.
  - cbn [number msgs_of String.append]. by destruct (ParseNetlinkMessage big rest).
  - apply Forall_cons in F as [[Ht [Hf Ha] Hs Hal] F]. cbn [number msgs_of]. rewrite app_assoc_s. unfold nftMessage.
    assert (Lb : slen (be_bytes 1 nfprotoInet ⊕ zeros 3 ⊕ in_attrs m) = (4 + slen (in_attrs m))%nat)
      by (rewrite !slen_app, slen_be_bytes, slen_zeros; lia).
    rewrite ParseNetlinkMessage_cons.
    + rewrite IH by done. fold (inner_body m). by destruct (ParseNetlinkMessage big rest).
    + done.
    + destruct l; [| done]. split; [| done]. apply Z.lor_nonneg. split; [lia | done].
    + rewrite Lb. lia.
    + rewrite Lb. apply Nat.Div0.div_exact in Hal. replace (4 + slen (in_attrs m))%nat with ((1 + slen (in_attrs m) / 4) * 4)%nat by lia.
      apply Nat.Div0.mod_mul.
Qed.

(** ** One message *)

Definition kernel_inner (m : Inner) (rs : Ruleset) : option Ruleset :=
  let op := in_type m - 10 * 256 in
  let l := attrWalk big (in_attrs m) in
  if op =? 0 then new_table l rs else if op =? 2 then del_table l rs
  else if op =? 3 then new_chain big l rs else if op =? 6 then new_rule big l rs else None.

Fixpoint kernel_inners (ms : list Inner) (rs : Ruleset) : option Ruleset :=
  match ms with [] => Some rs | m :: r => rs' ← kernel_inner m rs; kernel_inners r rs' end.

Lemma kernel_msgs_of l : forall seq rs, kernel_msgs big (msgs_of seq l) rs = kernel_inners l rs.
Proof.
  induction l as [| m l IH]; intros seq rs; [done |]. cbn [msgs_of kernel_msgs kernel_inners].
  unfold kernel_msg, kernel_inner. cbn [nm_type nm_data].
  assert (T : take_s 1 (inner_body m) = be_bytes 1 1) by (apply take_s_len, slen_be_bytes).
  assert (D : drop_s 4 (inner_body m) = in_attrs m).
  { unfold inner_body. change 4%nat with (1 + 3)%nat. rewrite drop_s_add, drop_s_len by apply slen_be_bytes. apply drop_s_len, slen_zeros. }
  rewrite T, D, String.eqb_refl. cbn [negb]. repeat case_match; try done; apply option_bind_ext_fun; auto.
Qed.

Lemma kernel_inners_app a b rs : kernel_inners (a ++ b) rs = kernel_inners a rs ≫= kernel_inners b.
Proof.
  revert rs. induction a as [| m a IH]; intros rs; [done |]. cbn [app kernel_inners].
  destruct (kernel_inner m rs); cbn [mbind option_bind]; auto.
Qed.

Lemma new_table_msg flags rs :
  kernel_inner (mkInner (nft nftMsgNewTable) flags (nlAttrStrZ big 1 tableName)) rs
  = Some (match rs !! tableName with Some _ => rs | None => <[tableName := ∅]> rs end).
Proof.
  unfold kernel_inner. cbn [in_type in_attrs]. change (nft nftMsgNewTable - 10 * 256 =? 0) with true. cbn match.
  unfold nlAttrStrZ. rewrite attrWalk_one by (first [ split; [done | reflexivity] | reflexivity ]).
  unfold new_table. by rewrite (attr_str_val 1 _ tableName).
Qed.

Lemma del_table_msg rs :
  kernel_inner (mkInner (nft nftMsgDelTable) NLM_F_REQUEST (nlAttrStrZ big 1 tableName)) rs
  = (_ ← rs !! tableName; Some (delete tableName rs)).
Proof.
  unfold kernel_inner. cbn [in_type in_attrs]. change (nft nftMsgDelTable - 10 * 256 =? 0) with false.
  change (nft nftMsgDelTable - 10 * 256 =? 2) with true. cbn match.
  unfold nlAttrStrZ. rewrite attrWalk_one by (first [ split; [done | reflexivity] | reflexivity ]).
  unfold del_table. by rewrite (attr_str_val 1 _ tableName).
Qed.

Lemma new_chain_msg name hook rs tab :
  (slen name <= 16)%nat -> 0 <= hook < 2 ^ 32 -> rs !! tableName = Some tab -> tab !! name = None ->
  kernel_inner (newChain big name hook) rs = Some (<[tableName := <[name := mkChain hook nfAccept []]> tab]> rs).
Proof.
  intros Ln B Lt Lc. unfold kernel_inner. cbn [in_type in_attrs newChain].
  change (nft nftMsgNewChain - 10 * 256 =? 0) with false. change (nft nftMsgNewChain - 10 * 256 =? 2) with false.
  change (nft nftMsgNewChain - 10 * 256 =? 3) with true. cbn match. unfold nlAttrStrZ, nlNested, nlAttrBE32.
  assert (Sn : 4 + Z.of_nat (slen (name ⊕ String zero "")) < 65536) by (rewrite slen_app; cbn; lia).
  repeat (rewrite attrWalk_cons by (first [ split; [done | reflexivity] | exact Sn | size ])).
  rewrite attrWalk_one by (first [ split; [done | reflexivity] | reflexivity ]).
  unfold new_chain. rewrite (attr_str_val 1 _ tableName) by done. cbn [mbind option_bind].
  rewrite (attr_str_val 3 _ name) by done. cbn [mbind option_bind].
  match goal with |- context [attr 4 ?l] =>
    assert (A4 : attr 4 l = Some (nlAttr big 1 (be_bytes 4 hook) ⊕ nlAttr big 2 (be_bytes 4 0))) by reflexivity; rewrite A4 end.
  cbn [mbind option_bind].
  rewrite attrWalk_cons, attrWalk_one by (first [ split; [done | reflexivity] | size ]).
  rewrite (attr_be32_val 1 _ hook) by done. cbn [mbind option_bind]. rewrite (attr_be32_val 2 _ 0) by done. cbn [mbind option_bind].
  rewrite (attr_be32_val 5 _ nfAccept) by done. cbn [mbind option_bind]. rewrite (attr_str_val 7 _ "filter") by done.
  cbn [mbind option_bind]. rewrite Lt. cbn [mbind option_bind]. by rewrite Lc.
Qed.

Lemma new_rule_msg chain b rule rs tab c :
  (slen chain <= 16)%nat -> Z.of_nat (slen b) < 60000 -> decode_rule big b = Some rule ->
  rs !! tableName = Some tab -> tab !! chain = Some c ->
  kernel_inner (newRule big chain b) rs
  = Some (<[tableName := <[chain := mkChain (kc_hook c) (kc_policy c) (kc_rules c ++ [rule])]> tab]> rs).
Proof.
  intros Lc Lb D Lt Lch. unfold kernel_inner. cbn [in_type in_attrs newRule].
  change (nft nftMsgNewRule - 10 * 256 =? 0) with false. change (nft nftMsgNewRule - 10 * 256 =? 2) with false.
  change (nft nftMsgNewRule - 10 * 256 =? 3) with false. change (nft nftMsgNewRule - 10 * 256 =? 6) with true. cbn match.
  unfold nlAttrStrZ, nlNested.
  assert (Sn : 4 + Z.of_nat (slen (chain ⊕ String zero "")) < 65536) by (rewrite slen_app; cbn; lia).
  repeat (rewrite attrWalk_cons by (first [ split; [done | reflexivity] | exact Sn | reflexivity ])).
  rewrite attrWalk_one by (first [ split; [done | reflexivity] | lia ]).
  unfold new_rule. rewrite (attr_str_val 1 _ tableName) by done. cbn [mbind option_bind].
  rewrite (attr_str_val 2 _ chain) by done. cbn [mbind option_bind].
  match goal with |- context [attr 4 ?l] => assert (A4 : attr 4 l = Some b) by reflexivity; rewrite A4 end.
  cbn [mbind option_bind]. rewrite D. cbn [mbind option_bind]. rewrite Lt. cbn [mbind option_bind]. by rewrite Lch.
Qed.

(** ** The whole batch *)

(** The table meant: both chains, accepting by default. *)
Definition table_of (rin rfwd : list (list Expr)) : gmap string KChain :=
  <[chainName := mkChain nfInetLocalIn nfAccept rin]> (<[fwdChainName := mkChain nfInetForward nfAccept rfwd]> ∅).

Lemma in_rules bs rules : forall rin rfwd rs,
  Forall2 (fun b r => decode_rule big b = Some r) bs rules -> Forall (fun b => Z.of_nat (slen b) < 60000) bs ->
  kernel_inners (newRule big chainName <$> bs) (<[tableName := table_of rin rfwd]> rs)
  = Some (<[tableName := table_of (rin ++ rules) rfwd]> rs).
Proof.
  intros rin rfwd rs F. revert rin. induction F as [| b r bs rules D F IH]; intros rin Sz; [by rewrite app_nil_r |].
  apply Forall_cons in Sz as [S1 S2]. cbn [fmap list_fmap kernel_inners].
  rewrite (new_rule_msg chainName b r _ (table_of rin rfwd) (mkChain nfInetLocalIn nfAccept rin)); try done; [| cbn; lia | apply lookup_insert_eq].
  cbn [mbind option_bind kc_hook kc_policy kc_rules]. rewrite insert_insert_eq.
  assert (E : <[chainName := mkChain nfInetLocalIn nfAccept (rin ++ [r])]> (table_of rin rfwd) = table_of (rin ++ [r]) rfwd)
    by (unfold table_of; by rewrite insert_insert_eq).
  rewrite E, (IH (rin ++ [r])) by done. by rewrite <- app_assoc.
Qed.

Lemma fwd_rules bs rules : forall rin rfwd rs,
  Forall2 (fun b r => decode_rule big b = Some r) bs rules -> Forall (fun b => Z.of_nat (slen b) < 60000) bs ->
  kernel_inners (newRule big fwdChainName <$> bs) (<[tableName := table_of rin rfwd]> rs)
  = Some (<[tableName := table_of rin (rfwd ++ rules)]> rs).
Proof.
  intros rin rfwd rs F. revert rfwd. induction F as [| b r bs rules D F IH]; intros rfwd Sz; [by rewrite app_nil_r |].
  apply Forall_cons in Sz as [S1 S2]. cbn [fmap list_fmap kernel_inners].
  rewrite (new_rule_msg fwdChainName b r _ (table_of rin rfwd) (mkChain nfInetForward nfAccept rfwd)); try done; [| cbn; lia | apply lookup_insert_eq].
  cbn [mbind option_bind kc_hook kc_policy kc_rules]. rewrite insert_insert_eq.
  assert (E : <[fwdChainName := mkChain nfInetForward nfAccept (rfwd ++ [r])]> (table_of rin rfwd) = table_of rin (rfwd ++ [r])).
  { unfold table_of. rewrite insert_insert_ne by done. by rewrite insert_insert_eq. }
  rewrite E, (IH (rfwd ++ [r])) by done. by rewrite <- app_assoc.
Qed.

Lemma rule_sizes n s : Forall (fun b => Z.of_nat (slen b) < 60000 /\ (slen b mod 4 = 0)%nat) (ruleExprs big n s).
Proof.
  unfold ruleExprs. destruct (All s); [constructor |].
  apply Forall_app; split; [repeat constructor; size | apply Forall_app; split; [| repeat constructor; size]].
  apply Forall_fmap, Forall_forall. intros q _. cbn [compose]. split; size.
Qed.

Lemma forward_sizes n : Forall (fun b => Z.of_nat (slen b) < 60000 /\ (slen b mod 4 = 0)%nat) (forwardExprs big n).
Proof. repeat constructor; size. Qed.

Lemma all_rules (scopes : gmap string Scope) order : forall rin rfwd rs,
  kernel_inners (flat_map (if_rules big scopes) order) (<[tableName := table_of rin rfwd]> rs)
  = Some (<[tableName := table_of (rin ++ flat_map (fun n => rules_of big n (default (mkScope false []) (scopes !! n))) order)
                                  (rfwd ++ flat_map forward_of order)]> rs).
Proof.
  induction order as [| n order IH]; intros rin rfwd rs; cbn [flat_map]; [by rewrite !app_nil_r |].
  unfold if_rules at 1. rewrite !kernel_inners_app.
  rewrite (in_rules _ (rules_of big n (default (mkScope false []) (scopes !! n)))).
  2:{ apply ruleExprs_read. }
  2:{ eapply Forall_impl; [apply rule_sizes |]. by intros b [? _]. }
  cbn [mbind option_bind]. rewrite (fwd_rules _ (forward_of n)).
  2:{ apply forwardExprs_read. }
  2:{ eapply Forall_impl; [apply forward_sizes |]. by intros b [? _]. }
  cbn [mbind option_bind]. rewrite IH. by rewrite <- !app_assoc.
Qed.

(** Every inner message is well-framed. *)
Lemma inner_messages_ok scopes order : Forall inner_ok (inner_messages big scopes order).
Proof.
  assert (R : forall chain b, (chain = chainName \/ chain = fwdChainName) ->
    Z.of_nat (slen b) < 60000 /\ (slen b mod 4 = 0)%nat -> inner_ok (newRule big chain b)).
  { intros chain b Hc [Sb Sm]. assert (E : slen (in_attrs (newRule big chain b)) = (slen b + 4 + (16 + align4 (5 + slen chain)))%nat).
    { unfold newRule, nlAttrStrZ, nlNested. cbn [in_attrs]. rewrite !slen_app, !slen_nlAttr, !slen_app.
      change (slen tableName) with 8%nat. cbn [slen].
      rewrite (align4_id (4 + slen b)); [| apply Nat.Div0.div_exact in Sm; replace (4 + slen b)%nat with ((1 + slen b / 4) * 4)%nat by lia; apply Nat.Div0.mod_mul].
      change (align4 (4 + (8 + 1))) with 16%nat. replace (4 + (slen chain + 1))%nat with (5 + slen chain)%nat by lia. lia. }
    split; [vm_compute; split; congruence | vm_compute; split; [split; congruence | reflexivity] | |]; rewrite E;
      destruct Hc as [-> | ->]; [change (align4 (5 + slen chainName)) with 8%nat | change (align4 (5 + slen fwdChainName)) with 8%nat
      | change (align4 (5 + slen chainName)) with 8%nat | change (align4 (5 + slen fwdChainName)) with 8%nat]; try lia;
      (apply Nat.Div0.div_exact in Sm; replace (slen b + 4 + (16 + 8))%nat with ((slen b / 4 + 7) * 4)%nat by lia; apply Nat.Div0.mod_mul). }
  assert (T : forall t f, 0 <= t < 65536 -> 0 <= f < 65536 /\ Z.lor f NLM_F_ACK < 65536 -> inner_ok (mkInner t f (nlAttrStrZ big 1 tableName))).
  { intros t f Ht Hf. split; cbn [in_type in_flags in_attrs]; [done | done | size | size]. }
  unfold inner_messages. apply Forall_app. split.
  - apply Forall_cons; split; [| apply Forall_cons; split; [| constructor]]; (apply T; vm_compute; repeat split; congruence).
  - destruct (bool_decide _); [constructor |]. apply Forall_app. split.
    + apply Forall_cons; split; [apply T; vm_compute; repeat split; congruence |].
      apply Forall_cons; split; [| apply Forall_cons; split; [| constructor]];
        (split; [vm_compute; split; congruence | vm_compute; split; [split; congruence | reflexivity] | size | size]).
    + apply Forall_forall. intros m [n [_ I]]%list_elem_of_In%in_flat_map.
      unfold if_rules in I. rewrite in_app_iff in I. rewrite <- !list_elem_of_In, !list_elem_of_fmap in I.
      destruct I as [(b & -> & I) | (b & -> & I)].
      * apply R; [by left |]. revert b I. apply Forall_forall, rule_sizes.
      * apply R; [by right |]. revert b I. apply Forall_forall, forward_sizes.
Qed.
End Batch.
