(* ===== verification/NftTheorems.v ===== *)
(** * Exposure is what the scopes say *)

From S2P Require Import Prelude Sha256 NetAddr Netlink Scope Nft NftKernel NftProps NftEval NftBatch.

Section Theorems.
Context (big : bool).

(** The ruleset the batch asks for, over whatever was there before. *)
Definition intended (scopes : gmap string Scope) (order : list string) (rs : Ruleset) : Ruleset :=
  if bool_decide (scopes = ∅) then delete tableName rs
  else <[tableName := table_of (flat_map (fun n => rules_of big n (default (mkScope false []) (scopes !! n))) order)
                               (flat_map forward_of order)]> (delete tableName rs).

Lemma inner_applied scopes order rs :
  kernel_inners big (inner_messages big scopes order) rs = Some (intended scopes order rs).
Proof.
  unfold inner_messages, intended. cbn [app kernel_inners]. rewrite new_table_msg. cbn [mbind option_bind].
  rewrite del_table_msg. set (rs1 := match rs !! tableName with Some _ => rs | None => <[tableName := ∅]> rs end).
  assert (D : exists x, rs1 !! tableName = Some x /\ delete tableName rs1 = delete tableName rs).
  { unfold rs1. destruct (rs !! tableName) as [t |] eqn:L; [eauto |]. exists ∅. rewrite lookup_insert_eq. split; [done |].
    by rewrite delete_insert_eq. }
  destruct D as (x & -> & ->). cbn [mbind option_bind]. destruct (bool_decide (scopes = ∅)); [done |].
  cbn [app kernel_inners]. rewrite new_table_msg, lookup_delete_eq. cbn [mbind option_bind].
  rewrite (new_chain_msg big chainName nfInetLocalIn _ ∅); [| cbn; lia | done | apply lookup_insert_eq | done].
  cbn [mbind option_bind]. rewrite insert_insert_eq.
  rewrite (new_chain_msg big fwdChainName nfInetForward _ (<[chainName := mkChain nfInetLocalIn nfAccept []]> ∅));
    [| cbn; lia | done | apply lookup_insert_eq | done].
  cbn [mbind option_bind]. rewrite insert_insert_eq.
  assert (E : <[fwdChainName := mkChain nfInetForward nfAccept []]> (<[chainName := mkChain nfInetLocalIn nfAccept []]> ∅) = table_of [] []).
  { unfold table_of. by rewrite insert_insert_ne. }
  rewrite E. apply all_rules.
Qed.

(** The kernel takes the batch and ends up with the ruleset meant. *)
Lemma batch_applied scopes order rs :
  kernel_batch big (buildBatch big scopes order) rs = Some (intended scopes order rs).
Proof.
  unfold kernel_batch, buildBatch, batchDelim. set (n := 2 + Z.of_nat (length (inner_messages big scopes order))).
  assert (Lz : slen (zeros 2 ⊕ be_bytes 2 nfnlSubsysNftables) = 4%nat) by (by rewrite slen_app, slen_zeros, slen_be_bytes).
  rewrite ParseNetlinkMessage_cons; [| split; [done | reflexivity] | split; [done | reflexivity] | by rewrite Lz | by rewrite Lz].
  rewrite parse_number by apply inner_messages_ok.
  rewrite <- (app_empty_r (nlMessage big nfnlMsgBatchEnd NLM_F_REQUEST n (zeros 2 ⊕ be_bytes 2 nfnlSubsysNftables))).
  rewrite ParseNetlinkMessage_cons; [| split; [done | reflexivity] | split; [done | reflexivity] | by rewrite Lz | by rewrite Lz].
  change (ParseNetlinkMessage big "") with (Some ([] : list NlMsg)). cbn [fmap option_fmap option_map mbind option_bind].
  rewrite reverse_snoc. change (is_delim 16 _) with true. change (is_delim 17 _) with true. cbn [andb].
  by rewrite reverse_involutive, kernel_msgs_of, inner_applied.
Qed.

(** ** The state behind the batches *)

Record nft_wf (st : NftState) : Prop := {
  nw_nodup : NoDup (nf_order st); nw_dom : forall n, n ∈ nf_order st <-> is_Some (nf_scopes st !! n);
}.

Lemma empty_nft_wf : nft_wf nft_empty.
Proof. split; [constructor |]. intros n. cbn. rewrite lookup_empty. split; [by intros ?%not_elem_of_nil | by intros [? ?]]. Qed.

Lemma take_snoc {A} (l : list A) x : take (length (l ++ [x]) - 1) (l ++ [x]) = l.
Proof. rewrite length_app. cbn [length]. replace (length l + 1 - 1)%nat with (length l) by lia. apply take_app_length. Qed.

(** A batch the kernel refuses changes nothing. *)
Lemma Apply_refused send n s st :
  nft_wf st -> (Apply big send n s st).1 = false -> (Apply big send n s st).2 = st.
Proof.
  intros W. unfold Apply. destruct (send _); [done |]. intros _. destruct st as [scopes order]. cbn [nf_scopes nf_order snd] in *.
  destruct (scopes !! n) as [prev |] eqn:L.
  - rewrite bool_decide_eq_true_2 by done. f_equal. by rewrite insert_insert_eq, insert_id.
  - rewrite bool_decide_eq_false_2 by (intros [? ?]; congruence). f_equal; [| apply take_snoc].
    rewrite delete_insert_id; done.
Qed.

Lemma Apply_wf send n s st : nft_wf st -> nft_wf (Apply big send n s st).2.
Proof.
  intros W. destruct (Apply big send n s st).1 eqn:E; [| by rewrite Apply_refused].
  unfold Apply in *. destruct (send _); [| done]. destruct W as [Nd D]. cbn [snd]. split; cbn [nf_scopes nf_order].
  - case_bool_decide as H; [done |]. apply NoDup_app. split_and!; [done | | apply NoDup_singleton].
    intros x I ->%list_elem_of_singleton. by apply H, D.
  - intros x. destruct (decide (x = n)) as [-> | Nx].
    + rewrite lookup_insert_eq. split; [done |]. intros _. case_bool_decide as H; [by apply D | apply elem_of_app; right; by apply list_elem_of_singleton].
    + rewrite lookup_insert_ne by done. transitivity (x ∈ nf_order st); [| apply D].
      case_bool_decide; [done |]. rewrite elem_of_app, list_elem_of_singleton. naive_solver.
Qed.

Lemma remove_first_spec x l : NoDup l -> NoDup (remove_first x l) /\ (forall y, y ∈ remove_first x l <-> y ∈ l /\ y <> x).
Proof.
  induction l as [| a l IH]; intros Nd; [split; [constructor |]; intros y; split; [by intros ?%not_elem_of_nil | by intros [?%not_elem_of_nil _]] |].
  apply NoDup_cons in Nd as [Na Nd]. destruct (IH Nd) as [N1 N2]. cbn [remove_first]. destruct (String.eqb_spec a x) as [-> | D].
  - split; [done |]. intros y. rewrite elem_of_cons. split; [| naive_solver]. intros I. split; [by right |]. by intros ->.
  - split; [apply NoDup_cons; split; [| done]; rewrite N2; naive_solver |]. intros y. rewrite !elem_of_cons, N2. naive_solver.
Qed.

Lemma Remove_wf send n st : nft_wf st -> nft_wf (Remove big send n st).2.
Proof.
  intros [Nd D]. unfold Remove. destruct (nf_scopes st !! n) as [s |] eqn:L; [| by split]. cbn [snd].
  destruct (remove_first_spec n (nf_order st) Nd) as [N1 N2]. split; cbn [nf_scopes nf_order]; [done |].
  intros x. rewrite N2, D. destruct (decide (x = n)) as [-> | Nx].
  - rewrite lookup_delete_eq. split; [naive_solver | by intros [? ?]].
  - rewrite lookup_delete_ne by done. naive_solver.
Qed.

(** ** Histories *)

(** One call: [up] tells whether the batch reached the kernel and was taken. *)
Inductive NftEvent := ApplyScope (n : string) (s : Scope) (up : bool) | RemoveScope (n : string) (up : bool).

Definition taken (e : NftEvent) : bool := match e with ApplyScope _ _ up | RemoveScope _ up => up end.

Definition event_ok (e : NftEvent) : Prop :=
  match e with ApplyScope n s _ => ifname_ok n /\ scope_ok s | RemoveScope n _ => ifname_ok n end.

(** The batch of a call, if it sends one. *)
Definition batch_of (e : NftEvent) (st : NftState) : option string :=
  match e with
  | ApplyScope n s _ =>
      let order := if bool_decide (is_Some (nf_scopes st !! n)) then nf_order st else nf_order st ++ [n] in
      Some (buildBatch big (<[n := s]> (nf_scopes st)) order)
  | RemoveScope n _ =>
      match nf_scopes st !! n with
      | None => None
      | Some _ => Some (buildBatch big (delete n (nf_scopes st)) (remove_first n (nf_order st)))
      end
  end.

Definition nft_step (x : NftState * Ruleset) (e : NftEvent) : NftState * Ruleset :=
  let '(st, rs) := x in
  (match e with
   | ApplyScope n s up => (Apply big (fun _ => up) n s st).2
   | RemoveScope n up => (Remove big (fun _ => up) n st).2
   end,
   match batch_of e st with
   | Some b => if taken e then default rs (kernel_batch big b rs) else rs
   | None => rs
   end).

Definition nft_run (es : list NftEvent) (x : NftState * Ruleset) : NftState * Ruleset := foldl nft_step x es.

Record good (st : NftState) : Prop := {
  gd_wf : nft_wf st; gd_names : forall n s, nf_scopes st !! n = Some s -> ifname_ok n /\ scope_ok s;
}.

Lemma step_good st rs e : good st -> event_ok e -> good (nft_step (st, rs) e).1.
Proof.
  intros [W N] Ok. destruct e as [n s up | n up]; cbn [nft_step fst].
  - split; [by apply Apply_wf |]. unfold Apply. destruct up; cbn [snd nf_scopes].
    + intros m t [[<- <-] | [_ L]]%lookup_insert_Some; [done | by apply N].
    + destruct (nf_scopes st !! n) as [prev |] eqn:L; cbn [nf_scopes]; intros m t E.
      * rewrite insert_insert_eq in E. apply lookup_insert_Some in E as [[<- <-] | [_ E]]; [by apply N in L | by apply N].
      * apply lookup_delete_Some in E as [D E]. apply lookup_insert_Some in E as [[? _] | [_ E]]; [done | by apply N].
  - split; [by apply Remove_wf |]. unfold Remove. destruct (nf_scopes st !! n); [| done]. cbn [snd nf_scopes].
    intros m t [_ L]%lookup_delete_Some. by apply N.
Qed.

(** After a call the kernel took, the ruleset is the one meant; other tables
    are never touched. *)
Lemma step_rules st rs e :
  (taken e = true -> batch_of e st <> None -> exists rs1, (nft_step (st, rs) e).2 = intended (nf_scopes (nft_step (st, rs) e).1) (nf_order (nft_step (st, rs) e).1) rs1) /\
  delete tableName (nft_step (st, rs) e).2 = delete tableName rs.
Proof.
  assert (K : forall sc o, delete tableName (intended sc o rs) = delete tableName rs).
  { intros sc o. unfold intended. case_bool_decide; [by rewrite delete_delete_eq |].
    by rewrite delete_insert_eq, delete_delete_eq. }
  destruct e as [n s up | n up]; cbn [nft_step fst snd batch_of taken].
  - rewrite batch_applied. cbn [default]. split; [| destruct up; [apply K | done]]. intros -> _. exists rs. done.
  - unfold Remove. destruct (nf_scopes st !! n) as [t |]; [| done]. rewrite batch_applied. cbn [default snd nf_scopes nf_order].
    split; [| destruct up; [apply K | done]]. intros -> _. eauto.
Qed.

Lemma nft_run_good es : forall st rs, good st -> Forall event_ok es -> good (nft_run es (st, rs)).1.
Proof.
  induction es as [| e es IH]; intros st rs G F; [done |]. apply Forall_cons in F as [Oe F]. cbn [nft_run foldl].
  pose proof (step_good st rs e G Oe). destruct (nft_step (st, rs) e) as [st' rs']. by apply IH.
Qed.

Lemma run_other es : forall st rs, delete tableName (nft_run es (st, rs)).2 = delete tableName rs.
Proof.
  induction es as [| e es IH]; intros st rs; [done |]. cbn [nft_run foldl]. destruct (step_rules st rs e) as [_ E].
  destruct (nft_step (st, rs) e) as [st' rs'] eqn:Es. cbn [snd] in E. fold (nft_run es (st', rs')). by rewrite IH.
Qed.

(** ** Verdicts *)

Lemma existsb_perm {A} (f : A -> bool) l k : l ≡ₚ k -> existsb f l = existsb f k.
Proof. induction 1; cbn; try congruence. by destruct (f x), (f y). Qed.

(** Whether one table drops a packet at a hook. *)
Definition table_drops (hook : Z) (p : Packet) (tab : gmap string KChain) : bool :=
  existsb (fun c => (kc_hook c =? hook) && (eval_rules big p (kc_policy c) (kc_rules c) =? 0)) (map_to_list tab).*2.

Lemma verdict_split rs tab hook p :
  rs !! tableName = Some tab ->
  hook_verdict big rs hook p = if table_drops hook p tab then 0 else hook_verdict big (delete tableName rs) hook p.
Proof.
  intros L. unfold hook_verdict. rewrite (existsb_perm _ (map_to_list rs) ((tableName, tab) :: map_to_list (delete tableName rs))).
  2:{ by rewrite map_to_list_delete. }
  cbn [existsb snd]. fold (table_drops hook p tab). by destruct (table_drops hook p tab).
Qed.

Lemma table_of_drops hook p rin rfwd :
  table_drops hook p (table_of rin rfwd)
  = ((nfInetLocalIn =? hook) && (eval_rules big p nfAccept rin =? 0)) || ((nfInetForward =? hook) && (eval_rules big p nfAccept rfwd =? 0)).
Proof.
  unfold table_drops, table_of.
  rewrite (existsb_perm _ _ [mkChain nfInetLocalIn nfAccept rin; mkChain nfInetForward nfAccept rfwd]).
  - cbn [existsb kc_hook kc_policy kc_rules]. by rewrite orb_false_r.
  - rewrite !map_to_list_insert by done. by rewrite map_to_list_empty.
Qed.
End Theorems.

Definition packet_ok (p : Packet) : Prop := ifname_ok (pk_iif p) /\ 0 <= pk_proto p < 256 /\ 0 <= pk_ctstate p < 2 ^ 32.

(** What a ruleset decides that is the one meant for [st], the other tables being
    those of [rs0]. *)
Lemma intended_verdict (big : bool) rs0 rs rs1 st (p : Packet) :
  good st -> packet_ok p -> rs = intended big (nf_scopes st) (nf_order st) rs1 -> delete tableName rs = delete tableName rs0 ->
  let other hook := hook_verdict big (delete tableName rs0) hook p in
  match nf_scopes st !! pk_iif p with
  | Some s => hook_verdict big rs nfInetLocalIn p = (if admitted p s then other nfInetLocalIn else nfDrop) /\
              hook_verdict big rs nfInetForward p = nfDrop
  | None => hook_verdict big rs nfInetLocalIn p = other nfInetLocalIn /\ hook_verdict big rs nfInetForward p = other nfInetForward
  end.
Proof.
  intros [[Nd Dom] Nm] (P1 & P2 & P3) Er Hd.
  assert (Fo : Forall ifname_ok (nf_order st)).
  { apply Forall_forall. intros n [s L]%Dom. by apply Nm in L as [? _]. }
  unfold intended in Er. case_bool_decide as Em.
  - rewrite Em, lookup_empty. rewrite <- Hd. rewrite Er, delete_delete_eq. done.
  - assert (Lt : rs !! tableName = Some (table_of (flat_map (fun n => rules_of big n (default (mkScope false []) (nf_scopes st !! n))) (nf_order st))
                                             (flat_map forward_of (nf_order st)))) by (rewrite Er; apply lookup_insert_eq).
    rewrite !(verdict_split big rs _ _ p Lt), !table_of_drops, Hd.
    rewrite in_chain by (try done; intros n s L; by apply Nm in L as [_ ?]).
    rewrite forward_chain by done. change (nfInetLocalIn =? nfInetLocalIn) with true. change (nfInetForward =? nfInetForward) with true.
    change (nfInetForward =? nfInetLocalIn) with false. change (nfInetLocalIn =? nfInetForward) with false. cbn [andb orb]. rewrite orb_false_r.
    destruct (nf_scopes st !! pk_iif p) as [s |] eqn:L.
    + rewrite !bool_decide_eq_true_2 by (apply Dom; eauto). cbn [from_option andb]. unfold id. by destruct (admitted p s).
    + rewrite !bool_decide_eq_false_2 by (rewrite Dom, L; by intros [? ?]). done.
Qed.

Lemma empty_good : good nft_empty.
Proof. split; [apply empty_nft_wf |]. intros n s L. cbn in L. by rewrite lookup_empty in L. Qed.

(** C6. The kernel enforces the scopes.  After any history of scopes applied and
    removed, some of them refused, that ends with a call the kernel took, and
    whatever other tables the host has: a packet from a buddy's interface that
    is to be delivered to this host is dropped unless the scope recorded for
    the interface is [all], or the packet belongs to an established or related
    connection, or it goes to an exposed port of the right protocol, or it is
    an ICMP packet; a packet from such an interface that would be routed
    onward is always dropped; packets of other interfaces are left to the
    other tables.  This is proved of the bytes sent, read back and evaluated
    as nftables does. *)
Theorem exposure_enforced (big : bool) (rs0 : Ruleset) (es : list NftEvent) (e : NftEvent) (p : Packet) :
  Forall event_ok es -> event_ok e -> packet_ok p -> taken e = true ->
  batch_of big e (nft_run big es (nft_empty, rs0)).1 <> None ->
  let '(st, rs) := nft_run big (es ++ [e]) (nft_empty, rs0) in
  let other hook := hook_verdict big (delete tableName rs0) hook p in
  match nf_scopes st !! pk_iif p with
  | Some s => hook_verdict big rs nfInetLocalIn p = (if admitted p s then other nfInetLocalIn else nfDrop) /\
              hook_verdict big rs nfInetForward p = nfDrop
  | None => hook_verdict big rs nfInetLocalIn p = other nfInetLocalIn /\ hook_verdict big rs nfInetForward p = other nfInetForward
  end.
Proof.
  intros F Oe Po Ht Hb. unfold nft_run. rewrite foldl_snoc. fold (nft_run big es (nft_empty, rs0)).
  pose proof (nft_run_good big es nft_empty rs0 empty_good F) as G1. pose proof (run_other big es nft_empty rs0) as Ot.
  destruct (nft_run big es (nft_empty, rs0)) as [st1 rs1]. cbn [fst snd] in *.
  pose proof (step_good big st1 rs1 e G1 Oe) as G2. destruct (step_rules big st1 rs1 e) as [Hi Hd].
  destruct (Hi Ht Hb) as [rs2 Er]. destruct (nft_step big (st1, rs1) e) as [st rs]. cbn [fst snd] in *.
  apply (intended_verdict big rs0 rs rs2 st p G2 Po Er). by rewrite Hd.
Qed.

(** ** On one interface *)

Module NftDemo.

Definition web : Scope := mkScope false [mkPort "tcp" 8080].
Definition nothing : Scope := mkScope false [].

(** A new TCP connection from the buddy on bnet0 to a port. *)
Definition syn (hi lo : Z) : Packet :=
  mkPacket "bnet0" IPPROTO_TCP (String (byte_of 200) (String (byte_of 0) (String (byte_of hi) (String (byte_of lo) "")))) 8.

Lemma web_ok : event_ok (ApplyScope "bnet0" web true).
Proof. split; [split; [cbn; lia | done] |]. intros q ->%list_elem_of_singleton. cbn. lia. Qed.

Lemma syn_ok hi lo : packet_ok (syn hi lo).
Proof. split; [split; [cbn; lia | done] |]. split; [cbn; unfold IPPROTO_TCP; lia | cbn; lia]. Qed.

Lemma exposure_enforced_witness :
  let rs := (nft_run false [ApplyScope "bnet0" web true] (nft_empty, ∅)).2 in
  hook_verdict false rs nfInetLocalIn (syn 0 22) = nfDrop /\ hook_verdict false rs nfInetForward (syn 0 22) = nfDrop.
Proof.
  cbn zeta. pose proof (exposure_enforced false ∅ [] (ApplyScope "bnet0" web true) (syn 0 22) (Forall_nil_2 _) web_ok (syn_ok 0 22) eq_refl) as T.
  cbn [app] in T. assert (B : batch_of false (ApplyScope "bnet0" web true) (nft_run false [] (nft_empty, ∅)).1 <> None) by done.
  specialize (T B). clear B.
  assert (S1 : (nft_run false [ApplyScope "bnet0" web true] (nft_empty, ∅)).1 = mkNft (<["bnet0" := web]> ∅) ["bnet0"]) by reflexivity.
  destruct (nft_run false [ApplyScope "bnet0" web true] (nft_empty, ∅)) as [st rs]. cbn [fst snd] in *. rewrite S1 in T.
  cbn [nf_scopes pk_iif syn] in T. rewrite lookup_insert_eq in T.
  assert (A : admitted (syn 0 22) web = false) by reflexivity. rewrite A in T. exact T.
Defined.

(** Two workers on one interface name: the one that stops takes the rules of
    the one that runs with it, and everything is let in. *)
Lemma old_worker_opens_new :
  let '(st, rs) := nft_run false [ApplyScope "bnet0" web true; ApplyScope "bnet0" nothing true; RemoveScope "bnet0" true] (nft_empty, ∅) in
  st = nft_empty /\ hook_verdict false rs nfInetLocalIn (syn 0 22) = nfAccept /\ hook_verdict false rs nfInetForward (syn 0 22) = nfAccept.
Proof.
  set (st2 := mkNft (<["bnet0" := nothing]> (∅ : gmap string Scope)) ["bnet0"]).
  assert (R : forall rs, nft_step false (st2, rs) (RemoveScope "bnet0" true) = (nft_empty, delete tableName rs)).
  { intros rs. cbn [nft_step batch_of taken]. change (nf_scopes st2 !! "bnet0") with (Some nothing). cbn match.
    rewrite batch_applied. unfold intended. rewrite bool_decide_eq_true_2 by reflexivity. reflexivity. }
  pose proof (run_other false [ApplyScope "bnet0" web true; ApplyScope "bnet0" nothing true] nft_empty ∅) as O.
  assert (S2 : (nft_run false [ApplyScope "bnet0" web true; ApplyScope "bnet0" nothing true] (nft_empty, ∅)).1 = st2) by reflexivity.
  change [ApplyScope "bnet0" web true; ApplyScope "bnet0" nothing true; RemoveScope "bnet0" true]
    with ([ApplyScope "bnet0" web true; ApplyScope "bnet0" nothing true] ++ [RemoveScope "bnet0" true]).
  unfold nft_run at 1. rewrite foldl_snoc. fold (nft_run false [ApplyScope "bnet0" web true; ApplyScope "bnet0" nothing true] (nft_empty, ∅)).
  destruct (nft_run false [ApplyScope "bnet0" web true; ApplyScope "bnet0" nothing true] (nft_empty, ∅)) as [st rs].
  cbn [fst snd] in *. rewrite S2, R, O. done.
Qed.

End NftDemo.
