(* ===== verification/WgNetlink.v ===== *)
(** * WireGuard over netlink

    [internal/wg/wg_linux.go]: the requests that create and configure a buddy's
    interface, the reading of the kernel's answers, the proof of a handshake,
    and bringing the interface up and down.  [internal/vip/bind_linux.go]: the
    virtual addresses on the loopback interface. *)

From S2P Require Import Prelude Sha256 NetAddr NetParse Crypto Netlink Wg.

#[export] Instance Addr_eq_dec : EqDecision Addr.
Proof. solve_decision. Defined.

(** ** Constants *)

Definition AF_INET : Z := 2.
Definition AF_INET6 : Z := 10.
Definition NLMSG_ERROR : Z := 2.
Definition NLMSG_DONE : Z := 3.
Definition RTM_NEWLINK : Z := 16.
Definition RTM_DELLINK : Z := 17.
Definition RTM_NEWADDR : Z := 20.
Definition RTM_DELADDR : Z := 21.
Definition RTM_NEWROUTE : Z := 24.
Definition reqAck : Z := 5.
Definition NLM_F_REPLACE : Z := 0x100.
Definition NLM_F_EXCL : Z := 0x200.
Definition NLM_F_CREATE : Z := 0x400.
Definition NLM_F_DUMP : Z := 0x300.
Definition wgGenlName : string := "wireguard".
Definition wgCmdGetDevice : Z := 0.
Definition wgCmdSetDevice : Z := 1.
Definition genlIDCtrl : Z := 0x10.
Definition genlHdrLen : nat := 4.
Definition EEXIST : Z := 17.
Definition ESRCH : Z := 3.
Definition EADDRNOTAVAIL : Z := 99.

Section WgNetlink.
Context (big : bool).
Local Notation nlAttr := (nlAttr big).
Local Notation nlNested := (nlNested big).
Local Notation attrWalk := (attrWalk big).

(** ** Encoders *)

(** A [sockaddr_in] or [sockaddr_in6]. *)
Definition encodeSockaddr (a : Addr) (port : Z) : string :=
  match a with
  | Addr4 b => native big 2 AF_INET ⊕ be_bytes 2 port ⊕ b ⊕ zeros 8
  | Addr6 b => native big 2 AF_INET6 ⊕ be_bytes 2 port ⊕ zeros 4 ⊕ b ⊕ zeros 4
  end.

Definition addr_bytes (a : Addr) : string := match a with Addr4 b | Addr6 b => b end.

Definition buildAllowedIP (p : Prefix) : string :=
  nlAttrU16 big 1 (match pfx_addr p with Addr4 _ => AF_INET | Addr6 _ => AF_INET6 end)
  ⊕ nlAttr 2 (addr_bytes (pfx_addr p)) ⊕ nlAttrU8 big 3 (pfx_bits p).

(** Nested entries numbered from [i]. *)
Fixpoint allowed_ips (i : Z) (l : list Prefix) : string :=
  match l with [] => "" | p :: r => nlNested i (buildAllowedIP p) ⊕ allowed_ips (i + 1) r end.

Definition buildPeer (p : WgPeer) : string :=
  nlAttr 1 (wp_PublicKey p) ⊕ nlAttrU32 big 3 2
  ⊕ (match wp_Endpoint p with Some (a, port) => nlAttr 4 (encodeSockaddr a port) | None => "" end)
  ⊕ (if 0 <? wp_Keepalive p then nlAttrU16 big 5 (wp_Keepalive p) else "")
  ⊕ nlNested 9 (allowed_ips 0 (wp_AllowedIPs p)).

Definition buildSetDeviceAttrs (ifindex : Z) (c : WgConfig) : string :=
  nlAttrU32 big 1 ifindex ⊕ nlAttrU32 big 5 1 ⊕ nlAttr 3 (wc_PrivateKey c)
  ⊕ (if 0 <? wc_ListenPort c then nlAttrU16 big 6 (wc_ListenPort c) else "")
  ⊕ nlNested 8 (nlNested 0 (buildPeer (wc_Peer c))).

Definition genlMessage (family flags seq cmd version : Z) (attrs : string) : string :=
  nlMessage big family flags seq (be_bytes 1 cmd ⊕ be_bytes 1 version ⊕ zeros 2 ⊕ attrs).

Definition createLink_req (name : string) : string :=
  nlMessage big RTM_NEWLINK (Z.lor reqAck (Z.lor NLM_F_CREATE NLM_F_EXCL)) 1
    (zeros 16 ⊕ nlAttr 3 (name ⊕ String zero "") ⊕ nlNested 18 (nlAttr 1 (wgGenlName ⊕ String zero ""))).

Definition setLinkUp_req (ifindex : Z) : string :=
  nlMessage big RTM_NEWLINK reqAck 1 (zeros 4 ⊕ native big 4 ifindex ⊕ native big 4 1 ⊕ native big 4 1).

Definition delLink_req (ifindex : Z) : string :=
  nlMessage big RTM_DELLINK reqAck 1 (zeros 4 ⊕ native big 4 ifindex ⊕ zeros 8).

Definition addrAdd_req (ifindex : Z) (p : Prefix) : string :=
  nlMessage big RTM_NEWADDR (Z.lor reqAck (Z.lor NLM_F_CREATE NLM_F_REPLACE)) 1
    (be_bytes 1 AF_INET ⊕ be_bytes 1 (pfx_bits p) ⊕ zeros 2 ⊕ native big 4 ifindex
     ⊕ nlAttr 2 (addr_bytes (pfx_addr p)) ⊕ nlAttr 1 (addr_bytes (pfx_addr p))).

Definition routeAdd_req (ifindex : Z) (dst : Prefix) : string :=
  nlMessage big RTM_NEWROUTE (Z.lor reqAck (Z.lor NLM_F_CREATE NLM_F_REPLACE)) 1
    (be_bytes 1 AF_INET ⊕ be_bytes 1 (pfx_bits dst) ⊕ zeros 2 ⊕ be_bytes 1 254 ⊕ be_bytes 1 3 ⊕ be_bytes 1 253 ⊕ be_bytes 1 1
     ⊕ zeros 4 ⊕ nlAttr 1 (addr_bytes (pfx_addr dst)) ⊕ nlAttr 4 (native big 4 ifindex)).

Definition resolveFamily_req (name : string) : string :=
  genlMessage genlIDCtrl 1 1 3 1 (nlAttr 2 (name ⊕ String zero "")).

Definition sendSetDevice_req (family : Z) (attrs : string) : string := genlMessage family reqAck 1 wgCmdSetDevice 1 attrs.

(** ** Answers *)

Inductive AnswerErr := ParseFailed | ShortError | Errno (e : Z) | NoFamily | RecvFailed.

(** A signed 32-bit value in machine order. *)
Definition int32_of (b : string) : Z := let u := native_val big b in if u <? 2 ^ 31 then u else u - 2 ^ 32.

(** [ackErr]: [None] for success. *)
Definition ackErr (payload : string) : option AnswerErr :=
  if (slen payload <? 4)%nat then Some ShortError
  else let code := int32_of (sub_s 0 4 payload) in if code =? 0 then None else Some (Errno (- code)).

Fixpoint first_ack (l : list NlMsg) : option AnswerErr :=
  match l with [] => None | m :: r => if nm_type m =? NLMSG_ERROR then ackErr (nm_data m) else first_ack r end.

Definition expectAck (resp : string) : option AnswerErr :=
  match ParseNetlinkMessage big resp with None => Some ParseFailed | Some l => first_ack l end.

(** The last family id among the attributes of one message. *)
Definition family_of (data : string) : Z :=
  foldl (fun id a => if (a.1 =? 1) && (2 <=? slen a.2)%nat then native_val big (sub_s 0 2 a.2) else id) 0
    (attrWalk (drop_s genlHdrLen data)).

Fixpoint family_loop (l : list NlMsg) : result AnswerErr Z :=
  match l with
  | [] => Err NoFamily
  | m :: r =>
      if nm_type m =? NLMSG_ERROR then match ackErr (nm_data m) with Some e => Err e | None => Ok 0 end
      else if (slen (nm_data m) <? genlHdrLen)%nat then family_loop r
      else let id := family_of (nm_data m) in if negb (id =? 0) then Ok id else family_loop r
  end.

Definition parseFamilyID (resp : string) : result AnswerErr Z :=
  match ParseNetlinkMessage big resp with None => Err ParseFailed | Some l => family_loop l end.

(** ** The handshake of a peer *)

(** What one peer entry tells: its key and its time, the last of each. *)
Definition peer_fold (acc : option string * option (Z * Z)) (a : Z * string) : option string * option (Z * Z) :=
  if a.1 =? 1 then (if (slen a.2 =? 32)%nat then (Some a.2, acc.2) else acc)
  else if a.1 =? 6 then
    (if (16 <=? slen a.2)%nat then (acc.1, Some (native_val big (sub_s 0 8 a.2), native_val big (sub_s 8 16 a.2))) else acc)
  else acc.

(** [peerHandshake]: the time in seconds and nanoseconds, as unsigned words. *)
Definition peerHandshake (peer peerPub : string) : option (Z * Z) :=
  match foldl peer_fold (None, None) (attrWalk peer) with
  | (Some key, Some (sec, nsec)) =>
      if negb (String.eqb key peerPub) then None
      else if (sec =? 0) && (nsec =? 0) then None else Some (sec, nsec)
  | _ => None
  end.

(** The last matching peer of one message. *)
Definition scan_message (peerPub : string) (ts : option (Z * Z)) (data : string) : option (Z * Z) :=
  foldl (fun ts a =>
    if negb (a.1 =? 8) then ts
    else foldl (fun ts q => match peerHandshake q.2 peerPub with Some t => Some t | None => ts end) ts (attrWalk a.2))
    ts (attrWalk (drop_s genlHdrLen data)).

Fixpoint scan_loop (peerPub : string) (ts : option (Z * Z)) (done : bool) (l : list NlMsg) : result AnswerErr (option (Z * Z) * bool) :=
  match l with
  | [] => Ok (ts, done)
  | m :: r =>
      if nm_type m =? NLMSG_ERROR then
        match ackErr (nm_data m) with Some e => Err e | None => scan_loop peerPub ts true r end
      else if nm_type m =? NLMSG_DONE then scan_loop peerPub ts true r
      else if (slen (nm_data m) <? genlHdrLen)%nat then scan_loop peerPub ts done r
      else scan_loop peerPub (scan_message peerPub ts (nm_data m)) done r
  end.

Definition scanGetDeviceReply (resp peerPub : string) : result AnswerErr (option (Z * Z) * bool) :=
  match ParseNetlinkMessage big resp with None => Err ParseFailed | Some l => scan_loop peerPub None false l end.

(** The replies to one dump, until it is done. *)
Fixpoint dump_loop (peerPub : string) (ts : option (Z * Z)) (replies : list string) : result AnswerErr (option (Z * Z)) :=
  match replies with
  | [] => Err RecvFailed
  | b :: r =>
      match scanGetDeviceReply b peerPub with
      | Err e => Err e
      | Ok (t, done) => let ts' := match t with Some _ => t | None => ts end in if done then Ok ts' else dump_loop peerPub ts' r
      end
  end.

(** [Handshaked]: [Ok None] while there is none. *)
Definition Handshaked (family : result AnswerErr Z) (replies : list string) (peerPub : string) : result AnswerErr (option (Z * Z)) :=
  match family with Err e => Err e | Ok _ => dump_loop peerPub None replies end.

(** ** Up and down *)

(** The interfaces of the host, by name; each has an index, and a number that
    says how far it is configured. *)
Record Link := mkLink { lk_index : Z; lk_device : option WgConfig; lk_addr : option Prefix; lk_up : bool; lk_routes : list Prefix }.

Record Host := mkHost { ho_links : gmap string Link; ho_next : Z }.

(** The requests the kernel refuses: [fa_stale] the deletion of an interface
    left over from an earlier run, [fa_undo] the deletion that a failure on the
    way asks for, both of which the program ignores. *)
Record Faults := mkFaults {
  fa_stale : bool; fa_create : bool; fa_lookup : bool; fa_family : bool; fa_device : bool; fa_addr : bool; fa_up : bool;
  fa_route : Prefix -> bool; fa_undo : bool;
}.

Definition set_link (name : string) (l : Link) (h : Host) : Host := mkHost (<[name := l]> (ho_links h)) (ho_next h).

(** [delLink]: by index, whatever name has it; refused, nothing changes. *)
Definition delLink (refuse : bool) (ifindex : Z) (h : Host) : Host :=
  if refuse then h else mkHost (filter (fun kv => lk_index kv.2 <> ifindex) (ho_links h)) (ho_next h).

(** [delLinkByName]: the lookup of the index, then the deletion; either may be
    refused, to the same effect. *)
Definition delLinkByName (refuse : bool) (name : string) (h : Host) : Host :=
  match ho_links h !! name with None => h | Some l => delLink refuse (lk_index l) h end.

(** Creating an interface that exists is refused. *)
Definition createLink (refuse : bool) (name : string) (h : Host) : option Host :=
  if refuse then None
  else match ho_links h !! name with
       | Some _ => None
       | None => Some (mkHost (<[name := mkLink (ho_next h) None None false []]> (ho_links h)) (ho_next h + 1))
       end.

(** The routes in order, up to the first that is refused; whether all were taken. *)
Fixpoint add_routes (refuse : Prefix -> bool) (name : string) (l : Link) (rs : list Prefix) (h : Host) : bool * Host :=
  match rs with
  | [] => (true, h)
  | r :: rest =>
      if refuse r then (false, h)
      else let l' := mkLink (lk_index l) (lk_device l) (lk_addr l) (lk_up l) (lk_routes l ++ [r]) in
           add_routes refuse name l' rest (set_link name l' h)
  end.

(** [Up]: the index of the new interface, for its teardown, and the host after;
    on failure why, and the host after. *)
Definition Up (f : Faults) (c : WgConfig) (h : Host) : result (option WgErr) Z * Host :=
  match validate c with
  | Some e => (Err (Some e), h)
  | None =>
      let name := wc_IfName c in
      let h0 := delLinkByName (fa_stale f) name h in
      match createLink (fa_create f) name h0 with
      | None => (Err None, h0)
      | Some h1 =>
          if fa_lookup f then (Err None, delLinkByName (fa_undo f) name h1)
          else
            let i := ho_next h0 in
            let teardown := delLink (fa_undo f) i in
            if fa_family f then (Err None, teardown h1)
            else if fa_device f then (Err None, teardown h1)
            else
              let l2 := mkLink i (Some c) None false [] in
              let h2 := set_link name l2 h1 in
              if Prefix_IsValid (wc_Address c) && fa_addr f then (Err None, teardown h2)
              else
                let l3 := mkLink i (Some c) (if Prefix_IsValid (wc_Address c) then Some (wc_Address c) else None) false [] in
                let h3 := set_link name l3 h2 in
                if fa_up f then (Err None, teardown h3)
                else
                  let l4 := mkLink i (Some c) (lk_addr l3) true [] in
                  let h4 := set_link name l4 h3 in
                  match add_routes (fa_route f) name l4 (wc_Routes c) h4 with
                  | (false, h5) => (Err None, teardown h5)
                  | (true, h5) => (Ok i, h5)
                  end
      end
  end.

Definition probe_name : string := "bn-probe0".

Definition Available (stale create undo : bool) (h : Host) : bool * Host :=
  let h0 := delLinkByName stale probe_name h in
  match createLink create probe_name h0 with
  | None => (false, h0)
  | Some h1 => (true, delLinkByName undo probe_name h1)
  end.

(** ** Virtual addresses on the loopback interface *)

Definition buildAddrMessage (msgType flags : Z) (ip : string) (ifIndex : Z) : string :=
  nlMessage big msgType flags 1
    (be_bytes 1 AF_INET ⊕ be_bytes 1 32 ⊕ zeros 1 ⊕ be_bytes 1 254 ⊕ native big 4 ifIndex ⊕ nlAttr 2 ip ⊕ nlAttr 1 ip).

(** [parseAck]: what the answer to an address change means. *)
Definition parseAck (buf : string) (msgType : Z) : option AnswerErr :=
  if (slen buf <? 20)%nat then Some ShortError
  else if negb (native_val big (sub_s 4 6 buf) =? NLMSG_ERROR) then None
  else
    let code := int32_of (sub_s 16 20 buf) in
    if code =? 0 then None
    else let e := - code in
      if (msgType =? RTM_NEWADDR) && (e =? EEXIST) then None
      else if (msgType =? RTM_DELADDR) && ((e =? EADDRNOTAVAIL) || (e =? ESRCH)) then None
      else Some (Errno e).

Definition inVIPRange (a : Addr) : bool :=
  match a with Addr4 (String x (String y _)) => (byte_val x =? 10) && (byte_val y =? 66) | _ => false end.

(** [ReconcileStale] on the addresses the loopback has: what is deleted, given
    the deletions the kernel takes. *)
Definition ReconcileStale (keep have : list Addr) (took : Addr -> bool) : Z * list Addr :=
  let stale := List.filter (fun a => negb (negb (inVIPRange a) || bool_decide (a ∈ keep))) have in
  (Z.of_nat (length (List.filter took stale)), List.filter (fun a => negb (bool_decide (a ∈ stale) && took a)) have).

(** The attributes [syscall.ParseNetlinkRouteAttr] reads; [None] for its error. *)
Fixpoint route_attrs (fuel : nat) (b : string) : option (list (Z * string)) :=
  match fuel with
  | O => Some []
  | S f =>
      if (slen b <? 4)%nat then Some []
      else
        let l := Z.to_nat (native_val big (sub_s 0 2 b)) in
        if ((l <? 4) || (slen b <? l))%nat then None
        else rest ← route_attrs f (drop_s (align4 l) b); Some ((native_val big (sub_s 2 4 b), sub_s 4 l b) :: rest)
  end.

(** [listLoV4] on one address message: [None] where the program stops (the
    library's own skip of the fixed part runs off a short message), otherwise
    the address, if the message has one for this interface.  The caller has
    cut the fixed part off already, so sixteen bytes are skipped. *)
Definition addr_of_msg (ifIndex : Z) (m : NlMsg) : option (option Addr) :=
  let d := nm_data m in
  if (slen d <? 8)%nat then Some None
  else if negb (String.eqb (sub_s 0 1 d) (be_bytes 1 AF_INET)) || negb (native_val big (sub_s 4 8 d) =? ifIndex)
          || negb (String.eqb (sub_s 1 2 d) (be_bytes 1 32)) then Some None
  else if (slen d <? 16)%nat then None
  else
    let attrs := default [] (route_attrs (slen d) (drop_s 16 d)) in
    Some (a ← find (fun a => ((a.1 =? 2) || (a.1 =? 1)) && (slen a.2 =? 4)%nat) attrs; Some (Addr4 a.2)).

Fixpoint list_loop (ifIndex : Z) (l : list NlMsg) (out : list Addr) (done : bool) : option (list Addr * bool) :=
  match l with
  | [] => Some (out, done)
  | m :: r =>
      if nm_type m =? NLMSG_DONE then list_loop ifIndex r out true
      else if nm_type m =? NLMSG_ERROR then None
      else if nm_type m =? RTM_NEWADDR then
        found ← addr_of_msg ifIndex m;
        list_loop ifIndex r (match found with Some a => out ++ [a] | None => out end) done
      else list_loop ifIndex r out done
  end.

Fixpoint listLoV4 (ifIndex : Z) (replies : list string) (out : list Addr) : option (list Addr) :=
  match replies with
  | [] => None
  | b :: rest =>
      msgs ← ParseNetlinkMessage big b;
      '(out', done) ← list_loop ifIndex msgs out false;
      if (done : bool) then Some out' else listLoV4 ifIndex rest out'
  end.
End WgNetlink.
