(* ===== verification/WgProps.v ===== *)
(** * The WireGuard interface: what a start leaves when it succeeds and when it
    fails, one partner per interface, and a handshake that is the partner's *)

From S2P Require Import Prelude Sha256 NetAddr NetParse Crypto Netlink Wg WgNetlink.

(** ** Bringing an interface up *)

(** Indexes are handed out in order, each to one interface. *)
Record host_wf (h : Host) : Prop := {
  hw_index : forall n l, ho_links h !! n = Some l -> lk_index l < ho_next h;
  hw_unique : forall n n' l l', ho_links h !! n = Some l -> ho_links h !! n' = Some l' -> lk_index l = lk_index l' -> n = n';
}.

Lemma delLink_lookup r i h n l : ho_links (delLink r i h) !! n = Some l -> ho_links h !! n = Some l /\ (r = false -> lk_index l <> i).
Proof. unfold delLink. destruct r; [done |]. cbn [ho_links]. rewrite map_lookup_filter_Some. naive_solver. Qed.

Lemma host_wf_shrink h h' :
  (forall n l, ho_links h' !! n = Some l -> ho_links h !! n = Some l) -> ho_next h <= ho_next h' -> host_wf h -> host_wf h'.
Proof.
  intros Sub Le [Wi Wu]. split.
  - intros n l L. apply Sub, Wi in L. lia.
  - intros n n' l l' L L'. by eapply Wu; apply Sub.
Qed.

Lemma delLink_wf r i h : host_wf h -> host_wf (delLink r i h).
Proof. apply host_wf_shrink; [by intros n l [L _]%delLink_lookup | unfold delLink; destruct r; cbn; lia]. Qed.

Section Up.
Context (f : Faults) (c : WgConfig) (h : Host).
Hypothesis W : host_wf h.
Let name := wc_IfName c.
Let i := ho_next h.

(** The host with only the interface of this name changed. *)
Definition but (l : option Link) (next : Z) : Host :=
  mkHost (match l with Some x => <[name := x]> (ho_links h) | None => delete name (ho_links h) end) next.

Lemma but_other l next n : n <> name -> ho_links (but l next) !! n = ho_links h !! n.
Proof. intros D. unfold but. cbn [ho_links]. destruct l; [by rewrite lookup_insert_ne | by rewrite lookup_delete_ne]. Qed.

Lemma but_this l next : ho_links (but l next) !! name = l.
Proof. unfold but. cbn [ho_links]. destruct l; [apply lookup_insert_eq | apply lookup_delete_eq]. Qed.

Lemma but_none_wf next : i <= next -> host_wf (but None next).
Proof.
  intros Le. apply (host_wf_shrink h); [| exact Le | exact W]. intros n l. unfold but. cbn [ho_links]. by intros [_ L]%lookup_delete_Some.
Qed.

Lemma but_some_wf l : lk_index l = i -> host_wf (but (Some l) (i + 1)).
Proof.
  intros E. unfold but. split; cbn [ho_links ho_next].
  - intros n x [[_ <-] | [_ L]]%lookup_insert_Some; [lia |]. apply (hw_index _ W) in L. unfold i. lia.
  - intros n n' x x' [[<- <-] | [D L]]%lookup_insert_Some [[<- <-] | [D' L']]%lookup_insert_Some Ex; [done | | |].
    + apply (hw_index _ W) in L'. unfold i in *. lia.
    + apply (hw_index _ W) in L. unfold i in *. lia.
    + by eapply (hw_unique _ W).
Qed.

Lemma delLink_new l : lk_index l = i -> delLink false i (but (Some l) (i + 1)) = but None (i + 1).
Proof.
  intros E. unfold delLink, but. cbn [ho_links ho_next]. f_equal. apply map_eq. intros n.
  destruct (decide (n = name)) as [-> | D].
  - rewrite lookup_delete_eq. apply map_lookup_filter_None. right. intros x. rewrite lookup_insert_eq. intros [= <-] Hx. by apply Hx.
  - rewrite lookup_delete_ne by done. destruct (ho_links h !! n) as [x |] eqn:L.
    + apply map_lookup_filter_Some. rewrite lookup_insert_ne by done. split; [done |]. cbn. apply (hw_index _ W) in L. unfold i. lia.
    + apply map_lookup_filter_None. left. by rewrite lookup_insert_ne.
Qed.

Lemma set_but l0 l : set_link name l (but (Some l0) (i + 1)) = but (Some l) (i + 1).
Proof. unfold set_link, but. cbn [ho_links ho_next]. f_equal. apply insert_insert_eq. Qed.

(** The deletion of what an earlier run left. *)
Lemma del_stale r :
  delLinkByName r name h = but None i \/ (r = true /\ delLinkByName r name h = h /\ is_Some (ho_links h !! name)).
Proof.
  unfold delLinkByName, delLink, but. destruct (ho_links h !! name) as [l |] eqn:L.
  - destruct r; [right; split_and!; eauto |]. left. f_equal. apply map_eq. intros n. destruct (decide (n = name)) as [-> | D].
    + rewrite lookup_delete_eq. apply map_lookup_filter_None. right. intros x. rewrite L. intros [= <-] Hx. by apply Hx.
    + rewrite lookup_delete_ne by done. destruct (ho_links h !! n) as [x |] eqn:Ln.
      * apply map_lookup_filter_Some. split; [done |]. cbn. intros E. apply D. by eapply (hw_unique _ W).
      * apply map_lookup_filter_None. by left.
  - left. rewrite delete_id by done. unfold i. by destruct h.
Qed.

Lemma created : createLink false name (but None i) = Some (but (Some (mkLink i None None false [])) (i + 1)).
Proof. unfold createLink. rewrite but_this. unfold but. cbn [ho_links ho_next]. do 2 f_equal. by rewrite insert_delete_eq. Qed.

(** The routes that were taken are on the interface. *)
Lemma routes_but rs : forall l,
  exists (ok : bool) taken, add_routes (fa_route f) name l rs (but (Some l) (i + 1))
    = (ok, but (Some (mkLink (lk_index l) (lk_device l) (lk_addr l) (lk_up l) (lk_routes l ++ taken))) (i + 1)) /\
    if ok then taken = rs else (length taken < length rs)%nat.
Proof.
  induction rs as [| r rs IH]; intros l; cbn [add_routes].
  - exists true, []. rewrite app_nil_r. by destruct l.
  - destruct (fa_route f r).
    + exists false, []. rewrite app_nil_r. destruct l. split; [done | cbn; lia].
    + rewrite set_but. destruct (IH (mkLink (lk_index l) (lk_device l) (lk_addr l) (lk_up l) (lk_routes l ++ [r]))) as (ok & t & E & D).
      exists ok, (r :: t). rewrite E. cbn [lk_index lk_device lk_addr lk_up lk_routes]. rewrite <- app_assoc. split; [done |].
      destruct ok; [by rewrite D | cbn; lia].
Qed.

Definition configured : Link :=
  mkLink i (Some c) (if Prefix_IsValid (wc_Address c) then Some (wc_Address c) else None) true (wc_Routes c).

(** What a failure leaves, when the interface had been created. *)
Definition left_behind (h' : Host) : Prop :=
  h' = but None (i + 1) \/ (fa_undo f = true /\ exists l, lk_index l = i /\ l <> configured /\ h' = but (Some l) (i + 1)).

Lemma undone l : lk_index l = i -> l <> configured -> left_behind (delLink (fa_undo f) i (but (Some l) (i + 1))).
Proof.
  intros E D. unfold left_behind. destruct (fa_undo f); [right; split; [done |]; by exists l |]. left. by apply delLink_new.
Qed.

Lemma undone_by_name l : lk_index l = i -> l <> configured -> left_behind (delLinkByName (fa_undo f) name (but (Some l) (i + 1))).
Proof. intros E D. unfold delLinkByName. rewrite but_this, E. by apply undone. Qed.

Lemma Up_cases :
  match Up f c h with
  | (Err (Some e), h') => validate c = Some e /\ h' = h
  | (Err None, h') => validate c = None /\ (h' = but None i \/ (fa_stale f = true /\ h' = h) \/ left_behind h')
  | (Ok j, h') => validate c = None /\ j = i /\ h' = but (Some configured) (i + 1)
  end.
Proof.
  unfold Up. destruct (validate c); [done |]. fold name.
  destruct (del_stale (fa_stale f)) as [-> | (-> & -> & [l0 L0])].
  2:{ unfold createLink. rewrite L0. destruct (fa_create f); auto. }
  destruct (fa_create f); [split; [done | by left] |]. rewrite created. change (ho_next (but None i)) with i.
  destruct (fa_lookup f); [split; [done |]; right; right; by apply undone_by_name |].
  destruct (fa_family f); [split; [done |]; right; right; by apply undone |].
  destruct (fa_device f); [split; [done |]; right; right; by apply undone |].
  rewrite !set_but. destruct (Prefix_IsValid (wc_Address c) && fa_addr f); [split; [done |]; right; right; by apply undone |].
  destruct (fa_up f); [split; [done |]; right; right; by apply undone |]. cbn [lk_addr].
  destruct (routes_but (wc_Routes c) (mkLink i (Some c) (if Prefix_IsValid (wc_Address c) then Some (wc_Address c) else None) true []))
    as ([] & t & -> & D); cbn [lk_index lk_device lk_addr lk_up lk_routes app]; [by rewrite D |].
  split; [done |]. right. right. apply undone; [done |]. unfold configured. intros [= ->]. lia.
Qed.
End Up.

(** C34. An interface is up as configured or its start has failed.  Whatever
    steps the kernel refuses, every other interface is as it was, and a
    configuration that is not valid touches nothing.  A start that succeeds
    leaves exactly one new interface, with the configured device, address and
    routes, and its teardown, by the index returned, removes that interface
    and no other.  A start that fails leaves no interface of that name, unless
    the kernel also refused a deletion, which the program ignores: then what
    is there is either the interface of an earlier run, untouched, when its
    deletion was the one refused, or the new one, which is not as configured,
    when undoing it was refused. *)
Theorem up_all_or_nothing (f : Faults) (c : WgConfig) (h : Host) :
  host_wf h ->
  let '(res, h') := Up f c h in
  (forall n, n <> wc_IfName c -> ho_links h' !! n = ho_links h !! n) /\ host_wf h' /\
  match res with
  | Err (Some e) => validate c = Some e /\ h' = h
  | Err None =>
      match ho_links h' !! wc_IfName c with
      | None => True
      | Some l => (fa_stale f = true /\ h' = h) \/ (fa_undo f = true /\ lk_index l = ho_next h /\ l <> configured c h)
      end
  | Ok j => ho_links h' !! wc_IfName c = Some (configured c h) /\ j = lk_index (configured c h) /\
            (forall n, ho_links (delLink false j h') !! n = if String.eqb n (wc_IfName c) then None else ho_links h !! n)
  end.
Proof.
  intros W. pose proof (Up_cases f c h W) as U. destruct (Up f c h) as [[j | [e |]] h'].
  - destruct U as (_ & -> & ->). split_and!.
    + intros n D. by apply but_other.
    + by apply but_some_wf.
    + apply but_this.
    + done.
    + intros n. rewrite delLink_new by done. destruct (String.eqb_spec n (wc_IfName c)) as [-> | D]; [apply but_this | by apply but_other].
  - destruct U as [V ->]. split_and!; [done | done | done | done].
  - destruct U as (_ & [-> | [[Fs ->] | [-> | (Fu & l & El & Dl & ->)]]]).
    + split_and!; [intros n D; by apply but_other | apply but_none_wf; [done | lia] | by rewrite but_this].
    + split_and!; [done | done |]. destruct (ho_links h !! wc_IfName c); auto.
    + split_and!; [intros n D; by apply but_other | apply but_none_wf; [done | lia] | by rewrite but_this].
    + split_and!; [intros n D; by apply but_other | by apply but_some_wf |]. rewrite but_this. auto.
Qed.

(** ** The handshake report *)

Section Handshake.
Context (big : bool).

(** A peer as the kernel reports it: its key and the time of its last handshake,
    zero while there was none. *)
Record KPeer := mkKPeer { kp_key : string; kp_sec : Z; kp_nsec : Z }.

Definition kpeer_ok (q : KPeer) : Prop :=
  slen (kp_key q) = 32%nat /\ 0 <= kp_sec q < 2 ^ 64 /\ 0 <= kp_nsec q < 2 ^ 64.

Definition peer_entry (q : KPeer) : string :=
  nlAttr big 1 (kp_key q) ⊕ nlAttr big 6 (native big 8 (kp_sec q) ⊕ native big 8 (kp_nsec q)).

Fixpoint peer_entries (i : Z) (l : list KPeer) : string :=
  match l with [] => "" | q :: r => nlNested big i (peer_entry q) ⊕ peer_entries (i + 1) r end.

(** The answer to a device query: one message with all peers, then the end. *)
Definition device_reply (family seq : Z) (l : list KPeer) : string :=
  genlMessage big family 2 seq wgCmdGetDevice 1 (nlNested big 8 (peer_entries 0 l)) ⊕ nlMessage big NLMSG_DONE 2 seq (zeros 4).

Lemma slen_entry q : kpeer_ok q -> slen (peer_entry q) = 56%nat.
Proof.
  intros (K & _). unfold peer_entry. rewrite slen_app, !slen_nlAttr, slen_app, !slen_native, K. reflexivity.
Qed.

Lemma slen_entries l : forall i, Forall kpeer_ok l -> slen (peer_entries i l) = (60 * length l)%nat.
Proof.
  induction l as [| q l IH]; intros i F; [done |]. apply Forall_cons in F as [Hq F]. cbn [peer_entries length].
  unfold nlNested. rewrite slen_app, slen_nlAttr, slen_entry, IH by done. change (align4 (4 + 56)) with 60%nat. lia.
Qed.

Lemma entry_handshake q pub :
  kpeer_ok q ->
  peerHandshake big (peer_entry q) pub
  = if String.eqb (kp_key q) pub && negb ((kp_sec q =? 0) && (kp_nsec q =? 0)) then Some (kp_sec q, kp_nsec q) else None.
Proof.
  intros (K & Bs & Bn). unfold peerHandshake, peer_entry.
  assert (L16 : slen (native big 8 (kp_sec q) ⊕ native big 8 (kp_nsec q)) = 16%nat) by (by rewrite slen_app, !slen_native).
  rewrite attrWalk_cons by (first [ split; [done | reflexivity] | rewrite K; reflexivity ]).
  rewrite attrWalk_one by (first [ split; [done | reflexivity] | rewrite L16; reflexivity ]).
  change (Z.land 1 nlaTypeMask) with 1. change (Z.land 6 nlaTypeMask) with 6.
  cbn [foldl]. unfold peer_fold. cbn [fst snd]. change (1 =? 1) with true. change (6 =? 1) with false. change (6 =? 6) with true. cbn match.
  rewrite K, L16. change (32 =? 32)%nat with true. change (16 <=? 16)%nat with true. cbn match. cbn [fst snd].
  assert (S0 : sub_s 0 8 (native big 8 (kp_sec q) ⊕ native big 8 (kp_nsec q)) = native big 8 (kp_sec q))
    by (unfold sub_s; cbn [Nat.sub drop_s]; apply take_s_len, slen_native).
  assert (S8 : sub_s 8 16 (native big 8 (kp_sec q) ⊕ native big 8 (kp_nsec q)) = native big 8 (kp_nsec q)).
  { unfold sub_s. rewrite drop_s_len by apply slen_native. apply take_s_all. by rewrite slen_native. }
  rewrite S0, S8, !native_val_native by done. destruct (String.eqb (kp_key q) pub); [| done]. cbn [negb andb].
  by destruct ((kp_sec q =? 0) && (kp_nsec q =? 0)).
Qed.

(** The last match among the entries. *)
Definition report (pub : string) (ts : option (Z * Z)) (q : KPeer) : option (Z * Z) :=
  if String.eqb (kp_key q) pub && negb ((kp_sec q =? 0) && (kp_nsec q =? 0)) then Some (kp_sec q, kp_nsec q) else ts.

Lemma scan_entries pub l : forall i ts,
  Forall kpeer_ok l -> 0 <= i -> i + Z.of_nat (length l) <= 1024 ->
  foldl (fun ts q => match peerHandshake big q.2 pub with Some t => Some t | None => ts end) ts (attrWalk big (peer_entries i l))
  = foldl (report pub) ts l.
Proof.
  induction l as [| q l IH]; intros i ts F Hi Hl; [done |]. apply Forall_cons in F as [Hq F]. cbn [peer_entries length] in *.
  unfold nlNested. rewrite attrWalk_cons.
  - cbn [foldl snd]. rewrite entry_handshake by done. rewrite IH by (try done; lia). f_equal. unfold report. by destruct (_ && _).
  - split; [apply Z.lor_nonneg; split; [done | discriminate] |].
    assert (B : Z.log2 (Z.lor i nlaFNested) < 16).
    { rewrite Z.log2_lor by (done || discriminate). change (Z.log2 nlaFNested) with 15.
      assert (Z.log2 i <= 10); [| lia]. change 10 with (Z.log2 1024). apply Z.log2_le_mono. lia. }
    destruct (Z.eq_dec (Z.lor i nlaFNested) 0) as [-> | D]; [done |].
    change 65536 with (2 ^ 16). apply Z.log2_lt_pow2; [| done].
    assert (0 <= Z.lor i nlaFNested) by (apply Z.lor_nonneg; split; [done | discriminate]). lia.
  - rewrite slen_entry by done. reflexivity.
Qed.

Lemma report_unique pub l : forall ts,
  NoDup (kp_key <$> l) ->
  foldl (report pub) ts l
  = match find (fun q => String.eqb (kp_key q) pub && negb ((kp_sec q =? 0) && (kp_nsec q =? 0))) l with
    | Some q => Some (kp_sec q, kp_nsec q) | None => ts end.
Proof.
  induction l as [| q l IH]; intros ts Nd; [done |]. cbn in Nd. apply NoDup_cons in Nd as [Nq Nd]. cbn [foldl find].
  rewrite IH by done. unfold report. destruct (String.eqb_spec (kp_key q) pub) as [E | _]; [| done]. cbn [andb].
  destruct (negb _); [| done]. destruct (find _ l) as [q' |] eqn:Fd; [| done]. apply find_some in Fd as [I C].
  destruct Nq. rewrite E. apply andb_true_iff in C as [C _]. apply String.eqb_eq in C. rewrite <- C.
  apply list_elem_of_fmap. exists q'. split; [done |]. by apply list_elem_of_In.
Qed.
End Handshake.

(** The handshake the program waits for is the partner's.  On the kernel's
    answer for an interface with any set of peers, the time reported is that
    of the peer with exactly the partner's key, once it is not zero, whatever
    other peers have done; without such a peer, or before its first handshake,
    there is none. *)
Theorem handshake_is_partners (big : bool) (family seq : Z) (l : list KPeer) (pub : string) :
  4 <= family < 65536 -> Forall kpeer_ok l -> NoDup (kp_key <$> l) -> (length l <= 1000)%nat ->
  Handshaked big (Ok family) [device_reply big family seq l] pub
  = Ok (match find (fun q => String.eqb (kp_key q) pub && negb ((kp_sec q =? 0) && (kp_nsec q =? 0))) l with
        | Some q => Some (kp_sec q, kp_nsec q) | None => None end).
Proof.
  intros Bf F Nd Ll. unfold Handshaked. cbn [dump_loop]. unfold scanGetDeviceReply, device_reply, genlMessage.
  assert (Lp : slen (nlNested big 8 (peer_entries big 0 l)) = (4 + 60 * length l)%nat).
  { unfold nlNested. rewrite slen_nlAttr, slen_entries by done. apply align4_id.
    replace (4 + 60 * length l)%nat with ((1 + 15 * length l) * 4)%nat by lia. apply Nat.Div0.mod_mul. }
  set (hdr := be_bytes 1 wgCmdGetDevice ⊕ be_bytes 1 1 ⊕ zeros 2 ⊕ nlNested big 8 (peer_entries big 0 l)).
  assert (Lh : slen hdr = (8 + 60 * length l)%nat).
  { unfold hdr. rewrite !slen_app, !slen_be_bytes, slen_zeros, Lp. lia. }
  rewrite ParseNetlinkMessage_cons; [| lia | lia | rewrite Lh; lia |].
  2:{ rewrite Lh. replace (8 + 60 * length l)%nat with ((2 + 15 * length l) * 4)%nat by lia. apply Nat.Div0.mod_mul. }
  rewrite <- (app_empty_r (nlMessage big NLMSG_DONE 2 seq (zeros 4))).
  rewrite ParseNetlinkMessage_cons; [| split; [done | reflexivity] | lia | reflexivity | reflexivity].
  change (ParseNetlinkMessage big "") with (Some ([] : list NlMsg)). cbn [fmap option_fmap option_map].
  cbn [scan_loop nm_type nm_data]. destruct (Z.eqb_spec family NLMSG_ERROR) as [E | _]; [unfold NLMSG_ERROR in E; lia |].
  destruct (Z.eqb_spec family NLMSG_DONE) as [E | _]; [unfold NLMSG_DONE in E; lia |].
  destruct (Nat.ltb_spec (slen hdr) genlHdrLen) as [L | _]; [unfold genlHdrLen in L; lia |].
  change (NLMSG_DONE =? NLMSG_ERROR) with false. change (NLMSG_DONE =? NLMSG_DONE) with true. cbn match.
  assert (Sm : scan_message big pub None hdr = foldl (report pub) None l).
  { unfold scan_message. assert (D : drop_s genlHdrLen hdr = nlNested big 8 (peer_entries big 0 l)).
    { unfold hdr. change genlHdrLen with (1 + (1 + 2))%nat. rewrite drop_s_add, drop_s_len by apply slen_be_bytes.
      rewrite drop_s_add, drop_s_len by apply slen_be_bytes. apply drop_s_len, slen_zeros. }
    rewrite D. unfold nlNested. rewrite attrWalk_one; [| split; [discriminate | reflexivity] | rewrite slen_entries by done; lia].
    change (Z.land (Z.lor 8 nlaFNested) nlaTypeMask) with 8. cbn [foldl fst snd]. change (8 =? 8) with true. cbn [negb].
    apply scan_entries; [done | lia | lia]. }
  rewrite Sm, report_unique by done. by destruct (find _ l).
Qed.

(** ** The device request *)

Section Device.
Context `{Ed25519} (x_public : string -> option string) (x_private : string -> string) (big : bool).
Hypothesis x_public_size : forall pub x, x_public pub = Some x -> slen x = 32%nat.
Hypothesis x_private_size : forall k, slen (x_private k) = 32%nat.

(** What the kernel reads of one allowed prefix: family, address, length. *)
Definition reads_prefix (b : string) (p : Prefix) : Prop :=
  attrWalk big b = [(1, native big 2 AF_INET); (2, addr_bytes (pfx_addr p)); (3, be_bytes 1 (pfx_bits p))].

Lemma vip_bytes pub : exists b, VirtualIP pub = Addr4 b /\ slen b = 4%nat.
Proof. unfold VirtualIP. destruct (fold_host _ _). by eexists. Qed.

(** An interface carries one partner and one address.  The request that
    configures it, as the kernel reads it back, replaces the peers of the
    device by exactly one, whose key is the conversion of the partner's
    identity and whose allowed addresses are replaced by exactly the partner's
    virtual address, so nothing else of the overlay can be sent to it or come
    from it; the same single address is the only route. *)
Theorem device_carries_partner (ifName : string) (port : Z) (myPriv partnerPub : string) (ifindex : Z) (c : WgConfig) :
  0 < port < 65536 ->
  ConfigForPeer x_public x_private ifName port myPriv partnerPub None = Ok c ->
  exists peerX peers peer ips ip,
    x_public partnerPub = Some peerX /\
    attrWalk big (buildSetDeviceAttrs big ifindex c)
      = [(1, native big 4 ifindex); (5, native big 4 1); (3, x_private myPriv); (6, native big 2 port); (8, peers)] /\
    attrWalk big peers = [(0, peer)] /\
    attrWalk big peer = [(1, peerX); (3, native big 4 2); (5, native big 2 25); (9, ips)] /\
    attrWalk big ips = [(0, ip)] /\ reads_prefix ip (mkPrefix (VirtualIP partnerPub) 32) /\
    wc_Routes c = [mkPrefix (VirtualIP partnerPub) 32] /\ wc_IfName c = ifName.
Proof.
  intros Bp. unfold ConfigForPeer. destruct (x_public partnerPub) as [peerX |] eqn:Ex; [| done]. intros [= <-].
  destruct (vip_bytes partnerPub) as (vb & Ev & Lv). pose proof (x_public_size _ _ Ex) as Lx.
  set (ip := buildAllowedIP big (mkPrefix (VirtualIP partnerPub) 32)).
  assert (Li : slen ip = 24%nat).
  { unfold ip, buildAllowedIP, nlAttrU16, nlAttrU8. cbn [pfx_addr pfx_bits]. rewrite Ev. cbn [addr_bytes].
    rewrite !slen_app, !slen_nlAttr, slen_native, slen_be_bytes, Lv. reflexivity. }
  set (ips := nlNested big 0 ip ⊕ "").
  assert (Ls : slen ips = 28%nat) by (unfold ips, nlNested; rewrite slen_app, slen_nlAttr, Li; reflexivity).
  set (peer := nlAttr big 1 peerX ⊕ nlAttrU32 big 3 2 ⊕ "" ⊕ nlAttrU16 big 5 25 ⊕ nlNested big 9 ips).
  assert (Lp : slen peer = 84%nat).
  { unfold peer, nlAttrU32, nlAttrU16, nlNested. rewrite !slen_app, !slen_nlAttr, !slen_native, Lx, Ls. reflexivity. }
  exists peerX, (nlNested big 0 peer), peer, ips, ip. split_and!; try done.
  - unfold buildSetDeviceAttrs. cbn [wc_PrivateKey wc_ListenPort wc_Peer]. destruct (Z.ltb_spec 0 port); [| lia].
    change (buildPeer big _) with peer. unfold nlAttrU32, nlAttrU16, nlNested.
    rewrite attrWalk_cons by (first [ split; [done | reflexivity] | rewrite slen_native; reflexivity ]).
    rewrite attrWalk_cons by (first [ split; [done | reflexivity] | rewrite slen_native; reflexivity ]).
    rewrite attrWalk_cons by (first [ split; [done | reflexivity] | rewrite x_private_size; reflexivity ]).
    rewrite attrWalk_cons by (first [ split; [done | reflexivity] | rewrite slen_native; reflexivity ]).
    rewrite attrWalk_one by (first [ split; [done | reflexivity] | rewrite slen_nlAttr, Lp; reflexivity ]). done.
  - unfold nlNested. rewrite attrWalk_one by (first [ split; [done | reflexivity] | rewrite Lp; reflexivity ]). done.
  - unfold peer, nlAttrU32, nlAttrU16, nlNested. cbn [String.append].
    rewrite attrWalk_cons by (first [ split; [done | reflexivity] | rewrite Lx; reflexivity ]).
    rewrite attrWalk_cons by (first [ split; [done | reflexivity] | rewrite slen_native; reflexivity ]).
    rewrite attrWalk_cons by (first [ split; [done | reflexivity] | rewrite slen_native; reflexivity ]).
    rewrite attrWalk_one by (first [ split; [done | reflexivity] | rewrite Ls; reflexivity ]). done.
  - unfold ips, nlNested. rewrite attrWalk_cons by (first [ split; [done | reflexivity] | rewrite Li; reflexivity ]). done.
  - unfold reads_prefix, ip, buildAllowedIP, nlAttrU16, nlAttrU8. cbn [pfx_addr pfx_bits]. rewrite Ev. cbn [addr_bytes].
    rewrite attrWalk_cons by (first [ split; [done | reflexivity] | rewrite slen_native; reflexivity ]).
    rewrite attrWalk_cons by (first [ split; [done | reflexivity] | rewrite Lv; reflexivity ]).
    rewrite attrWalk_one by (first [ split; [done | reflexivity] | rewrite slen_be_bytes; reflexivity ]). done.
Qed.
End Device.

(** ** Stale virtual addresses *)

(** With every deletion taken, the virtual addresses left on the loopback are
    those to keep, other addresses are untouched, and the count is right. *)
Lemma reconcile_exact (keep have : list Addr) :
  let '(n, rest) := ReconcileStale keep have (fun _ => true) in
  (forall a, a ∈ rest <-> a ∈ have /\ (inVIPRange a = true -> a ∈ keep)) /\
  n = Z.of_nat (length have) - Z.of_nat (length rest).
Proof.
  unfold ReconcileStale. set (bad := fun a => negb (negb (inVIPRange a) || bool_decide (a ∈ keep))).
  assert (In' : forall (P : Addr -> bool) l a, a ∈ List.filter P l <-> a ∈ l /\ P a = true).
  { intros P l a. rewrite !list_elem_of_In. apply filter_In. }
  assert (B : forall a, bad a = true <-> inVIPRange a = true /\ a ∉ keep).
  { intros a. unfold bad. rewrite negb_true_iff, orb_false_iff, negb_false_iff, bool_decide_eq_false. done. }
  split.
  - intros a. rewrite In', andb_true_r, negb_true_iff, bool_decide_eq_false, In', B.
    destruct (decide (a ∈ keep)); [naive_solver |]. destruct (inVIPRange a); naive_solver.
  - assert (E : List.filter (fun _ : Addr => true) (List.filter bad have) = List.filter bad have)
      by (induction (List.filter bad have) as [| x l IH]; cbn; congruence).
    rewrite E. assert (S : List.filter (fun a => negb (bool_decide (a ∈ List.filter bad have) && true)) have = List.filter (fun a => negb (bad a)) have).
    { apply filter_ext_in. intros a I. f_equal. rewrite andb_true_r.
      destruct (bad a) eqn:Ba; [apply bool_decide_eq_true_2, In'; split; [by apply list_elem_of_In | done] |].
      apply bool_decide_eq_false_2. rewrite In', Ba. naive_solver. }
    rewrite S. clear. induction have as [| a have IH]; [done |]. cbn. destruct (bad a); cbn; lia.
Qed.

(** ** Examples *)

Module WgDemo.

Definition all_well : Faults := mkFaults false false false false false false false (fun _ => false) false.
Definition route_refused : Faults := mkFaults false false false false false false false (fun _ => true) false.

(** Neither the deletion of what an earlier run left nor anything else is taken. *)
Definition all_refused : Faults := mkFaults true true true true true true true (fun _ => true) true.

Definition vip4 (h l : Z) : Prefix :=
  mkPrefix (Addr4 (String (byte_of 10) (String (byte_of 66) (String (byte_of h) (String (byte_of l) ""))))) 32.

Definition key (n : Z) : string := be_bytes 32 n.

Definition demo_config : WgConfig :=
  mkWgConfig "bnet0" (key 7) 51820 (vip4 1 2) (mkWgPeer (key 9) None [vip4 3 4] 25) [vip4 3 4].

Definition host0 : Host := mkHost ∅ 3.

(** The host as an earlier run left it. *)
Definition host1 : Host := (Up all_well demo_config host0).2.

Lemma host0_wf : host_wf host0.
Proof. split; intros n *; cbn [host0 ho_links]; rewrite lookup_empty; discriminate. Qed.

Lemma up_all_or_nothing_witness :
  ho_links (Up all_well demo_config host0).2 !! "bnet0" = Some (configured demo_config host0) /\
  ho_links (Up route_refused demo_config host0).2 !! "bnet0" = None.
Proof.
  pose proof (up_all_or_nothing all_well demo_config host0 host0_wf) as T1.
  pose proof (up_all_or_nothing route_refused demo_config host0 host0_wf) as T2.
  assert (E1 : (Up all_well demo_config host0).1 = Ok 3) by reflexivity.
  assert (E2 : (Up route_refused demo_config host0).1 = Err None) by reflexivity.
  destruct (Up all_well demo_config host0) as [r1 h1], (Up route_refused demo_config host0) as [r2 h2]. cbn [fst snd] in *. subst.
  split; [apply T1 |]. destruct T2 as (_ & _ & T2). change (wc_IfName demo_config) with "bnet0" in T2.
  destruct (ho_links h2 !! "bnet0"); [| done]. by destruct T2 as [[? _] | [? _]].
Defined.

(** The error of the first deletion is ignored, so a failed start can leave the
    interface of an earlier run up, with its old peer. *)
Lemma stale_interface_survives :
  let '(res, h') := Up all_refused demo_config host1 in
  res = Err None /\ lk_up <$> (ho_links h' !! "bnet0") = Some true.
Proof. split; vm_compute; reflexivity. Qed.

Lemma handshake_is_partners_witness :
  Handshaked false (Ok 28) [device_reply false 28 1 [mkKPeer (key 1) 1700000000 5; mkKPeer (key 2) 0 0]] (key 2) = Ok None /\
  Handshaked false (Ok 28) [device_reply false 28 1 [mkKPeer (key 1) 1700000000 5; mkKPeer (key 2) 0 0]] (key 1) = Ok (Some (1700000000, 5)).
Proof.
  assert (F : Forall kpeer_ok [mkKPeer (key 1) 1700000000 5; mkKPeer (key 2) 0 0])
    by (repeat constructor; cbn; try lia; apply slen_be_bytes).
  assert (N : NoDup (kp_key <$> [mkKPeer (key 1) 1700000000 5; mkKPeer (key 2) 0 0]))
    by (apply (bool_decide_unpack _); vm_compute; exact I).
  split.
  - rewrite (handshake_is_partners false 28 1 _ (key 2)); [reflexivity | lia | exact F | exact N | cbn; lia].
  - rewrite (handshake_is_partners false 28 1 _ (key 1)); [reflexivity | lia | exact F | exact N | cbn; lia].
Defined.

#[local] Existing Instance Crypto.Toy.toy_ed.

Lemma device_carries_partner_witness :
  exists c peers, ConfigForPeer (fun _ => Some (key 9)) (fun _ => key 7) "bnet0" 51820 "me" "you" None = Ok c /\
    attrWalk false (buildSetDeviceAttrs false 3 c)
      = [(1, native false 4 3); (5, native false 4 1); (3, key 7); (6, native false 2 51820); (8, peers)] /\
    wc_Routes c = [mkPrefix (VirtualIP "you") 32].
Proof.
  destruct (ConfigForPeer (fun _ => Some (key 9)) (fun _ => key 7) "bnet0" 51820 "me" "you" None) as [c | e] eqn:E; [| done].
  destruct (device_carries_partner (fun _ => Some (key 9)) (fun _ => key 7) false
              (fun _ x H => match H in _ = o return match o with Some y => slen y = 32%nat | None => True end with eq_refl => slen_be_bytes 32 9 end)
              (fun _ => slen_be_bytes 32 7) "bnet0" 51820 "me" "you" 3 c ltac:(lia) E)
    as (x & peers & peer & ips & ip & _ & A & _ & _ & _ & _ & R & _).
  exists c, peers. done.
Defined.

(** The dump of the loopback's addresses is read eight bytes too far on: a
    message whose first attribute is the local address loses it. *)
Definition addr_reply (attrs : string) : list string :=
  [nlMessage false RTM_NEWADDR 2 1 (be_bytes 1 AF_INET ⊕ be_bytes 1 32 ⊕ zeros 2 ⊕ native false 4 1 ⊕ attrs)
   ⊕ nlMessage false NLMSG_DONE 2 1 (zeros 4)].

Lemma first_address_attribute_lost :
  let ip := addr_bytes (pfx_addr (vip4 1 2)) in
  listLoV4 false 1 (addr_reply (nlAttr false 2 ip ⊕ nlAttr false 3 "lo")) [] = Some [] /\
  listLoV4 false 1 (addr_reply (nlAttr false 1 ip ⊕ nlAttr false 2 ip)) [] = Some [pfx_addr (vip4 1 2)].
Proof. split; vm_compute; reflexivity. Qed.

End WgDemo.
