(* ===== verification/HostSetup.v ===== *)
(** * What a buddy changes on its host

    The loopback addresses of [internal/vip/bind_linux.go] as
    [internal/role/forward.go] takes and returns them, the registration of the
    [.buddy] names with the system resolver ([internal/dns/register.go]) and the
    outcome of the stub resolver ([internal/dns/server.go]). *)

From S2P Require Import Prelude NetAddr WgNetlink.

(** ** Addresses on the loopback *)

Definition Is4 (a : Addr) : bool := match a with Addr4 _ => true | Addr6 _ => false end.

Abbreviation Loopback := (list Addr).

Definition has (a : Addr) (lo : Loopback) : bool := bool_decide (a ∈ lo).

(** What the kernel answers: done, refused, or that there was nothing to do;
    [parseAck] folds the last into success. *)
Inductive Answer := Done | Refusal.

Definition add_addr (ans : Answer) (a : Addr) (lo : Loopback) : bool * Loopback :=
  match ans with Refusal => (false, lo) | Done => (true, if has a lo then lo else lo ++ [a]) end.

Definition del_addr (ans : Answer) (a : Addr) (lo : Loopback) : bool * Loopback :=
  match ans with Refusal => (false, lo) | Done => (true, List.filter (fun x => negb (bool_decide (x = a))) lo) end.

(** [Assign]: [found] is whether there is a loopback interface. *)
Definition Assign (found : bool) (ans : Answer) (a : Addr) (lo : Loopback) : bool * Loopback :=
  if negb (Is4 a) then (false, lo) else if negb found then (false, lo) else add_addr ans a lo.

(** The release closure, with its [released] flag. *)
Definition release (ans : Answer) (a : Addr) (s : bool * Loopback) : bool * Loopback :=
  let '(released, lo) := s in
  if released then (true, lo) else (true, (del_addr ans a lo).2).

(** [serveVIP] by its branches: the addresses while it serves, where it does,
    and those after it has returned. *)
Definition serveVIP (found listens : bool) (add del : Answer) (a : Addr) (lo : Loopback) : option Loopback * Loopback :=
  match Assign found add a lo with
  | (false, lo') => (None, lo')
  | (true, lo') => (if listens then Some lo' else None, (release del a (false, lo')).2)
  end.

(** ** The system resolver *)

(** What resolved holds for the loopback link. *)
Record Link := mkLink { lk_dns : option string; lk_domain : option string }.
Definition unset : Link := mkLink None None.

Definition stubAddr : string := "127.0.0.153:53".

Definition resolvectl_paths : list string := ["/usr/bin/resolvectl"; "/bin/resolvectl"; "/usr/sbin/resolvectl"; "/sbin/resolvectl"].

(** [findResolvectl]: [file] is a file at the path, [on_path] what [$PATH]
    finds. *)
Definition findResolvectl (file : string -> bool) (on_path : option string) : string :=
  match find file resolvectl_paths with Some p => p | None => default "" on_path end.

Inductive ResolveCmd := SetDNS (ip : string) | SetDomain (d : string) | Revert.

(** One run of the program. *)
Definition resolvectl (path : string) (ok : bool) (c : ResolveCmd) (l : Link) : bool * Link :=
  if String.eqb path "" || negb ok then (false, l)
  else (true, match c with SetDNS ip => mkLink (Some ip) (lk_domain l) | SetDomain d => mkLink (lk_dns l) (Some d) | Revert => unset end).

Definition resolvectlAdd (path : string) (ok1 ok2 : bool) (l : Link) : bool * Link :=
  match resolvectl path ok1 (SetDNS (take_s 11 stubAddr)) l with
  | (false, l1) => (false, l1)
  | (true, l1) => resolvectl path ok2 (SetDomain "~buddy") l1
  end.

Definition resolvectlRemove (path : string) (ok : bool) (l : Link) : bool * Link := resolvectl path ok Revert l.

(** [RegisterSystem]: the link while the buddy runs and after its context
    ended. *)
Definition RegisterSystem (path : string) (ok1 ok2 ok3 : bool) (l : Link) : Link * Link :=
  match resolvectlAdd path ok1 ok2 l with
  | (false, l1) => (l1, l1)
  | (true, l1) => (l1, (resolvectlRemove path ok3 l1).2)
  end.

(** ** The stub resolver *)

Inductive BindErr := EACCES | EPERM | OtherErr.

Definition isPermissionError (e : option BindErr) : bool := match e with Some EACCES | Some EPERM => true | _ => false end.

(** What [Run]'s select sees first, and its result with the servers it shuts
    down; [None] is a server that returned without an error. *)
Inductive FirstReady := UDPReturned (e : option BindErr) | TCPReturned (e : option BindErr) | ContextDone.
Inductive DNSServer := UDPServer | TCPServer.

Definition Run (r : FirstReady) : option BindErr * list DNSServer :=
  match r with
  | UDPReturned e => (if isPermissionError e then None else e, [TCPServer])
  | TCPReturned e => (if isPermissionError e then None else e, [UDPServer])
  | ContextDone => (None, [UDPServer; TCPServer])
  end.

(** ** What is left behind *)

Lemma has_spec a lo : has a lo = true <-> a ∈ lo.
Proof. unfold has. apply bool_decide_eq_true. Qed.

Lemma del_elem a b lo : a ∈ (del_addr Done b lo).2 <-> a ∈ lo /\ a <> b.
Proof.
  cbn [del_addr snd]. rewrite !list_elem_of_In, filter_In. split; intros [I D]; (split; [done |]).
  - by apply negb_true_iff, bool_decide_eq_false in D.
  - by apply negb_true_iff, bool_decide_eq_false.
Qed.

(** A buddy takes back what it put on the host.  A virtual address is on the
    loopback exactly while its listener can run: on every branch (no loopback,
    no permission, a port that is taken, the end of the session) the other
    addresses are untouched throughout, the address is there while it serves,
    and none of it is left afterwards where the kernel accepts the removal;
    releasing twice removes once.  A registration with the resolver that
    succeeded routes the names to the stub and is gone after the end. *)
Theorem host_left_clean found listens add a lo serving after :
  serveVIP found listens add Done a lo = (serving, after) ->
  (forall b, b <> a -> b ∈ after <-> b ∈ lo) /\
  (forall l, serving = Some l -> a ∈ l /\ forall b, b <> a -> b ∈ l <-> b ∈ lo) /\
  (Is4 a = true -> found = true -> add = Done -> a ∉ after) /\
  (forall ans s, release ans a (release ans a s) = release ans a s) /\
  forall path ok1 ok2 l, (resolvectlAdd path ok1 ok2 l).1 = true ->
    RegisterSystem path ok1 ok2 true l = (mkLink (Some "127.0.0.153") (Some "~buddy"), unset).
Proof.
  assert (Add : forall b lo', (true, lo') = add_addr Done a lo -> (a ∈ lo') /\ (b <> a -> b ∈ lo' <-> b ∈ lo)).
  { intros b lo' [= ->]. destruct (has a lo) eqn:E; [apply has_spec in E; done |]. set_solver. }
  intros S. split_and!.
  - intros b Hb. revert S. unfold serveVIP, Assign. destruct (Is4 a); [| by intros [= _ <-]]. destruct found; [| by intros [= _ <-]]. cbn [negb].
    destruct add; [| by intros [= _ <-]]. destruct (add_addr Done a lo) as [ok lo'] eqn:E. assert (ok = true) as -> by (by injection E).
    intros S'. assert (after = (del_addr Done a lo').2) as -> by (by injection S'). rewrite del_elem. destruct (Add b lo') as [_ A]; [done |]. rewrite A by done. naive_solver.
  - intros l ->. revert S. unfold serveVIP, Assign. destruct (Is4 a); [| done]. destruct found; [| done]. cbn [negb].
    destruct add; [| done]. destruct (add_addr Done a lo) as [ok lo'] eqn:E. assert (ok = true) as -> by (by injection E).
    destruct listens; [| done]. intros [= <- _]. split; [exact (proj1 (Add a _ eq_refl)) |]. intros b. exact (proj2 (Add b _ eq_refl)).
  - intros I -> ->. revert S. unfold serveVIP, Assign. rewrite I. cbn [negb]. destruct (add_addr Done a lo) as [ok lo'] eqn:E.
    assert (ok = true) as -> by (by injection E). intros S'. assert (after = (del_addr Done a lo').2) as -> by (by injection S'). rewrite del_elem. naive_solver.
  - intros ans [released lo0]. cbn. by destruct released.
  - intros path ok1 ok2 l. unfold RegisterSystem, resolvectlAdd, resolvectlRemove, resolvectl.
    destruct (String.eqb path ""); [done |]. destruct ok1; [| done]. by destruct ok2.
Qed.

Module HostDemo.
Definition buddy_ip : Addr := Addr4 (String (byte_of 10) (String (byte_of 66) (String (byte_of 1) (String (byte_of 2) "")))).
Definition localhost : Addr := Addr4 (String (byte_of 127) (String (byte_of 0) (String (byte_of 0) (String (byte_of 1) "")))).

Lemma host_left_clean_witness :
  serveVIP true true Done Done buddy_ip [localhost] = (Some [localhost; buddy_ip], [localhost]) /\ buddy_ip ∉ [localhost] /\
  RegisterSystem "/usr/bin/resolvectl" true true true unset = (mkLink (Some "127.0.0.153") (Some "~buddy"), unset).
Proof.
  destruct (host_left_clean true true Done buddy_ip [localhost] (Some [localhost; buddy_ip]) [localhost]) as (_ & _ & G & _ & R);
    [vm_compute; reflexivity |].
  split; [vm_compute; reflexivity |]. split; [apply G; reflexivity | apply R; reflexivity].
Defined.

(** Two users of one address: the release of the first takes it from the
    second, although both were told it is theirs. *)
Lemma old_release_takes_new :
  let '(ok1, lo1) := Assign true Done buddy_ip [localhost] in
  let '(ok2, lo2) := Assign true Done buddy_ip lo1 in
  ok1 = true /\ ok2 = true /\ (release Done buddy_ip (false, lo2)).2 = [localhost].
Proof. vm_compute. split_and!; reflexivity. Qed.

(** Where only the second call fails, the first is not undone: every query of
    the host now may go to a resolver that answers nothing else, and nothing
    reverts it later. *)
Lemma half_registration_stays :
  RegisterSystem "/usr/bin/resolvectl" true false true unset = (mkLink (Some "127.0.0.153") None, mkLink (Some "127.0.0.153") None).
Proof. reflexivity. Qed.

(** Without one of the four fixed paths the search path decides after all. *)
Lemma search_path_decides : findResolvectl (fun _ => false) (Some "/tmp/resolvectl") = "/tmp/resolvectl".
Proof. reflexivity. Qed.
End HostDemo.
