(* ===== verification/Punch.v ===== *)
(** * Hole punching

    [internal/tunnel/nat.go]: a datagram to every candidate of the partner, and the
    address a partner's datagram comes from is a path.  What the punch returns is
    a place to try, never an identity: the transport above pins the key. *)

From S2P Require Import Prelude NetAddr Protocol.

Definition punchPrefix : string := "BNPNCH1".

Section Punch.
(** [net.ResolveUDPAddr] on a candidate. *)
Context (resolve : string -> option UDPAddr).

Definition targets (cands : list Candidate) : list UDPAddr := omap (fun c => resolve (c_Addr c)) cands.

(** One datagram read before the deadline. *)
Definition note_reply (reachable : gmap string UDPAddr) (e : UDPAddr * string) : gmap string UDPAddr :=
  let buf := take_s 1500 e.2 in
  if has_prefix punchPrefix buf then <[UDPAddr_String e.1 := e.1]> reachable else reachable.

(** The choice, in the order the map is walked: the first IPv6 address, else the
    last IPv4 one. *)
Fixpoint pick (v4 : option UDPAddr) (walk : list UDPAddr) : option UDPAddr :=
  match walk with
  | [] => v4
  | a :: r => match To4 (IPof a) with None => Some a | Some _ => pick (Some a) r end
  end.

(** [Punch]: what is sent to whom in each round, and the path; [walk] is the
    order in which the addresses heard from are visited. *)
Definition Punch (myID : string) (cands : list Candidate) (replies : list (UDPAddr * string)) (walk : gmap string UDPAddr -> list UDPAddr)
    : list (UDPAddr * string) * option UDPAddr :=
  match targets cands with
  | [] => ([], None)
  | ts => ((fun a => (a, punchPrefix ⊕ myID)) <$> ts, pick None (walk (foldl note_reply ∅ replies)))
  end.

Lemma heard_from replies m0 k a :
  foldl note_reply m0 replies !! k = Some a -> m0 !! k = Some a \/ exists d, (a, d) ∈ replies /\ has_prefix punchPrefix (take_s 1500 d) = true.
Proof.
  revert m0. induction replies as [| [b d] r IH]; intros m0 L; [by left |]. cbn [foldl] in L. apply IH in L as [L | (d' & I & P)].
  - unfold note_reply in L. cbn [fst snd] in L. destruct (has_prefix punchPrefix (take_s 1500 d)) eqn:P; [| by left].
    apply lookup_insert_Some in L as [[_ <-] | [_ L]]; [right; exists d; split; [apply list_elem_of_here | done] | by left].
  - right. exists d'. split; [by apply list_elem_of_further | done].
Qed.

Lemma pick_from v4 l : match pick v4 l with
  | Some a => (a ∈ l /\ (To4 (IPof a) = None \/ Forall (fun b => To4 (IPof b) <> None) l)) \/ (v4 = Some a /\ Forall (fun b => To4 (IPof b) <> None) l)
  | None => v4 = None /\ l = [] end.
Proof.
  revert v4. induction l as [| b l IH]; intros v4; cbn [pick]; [destruct v4; [right; by split | done] |].
  destruct (To4 (IPof b)) eqn:E; [| left; split; [apply list_elem_of_here | by left]].
  specialize (IH (Some b)). destruct (pick (Some b) l) as [a |]; [| by destruct IH].
  assert (N : To4 (IPof b) <> None) by congruence. left. destruct IH as [[I [V | F]] | [[= <-] F]].
  - split; [by apply list_elem_of_further | by left].
  - split; [by apply list_elem_of_further | right; by constructor].
  - split; [apply list_elem_of_here | right; by constructor].
Qed.

(** A punch sends to the candidates only and returns only an address a punch
    datagram came from; IPv6 wins over IPv4; and it finds a path exactly when
    some address was heard from. *)
Theorem punch_is_heard (myID : string) (cands : list Candidate) (replies : list (UDPAddr * string)) (walk : gmap string UDPAddr -> list UDPAddr) :
  (forall m, walk m ≡ₚ (map_to_list m).*2) ->
  let '(sent, r) := Punch myID cands replies walk in
  (forall a d, (a, d) ∈ sent -> (exists c, c ∈ cands /\ resolve (c_Addr c) = Some a) /\ d = punchPrefix ⊕ myID) /\
  match r with
  | Some a => (exists d, (a, d) ∈ replies /\ has_prefix punchPrefix (take_s 1500 d) = true) /\
              (To4 (IPof a) = None \/ forall k b, foldl note_reply ∅ replies !! k = Some b -> To4 (IPof b) <> None)
  | None => targets cands = [] \/ foldl note_reply ∅ replies = ∅
  end.
Proof.
  intros Pw. unfold Punch. destruct (targets cands) as [| t ts] eqn:Et; [split; [by intros a d ?%not_elem_of_nil | by left] |].
  set (m := foldl note_reply ∅ replies). split.
  - intros a d (x & [= -> ->] & I)%list_elem_of_fmap. split; [| done]. rewrite <- Et in I. unfold targets in I.
    by apply list_elem_of_omap in I.
  - assert (E : forall a, a ∈ walk m <-> exists k, m !! k = Some a).
    { intros a. rewrite (Pw m), list_elem_of_fmap. split.
      - intros ([k b] & -> & I). exists k. by apply elem_of_map_to_list in I.
      - intros [k L]. exists (k, a). split; [done |]. by apply elem_of_map_to_list. }
    pose proof (pick_from None (walk m)) as K. destruct (pick None (walk m)) as [a |].
    + destruct K as [[I V] | [? _]]; [| done]. apply E in I as [k L]. split.
      * apply heard_from in L as [L | H]; [by rewrite lookup_empty in L | done].
      * destruct V as [V | F]; [by left |]. right. intros k' b Lb. rewrite Forall_forall in F. apply F, E. eauto.
    + destruct K as [_ Ew]. right. apply map_empty. intros k. destruct (m !! k) as [a |] eqn:L; [| done].
      assert (I : a ∈ walk m) by (apply E; eauto). rewrite Ew in I. by apply not_elem_of_nil in I.
Qed.
End Punch.
