(* ===== verification/Connect.v ===== *)
(** * One connection attempt

    [internal/role/connect.go] and [wgpath.go]: from the attempt the reconnect
    loop chose to a tunnel, the trust decisions on the way and what is written
    to disk at the end.  The network, the terminal, the kernel and the clock
    are the [World] of the attempt. *)

From S2P Require Import Prelude Base64 Sha256 Json NetAddr NetParse Crypto Protocol RelayWire HsRegistry Authz AuthzFile TrustStore Sas Scope Register PeerCache LocalTrust Wg Manifest Supervisor.

(** ** The world of an attempt *)

(** A session: where it comes from and its exported keying material. *)
Record Session := mkSession { se_remote : string; se_ekm : string -> string -> option string }.

(** What happens on the socket while a binding message is awaited: a read that
    times out or fails, or a datagram. *)
Inductive SockEvent := Quiet | Datagram (src : UDPAddr) (data : string).

Record World := mkWorld {
  wd_now : Z;
  wd_socket : bool;
  wd_eph : option string;
  wd_resolved : bool; wd_dialled : bool; wd_polls : list Poll;
  wd_punch : list Candidate -> option UDPAddr;
  wd_resolve : string -> option UDPAddr;
  wd_bindleg : UDPAddr -> string -> option BindCred -> bool;
  (* a QUIC transport pinned to a key, on a path *)
  wd_listen : string -> Path -> option Session;
  wd_listen_all : string -> option Session;
  wd_dial : string -> string -> Path -> option Session;
  wd_typed : Read;
  wd_lock : bool; wd_io : bool;
  (* kernel WireGuard *)
  wd_wg : bool;
  wd_bind_rand : option string; wd_bind_sends : list bool; wd_bind_events : list SockEvent;
  wd_nft : string -> Scope -> bool;
  wd_port : Z;
  wd_closed : bool;
  wd_kernel : WgConfig -> bool;
  wd_handshakes : list (result unit Z);
}.

Record BuddyState := mkState {
  bs_trust : TrustState; bs_reg : Registry; bs_cache : CacheFile; bs_latch : gset string;
}.

(** What this process is: its keys and policy. *)
Record Node := mkNodeC { nc_node : node; nc_cfg : BuddyConfig; nc_policy : trustPolicy }.

Inductive ConnErr :=
| SocketFailed | CredFailed | DirectFailed (e : DirectErr) | OwnKeyPinned | RegisterFailed (e : RegErr)
| PartnerKey (e : DecodeErr) | SameIdentity | PinRefused (e : PinErr) | TrustRefused (e : TrustErr) | VIPMismatch
| NoFreshCache | EmptyChain | NoSession (relay_tried : bool) | CannotVerify | NoBinding | SASFailed (e : SASErr) (relayed_note : bool)
| ConfirmFailed (e : StoreErr) | SecretFailed | PersistFailed (e : StoreErr)
| WGUnavailable | WGPath | WGScope | WGUp | WGHandshake.

(** ** Paths *)

Section Paths.
Context (w : World).

Definition primeOne (p : Path) (session : string) (cred : option relayCred) : option (option UDPAddr) :=
  match pt_Kind p with
  | Direct => Some <$> wd_punch w (pt_Candidates p)
  | Configured => if String.eqb (pt_Endpoint p) "" then Some None else Some <$> wd_resolve w (pt_Endpoint p)
  | Relayed =>
      match wd_resolve w (pt_RelayEndpoint p) with
      | None => None
      | Some a => if wd_bindleg w a session (bindCred cred) then Some (Some a) else None
      end
  end.

Definition primePath (p : Path) (session : string) (cred : option relayCred) : option string :=
  addr ← primeOne p session cred; Some (match addr with None => "" | Some a => UDPAddr_String a end).

Definition noPathAdvice (chain : list Path) : bool :=
  existsb (fun p => match pt_Kind p with Relayed => true | _ => false end) chain.

(** The paths in turn; the first that yields a session wins. *)
Fixpoint dial_loop (pin : string) (listening : bool) (session : string) (cred : option relayCred) (ps : list Path)
    : option (Session * Path) :=
  match ps with
  | [] => None
  | p :: rest =>
      match primePath p session cred with
      | None => dial_loop pin listening session cred rest
      | Some endpoint =>
          match (if listening then wd_listen w pin p else wd_dial w pin endpoint p) with
          | Some sess => Some (sess, p)
          | None => dial_loop pin listening session cred rest
          end
      end
  end.

Definition dialChain (pin : string) (listening : bool) (session : string) (cred : option relayCred) (chain : list Path)
    : result ConnErr (Session * Path) :=
  match dial_loop pin listening session cred chain with
  | Some r => Ok r
  | None => Err (NoSession (noPathAdvice chain))
  end.

(** Arming every path: the endpoints that have one, and whether any path failed. *)
Definition arm_step (session : string) (cred : option relayCred) (acc : gmap string Path * bool) (p : Path)
    : gmap string Path * bool :=
  match primeOne p session cred with
  | None => (acc.1, true)
  | Some None => acc
  | Some (Some a) => (<[UDPAddr_String a := p]> acc.1, acc.2)
  end.

Definition zero_path : Path := mkPath Direct "" [] "" "".

Definition listenAllPaths (pin : string) (session : string) (cred : option relayCred) (chain : list Path)
    : result ConnErr (Session * Path) :=
  let '(primed, failed) := foldl (arm_step session cred) (∅, false) chain in
  if bool_decide (primed = ∅) && failed && (1 <? length chain)%nat then Err (NoSession (noPathAdvice chain))
  else match wd_listen_all w pin with
       | None => Err (NoSession (noPathAdvice chain))
       | Some sess => Ok (sess, default (default zero_path (head chain)) (primed !! se_remote sess))
       end.

(** The WireGuard twins. *)
Definition armWGPaths (session : string) (cred : option relayCred) (chain : list Path) : result ConnErr Path :=
  let ok := existsb (fun p => bool_decide (is_Some (primeOne p session cred))) chain in
  if negb ok && negb (length chain =? 0)%nat then Err WGPath else Ok (default zero_path (head chain)).

Fixpoint primeWGPath (session : string) (cred : option relayCred) (chain : list Path) : result ConnErr (option UDPAddr * Path) :=
  match chain with
  | [] => Err WGPath
  | p :: rest => match primeOne p session cred with Some a => Ok (a, p) | None => primeWGPath session cred rest end
  end.
End Paths.

(** ** The binding over a datagram path *)

Definition bindFramePrefix : string := "BNBIND1".

(** [net.IP.Equal]: a four-byte address equals its IPv4-mapped form. *)
Definition IP_Equal (a b : IP) : bool :=
  if (slen a =? slen b)%nat then String.eqb a b
  else if (slen a =? 4)%nat && (slen b =? 16)%nat then String.eqb (v4_in_6 ⊕ a) b
  else if (slen a =? 16)%nat && (slen b =? 4)%nat then String.eqb a (v4_in_6 ⊕ b)
  else false.

Definition udpAddrEqual (a b : UDPAddr) : bool := (NetAddr.Port a =? NetAddr.Port b) && IP_Equal (IPof a) (IPof b).

(** One datagram as a binding message, if it is one of the partner's; the read
    buffer holds 1500 bytes. *)
Definition frame_of (remote : UDPAddr) (e : SockEvent) : option string :=
  match e with
  | Quiet => None
  | Datagram src data =>
      let buf := take_s 1500 data in
      if negb (udpAddrEqual src remote) then None
      else if negb (has_prefix bindFramePrefix buf) then None else Some (drop_s (slen bindFramePrefix) buf)
  end.

(** The messages received before the deadline, then the timeout. *)
Definition frames (remote : UDPAddr) (es : list SockEvent) : list (option string) := (Some <$> omap (frame_of remote) es) ++ [None].

(** What one [recv] sends again, and the events after the message it returns. *)
Fixpoint retransmits (remote : UDPAddr) (last : option string) (es : list SockEvent) : list string * list SockEvent :=
  match es with
  | [] => ([], [])
  | e :: r =>
      match frame_of remote e with
      | Some _ => ([], r)
      | None =>
          let '(sent, rest) := retransmits remote last r in
          (match e, last with Quiet, Some m => m :: sent | _, _ => sent end, rest)
      end
  end.

Section Binding.
Context `{X25519}.

(** The binding, and every datagram sent for it. *)
Definition runBindingOverConn (remote : UDPAddr) (committer : bool) (rand : option string) (sends : list bool) (es : list SockEvent)
    : list string * result BindErr string :=
  let '(sent, r) := RunBinding committer rand (mkWire sends (frames remote es)) in
  let framed := (fun m => bindFramePrefix ⊕ m) <$> sent in
  (match framed with
   | [] => []
   | m :: rest =>
       if committer then m :: (retransmits remote (Some m) es).1 ++ rest
       else m :: (retransmits remote (Some m) (retransmits remote None es).2).1 ++ rest
   end, r).
End Binding.

(** ** Exposure *)

Definition effectiveScopeOf (global perBuddy : option Scope) : Scope :=
  match perBuddy with Some s => s | None => match global with Some s => s | None => mkScope false [] end end.

Definition effectiveScope (global : option Scope) (att : attempt) : Scope := effectiveScopeOf global (at_expose att).

Definition wgIfName (ifIndex : nat) : string := "bnet" ⊕ itoa (Z.of_nat ifIndex).

(** The rules are programmed for every scope, before the interface exists. *)
Definition applyScope (w : World) (ifName : string) (scope : Scope) : bool := wd_nft w ifName scope.

(** ** The attempt *)

Section Connect.
Context `{Ed25519} `{Box} `{X25519} (merged : string -> option Message)
        (norm_unicode lower_unicode : string -> string)
        (dh : string -> string -> option string) (hkdf : string -> string -> string)
        (x_public : string -> option string) (x_private : string -> string).

(** What the run knows of its partner: the peer, the cache entry it came from,
    whether a first contact has to be verified, and the relay credential. *)
Record Found := mkFound { fd_partner : Peer; fd_cached : option Peer; fd_needSAS : bool; fd_cred : relayCred }.

(** The pins this node holds, or else its trust policy, on a decoded key. *)
Definition check_trust (nd : Node) (st : BuddyState) (att : attempt) (partnerPub : string) : result ConnErr bool :=
  match at_pin att with
  | Some _ => match enforcePins (at_pin att) (at_cfgPin att) partnerPub with Some e => Err (PinRefused e) | None => Ok false end
  | None => match decide_trust (nc_policy nd) (ts_revoked (bs_trust st)) (ts_known (bs_trust st)) (at_inviteToken att) partnerPub with
            | Err e => Err (TrustRefused e)
            | Ok b => Ok b
            end
  end.

Definition checkPartnerVIP (partner : Peer) (partnerPub : string) : bool :=
  String.eqb (p_VirtualIP partner) "" || String.eqb (p_VirtualIP partner) (VirtualIPString partnerPub).

(** A partner the server vouched for. *)
Definition vouched (nd : Node) (st : BuddyState) (att : attempt) (partner : Peer) (cred : relayCred) : result ConnErr Found :=
  match DecodePubKey (p_PubKey partner) with
  | Err e => Err (PartnerKey e)
  | Ok partnerPub =>
      if String.eqb (p_PubKey partner) (nd_pub (nc_node nd)) then Err SameIdentity
      else
        let? needSAS := check_trust nd st att partnerPub in
        if negb (checkPartnerVIP partner partnerPub) then Err VIPMismatch
        else Ok (mkFound partner None needSAS cred)
  end.

Definition day : Z := 24 * 3600 * second.

Definition usable_entry (now : Z) (c : Peer) : bool :=
  Fresh now day c && match checkRosterPeer c with None => true | Some _ => false end.

(** The server gave nothing: the first fresh entry of the cache. *)
Definition from_cache (w : World) (nd : Node) (st : BuddyState) (att : attempt) (cred : relayCred) : result ConnErr Found :=
  match find (usable_entry (wd_now w)) (reg_list (bs_reg st)) with
  | None => Err NoFreshCache
  | Some c =>
      match DecodePubKey (p_PubKey c) with
      | Err e => Err (PartnerKey e)
      | Ok partnerPub =>
          let? needSAS := check_trust nd st att partnerPub in Ok (mkFound c (Some c) needSAS cred)
      end
  end.

(** Where the partner comes from. *)
Definition find_partner (w : World) (cfg : ConnConfig) (nd : Node) (st : BuddyState) (att : attempt) (cred : relayCred)
    : result ConnErr Found :=
  if cc_Direct cfg then
    match directPartner cfg with
    | Err e => Err (DirectFailed e)
    | Ok partner =>
        if String.eqb (p_PubKey partner) (nd_pub (nc_node nd)) then Err OwnKeyPinned
        else Ok (mkFound partner None false cred)
    end
  else if wd_resolved w then
    match (buddyRegister merged (wd_dialled w) (nc_cfg nd) (nc_node nd) (at_rendezvous att) (Some cred) (wd_polls w)).1 with
    | Err e => Err (RegisterFailed e)
    | Ok (partner, rt) =>
        let cred := match adopt (Some cred) rt with Ok c => c | Err _ => cred end in
        if String.eqb (p_PubKey partner) "" then from_cache w nd st att cred else vouched nd st att partner cred
    end
  else from_cache w nd st att cred.

(** The chain of paths, and the values skipped so far. *)
Definition plan_paths (cfg : ConnConfig) (f : Found) (latch : gset string) : list Path * gset string :=
  let offer := trustedRelay lower_unicode (cc_PeerRelay cfg) (cc_Server cfg) (p_Relay (fd_partner f)) in
  (if cc_Direct cfg then DirectChain (cc_PeerEndpoint cfg) (cc_PeerRelay cfg)
   else Chain (fd_partner f) [] (ro_endpoint offer) (fd_cached f),
   (noteSkipped offer latch).2).

Definition sasLabel : string := "buddynet-sas-v1".

(** The code check of a first contact over the binding value [sid]. *)
Definition first_contact (w : World) (nd : Node) (att : attempt) (partnerPub : string) (sid : option string) (show relayed : bool)
    (t : TrustState) : result ConnErr TrustState :=
  match sid with
  | None => Err NoBinding
  | Some ekm =>
      let sas := ComputeSAS (pub_of (nd_priv (nc_node nd))) partnerPub ekm in
      if show then Ok t
      else match PromptSAS norm_unicode sas (wd_typed w) with
           | Err e => Err (SASFailed e relayed)
           | Ok _ => match confirm (nc_policy nd) (wd_lock w) (at_inviteToken att) partnerPub t with
                     | Err e => Err (ConfirmFailed e)
                     | Ok t' => Ok t'
                     end
           end
  end.

Definition is_relayed (p : Path) : bool := match pt_Kind p with Relayed => true | _ => false end.

Definition with_trust (st : BuddyState) (t : TrustState) : BuddyState := mkState t (bs_reg st) (bs_cache st) (bs_latch st).

Definition remember (w : World) (p : Peer) (st : BuddyState) : BuddyState :=
  let '(r, f) := rememberPeer (unix (wd_now w)) (wd_io w) p (bs_reg st) (bs_cache st) in
  mkState (bs_trust st) r f (bs_latch st).

(** What a first pairing leaves behind: the session line of the partner. *)
Definition store_session (w : World) (nd : Node) (att : attempt) (partner : Peer) (secret : option string) (st : BuddyState)
    : result ConnErr unit * BuddyState :=
  if negb (at_firstPairing att) then (Ok tt, st)
  else match secret with
       | None => (Err SecretFailed, st)
       | Some s =>
           match saveSession (tp_store (nc_policy nd)) (wd_lock w) (at_inviteToken att) (p_PubKey partner) s (bs_trust st) with
           | Err e => (Err (PersistFailed e), st)
           | Ok t => (Ok tt, with_trust st t)
           end
       end.

(** The code check, where this attempt needs or shows one. *)
Definition verify_partner (w : World) (cfg : ConnConfig) (nd : Node) (att : attempt) (f : Found) (partnerPub : string)
    (sid : option string) (relayed : bool) (st : BuddyState) : result ConnErr unit * BuddyState :=
  let showOnly := negb (fd_needSAS f) && cc_SASShow cfg && at_firstPairing att in
  if negb (fd_needSAS f || showOnly) then (Ok tt, st)
  else if fd_needSAS f && negb (cc_Interactive cfg) then (Err CannotVerify, st)
  else match first_contact w nd att partnerPub sid showOnly relayed (bs_trust st) with
       | Err e => (Err e, st)
       | Ok t => (Ok tt, with_trust st t)
       end.

(** The QUIC data plane, up to the tunnel being up. *)
Definition runQUIC (w : World) (cfg : ConnConfig) (nd : Node) (att : attempt) (f : Found) (partnerPub : string)
    (chain : list Path) (session : string) (st : BuddyState) : result ConnErr Path * BuddyState :=
  let partner := fd_partner f in
  let myPub := nd_pub (nc_node nd) in
  let listening := if cc_Direct cfg then directListening cfg myPub (p_PubKey partner) else str_ltb myPub (p_PubKey partner) in
  match (if cc_Direct cfg && listening then listenAllPaths w partnerPub session (Some (fd_cred f)) chain
         else dialChain w partnerPub listening session (Some (fd_cred f)) chain) with
  | Err e => (Err e, st)
  | Ok (sess, used) =>
      match verify_partner w cfg nd att f partnerPub (se_ekm sess sasLabel "") (is_relayed used) st with
      | (Err e, st1) => (Err e, st1)
      | (Ok _, st1) =>
          let st2 := remember w partner st1 in
          match store_session w nd att partner (deriveSessionSecret (se_ekm sess) (pub_of (nd_priv (nc_node nd))) partnerPub) st2 with
          | (Err e, st3) => (Err e, st3)
          | (Ok _, st3) => (Ok used, st3)
          end
      end
  end.

(** [bringUpWGDirect]: the socket is handed to the kernel. *)
Definition bringUpWGDirect (w : World) (ifName : string) (myPriv partnerPub : string) (remote : option (Addr * Z)) : option WgErr :=
  match ConfigForPeer x_public x_private ifName (wd_port w) myPriv partnerPub remote with
  | Err e => Some e
  | Ok cfg =>
      if negb (wd_closed w) then Some KernelErr
      else match validate cfg with Some e => Some e | None => if wd_kernel w cfg then None else Some KernelErr end
  end.

(** [remote.AddrPort()], an IPv4-mapped address unmapped. *)
Definition endpoint_of (a : UDPAddr) : option (Addr * Z) :=
  ip ← AddrFromSlice (IPof a); Some (Unmap ip, NetAddr.Port a).

(** The kernel WireGuard data plane, up to the tunnel being up. *)
Definition runWG (w : World) (cfg : ConnConfig) (global : option Scope) (nd : Node) (att : attempt) (f : Found)
    (partnerPub : string) (chain : list Path) (session : string) (st : BuddyState) : result ConnErr Path * BuddyState :=
  let partner := fd_partner f in
  let myPub := nd_pub (nc_node nd) in
  if negb (wd_wg w) then (Err WGUnavailable, st)
  else match (if cc_Direct cfg && directListening cfg myPub (p_PubKey partner)
              then match armWGPaths w session (Some (fd_cred f)) chain with Ok p => Ok (None, p) | Err e => Err e end
              else primeWGPath w session (Some (fd_cred f)) chain) with
  | Err e => (Err e, st)
  | Ok (remote, used) =>
      let sid :=
        match remote with
        | None => None
        | Some r =>
            match (runBindingOverConn r (str_ltb myPub (p_PubKey partner)) (wd_bind_rand w) (wd_bind_sends w) (wd_bind_events w)).2 with
            | Ok b => Some b | Err _ => None
            end
        end in
      match verify_partner w cfg nd att f partnerPub sid false st with
      | (Err e, st1) => (Err e, st1)
      | (Ok _, st1) =>
          let secret := RawURL.EncodeToString <$> PairSecret dh hkdf (nd_priv (nc_node nd)) (pub_of (nd_priv (nc_node nd))) partnerPub in
          if at_firstPairing att && negb (bool_decide (is_Some secret)) then (Err SecretFailed, st1)
          else
            let ifName := wgIfName (at_ifIndex att) in
            if negb (applyScope w ifName (effectiveScope global att)) then (Err WGScope, st1)
            else match bringUpWGDirect w ifName (nd_priv (nc_node nd)) partnerPub (remote ≫= endpoint_of) with
                 | Some _ => (Err WGUp, st1)
                 | None =>
                     match (ConfirmHandshake x_public partnerPub (wd_handshakes w)).2 with
                     | Err _ => (Err WGHandshake, st1)
                     | Ok _ =>
                         match store_session w nd att partner secret (remember w partner st1) with
                         | (Err e, st3) => (Err e, st3)
                         | (Ok _, st3) => (Ok used, st3)
                         end
                     end
                 end
      end
  end.

(** [buddyRun], up to the tunnel being up; on the way out a failed attempt in
    lazy mode reports its error to the waiting connections. *)
Definition buddyRun (w : World) (cfg : ConnConfig) (global : option Scope) (nd : Node) (att : attempt) (st : BuddyState)
    : result ConnErr Path * BuddyState :=
  if negb (wd_socket w) then (Err SocketFailed, st)
  else match wd_eph w with
  | None => (Err CredFailed, st)
  | Some eph =>
      match find_partner w cfg nd st att (newRelayCred eph) with
      | Err e => (Err e, st)
      | Ok f =>
          match DecodePubKey (p_PubKey (fd_partner f)) with
          | Err e => (Err (PartnerKey e), st)
          | Ok partnerPub =>
              let '(chain, latch) := plan_paths cfg f (bs_latch st) in
              let st1 := mkState (bs_trust st) (bs_reg st) (bs_cache st) latch in
              match chain with
              | [] => (Err EmptyChain, st1)
              | _ =>
                  let sess := Register.session (sessionToken (at_rendezvous att) (nd_pub (nc_node nd)) (p_PubKey (fd_partner f)))
                                (Some (fd_cred f)) in
                  if cc_WireGuard cfg then runWG w cfg global nd att f partnerPub chain sess st1
                  else runQUIC w cfg nd att f partnerPub chain sess st1
              end
          end
      end
  end.

(** ** The status probe *)

Inductive Probe := Reachable | LocalError | Unreachable | Offline | Untrusted.

Definition probe_code (p : Probe) : Z :=
  match p with Reachable => 0 | LocalError => 1 | Unreachable => 3 | Offline => 4 | Untrusted => 5 end.

Definition buddyProbe (w : World) (nd : Node) (token : string) (t : TrustState) : Probe :=
  if negb (wd_socket w) then LocalError
  else if negb (wd_resolved w) then LocalError
  else match (buddyRegister merged (wd_dialled w) (nc_cfg nd) (nc_node nd) token None (wd_polls w)).1 with
       | Err _ => Offline
       | Ok (partner, _) =>
           match DecodePubKey (p_PubKey partner) with
           | Err _ => Untrusted
           | Ok partnerPub =>
               match decide_trust (nc_policy nd) (ts_revoked t) (ts_known t) token partnerPub with
               | Err _ => Untrusted
               | Ok _ => match wd_punch w (p_Candidates partner) with None => Unreachable | Some _ => Reachable end
               end
           end
       end.
End Connect.
