(* ===== verification/ConnectProps.v ===== *)
(** * A connection attempt: where it may go, whom it may trust, what it may
    leave behind *)

From S2P Require Import Prelude Base64 Sha256 Json NetAddr NetParse Crypto Protocol RelayWire HsRegistry Authz AuthzFile TrustStore Sas Scope Register PeerCache LocalTrust Wg Manifest Supervisor Connect.

(** ** The relay *)

Section Relay.
Context (lu : string -> string).

(** A relay the operator chose: by name, or as a service on the server's host. *)
Definition chosen_relay (cfg : ConnConfig) (endpoint : string) : Prop :=
  (endpoint = cc_PeerRelay cfg /\ endpoint <> "") \/
  (cc_PeerRelay cfg = "" /\ exists h, h <> "" /\ hostOf lu endpoint = Some h /\ hostOf lu (cc_Server cfg) = Some h).

Lemma trustedRelay_local cfg advertised :
  let e := ro_endpoint (trustedRelay lu (cc_PeerRelay cfg) (cc_Server cfg) advertised) in e = "" \/ chosen_relay cfg e.
Proof.
  unfold trustedRelay, chosen_relay. destruct (String.eqb_spec (cc_PeerRelay cfg) "") as [E | E]; cbn [negb ro_endpoint]; [| by right; left].
  destruct (String.eqb advertised ""); [by left |]. destruct (hostOf lu advertised) as [a |] eqn:Ha; [| by left].
  destruct (hostOf lu (cc_Server cfg)) as [s |] eqn:Hs; [| by left]. destruct s as [| c s]; [by left |].
  destruct (String.eqb_spec a (String c s)) as [-> |]; cbn [negb ro_endpoint]; [| by left].
  right. right. split; [done |]. by exists (String c s).
Qed.

(** A server cannot aim a buddy at a relay of its choosing.  Whatever the
    signed roster or the cache names, every relayed path an attempt will try
    is the relay the operator configured or, when none is configured, one
    whose host is literally the host the operator configured as the server. *)
Theorem relay_is_operators (cfg : ConnConfig) (f : Found) (latch : gset string) (p : Path) :
  p ∈ (plan_paths lu cfg f latch).1 -> pt_Kind p = Relayed -> chosen_relay cfg (pt_RelayEndpoint p).
Proof.
  unfold plan_paths. cbn [fst]. destruct (cc_Direct cfg).
  - unfold DirectChain. intros [-> | I]%elem_of_cons K; [done |]. destruct (String.eqb_spec (cc_PeerRelay cfg) "") as [E | E]; cbn [negb] in I;
      [by apply not_elem_of_nil in I |]. apply list_elem_of_singleton in I as ->. by left.
  - pose proof (trustedRelay_local cfg (p_Relay (fd_partner f))) as T. cbn zeta in T.
    set (e := ro_endpoint _) in *. unfold Chain. cbn [flat_map app]. intros I K. rewrite !elem_of_app in I.
    destruct I as [I | [I | I]].
    + destruct (p_Candidates (fd_partner f)); [by apply not_elem_of_nil in I | by apply list_elem_of_singleton in I as ->].
    + destruct (String.eqb_spec e "") as [E | E]; cbn [negb] in I; [by apply not_elem_of_nil in I |].
      apply list_elem_of_singleton in I as ->. cbn [pt_RelayEndpoint]. by destruct T.
    + destruct (fd_cached f); [| by apply not_elem_of_nil in I]. destruct (_ && _); [| by apply not_elem_of_nil in I].
      by apply list_elem_of_singleton in I as ->.
Qed.
End Relay.

(** ** The order of paths *)

Section Paths.
Context (w : World).

(** What trying one path gives. *)
Definition try_path (pin : string) (listening : bool) (session : string) (cred : option relayCred) (p : Path) : option Session :=
  endpoint ← primePath w p session cred; if listening then wd_listen w pin p else wd_dial w pin endpoint p.

Lemma dialChain_first (pin : string) (listening : bool) (session : string) (cred : option relayCred) (chain : list Path) :
  match dialChain w pin listening session cred chain with
  | Ok (sess, p) => exists before after, chain = before ++ p :: after /\
      Forall (fun q => try_path pin listening session cred q = None) before /\ try_path pin listening session cred p = Some sess
  | Err e => e = NoSession (noPathAdvice chain) /\ Forall (fun q => try_path pin listening session cred q = None) chain
  end.
Proof.
  unfold dialChain. enough (L : match dial_loop w pin listening session cred chain with
    | Some (sess, p) => exists before after, chain = before ++ p :: after /\
        Forall (fun q => try_path pin listening session cred q = None) before /\ try_path pin listening session cred p = Some sess
    | None => Forall (fun q => try_path pin listening session cred q = None) chain end).
  { by destruct (dial_loop w pin listening session cred chain) as [[sess p] |]. }
  induction chain as [| p chain IH]; cbn [dial_loop]; [constructor |].
  assert (Hp : try_path pin listening session cred p =
    match primePath w p session cred with None => None | Some e => if listening then wd_listen w pin p else wd_dial w pin e p end)
    by (unfold try_path; by destruct (primePath w p session cred)).
  destruct (primePath w p session cred) as [e |];
    [destruct (if listening then wd_listen w pin p else wd_dial w pin e p) as [s |] eqn:E; [by exists [], chain |] |].
  all: destruct (dial_loop w pin listening session cred chain) as [[s q] |];
    [destruct IH as (b & a & -> & F & T); exists (p :: b), a; repeat split; [by constructor | done] | by constructor].
Qed.

(** The fallback chain is walked in order.  An attempt yields the session of
    the first path that works, every path before it having failed, and fails
    only when all of them do; so a relay is used only when the direct path is
    not available, and one dead path never hides a live one. *)
Theorem first_working_path (pin : string) (listening : bool) (session : string) (cred : option relayCred) (chain : list Path) :
  match dialChain w pin listening session cred chain with
  | Ok (sess, p) => exists before after, chain = before ++ p :: after /\
      Forall (fun q => try_path pin listening session cred q = None) before /\ try_path pin listening session cred p = Some sess
  | Err e => e = NoSession (noPathAdvice chain) /\ Forall (fun q => try_path pin listening session cred q = None) chain
  end.
Proof. apply dialChain_first. Qed.
End Paths.

(** ** Direct mode *)

(** Two ends of a direct pairing take opposite roles, so that exactly one
    listens, whenever both can dial and be dialled, and whenever one can only
    dial and the other only be dialled. *)
Theorem direct_roles_meet (a b : ConnConfig) (ka kb : string) :
  ka <> kb ->
  let both c := negb (String.eqb (cc_PeerEndpoint c) "") && negb (cc_ListenPort c =? 0) in
  let dials c := negb (String.eqb (cc_PeerEndpoint c) "") && (cc_ListenPort c =? 0) in
  let listens c := String.eqb (cc_PeerEndpoint c) "" && negb (cc_ListenPort c =? 0) in
  (both a && both b) || (dials a && listens b) || (listens a && dials b) = true ->
  directListening a ka kb = negb (directListening b kb ka).
Proof.
  intros D. cbn zeta. unfold directListening.
  destruct (String.eqb (cc_PeerEndpoint a) ""), (String.eqb (cc_PeerEndpoint b) ""), (cc_ListenPort a =? 0), (cc_ListenPort b =? 0);
    cbn; try done. intros _. destruct (str_ltb ka kb) eqn:E; [by rewrite (str_ltb_asym _ _ E) |].
  destruct (str_ltb kb ka) eqn:E2; [done |]. by destruct (D (str_ltb_total _ _ E E2)).
Qed.
