(* ===== verification/ConnectTheorems.v ===== *)
(** * What an attempt learns, and what it leaves for the next one *)

From S2P Require Import Prelude Base64 Sha256 Json NetAddr NetParse Crypto Protocol RelayWire HsRegistry Authz AuthzFile TrustStore TrustProps TrustTheorems Sas Scope Register PeerCache LocalTrust Wg Manifest Supervisor AttemptProps Connect ConnectProps.

(** ** A saved session is the one loaded *)

Lemma until_long_fits l : Forall fits_line (until_long l).1.
Proof.
  induction l as [| x l IH]; cbn [until_long]; [constructor |]. destruct (too_long x) eqn:E; [constructor |].
  destruct (until_long l) as [ls e]. cbn [fst] in *. constructor; [| done].
  unfold fits_line, too_long in *. apply Z.leb_gt in E. apply Z.leb_gt. pose proof (slen_dropCR x). lia.
Qed.

Lemma file_fits_all f : Forall fits_line (file_lines f).1.
Proof. destruct f; [apply until_long_fits | constructor]. Qed.

Lemma RawURL_word s : s <> "" -> word (RawURL.EncodeToString s).
Proof.
  intros Hs. split; [| intros E; apply Hs, RawURL_encode_inj; by rewrite E].
  eapply all_chars_impl; [| apply RawURL_encode_alphabet]. intros c Hc.
  assert (A : forallb (fun n => implb (is_b64url (ascii_of_nat n)) (solid (ascii_of_nat n))) (seq 0 256) = true) by (vm_compute; reflexivity).
  rewrite forallb_forall in A. specialize (A (nat_of_ascii c)). rewrite ascii_nat_embedding, Hc in A.
  apply A, in_seq. pose proof (nat_ascii_bounded c). lia.
Qed.

Lemma line_session_dropCR l : line_session (dropCR l) = line_session l.
Proof. unfold line_session. by rewrite Fields_dropCR. Qed.

(** A session line of this key spells it the way this program does. *)
Definition spelled_ours (pin line : string) : Prop :=
  forall ss, line_session line = Some ss -> ss_pin ss = pin -> session_of (PubKeyB64 pin) line = true.

Lemma load_saved revoked known tok pin secret f' :
  saveSessionLocked revoked known tok (PubKeyB64 pin) secret = Ok f' -> key_bytes pin -> word secret -> (slen secret <= 900)%nat ->
  Forall (spelled_ours pin) (file_lines known).1 -> loadSessionFor f' pin = Ok (Some secret).
Proof.
  intros Hsv Hp Hs Hl Hc. unfold saveSessionLocked in Hsv. destruct (of_read _) as [[] |]; [done | | done].
  injection Hsv as <-. rewrite join_text by (by destruct (kept_lines _ _)).
  set (kept := kept_lines _ _). match goal with |- context [kept ++ [?x]] => set (new := x) end.
  assert (En : new = session_text tok (PubKeyB64 pin) secret) by done.
  destruct (canonical_solid _ (key_canonical _ Hp)) as [_ Hl44].
  unfold loadSessionFor, loadSessions, file_lines. rewrite scan_text.
  - assert (K : forall l, l ∈ kept -> forall ss, line_session l = Some ss -> ss_pin ss <> pin).
    { intros l Hk ss Hss Epin. rewrite Forall_forall in Hc. unfold kept, kept_lines in Hk.
      apply list_elem_of_In, filter_In in Hk as [Hin Hno]. apply list_elem_of_In in Hin.
      specialize (Hc _ Hin _ Hss Epin). rewrite Hc in Hno. done. }
    assert (New : line_session new = Some (TrustStore.mkSession pin secret)).
    { rewrite En. unfold line_session, session_text. rewrite Fields_three by (done || apply tokenKey_word || by apply key_word).
      unfold PubKeyB64. by rewrite Std_decode_encode, Hp. }
    f_equal. clearbody kept new. induction kept as [| l kept IH]; cbn [app fmap list_fmap omap list_omap].
    + rewrite line_session_dropCR, New. cbn [find ss_pin]. by rewrite String.eqb_refl.
    + rewrite line_session_dropCR. destruct (line_session l) as [ss |] eqn:El; [cbn [find] |].
      * rewrite (proj2 (String.eqb_neq _ _) (K l (list_elem_of_here _ _) _ El)). apply IH. intros x Hx. apply K. by right.
      * apply IH. intros x Hx. apply K. by right.
  - apply Forall_app. split; [eapply Forall_sub; [apply kept_sub | apply file_no_nl] |].
    rewrite En. apply Forall_singleton, session_text_no_nl; [by apply key_word | done].
  - apply Forall_app. split; [eapply Forall_sub; [apply kept_sub | apply file_fits_all] |].
    rewrite En. apply Forall_singleton, session_text_fits. lia.
Qed.

Lemma isRevoked_agrees f k : isRevoked f k = isRevokedLocked f k.
Proof.
  unfold isRevoked, isRevokedLocked, revokedSet. destruct (loadRevokedLocked f) as [es |]; [| done]. f_equal.
  rewrite existsb_key. apply bool_decide_ext. set_solver.
Qed.

Section Learn.
Context `{Ed25519} `{Box} `{X25519} (merged : string -> option Message)
        (nu lu : string -> string)
        (dh : string -> string -> option string) (hkdf : string -> string -> string)
        (x_public : string -> option string) (x_private : string -> string)
        (w : World) (cfg : ConnConfig) (global : option Scope) (nd : Node) (att : attempt).

(** ** Trust *)

(** A session of a transport that accepts only the holder of [pin]. *)
Definition pinned_session (pin : string) (sess : Session) : Prop :=
  (exists p, wd_listen w pin p = Some sess) \/ (exists e p, wd_dial w pin e p = Some sess) \/ wd_listen_all w pin = Some sess.

(** Why the key of the partner is accepted without a code check: configured for
    direct mode, equal to every pin held, or by the trust policy. *)
Definition accepted (st : BuddyState) (pub : string) : Prop :=
  (cc_Direct cfg = true /\ DecodePubKey (cc_PeerKey cfg) = Ok pub) \/
  (at_pin att = Some pub /\ (forall q, at_cfgPin att = Some q -> q = pub)) \/
  (at_pin att = None /\ decide_trust (nc_policy nd) (ts_revoked (bs_trust st)) (ts_known (bs_trust st)) (at_inviteToken att) pub = Ok false).

(** Why it is accepted after one: the policy asks for it, a human is there, and
    typed the code of this very channel. *)
Definition code_checked (st : BuddyState) (pub : string) (sid : option string) : Prop :=
  at_pin att = None /\
  decide_trust (nc_policy nd) (ts_revoked (bs_trust st)) (ts_known (bs_trust st)) (at_inviteToken att) pub = Ok true /\
  cc_Interactive cfg = true /\
  exists ekm, sid = Some ekm /\ PromptSAS nu (ComputeSAS (pub_of (nd_priv (nc_node nd))) pub ekm) (wd_typed w) = Ok tt.

Lemma check_trust_basis st pub b :
  check_trust nd st att pub = Ok b ->
  if b then at_pin att = None /\
            decide_trust (nc_policy nd) (ts_revoked (bs_trust st)) (ts_known (bs_trust st)) (at_inviteToken att) pub = Ok true
  else accepted st pub.
Proof.
  unfold check_trust, accepted. destruct (at_pin att) as [p |] eqn:Ep.
  - cbn [enforcePins]. destruct (String.eqb_spec pub p) as [-> |]; cbn [negb]; [| done].
    destruct (at_cfgPin att) as [q |]; [destruct (String.eqb_spec p q) as [-> |]; cbn [negb]; [| done] |];
      intros [= <-]; right; left; split; try done; congruence.
  - destruct (decide_trust _ _ _ _ _) as [b' |] eqn:Ed; [| done]. intros [= <-]. destruct b'; [done |]. right. by right.
Qed.

Lemma DecodePubKey_size b64 pub : DecodePubKey b64 = Ok pub -> slen pub = PublicKeySize.
Proof.
  unfold DecodePubKey. destruct (Std.DecodeString b64) as [raw |]; [| done].
  destruct (slen raw =? PublicKeySize)%nat eqn:El; [| done]. intros [= <-]. by apply Nat.eqb_eq.
Qed.

(** The partner of a run, and the basis of its trust. *)
Lemma find_partner_basis st cred f pub :
  find_partner merged w cfg nd st att cred = Ok f -> DecodePubKey (p_PubKey (fd_partner f)) = Ok pub ->
  if fd_needSAS f then at_pin att = None /\
      decide_trust (nc_policy nd) (ts_revoked (bs_trust st)) (ts_known (bs_trust st)) (at_inviteToken att) pub = Ok true
  else accepted st pub.
Proof.
  assert (C : forall c, from_cache w nd st att c = Ok f -> DecodePubKey (p_PubKey (fd_partner f)) = Ok pub ->
    if fd_needSAS f then at_pin att = None /\
      decide_trust (nc_policy nd) (ts_revoked (bs_trust st)) (ts_known (bs_trust st)) (at_inviteToken att) pub = Ok true
    else accepted st pub).
  { intros c. unfold from_cache. destruct (find _ _) as [e |]; [| done]. destruct (DecodePubKey (p_PubKey e)) as [pp |] eqn:De; [| done].
    destruct (check_trust nd st att pp) as [b |] eqn:Ct; [| done]. intros [= <-] Dp. cbn [fd_partner fd_needSAS] in *.
    assert (pp = pub) as -> by congruence. by apply check_trust_basis. }
  unfold find_partner. destruct (cc_Direct cfg) eqn:Ed.
  - unfold directPartner. destruct (String.eqb (cc_PeerKey cfg) ""); [done |].
    destruct (DecodePubKey (cc_PeerKey cfg)) as [pk |] eqn:Dk; [| done]. destruct (String.eqb _ _); [done |].
    intros [= <-] Dp. cbn [fd_partner fd_needSAS p_PubKey] in *. left. split; [done |].
    rewrite DecodePubKey_B64 in Dp by (by eapply DecodePubKey_size). congruence.
  - destruct (wd_resolved w); [| apply C]. destruct (fst _) as [[partner rt] |]; [| done].
    destruct (String.eqb (p_PubKey partner) ""); [apply C |]. unfold vouched.
    destruct (DecodePubKey (p_PubKey partner)) as [pp |] eqn:De; [| done]. destruct (String.eqb _ _); [done |].
    destruct (check_trust nd st att pp) as [b |] eqn:Ct; [| done]. destruct (negb _); [done |]. intros [= <-] Dp.
    cbn [fd_partner fd_needSAS] in *. assert (pp = pub) as -> by congruence. by apply check_trust_basis.
Qed.

(** ** The code check *)

Lemma verify_partner_ok f pub sid relayed st0 st r st1 :
  verify_partner nu w cfg nd att f pub sid relayed st = (r, st1) ->
  (if fd_needSAS f then at_pin att = None /\
      decide_trust (nc_policy nd) (ts_revoked (bs_trust st0)) (ts_known (bs_trust st0)) (at_inviteToken att) pub = Ok true
   else accepted st0 pub) ->
  bs_reg st1 = bs_reg st /\ bs_cache st1 = bs_cache st /\
  match r with Ok _ => accepted st0 pub \/ code_checked st0 pub sid | Err _ => st1 = st end /\
  (bs_trust st1 <> bs_trust st -> code_checked st0 pub sid).
Proof.
  unfold verify_partner, first_contact. intros E B. destruct (fd_needSAS f) eqn:Es.
  - cbn [orb negb andb] in E. destruct (cc_Interactive cfg) eqn:Ei; cbn [negb andb] in E; [| injection E as <- <-; by split_and!].
    destruct sid as [ekm |]; [| injection E as <- <-; by split_and!].
    destruct (PromptSAS _ _ _) as [[] |] eqn:Ep; [| injection E as <- <-; by split_and!].
    assert (K : code_checked st0 pub (Some ekm)).
    { destruct B as [B1 B2]. split_and!; try done. by exists ekm. }
    destruct (confirm _ _ _ _ _) as [t |]; injection E as <- <-; cbn [bs_reg bs_cache bs_trust with_trust]; split_and!; try done; auto.
  - cbn [orb negb andb] in E. destruct (cc_SASShow cfg && at_firstPairing att) eqn:Sh; cbn [negb] in E.
    + destruct sid as [ekm |]; injection E as <- <-; cbn [bs_reg bs_cache bs_trust with_trust]; split_and!; try done; auto.
    + injection E as <- <-. split_and!; try done; auto.
Qed.

(** Nothing learned: the three files are as they were and the run failed. *)
Definition nothing_learned (r : result ConnErr Path) (st st' : BuddyState) : Prop :=
  bs_trust st' = bs_trust st /\ bs_reg st' = bs_reg st /\ bs_cache st' = bs_cache st /\ is_ok r = false.

(** What is cached after a run that came up: its partner, as [rememberPeer] does it. *)
Definition remembered (f : Found) (st st' : BuddyState) : Prop :=
  (bs_reg st', bs_cache st') = rememberPeer (unix (wd_now w)) (wd_io w) (fd_partner f) (bs_reg st) (bs_cache st).

Lemma store_session_keeps partner secret st :
  bs_reg (store_session w nd att partner secret st).2 = bs_reg st /\ bs_cache (store_session w nd att partner secret st).2 = bs_cache st.
Proof. unfold store_session. destruct (negb _); [done |]. destruct secret; [| done]. by destruct (saveSession _ _ _ _ _ _). Qed.

Lemma store_remembered f secret (used : Path) r st st1 st' :
  match store_session w nd att (fd_partner f) secret (remember w (fd_partner f) st1) with
  | (Err e, st3) => (Err e, st3) | (Ok _, st3) => (Ok used, st3)
  end = (r, st') ->
  bs_reg st1 = bs_reg st -> bs_cache st1 = bs_cache st -> remembered f st st'.
Proof.
  intros E R C. destruct (store_session_keeps (fd_partner f) secret (remember w (fd_partner f) st1)) as [Hr Hc].
  destruct (store_session _ _ _ _ _ _) as [[[] | e] st3]; injection E as _ <-; cbn [snd] in *;
  unfold remembered; rewrite Hr, Hc; unfold remember; rewrite R, C; by destruct (rememberPeer _ _ _ _ _).
Qed.

(** ** What QUIC leaves behind *)

(** A session the chain of paths yields is the pinned transport's. *)
Lemma chain_pinned pub all listening sess cred chain s p :
  (if all : bool then listenAllPaths w pub sess cred chain else dialChain w pub listening sess cred chain) = Ok (s, p) ->
  pinned_session pub s.
Proof.
  intros G. destruct all.
  - unfold listenAllPaths in G. destruct (foldl _ _ _) as [primed failed]. destruct (_ && _ && _); [done |].
    destruct (wd_listen_all w pub) eqn:L; [| done]. injection G as -> _. by right; right.
  - pose proof (dialChain_first w pub listening sess cred chain) as T. rewrite G in T.
    destruct T as (b & a & _ & _ & Tp). unfold try_path in Tp. destruct (primePath w p sess cred) as [e |]; [| done].
    cbn [mbind option_bind] in Tp. destruct listening; [left | right; left]; eauto.
Qed.

Lemma runQUIC_basis f pub chain sess st0 st r st' :
  runQUIC nu w cfg nd att f pub chain sess st = (r, st') ->
  (if fd_needSAS f then at_pin att = None /\
      decide_trust (nc_policy nd) (ts_revoked (bs_trust st0)) (ts_known (bs_trust st0)) (at_inviteToken att) pub = Ok true
   else accepted st0 pub) ->
  nothing_learned r st st' \/
  (exists s, pinned_session pub s /\ (accepted st0 pub \/ code_checked st0 pub (se_ekm s sasLabel "")) /\ remembered f st st').
Proof.
  unfold runQUIC. set (listening := if cc_Direct cfg then _ else _).
  match goal with |- context [match ?x with Ok _ => _ | Err _ => _ end = (r, st')] => destruct x as [[s p] | e] eqn:G end;
    [apply chain_pinned in G | intros [= <- <-]; by left].
  intros E B. destruct (verify_partner _ _ _ _ _ _ _ _ _ _) as [rv st1] eqn:Ev.
  destruct (verify_partner_ok f pub _ _ st0 st rv st1 Ev B) as (V1 & V2 & V3 & V4).
  destruct rv as [[] | e].
  - right. exists s. split_and!; [done | done |]. by eapply store_remembered.
  - injection E as <- <-. left. subst st1. by split_and!.
Qed.

(** ** What WireGuard leaves behind *)

(** The kernel carries the tunnel of [pub] alone, behind its rules. *)
Definition kernel_up (pub : string) : Prop :=
  wd_wg w = true /\ wd_nft w (wgIfName (at_ifIndex att)) (effectiveScope global att) = true /\
  (exists remote c, ConfigForPeer x_public x_private (wgIfName (at_ifIndex att)) (wd_port w) (nd_priv (nc_node nd)) pub remote = Ok c /\
                    validate c = None /\ wd_kernel w c = true) /\
  is_ok (ConfirmHandshake x_public pub (wd_handshakes w)).2 = true.

(** A code the run may show: the binding both ends computed on the path. *)
Definition bound (f : Found) (sid : option string) : Prop :=
  forall b, sid = Some b ->
  exists remote, (runBindingOverConn remote (str_ltb (nd_pub (nc_node nd)) (p_PubKey (fd_partner f))) (wd_bind_rand w) (wd_bind_sends w) (wd_bind_events w)).2 = Ok b.

Lemma runWG_basis f pub chain sess st0 st r st' :
  runWG nu dh hkdf x_public x_private w cfg global nd att f pub chain sess st = (r, st') ->
  (if fd_needSAS f then at_pin att = None /\
      decide_trust (nc_policy nd) (ts_revoked (bs_trust st0)) (ts_known (bs_trust st0)) (at_inviteToken att) pub = Ok true
   else accepted st0 pub) ->
  nothing_learned r st st' \/
  (exists sid, bound f sid /\ (accepted st0 pub \/ code_checked st0 pub sid) /\
     ((kernel_up pub /\ remembered f st st') \/ (bs_reg st' = bs_reg st /\ bs_cache st' = bs_cache st /\ is_ok r = false /\
                        (bs_trust st' <> bs_trust st -> code_checked st0 pub sid)))).
Proof.
  unfold runWG. intros E B. destruct (wd_wg w) eqn:Ew; cbn [negb] in E; [| injection E as <- <-; by left].
  destruct (if cc_Direct cfg && _ then _ else _) as [[remote used] | e]; [| injection E as <- <-; by left].
  set (sid := match remote with None => _ | Some _ => _ end) in E.
  assert (Hb : bound f sid).
  { intros b Eb. unfold sid in Eb. destruct remote as [rm |]; [| done]. exists rm.
    destruct (runBindingOverConn _ _ _ _ _).2; [by injection Eb as -> | done]. }
  clearbody sid. destruct (verify_partner _ _ _ _ _ _ _ _ _ _) as [rv st1] eqn:Ev.
  destruct (verify_partner_ok f pub _ _ st0 st rv st1 Ev B) as (V1 & V2 & V3 & V4).
  destruct rv as [[] | e]; [| injection E as <- <-; left; subst st1; by split_and!].
  right. exists sid. split_and!; [done | done |].
  destruct (at_firstPairing att && _); [injection E as <- <-; right; by split_and! |].
  destruct (applyScope w _ _) eqn:Ea; cbn [negb] in E; [| injection E as <- <-; right; by split_and!].
  unfold bringUpWGDirect in E.
  destruct (ConfigForPeer _ _ _ _ _ _ _) as [c |] eqn:Ec; [| injection E as <- <-; right; by split_and!].
  destruct (wd_closed w); cbn [negb] in E; [| injection E as <- <-; right; by split_and!].
  destruct (validate c) eqn:Evc; [injection E as <- <-; right; by split_and! |].
  destruct (wd_kernel w c) eqn:Ek; [| injection E as <- <-; right; by split_and!].
  destruct (ConfirmHandshake _ _ _).2 eqn:Eh; [| injection E as <- <-; right; by split_and!].
  left. split; [split_and!; [done | done | by eauto 6 | by rewrite Eh] |].
  by eapply store_remembered.
Qed.

(** The partner of a run that got as far as a chain of paths. *)
Definition partner_of (st : BuddyState) (f : Found) (pub : string) : Prop :=
  exists eph, wd_eph w = Some eph /\ find_partner merged w cfg nd st att (newRelayCred eph) = Ok f /\
              DecodePubKey (p_PubKey (fd_partner f)) = Ok pub.

Lemma buddyRun_cases st r st' :
  buddyRun merged nu lu dh hkdf x_public x_private w cfg global nd att st = (r, st') ->
  nothing_learned r st st' \/
  (exists f pub chain sess st1, partner_of st f pub /\ bs_trust st1 = bs_trust st /\ bs_reg st1 = bs_reg st /\ bs_cache st1 = bs_cache st /\
     (if cc_WireGuard cfg then runWG nu dh hkdf x_public x_private w cfg global nd att f pub chain sess st1
      else runQUIC nu w cfg nd att f pub chain sess st1) = (r, st')).
Proof.
  unfold buddyRun. destruct (negb (wd_socket w)); [intros [= <- <-]; by left |].
  destruct (wd_eph w) as [eph |] eqn:Ee; [| intros [= <- <-]; by left].
  destruct (find_partner _ _ _ _ _ _ _) as [f | e] eqn:Ef; [| intros [= <- <-]; by left].
  destruct (DecodePubKey _) as [pub | e] eqn:Ed; [| intros [= <- <-]; by left].
  destruct (plan_paths lu cfg f (bs_latch st)) as [chain latch].
  destruct chain as [| p chain]; [intros [= <- <-]; by left |]. intros E. right.
  exists f, pub, (p :: chain). eexists _, _. split; [by exists eph |]. split_and!; [| | | exact E]; done.
Qed.

(** C5. A QUIC attempt learns only from a proven partner.  Unless the session was
    accepted by a transport pinned to the very key of the partner found, and
    that key is the configured one, or equals every pin held, or the trust
    policy accepts it, or a human typed the code of this very channel, the
    attempt fails and leaves the trust store, the registry and the cache
    untouched; and what it caches then is that partner and nothing else. *)
Theorem quic_learns_only_proven st r st' :
  cc_WireGuard cfg = false ->
  buddyRun merged nu lu dh hkdf x_public x_private w cfg global nd att st = (r, st') ->
  nothing_learned r st st' \/
  (exists f pub s, partner_of st f pub /\ pinned_session pub s /\ remembered f st st' /\
     (accepted st pub \/ code_checked st pub (se_ekm s sasLabel ""))).
Proof.
  intros Hq E. destruct (buddyRun_cases _ _ _ E) as [| (f & pub & chain & sess & st1 & Hp & T & R & C & Er)]; [by left |].
  rewrite Hq in Er. pose proof Hp as (eph & _ & Ef & Ed).
  destruct (runQUIC_basis f pub chain sess st st1 r st' Er (find_partner_basis _ _ _ _ Ef Ed)) as [N | (s & P & B & M)].
  - left. unfold nothing_learned in *. by rewrite <- T, <- R, <- C.
  - right. exists f, pub, s. split_and!; try done. unfold remembered in *. by rewrite <- R, <- C.
Qed.

(** C8. A WireGuard attempt learns only from a proven partner.  Nothing is cached
    and the tunnel is not reported up unless the packet filter took the scope
    of this attempt for the interface, the kernel took a configuration for
    exactly the partner's key, and the kernel reported a handshake with it;
    the trust store changes before that only by a code a human typed for the
    binding computed on the path; and the partner is accepted on the same
    grounds as over QUIC. *)
Theorem wg_learns_only_proven st r st' :
  cc_WireGuard cfg = true ->
  buddyRun merged nu lu dh hkdf x_public x_private w cfg global nd att st = (r, st') ->
  nothing_learned r st st' \/
  (exists f pub sid, partner_of st f pub /\ bound f sid /\ (accepted st pub \/ code_checked st pub sid) /\
     ((kernel_up pub /\ remembered f st st') \/
      (bs_reg st' = bs_reg st /\ bs_cache st' = bs_cache st /\ is_ok r = false /\
       (bs_trust st' <> bs_trust st -> code_checked st pub sid)))).
Proof.
  intros Hq E. destruct (buddyRun_cases _ _ _ E) as [| (f & pub & chain & sess & st1 & Hp & T & R & C & Er)]; [by left |].
  rewrite Hq in Er. pose proof Hp as (eph & _ & Ef & Ed).
  destruct (runWG_basis f pub chain sess st st1 r st' Er (find_partner_basis _ _ _ _ Ef Ed)) as [N | (sid & B & A & K)].
  - left. unfold nothing_learned in *. by rewrite <- T, <- R, <- C.
  - right. exists f, pub, sid. unfold remembered in *. rewrite R, C, T in K. by split_and!.
Qed.

(** ** What it leaves for the next attempt *)

#[local] Instance TrustState_eq_dec : EqDecision TrustState.
Proof. solve_decision. Defined.

Lemma store_session_loads partner secret pin st st' :
  store_session w nd att partner secret st = (Ok tt, st') -> at_firstPairing att = true ->
  p_PubKey partner = PubKeyB64 pin -> key_bytes pin -> (forall s, secret = Some s -> word s /\ (slen s <= 900)%nat) ->
  Forall (spelled_ours pin) (file_lines (ts_known (bs_trust st))).1 ->
  exists s, loadSessionFor (ts_known (bs_trust st')) pin = Ok (Some s) /\ isRevoked (ts_revoked (bs_trust st')) (PubKeyB64 pin) = Ok false.
Proof.
  unfold store_session. intros E Hf Hk Hp Hs Hc. rewrite Hf in E. cbn [negb] in E. destruct secret as [s |]; [| done]. destruct (Hs s eq_refl) as [Hw Hl].
  destruct (saveSession _ _ _ _ _ _) as [t |] eqn:Sv; [| done]. injection E as <-. cbn [bs_trust with_trust].
  unfold saveSession, withTrustStateLock in Sv. destruct (negb _); [done |]. destruct (negb _); [done |]. rewrite Hk in Sv.
  destruct (saveSessionLocked _ _ _ _ _) as [k |] eqn:Sl; [| done]. injection Sv as <-. cbn [ts_known ts_revoked].
  exists s. split; [by eapply load_saved |]. rewrite isRevoked_agrees. unfold saveSessionLocked in Sl.
  by destruct (isRevokedLocked _ _) as [[] |].
Qed.

(** Exported keying material and HKDF output have the 32 bytes asked for. *)
Definition secrets_are_keys : Prop :=
  (forall pin s, pinned_session pin s -> forall label ctx k, se_ekm s label ctx = Some k -> slen k = 32%nat) /\
  (forall z info, slen (hkdf z info) = 32%nat).

Lemma key_secret k : slen k = 32%nat -> word (RawURL.EncodeToString k) /\ (slen (RawURL.EncodeToString k) <= 900)%nat.
Proof. intros Hk. split; [apply RawURL_word; by intros -> | rewrite RawURL_encoded_len, Hk; vm_compute; lia]. Qed.

Lemma run_stores f pub chain sess st0 st used st' :
  (if cc_WireGuard cfg then runWG nu dh hkdf x_public x_private w cfg global nd att f pub chain sess st
   else runQUIC nu w cfg nd att f pub chain sess st) = (Ok used, st') ->
  (if fd_needSAS f then at_pin att = None /\
      decide_trust (nc_policy nd) (ts_revoked (bs_trust st0)) (ts_known (bs_trust st0)) (at_inviteToken att) pub = Ok true
   else accepted st0 pub) ->
  secrets_are_keys -> at_pin att <> None ->
  exists secret st2, store_session w nd att (fd_partner f) secret st2 = (Ok tt, st') /\ bs_trust st2 = bs_trust st /\
    forall s, secret = Some s -> word s /\ (slen s <= 900)%nat.
Proof.
  intros E B [Hx Hh] Hpin.
  assert (V : forall sid rel r st1, verify_partner nu w cfg nd att f pub sid rel st = (r, st1) -> bs_trust (remember w (fd_partner f) st1) = bs_trust st).
  { intros sid rel r st1 Ev. destruct (verify_partner_ok _ _ _ _ st0 _ _ _ Ev B) as (_ & _ & _ & V4).
    unfold remember. destruct (rememberPeer _ _ _ _ _). cbn [bs_trust].
    destruct (decide (bs_trust st1 = bs_trust st)) as [| D]; [done |]. by destruct (V4 D). }
  destruct (cc_WireGuard cfg).
  - unfold runWG in E. destruct (negb (wd_wg w)); [done |]. destruct (if cc_Direct cfg && _ then _ else _) as [[remote u] | e]; [| done].
    destruct (verify_partner _ _ _ _ _ _ _ _ _ _) as [[[] |] st1] eqn:Ev; [| done]. destruct (_ && _); [done |]. destruct (negb _); [done |].
    destruct (bringUpWGDirect _ _ _ _ _ _ _); [done |]. destruct (ConfirmHandshake _ _ _).2; [| done].
    destruct (store_session _ _ _ _ _ _) as [[[] |] st3] eqn:Es; [| done]. injection E as _ <-. eexists _, _. split; [exact Es |].
    split; [by eapply V |]. unfold PairSecret. intros s. destruct (dh _ _); [| done]. cbn [mbind option_bind fmap option_fmap option_map].
    destruct (in_order _ _). intros [= <-]. apply key_secret, Hh.
  - unfold runQUIC in E.
    match type of E with match ?x with Ok _ => _ | Err _ => _ end = _ => destruct x as [[s p] | e] eqn:G; [apply chain_pinned in G | done] end.
    destruct (verify_partner _ _ _ _ _ _ _ _ _ _) as [[[] |] st1] eqn:Ev; [| done].
    destruct (store_session _ _ _ _ _ _) as [[[] |] st3] eqn:Es; [| done]. injection E as _ <-. eexists _, _. split; [exact Es |].
    split; [by eapply V |]. unfold deriveSessionSecret. intros k. destruct (in_order _ _) as [a b].
    destruct (se_ekm s sessionSecretLabel _) as [z |] eqn:Ez; [| done]. intros [= <-]. by eapply key_secret, Hx.
Qed.

(** C22. A pairing that comes up retires its invite.  When a supervised worker's
    first attempt succeeds, over QUIC or WireGuard and not in direct mode, with
    a partner whose key the server spells the way this program does, and no
    session of that key was in the store before in another spelling (it would
    not be replaced, and would be found first), the secret of the pair is in
    the store for that key, and whatever the manifest says then, the worker's
    next attempt (and every one before three failures in a row) meets at the
    secret, carries no invite token and pins the same key.  Exported keying
    material and HKDF are taken to give the 32 bytes asked for. *)
Theorem pairing_retires_invite pin st used st' :
  buddyRun merged nu lu dh hkdf x_public x_private w cfg global nd att st = (Ok used, st') ->
  at_firstPairing att = true -> at_pin att = Some pin -> cc_Direct cfg = false -> key_bytes pin -> secrets_are_keys ->
  Forall (spelled_ours pin) (file_lines (ts_known (bs_trust st))).1 ->
  (forall f pub, partner_of st f pub -> p_PubKey (fd_partner f) = PubKeyB64 pub) ->
  exists secret, loadSessionFor (ts_known (bs_trust st')) pin = Ok (Some secret) /\
    forall yaml o manifest spec scope failures, sp_pin spec = pin -> failures < sessionFallbackAfter ->
    peerSource yaml o (mkFiles (bs_trust st') manifest) spec scope failures = Ok (mkAttempt secret "" (Some pin) None false 0 scope).
Proof.
  intros E Hf Hpin Hd Hk Hx Hc Hcan.
  destruct (buddyRun_cases _ _ _ E) as [(_ & _ & _ & ?) | (f & pub & chain & sess & st1 & Hp & T & _ & _ & Er)]; [done |].
  pose proof Hp as (eph & _ & Ef & Ed). pose proof (find_partner_basis _ _ _ _ Ef Ed) as B.
  assert (pub = pin) as ->.
  { destruct (fd_needSAS f); [by destruct B as [B _]; rewrite Hpin in B |].
    destruct B as [[B _] | [[B _] | [B _]]]; congruence. }
  destruct (run_stores f pin chain sess st st1 used st' Er B Hx) as (secret & st2 & Es & T2 & Hs); [congruence |].
  rewrite <- T, <- T2 in Hc. destruct (store_session_loads _ _ pin _ _ Es Hf (Hcan _ _ Hp) Hk Hs Hc) as (s & L & R).
  exists s. split; [done |]. intros yaml o manifest spec scope failures Hsp Hfl. unfold peerSource. cbn [fl_trust]. rewrite Hsp, R, L.
  rewrite (proj2 (Z.leb_gt _ _) Hfl), andb_false_r. done.
Qed.
End Learn.
