(* ===== verification/ConnectDemo.v ===== *)
(** * Concrete attempts *)

From S2P Require Import Prelude Base64 Sha256 Json NetAddr NetParse Crypto Protocol RelayWire HsRegistry Authz AuthzFile TrustStore TrustProps TrustTheorems Sas SasProps Scope Register PeerCache LocalTrust Wg Manifest Supervisor Connect ConnectProps ConnectTheorems.

Module ConnectDemo.

#[local] Existing Instance Crypto.Toy.toy_ed.
#[local] Existing Instance Crypto.Toy.toy_box.
#[local] Existing Instance SasProps.SasDemo.toy_x.

Definition bob : string := TrustDemo.bob.
Definition eve : string := TrustDemo.eve.

Definition at_home : UDPAddr := mkUDPAddr (String (byte_of 192) (String (byte_of 0) (String (byte_of 2) (String (byte_of 7) "")))) 4000.

Definition session : Session := mkSession "192.0.2.7:4000" (fun _ _ => Some (zeros 32)).

Definition bob_peer : Peer := mkPeer "bob-id" (PubKeyB64 bob) "" "bob" [mkCandidate "192.0.2.7:4000" false] "" 1000.
Definition eve_peer : Peer := mkPeer "a-id" (PubKeyB64 eve) "" "eve" [mkCandidate "192.0.2.9:4000" false] "" 1000.

(** The server cannot be resolved, the partner's router lets the punch through,
    and the transport finds the pinned partner. *)
Definition world (wg : bool) (polls : list (result unit Z)) : World :=
  mkWorld (of_unix 2000) true (Some "ephemeral") false false [] (fun _ => Some at_home) (fun _ => Some at_home) (fun _ _ _ => true)
    (fun _ _ => Some session) (fun _ => Some session) (fun _ _ _ => Some session) Deadline true true
    wg None [] [] (fun _ _ => true) 4242 true (fun _ => true) polls.

Definition config (wg : bool) : ConnConfig := mkConn "rv.example:7000" "" "" "" 0 false wg false true.

Definition me : Node := mkNodeC (mkNode "my-key" (PubKeyB64 (pub_of "my-key")) "me" "" (pub_of "server")) (mkBuddyConfig "me" "") (mkTrustPolicy None false true).

Definition first_call : attempt := mkAttempt "invite" "invite" (Some bob) None true 0 None.

Definition cached (l : list Peer) : BuddyState := mkState TrustDemo.empty (default (empty_registry true) (Open true (Roster l))) (Roster l) ∅.

Definition run (wg : bool) (w : World) (att : attempt) (st : BuddyState) : result ConnErr Path * BuddyState :=
  buddyRun (fun _ => None) id id (fun _ _ => Some (zeros 32)) (fun _ _ => zeros 32) (fun _ => Some (be_bytes 32 9)) (fun _ => be_bytes 32 7) w (config wg) None me att st.

Definition direct_to_bob : Path := mkPath Direct "direct P2P" [mkCandidate "192.0.2.7:4000" false] "" "".

Lemma quic_run_ok : (run false (world false []) first_call (cached [bob_peer])).1 = Ok direct_to_bob.
Proof. reflexivity. Qed.

Lemma wg_run_ok : (run true (world true [Ok 0; Ok 1700000000]) first_call (cached [bob_peer])).1 = Ok direct_to_bob.
Proof. reflexivity. Qed.

Lemma quic_learns_only_proven_witness :
  exists f s, partner_of (fun _ => None) (world false []) (config false) me first_call (cached [bob_peer]) f bob /\
    pinned_session (world false []) bob s /\ remembered (world false []) f (cached [bob_peer]) (run false (world false []) first_call (cached [bob_peer])).2.
Proof.
  pose proof quic_run_ok as Hok. destruct (run false _ first_call _) as [r st'] eqn:E. cbn [fst snd] in *. subst r. unfold run in E.
  destruct (quic_learns_only_proven _ _ _ _ _ _ _ (world false []) (config false) None me first_call (cached [bob_peer]) _ _ eq_refl E)
    as [(_ & _ & _ & F) | (f & pub & s & Hp & Hs & Hr & _)]; [discriminate F |].
  exists f, s. assert (pub = bob) as ->; [| exact (conj Hp (conj Hs Hr))]. destruct Hp as (eph & [= <-] & Ef & Ed).
  vm_compute in Ef. injection Ef as <-. vm_compute in Ed. injection Ed as <-. reflexivity.
Defined.

Lemma wg_learns_only_proven_witness :
  exists f pub, partner_of (fun _ => None) (world true [Ok 0; Ok 1700000000]) (config true) me first_call (cached [bob_peer]) f pub /\
    kernel_up (fun _ => Some (be_bytes 32 9)) (fun _ => be_bytes 32 7) (world true [Ok 0; Ok 1700000000]) None me first_call pub.
Proof.
  pose proof wg_run_ok as Hok. destruct (run true _ first_call _) as [r st'] eqn:E. cbn [fst] in *. subst r. unfold run in E.
  destruct (wg_learns_only_proven _ _ _ _ _ _ _ (world true [Ok 0; Ok 1700000000]) (config true) None me first_call (cached [bob_peer]) _ _ eq_refl E)
    as [(_ & _ & _ & F) | (f & pub & sid & Hp & _ & _ & [[K _] | (_ & _ & F & _)])]; [discriminate F | | discriminate F].
  exists f, pub. exact (conj Hp K).
Defined.

Lemma pairing_retires_invite_witness :
  exists secret, loadSessionFor (ts_known (bs_trust (run false (world false []) first_call (cached [bob_peer])).2)) bob = Ok (Some secret).
Proof.
  pose proof quic_run_ok as Hok. destruct (run false _ first_call _) as [r st'] eqn:E. cbn [fst snd] in *. subst r. unfold run in E.
  destruct (pairing_retires_invite _ _ _ _ _ _ _ (world false []) (config false) None me first_call bob (cached [bob_peer]) _ _ E)
    as (secret & L & _); try reflexivity; [| constructor | | by exists secret].
  - split; [| by intros]. intros pin s [(p & [= <-]) | [(e & p & [= <-]) | [= <-]]] label ctx k [= <-]; reflexivity.
  - intros f pub (eph & [= <-] & Ef & Ed). vm_compute in Ef. injection Ef as <-. vm_compute in Ed. injection Ed as <-. vm_compute. reflexivity.
Defined.

Lemma relay_is_operators_witness :
  chosen_relay id (mkConn "rv.example:7000" "" "" "" 0 false false false true) "RV.Example.:9000".
Proof.
  apply (relay_is_operators id (mkConn "rv.example:7000" "" "" "" 0 false false false true)
           (mkFound (mkPeer "id" "" "" "" [] "RV.Example.:9000" 0) None false (newRelayCred "e")) ∅
           (mkPath Relayed "handshake server as relay" [] "RV.Example.:9000" "")); [| reflexivity].
  apply list_elem_of_here.
Defined.

Lemma direct_roles_meet_witness :
  directListening (mkConn "" "" "" "b.example:1" 4000 true false false false) "AA" "BB" = true /\
  directListening (mkConn "" "" "" "a.example:1" 4000 true false false false) "BB" "AA" = false.
Proof.
  pose proof (direct_roles_meet (mkConn "" "" "" "b.example:1" 4000 true false false false)
                (mkConn "" "" "" "a.example:1" 4000 true false false false) "AA" "BB" ltac:(discriminate) eq_refl) as T.
  rewrite T. split; reflexivity.
Defined.

(** ** Behaviour worth knowing *)

(** Of the cached peers only the first fresh one is tried: with another buddy
    ahead of it in the cache, a pinned partner is not found. *)
Lemma cached_fallback_one_peer :
  (run false (world false []) first_call (cached [bob_peer; eve_peer])).1 = Err (PinRefused SessionPin).
Proof. reflexivity. Qed.

(** A direct-mode listener that can only be dialled does not listen at all when
    its relay does not answer. *)
Definition relay_down (w : World) : World :=
  mkWorld (wd_now w) (wd_socket w) (wd_eph w) (wd_resolved w) (wd_dialled w) (wd_polls w) (wd_punch w) (wd_resolve w) (fun _ _ _ => false)
    (wd_listen w) (wd_listen_all w) (wd_dial w) (wd_typed w) (wd_lock w) (wd_io w) (wd_wg w) (wd_bind_rand w) (wd_bind_sends w) (wd_bind_events w)
    (wd_nft w) (wd_port w) (wd_closed w) (wd_kernel w) (wd_handshakes w).

Lemma relay_down_blocks_direct :
  listenAllPaths (relay_down (world false [])) bob "s" None (DirectChain "" "relay.example:9000") = Err (NoSession true) /\
  listenAllPaths (relay_down (world false [])) bob "s" None (DirectChain "" "") = Ok (session, mkPath Configured "direct (configured endpoint)" [] "" "").
Proof. split; vm_compute; reflexivity. Qed.

(** The committer's first message sent twice: the responder takes the copy for
    the key and reports a mismatch. *)
Lemma retransmitted_commit_mismatch :
  let commit := Datagram at_home (bindFramePrefix ⊕ sha256 (x_pub "them")) in
  let reveal := Datagram at_home (bindFramePrefix ⊕ x_pub "them") in
  is_ok (runBindingOverConn at_home false (Some "us") [true] [commit; reveal]).2 = true /\
  (runBindingOverConn at_home false (Some "us") [true] [commit; commit; reveal]).2 = Err BindMismatch.
Proof. split; vm_compute; reflexivity. Qed.

(** Once 64 values are remembered, a further one is logged every time. *)
Lemma latch_full_logs_again o seen :
  ro_skipped o <> "" -> ro_skipped o ∉ seen -> (maxRelayOfferLatch <= size seen)%nat -> noteSkipped o seen = (true, seen).
Proof.
  intros Ho Hs Hf. unfold noteSkipped. rewrite (proj2 (String.eqb_neq _ _) Ho), bool_decide_eq_false_2 by done.
  by rewrite (proj2 (Nat.ltb_ge _ _) Hf).
Qed.

(** One end that can dial and listen, one that can only listen: with the lower
    key at the first, both listen. *)
Lemma direct_roles_clash :
  directListening (mkConn "" "" "" "b.example:1" 4000 true false false false) "AA" "BB" = true /\
  directListening (mkConn "" "" "" "" 4000 true false false false) "BB" "AA" = true.
Proof. split; reflexivity. Qed.

End ConnectDemo.
