(* ===== verification/StartupDemo.v ===== *)
(** * Command lines and start-ups on concrete nodes *)

From S2P Require Import Prelude Base64 Sha256 Json NetAddr NetParse Crypto Protocol RelayWire HsRegistry Authz AuthzFile TrustStore TrustProps TrustTheorems Sas SasProps Scope Register PeerCache LocalTrust Wg Netlink Manifest ManifestProps Supervisor SupervisorProps SupervisorDemo KeyFile Startup StartupProps CommandLine CommandProps Connect ConnectDemo.
From S2P Require Ticket RelayServer RelayProps RelayTheorems.

Module StartDemo.
#[local] Existing Instance Crypto.Toy.toy_ed.
#[local] Existing Instance Crypto.Toy.toy_ed_laws.
#[local] Existing Instance Crypto.Toy.toy_box.
#[local] Existing Instance SasProps.SasDemo.toy_x.

Definition no_env (_ : string) : string := "".
Definition any_port (_ : string) : bool := true.
Definition host : CLIWorld := mkCLI no_env true (Some (zeros 48)) any_port no_io_faults.
Definition start_world : StartWorld := mkStartWorld (Some "seed") no_io_faults (zeros 16) true.
Definition no_yaml (_ : string) : YamlDoc := Doc [].

Definition server_key : string := PubKeyB64 (Toy.pad32 "server").
Definition defaults : cliFlags := registerFlags (Some "/home/ann/.config").

(** The switches the lines below set; the rest stays at its default. *)
Definition line (role serverKey peerKey : string) (direct : bool) (endpoint forward : string) (invite : bool) (join : string)
    (allow relayID : string) (status : bool) : cliFlags :=
  let f := defaults in
  mkFlags role (g_keyPath f) (g_listen f) (g_relayListen f) allow
    (g_relayMaxSessions f) (g_relayMaxLegsPerIP f) (g_ttl f) (g_authorized f) (g_relayEndpoint f) relayID
    (g_debug f) (if given serverKey && negb (String.eqb role "relay") then "rv.example:51820" else "") serverKey peerKey direct endpoint
    (g_peerRelay f) (g_listenPort f) (g_knownPeers f) (g_lab f) (g_code f) (g_peersPath f)
    (g_peersFile f) (g_localListen f) (g_vipListen f) forward (g_punchDur f) (g_idleTimeout f)
    (g_reauthInterval f) (g_noInteractive f) (g_sasTimeout f) (g_inviteTimeout f) status invite join (g_name f)
    (g_dns f) (g_lazy f) (g_expose f) (g_wireguard f) (g_showVersion f).

Definition run_line (f : cliFlags) : Outcome := (main id host f ∅).1.
Definition buddy_of (f : cliFlags) : option FullConfig := head (buddies (run_line f)).
Definition relay_of (f : cliFlags) : option RelayConfig := head (relays (run_line f)).

Lemma head_in {A} (l : list A) x : head l = Some x -> x ∈ l.
Proof. destruct l; [done |]. intros [= ->]. by left. Qed.

(** ** An invite and the side that joins *)

Definition inviting : cliFlags := line "buddy" server_key "" false "" "127.0.0.1:873" true "" "" "" false.

Definition ann : option FullConfig := buddy_of inviting.
Definition home0 : Files := mkFiles TrustDemo.empty None.

Definition start (c : FullConfig) : result BuddyErr Started * Dir := Buddy id no_yaml any_port c start_world home0 CacheMissing ∅.
Definition invite_text : option string := c ← ann; match (start c).1 with Ok s => sd_invite s | Err _ => None end.

Definition joining : cliFlags := line "buddy" server_key "" false "" "127.0.0.1:873" false (default "" invite_text) "" "" false.

Lemma accepted_line_is_consistent_witness :
  exists c, ann = Some c /\ consistent false c /\ f_Server c <> "" /\ f_Expose c = None.
Proof.
  destruct ann as [c |] eqn:E; [| vm_compute in E; discriminate E]. exists c. split; [reflexivity |].
  destruct (accepted_line_is_consistent id host inviting ∅ c (head_in _ _ E)) as (C & _ & X & _).
  split; [exact C |]. split; [| exact X]. apply (cs_server _ _ C). vm_compute in E. injection E as <-. reflexivity.
Defined.

Lemma startup_is_sound_witness :
  exists c s d, ann = Some c /\ start c = (Ok s, d) /\ DecodePubKey (f_ServerKey (sd_cfg s)) = Ok (nd_serverPub (sd_node s)) /\ tp_insecure (sd_policy s) = f_Insecure c.
Proof.
  destruct ann as [c |] eqn:E; [| vm_compute in E; discriminate E]. exists c.
  destruct (start c) as [[s | e] d] eqn:S; [| vm_compute in E; injection E as <-; vm_compute in S; discriminate S].
  exists s, d. split; [reflexivity |]. split; [reflexivity |].
  destruct (startup_is_sound id no_yaml any_port c start_world home0 CacheMissing ∅ s d S) as (_ & D & _ & I & _). split; [| exact I].
  destruct (f_Direct (sd_cfg s)) eqn:F; [| exact D]. vm_compute in E. injection E as <-. vm_compute in S. injection S as <- _. discriminate F.
Defined.

Lemma invite_pins_inviter_witness :
  exists cA sA cB, ann = Some cA /\ (start cA).1 = Ok sA /\ buddy_of joining = Some cB /\
    f_PeerKey cB = nd_pub (sd_node sA) /\ f_Token cB = f_Token cA /\ f_SASShow cB = true.
Proof.
  destruct ann as [cA |] eqn:EA; [| vm_compute in EA; discriminate EA]. destruct (buddy_of joining) as [cB |] eqn:EB; [| vm_compute in EB; discriminate EB].
  destruct (start cA) as [[sA | e] d] eqn:S; [| vm_compute in EA; injection EA as <-; vm_compute in S; discriminate S].
  exists cA, sA, cB. destruct (sd_invite sA) as [blob |] eqn:I.
  2: { vm_compute in EA; injection EA as <-; vm_compute in S; injection S as <- _. discriminate I. }
  assert (J : g_join joining = blob).
  { change (default "" invite_text = blob). unfold invite_text. rewrite EA. cbn [mbind option_bind]. rewrite S. cbn [fst]. rewrite I. reflexivity. }
  destruct (invite_pins_inviter id no_yaml any_port host inviting ∅ cA start_world home0 CacheMissing ∅ sA d blob (zeros 48) host joining ∅ cB)
    as (T & P & W & _); [exact (head_in _ _ EA) | reflexivity | reflexivity | vm_compute; lia | exact S | exact I | exact J | reflexivity | exact (head_in _ _ EB) |].
  exact (conj eq_refl (conj (f_equal fst S) (conj eq_refl (conj P (conj T W))))).
Defined.

(** ** A relay *)

Definition relaying : cliFlags := line "relay" server_key "" false "" "" false "" "192.0.2.9/24, 2001:db8::1" (Ticket.NewID (zeros Ticket.IDLen)) false.

Lemma relay_never_open_witness :
  exists c s0, relay_of relaying = Some c /\ Relay c true (zeros 32) 0 = Ok s0 /\ length (rc_ServerKeys c) = 1%nat /\
    rc_AllowCIDRs c <> [] /\ (rc_ServerKeys c <> [] \/ rc_AllowCIDRs c <> []) /\ forall p, p ∈ rc_AllowCIDRs c -> 0 < pfx_bits p.
Proof.
  destruct (relay_of relaying) as [c |] eqn:E; [| vm_compute in E; discriminate E].
  destruct (Relay c true (zeros 32) 0) as [s0 | e] eqn:S; [| vm_compute in E; injection E as <-; vm_compute in S; discriminate S].
  exists c, s0. split; [reflexivity |]. split; [exact S |].
  destruct (relay_never_open id host relaying ∅ c true (zeros 32) 0 s0 (head_in _ _ E) S) as (P & _ & N & _).
  assert (F : length (rc_ServerKeys c) = 1%nat /\ rc_AllowCIDRs c <> []) by (vm_compute in E; injection E as <-; split; [reflexivity | discriminate]).
  destruct F as [F1 F2]. split; [exact F1 |]. split; [exact F2 |]. split; [exact P |]. intros p Hp. apply (N p Hp).
Defined.

(** ** Behaviour worth knowing *)

(** Two halves of the Internet are accepted where the whole is refused: the
    relay then serves every IPv4 source without tickets. *)
Definition halves : cliFlags := line "relay" "" "" false "" "" false "" "0.0.0.0/1,128.0.0.0/1" "" false.
Definition whole : cliFlags := line "relay" "" "" false "" "" false "" "0.0.0.0/0" "" false.

Lemma halves_serve_all n :
  0 <= n < 2 ^ 32 ->
  run_line whole = Running (StartRelay <$> relays (run_line whole)) /\ is_ok (default (Err RelaySocket) ((fun c => Relay c true (zeros 32) 0) <$> relay_of whole)) = false /\
  is_ok (default (Err RelaySocket) ((fun c => Relay c true (zeros 32) 0) <$> relay_of halves)) = true /\
  cidrAllowed (default [] (rc_AllowCIDRs <$> relay_of halves)) (be_bytes 4 n) = true.
Proof.
  intros Hn. split; [vm_compute; reflexivity |]. split; [vm_compute; reflexivity |]. split; [vm_compute; reflexivity |].
  replace (default [] _) with [mkPrefix (Addr4 (be_bytes 4 0)) 1; mkPrefix (Addr4 (be_bytes 4 (2 ^ 31))) 1] by (vm_compute; reflexivity).
  unfold cidrAllowed, AddrFromSlice. rewrite slen_be_bytes. cbn [Nat.eqb Unmap existsb Contains pfx_addr pfx_bits].
  rewrite !be_value_bytes. change (8 * Z.of_nat 4) with 32. rewrite !Z.mul_0_l, !Z.add_0_l, (Z.mod_small n), !Z.shiftr_lxor by lia.
  change (Z.shiftr (0 mod 2 ^ 32) (32 - 1)) with 0. change (Z.shiftr (2 ^ 31 mod 2 ^ 32) (32 - 1)) with 1.
  rewrite Z.shiftr_div_pow2 by lia. assert (0 <= n / 2 ^ (32 - 1) < 2) as [? ?] by (split; [apply Z.div_pos | apply Z.div_lt_upper_bound]; lia).
  assert (n / 2 ^ (32 - 1) = 0 \/ n / 2 ^ (32 - 1) = 1) as [-> | ->] by lia; reflexivity.
Qed.

(** A stored session of someone else is enough for direct mode to take the
    supervised path: the revoked partner named by [--peer-key] is connected
    all the same. *)
Definition two_sessions : File :=
  Some (tokenKey "t" ⊕ " " ⊕ PubKeyB64 SupDemo.alice ⊕ " sess-alice" ⊕ nl_s ⊕ tokenKey "u" ⊕ " " ⊕ PubKeyB64 SupDemo.carol ⊕ " sess-carol" ⊕ nl_s).
Definition bob_revoked : Files := mkFiles (mkTrust two_sessions (Some (PubKeyB64 ConnectDemo.bob ⊕ nl_s))) None.
Definition direct_line : cliFlags := line "buddy" "" (PubKeyB64 ConnectDemo.bob) true "192.0.2.7:4000" "127.0.0.1:873" false "" "" "" false.

Definition direct_start : option Started :=
  c ← buddy_of direct_line; match (Buddy id no_yaml any_port c start_world bob_revoked CacheMissing ∅).1 with Ok s => Some s | Err _ => None end.

Definition direct_attempt (s : Started) : option attempt :=
  match sd_plan s with
  | PlanSessions (sp :: _) => match peerSource no_yaml (opts_of (sd_cfg s)) bob_revoked sp None 0 with Ok a => Some a | Err _ => None end
  | _ => None
  end.

Definition direct_outcome (s : Started) (a : attempt) : result ConnErr Path * BuddyState :=
  buddyRun (fun _ => None) id id (fun _ _ => Some (zeros 32)) (fun _ _ => zeros 32) (fun _ => Some (be_bytes 32 9)) (fun _ => be_bytes 32 7)
    (ConnectDemo.world false []) (conn_of (sd_cfg s)) None (mkNodeC (sd_node s) (reg_of (sd_cfg s)) (sd_policy s)) a
    (mkState (fl_trust bob_revoked) (sd_reg s) CacheMissing ∅).

Lemma direct_ignores_revocation :
  exists s a p, direct_start = Some s /\ direct_attempt s = Some a /\ (direct_outcome s a).1 = Ok p /\
    isRevoked (ts_revoked (fl_trust bob_revoked)) (f_PeerKey (sd_cfg s)) = Ok true /\
    nextAttempt (opts_of (sd_cfg s)) (fl_trust bob_revoked) = Err AttemptRevoked.
Proof.
  destruct direct_start as [s |] eqn:E; [| vm_compute in E; discriminate E]. exists s.
  vm_compute in E. injection E as <-. do 2 eexists. split_and!; vm_compute; reflexivity.
Qed.

(** Where there is a configuration directory, [BUDDYNET_KNOWN_PEERS] is never
    consulted: the flag already has a value. *)
Lemma known_peers_env_ignored getenv d : g_knownPeers (with_env getenv (registerFlags (Some d))) = g_knownPeers (registerFlags (Some d)).
Proof. cbn [with_env registerFlags g_knownPeers default_path]. unfold orEnv, given. by destruct d. Qed.

(** An invite can be issued and another one joined on the same line: both sides
    of the code comparison are then this side. *)
Definition both : cliFlags := line "buddy" server_key "" false "" "127.0.0.1:873" true (default "" invite_text) "" "" false.
Lemma invite_and_join : exists c, buddy_of both = Some c /\ f_Inviting c = true /\ f_SASShow c = true /\ f_PeerKey c <> "".
Proof. eexists. split_and!; [vm_compute; reflexivity | reflexivity | reflexivity |]. vm_compute. discriminate. Qed.

(** A status probe needs a token even where a session is stored. *)
Lemma status_without_token : run_line (line "buddy" server_key "" false "" "" false "" "" "" true) = Refused StatusNeedsToken.
Proof. vm_compute. reflexivity. Qed.
End StartDemo.
