(* ===== verification/Interfaces.v ===== *)
(** * The interfaces of a host, their rules and the workers that run them

    The second half of [runWG] ([internal/role/wgpath.go]) with the packet
    filter and the kernel it acts on: a worker programs the scope of its
    interface, brings the interface up, and on its way out takes the interface
    down and then removes the rules (deferred calls run last in, first out),
    whether or not the kernel took the teardown.  Workers run concurrently and
    the supervisor reprograms scopes; each call is one step, and the kernel may
    refuse any of them. *)

From S2P Require Import Prelude Sha256 NetAddr NetParse Crypto Scope Wg Netlink Nft NftKernel NftProps NftEval NftBatch NftTheorems WgNetlink WgProps Manifest.
From S2P Require Connect.

Section Interfaces.
Context `{Ed25519} (x_public : string -> option string) (x_private : string -> string) (big : bool).

(** Where a worker is between [applyScope] and its return. *)
Inductive Stage := Scoped | UpAt (ifindex : Z) | Closing.

Record Machine := mkMachine { mc_nft : NftState; mc_rules : Ruleset; mc_host : Host; mc_stage : gmap string Stage }.

Inductive WorkerEvent :=
| EScope (ifIndex : nat) (s : Scope) (up : bool)
| EUp (ifIndex : nat) (port : Z) (myPriv partnerPub : string) (remote : option (Addr * Z)) (closed : bool) (f : Faults)
| EDown (ifIndex : nat) (refused : bool)
| EUnscope (ifIndex : nat) (up : bool)
| ERescope (ifIndex : nat) (s : Scope) (up : bool).

Definition program (e : NftEvent) (m : Machine) : Machine :=
  let '(st, rs) := nft_step big (mc_nft m, mc_rules m) e in mkMachine st rs (mc_host m) (mc_stage m).

Definition at_stage (name : string) (s : option Stage) (m : Machine) : Machine :=
  mkMachine (mc_nft m) (mc_rules m) (mc_host m) (match s with Some x => <[name := x]> (mc_stage m) | None => delete name (mc_stage m) end).

(** [applyScope]; refused, the attempt ends. *)
Definition scope_step (name : string) (s : Scope) (up : bool) (m : Machine) : Machine :=
  let m1 := program (ApplyScope name s up) m in if up then at_stage name (Some Scoped) m1 else m1.

(** [bringUpWGDirect], with what it does to the host. *)
Definition bring_up (name : string) (port : Z) (myPriv partnerPub : string) (remote : option (Addr * Z)) (closed : bool) (f : Faults) (h : Host)
    : option Z * Host :=
  match ConfigForPeer x_public x_private name port myPriv partnerPub remote with
  | Err _ => (None, h)
  | Ok c => if negb closed then (None, h) else match Up f c h with (Ok i, h') => (Some i, h') | (Err _, h') => (None, h') end
  end.

Definition up_step (name : string) (port : Z) (myPriv partnerPub : string) (remote : option (Addr * Z)) (closed : bool) (f : Faults) (m : Machine)
    : Machine :=
  let '(r, h) := bring_up name port myPriv partnerPub remote closed f (mc_host m) in
  at_stage name (Some (match r with Some i => UpAt i | None => Closing end)) (mkMachine (mc_nft m) (mc_rules m) h (mc_stage m)).

(** The teardown [Up] returned; the worker goes on whether or not the kernel
    takes it. *)
Definition down_step (name : string) (i : Z) (refused : bool) (m : Machine) : Machine :=
  at_stage name (Some Closing) (mkMachine (mc_nft m) (mc_rules m) (delLink refused i (mc_host m)) (mc_stage m)).

(** [removeScope]; a refusal is only logged. *)
Definition unscope_step (name : string) (up : bool) (m : Machine) : Machine := at_stage name None (program (RemoveScope name up) m).

(** One call of some worker, or of the supervisor's reload; [None] where no
    worker is at that point.  A worker starts on an interface no other worker
    is using. *)
Definition machine_step (e : WorkerEvent) (m : Machine) : option Machine :=
  match e with
  | EScope n s up =>
      let name := Connect.wgIfName n in
      match mc_stage m !! name with None => Some (scope_step name s up m) | Some _ => None end
  | EUp n port priv pub remote closed f =>
      let name := Connect.wgIfName n in
      match mc_stage m !! name with Some Scoped => Some (up_step name port priv pub remote closed f m) | _ => None end
  | EDown n refused =>
      let name := Connect.wgIfName n in
      match mc_stage m !! name with Some (UpAt i) => Some (down_step name i refused m) | _ => None end
  | EUnscope n up =>
      let name := Connect.wgIfName n in
      match mc_stage m !! name with Some Closing => Some (unscope_step name up m) | _ => None end
  | ERescope n s up => Some (program (ApplyScope (Connect.wgIfName n) s up) m)
  end.

Fixpoint machine_run (es : list WorkerEvent) (m : Machine) : option Machine :=
  match es with [] => Some m | e :: r => machine_step e m ≫= machine_run r end.

(** ** What holds of every run *)

Definition worker_event_ok (e : WorkerEvent) : Prop :=
  match e with
  | EScope n s _ | ERescope n s _ => (n < MaxBuddies)%nat /\ scope_ok s
  | EUp n _ _ _ _ _ _ | EDown n _ | EUnscope n _ => (n < MaxBuddies)%nat
  end.

(** The scope last programmed for an interface and not removed since. *)
Definition note_scope (name : string) (acc : option Scope) (e : WorkerEvent) : option Scope :=
  match e with
  | EScope n s true | ERescope n s true => if String.eqb (Connect.wgIfName n) name then Some s else acc
  | EUnscope n _ => if String.eqb (Connect.wgIfName n) name then None else acc
  | _ => acc
  end.

Definition scope_in_force (name : string) (es : list WorkerEvent) : option Scope := foldl (note_scope name) None es.

(** The kernel has the scope recorded for [name]. *)
Definition in_kernel (m : Machine) (name : string) : Prop :=
  exists k rs1, good k /\ mc_rules m = intended big (nf_scopes k) (nf_order k) rs1 /\
    nf_scopes k !! name = nf_scopes (mc_nft m) !! name /\ is_Some (nf_scopes (mc_nft m) !! name).

Record machine_inv (rs0 : Ruleset) (m : Machine) : Prop := {
  mi_good : good (mc_nft m);
  mi_host : host_wf (mc_host m);
  mi_other : delete tableName (mc_rules m) = delete tableName rs0;
  mi_rules : forall name s, mc_stage m !! name = Some s -> in_kernel m name;
}.

(** An event in which the kernel refuses to delete the interface [name]. *)
Definition deletion_refused (name : string) (e : WorkerEvent) : bool :=
  match e with
  | EUp n _ _ _ _ _ f => String.eqb (Connect.wgIfName n) name && fa_undo f
  | EDown n refused => String.eqb (Connect.wgIfName n) name && refused
  | _ => false
  end.

(** The interface [name], if there is one, belongs to a worker that brought it up. *)
Definition owned (name : string) (m : Machine) : Prop :=
  forall l, ho_links (mc_host m) !! name = Some l -> mc_stage m !! name = Some (UpAt (lk_index l)).

(** *** The packet filter *)

Lemma program_frame e m : mc_host (program e m) = mc_host m /\ mc_stage (program e m) = mc_stage m.
Proof. unfold program. by destruct (nft_step big (mc_nft m, mc_rules m) e). Qed.

Lemma program_nft e m : mc_nft (program e m) = (nft_step big (mc_nft m, mc_rules m) e).1.
Proof. unfold program. by destruct (nft_step big (mc_nft m, mc_rules m) e). Qed.

Lemma program_rules e m : mc_rules (program e m) = (nft_step big (mc_nft m, mc_rules m) e).2.
Proof. unfold program. by destruct (nft_step big (mc_nft m, mc_rules m) e). Qed.

Lemma program_apply n s (up : bool) m :
  nft_wf (mc_nft m) ->
  if up then nf_scopes (mc_nft (program (ApplyScope n s up) m)) = <[n := s]> (nf_scopes (mc_nft m)) /\
             mc_rules (program (ApplyScope n s up) m)
             = intended big (nf_scopes (mc_nft (program (ApplyScope n s up) m))) (nf_order (mc_nft (program (ApplyScope n s up) m))) (mc_rules m)
  else mc_nft (program (ApplyScope n s up) m) = mc_nft m /\ mc_rules (program (ApplyScope n s up) m) = mc_rules m.
Proof.
  intros W. rewrite program_nft, program_rules. cbn [nft_step fst snd batch_of taken]. destruct up.
  - rewrite batch_applied. done.
  - split; [by apply Apply_refused |]. done.
Qed.

Lemma program_remove n up m :
  nf_scopes (mc_nft (program (RemoveScope n up) m)) = delete n (nf_scopes (mc_nft m)) /\
  (mc_rules (program (RemoveScope n up) m) = mc_rules m \/
   mc_rules (program (RemoveScope n up) m)
   = intended big (nf_scopes (mc_nft (program (RemoveScope n up) m))) (nf_order (mc_nft (program (RemoveScope n up) m))) (mc_rules m)).
Proof.
  rewrite program_nft, program_rules. cbn [nft_step fst snd batch_of taken]. unfold Remove. destruct (nf_scopes (mc_nft m) !! n) eqn:L.
  - split; [done |]. destruct up; [right; by rewrite batch_applied | by left].
  - split; [by rewrite delete_id | by left].
Qed.

Lemma program_apply_kernel n s (up : bool) m name :
  good (mc_nft m) -> ifname_ok n -> scope_ok s -> in_kernel m name \/ (up = true /\ name = n) -> in_kernel (program (ApplyScope n s up) m) name.
Proof.
  intros G On Os K. pose proof (program_apply n s up m (gd_wf _ G)) as P.
  assert (G' : good (mc_nft (program (ApplyScope n s up) m))) by (rewrite program_nft; by apply step_good).
  destruct up.
  - destruct P as [Es Er]. exists (mc_nft (program (ApplyScope n s true) m)), (mc_rules m). split_and!; [done | done | done |].
    rewrite Es. destruct (decide (name = n)) as [-> | D]; [by rewrite lookup_insert_eq |]. rewrite lookup_insert_ne by done.
    destruct K as [(k & rs1 & _ & _ & _ & K) | [_ ?]]; done.
  - destruct P as [En Er]. destruct K as [(k & rs1 & K1 & K2 & K3 & K4) | [? _]]; [| done]. exists k, rs1. by rewrite En, Er.
Qed.

Lemma program_remove_kernel n up m name :
  good (mc_nft m) -> ifname_ok n -> name <> n -> in_kernel m name -> in_kernel (program (RemoveScope n up) m) name.
Proof.
  intros G On D (k & rs1 & K1 & K2 & K3 & K4). destruct (program_remove n up m) as [Es Er].
  assert (G' : good (mc_nft (program (RemoveScope n up) m))) by (rewrite program_nft; by apply step_good).
  destruct Er as [Er | Er].
  - exists k, rs1. rewrite Er, Es, lookup_delete_ne by done. done.
  - exists (mc_nft (program (RemoveScope n up) m)), (mc_rules m). split_and!; [done | done | done |].
    by rewrite Es, lookup_delete_ne.
Qed.

Lemma program_other e m : delete tableName (mc_rules (program e m)) = delete tableName (mc_rules m).
Proof. rewrite program_rules. apply step_rules. Qed.

Lemma wgIfName_ok n : (n < MaxBuddies)%nat -> ifname_ok (Connect.wgIfName n).
Proof.
  intros Hn. assert (A : forallb (fun n => (slen (Connect.wgIfName n) <=? 15)%nat && negb (contains_char zero (Connect.wgIfName n))) (seq 0 MaxBuddies) = true)
    by (vm_compute; reflexivity).
  rewrite forallb_forall in A. specialize (A n). unfold ifname_ok.
  assert (I : In n (seq 0 MaxBuddies)) by (apply in_seq; lia). apply A, andb_true_iff in I as [I1 I2].
  apply Nat.leb_le in I1. apply negb_true_iff in I2. done.
Qed.

(** *** The host *)

Lemma ConfigForPeer_name name port priv pub remote c :
  ConfigForPeer x_public x_private name port priv pub remote = Ok c -> wc_IfName c = name.
Proof. unfold ConfigForPeer. destruct (x_public pub); [| done]. by intros [= <-]. Qed.

Lemma bring_up_spec name port priv pub remote closed f h :
  host_wf h ->
  let '(r, h') := bring_up name port priv pub remote closed f h in
  host_wf h' /\ (forall n, n <> name -> ho_links h' !! n = ho_links h !! n) /\
  match r with
  | Some i => exists c, ConfigForPeer x_public x_private name port priv pub remote = Ok c /\
                        ho_links h' !! name = Some (configured c h) /\ i = lk_index (configured c h)
  | None => fa_undo f = false -> ho_links h' !! name = ho_links h !! name \/ ho_links h' !! name = None
  end.
Proof.
  intros W. unfold bring_up. destruct (ConfigForPeer _ _ _ _ _ _ _) as [c |] eqn:Ec; [| split_and!; auto].
  destruct (negb closed); [split_and!; auto |]. pose proof (ConfigForPeer_name _ _ _ _ _ _ Ec) as En.
  pose proof (Up_cases f c h W) as U. destruct (Up f c h) as [[j | [e |]] h']; rewrite <- En.
  - destruct U as (_ & -> & ->). split_and!; [by apply but_some_wf | apply but_other |]. exists c. by rewrite but_this.
  - destruct U as [_ ->]. split_and!; auto.
  - destruct U as (_ & [-> | [[_ ->] | [-> | (Fu & l & El & _ & ->)]]]).
    + split_and!; [apply but_none_wf; [done | lia] | apply but_other |]. rewrite but_this. auto.
    + auto.
    + split_and!; [apply but_none_wf; [done | lia] | apply but_other |]. rewrite but_this. auto.
    + split_and!; [by apply but_some_wf | apply but_other |]. congruence.
Qed.

(** *** Steps: the rules of every interface a worker holds *)

Lemma scope_step_inv rs0 n s up m :
  machine_inv rs0 m -> (n < MaxBuddies)%nat -> scope_ok s -> machine_inv rs0 (scope_step (Connect.wgIfName n) s up m).
Proof.
  intros I Hn Hs. set (name := Connect.wgIfName n) in *. pose proof (wgIfName_ok n Hn) as On. fold name in On.
  destruct (program_frame (ApplyScope name s up) m) as [Fh Fs].
  assert (G' : good (mc_nft (program (ApplyScope name s up) m))) by (rewrite program_nft; by apply step_good; [apply I |]).
  unfold scope_step. cbn zeta. destruct up; split; cbn [at_stage mc_nft mc_rules mc_host mc_stage]; rewrite ?Fh, ?Fs; try done; try apply I.
  - rewrite program_other. apply I.
  - intros k x L. apply program_apply_kernel; [apply I | done | done |].
    apply lookup_insert_Some in L as [[<- _] | [_ L]]; [by right |]. left. by eapply (mi_rules _ _ I).
  - intros k x L. apply program_apply_kernel; [apply I | done | done |]. left. by eapply (mi_rules _ _ I).
Qed.

(** A step of the host alone, by a worker that holds [name] already. *)
Lemma host_step_inv rs0 name st st' h' m :
  machine_inv rs0 m -> host_wf h' -> mc_stage m !! name = Some st ->
  machine_inv rs0 (at_stage name (Some st') (mkMachine (mc_nft m) (mc_rules m) h' (mc_stage m))).
Proof.
  intros I W Hst. split; cbn [at_stage mc_nft mc_rules mc_host mc_stage]; try apply I; [done |].
  intros k x L. assert (exists y, mc_stage m !! k = Some y) as [y Ly].
  { apply lookup_insert_Some in L as [[<- _] | [_ L]]; eauto. }
  apply (mi_rules _ _ I k y Ly).
Qed.

Lemma up_step_inv rs0 name port priv pub remote closed f m :
  machine_inv rs0 m -> mc_stage m !! name = Some Scoped -> machine_inv rs0 (up_step name port priv pub remote closed f m).
Proof.
  intros I Hst. unfold up_step. pose proof (bring_up_spec name port priv pub remote closed f (mc_host m) (mi_host _ _ I)) as B.
  destruct (bring_up _ _ _ _ _ _ _ _) as [r h']. by eapply host_step_inv; [| apply B |].
Qed.

Lemma unscope_step_inv rs0 n up m :
  machine_inv rs0 m -> (n < MaxBuddies)%nat -> machine_inv rs0 (unscope_step (Connect.wgIfName n) up m).
Proof.
  intros I Hn. set (name := Connect.wgIfName n) in *. pose proof (wgIfName_ok n Hn) as On. fold name in On.
  destruct (program_frame (RemoveScope name up) m) as [Fh Fs]. unfold unscope_step.
  split; cbn [at_stage mc_nft mc_rules mc_host mc_stage]; rewrite ?Fh, ?Fs; try apply I.
  - rewrite program_nft. apply step_good; [apply I | done].
  - rewrite program_other. apply I.
  - intros k x [D L]%lookup_delete_Some. apply program_remove_kernel; [apply I | done | done |]. by eapply (mi_rules _ _ I).
Qed.

Lemma rescope_inv rs0 n s up m :
  machine_inv rs0 m -> (n < MaxBuddies)%nat -> scope_ok s -> machine_inv rs0 (program (ApplyScope (Connect.wgIfName n) s up) m).
Proof.
  intros I Hn Hs. pose proof (wgIfName_ok n Hn) as On. set (name := Connect.wgIfName n) in *.
  destruct (program_frame (ApplyScope name s up) m) as [Fh Fs]. split; rewrite ?Fh, ?Fs; try apply I.
  - rewrite program_nft. apply step_good; [apply I | done].
  - rewrite program_other. apply I.
  - intros k x L. apply program_apply_kernel; [apply I | done | done |]. left. by eapply (mi_rules _ _ I).
Qed.

Lemma machine_step_inv rs0 e m m' : machine_inv rs0 m -> worker_event_ok e -> machine_step e m = Some m' -> machine_inv rs0 m'.
Proof.
  intros I Ok. destruct e; cbn [machine_step worker_event_ok] in *.
  - destruct (mc_stage m !! _) eqn:E; [done |]. intros [= <-]. apply scope_step_inv; naive_solver.
  - destruct (mc_stage m !! _) as [[] |] eqn:E; try done. intros [= <-]. by apply up_step_inv.
  - destruct (mc_stage m !! _) as [[] |] eqn:E; try done. intros [= <-]. eapply host_step_inv; [done | apply delLink_wf, I | done].
  - destruct (mc_stage m !! _) as [[] |] eqn:E; try done. intros [= <-]. by apply unscope_step_inv.
  - intros [= <-]. apply rescope_inv; naive_solver.
Qed.

Lemma machine_run_inv rs0 es m m' : machine_inv rs0 m -> Forall worker_event_ok es -> machine_run es m = Some m' -> machine_inv rs0 m'.
Proof.
  revert m. induction es as [| e es IH]; intros m I F; cbn [machine_run]; [by intros [= <-] |].
  apply Forall_cons in F as [Oe F]. destruct (machine_step e m) as [m1 |] eqn:E; [| done]. cbn [mbind option_bind].
  apply IH; [| done]. by eapply machine_step_inv.
Qed.

(** *** Steps: an interface is there only while a worker has it up *)

(** A step on the interface [name] by another worker's events leaves [owned]. *)
Lemma owned_elsewhere name k st' m m' :
  owned name m -> name <> k -> (forall l, ho_links (mc_host m') !! name = Some l -> ho_links (mc_host m) !! name = Some l) ->
  mc_stage m' = (match st' with Some x => <[k := x]> (mc_stage m) | None => delete k (mc_stage m) end) -> owned name m'.
Proof.
  intros O D Sub Est l L. rewrite Est. destruct st'; [rewrite lookup_insert_ne by done | rewrite lookup_delete_ne by done]; by apply O, Sub.
Qed.

Lemma up_step_owned name k port priv pub remote closed f m :
  owned name m -> host_wf (mc_host m) -> mc_stage m !! k = Some Scoped -> String.eqb k name && fa_undo f = false ->
  owned name (up_step k port priv pub remote closed f m).
Proof.
  intros O W Hst Nf. unfold up_step. pose proof (bring_up_spec k port priv pub remote closed f (mc_host m) W) as B.
  destruct (bring_up _ _ _ _ _ _ _ _) as [r h']. destruct B as (_ & Oth & R). destruct (String.eqb_spec k name) as [-> | D].
  - assert (Free : ho_links (mc_host m) !! name = None).
    { destruct (ho_links (mc_host m) !! name) as [l |] eqn:L; [| done]. apply O in L. congruence. }
    intros l. cbn [at_stage mc_host mc_stage]. rewrite lookup_insert_eq. intros L. do 2 f_equal. destruct r as [i |].
    + destruct R as (c & _ & Lc & ->). rewrite Lc in L. by injection L as <-.
    + rewrite Free in R. destruct (R Nf); congruence.
  - eapply (owned_elsewhere name k (Some _)); [done | done | | reflexivity]. cbn [at_stage mc_host]. intros l. by rewrite Oth.
Qed.

Lemma down_step_owned name k i refused m :
  owned name m -> mc_stage m !! k = Some (UpAt i) -> String.eqb k name && refused = false -> owned name (down_step k i refused m).
Proof.
  intros O Hst Nf. unfold down_step. destruct (String.eqb_spec k name) as [-> | D].
  - cbn in Nf. subst refused. intros l. cbn [at_stage mc_host]. intros [L Di]%delLink_lookup. apply O in L. rewrite Hst in L.
    injection L as E. by destruct (Di eq_refl).
  - eapply (owned_elsewhere name k (Some _)); [done | done | | reflexivity]. cbn [at_stage mc_host].
    by intros l [L _]%delLink_lookup.
Qed.

(** A step that leaves the host alone, at a stage with no interface. *)
Lemma filter_step_owned name k st' m m' :
  owned name m -> mc_host m' = mc_host m -> (forall i, mc_stage m !! k <> Some (UpAt i)) ->
  mc_stage m' = (match st' with Some x => <[k := x]> (mc_stage m) | None => delete k (mc_stage m) end) -> owned name m'.
Proof.
  intros O Eh N Est. destruct (decide (name = k)) as [-> | D].
  - intros l. rewrite Eh. intros L. apply O in L. by apply N in L.
  - eapply owned_elsewhere; [done | done | by rewrite Eh | done].
Qed.

Lemma machine_step_owned name e m m' :
  owned name m -> host_wf (mc_host m) -> deletion_refused name e = false -> machine_step e m = Some m' -> owned name m'.
Proof.
  intros O W Nf. destruct e; cbn [machine_step deletion_refused] in *.
  - destruct (program_frame (ApplyScope (Connect.wgIfName ifIndex) s up) m) as [Fh Fs].
    destruct (mc_stage m !! _) eqn:E; [done |]. intros [= <-]. unfold scope_step. cbn zeta. destruct up.
    + eapply (filter_step_owned name (Connect.wgIfName ifIndex) (Some Scoped)); [done | done | congruence |].
      cbn [at_stage mc_stage]. by rewrite Fs.
    + intros l. rewrite Fh, Fs. apply O.
  - destruct (mc_stage m !! _) as [[] |] eqn:E; try done. intros [= <-]. by apply up_step_owned.
  - destruct (mc_stage m !! _) as [[] |] eqn:E; try done. intros [= <-]. by apply down_step_owned.
  - destruct (program_frame (RemoveScope (Connect.wgIfName ifIndex) up) m) as [Fh Fs].
    destruct (mc_stage m !! _) as [[] |] eqn:E; try done. intros [= <-]. unfold unscope_step.
    eapply (filter_step_owned name (Connect.wgIfName ifIndex) None); [done | done | congruence |]. cbn [at_stage mc_stage]. by rewrite Fs.
  - destruct (program_frame (ApplyScope (Connect.wgIfName ifIndex) s up) m) as [Fh Fs]. intros [= <-] l. rewrite Fh, Fs. apply O.
Qed.

Lemma machine_run_owned rs0 name es m m' :
  machine_inv rs0 m -> Forall worker_event_ok es -> owned name m -> Forall (fun e => deletion_refused name e = false) es ->
  machine_run es m = Some m' -> owned name m'.
Proof.
  revert m. induction es as [| e es IH]; intros m I F O D; cbn [machine_run]; [by intros [= <-] |].
  apply Forall_cons in F as [Oe F]. apply Forall_cons in D as [De D].
  destruct (machine_step e m) as [m1 |] eqn:E; [| done]. cbn [mbind option_bind]. apply IH; [by eapply machine_step_inv | done | | done].
  by eapply machine_step_owned; [| apply I | |].
Qed.

(** *** The scope in force *)

Lemma insert_noted (sc : gmap string Scope) n s name :
  <[n := s]> sc !! name = if String.eqb n name then Some s else sc !! name.
Proof. destruct (String.eqb_spec n name) as [-> | D]; [apply lookup_insert_eq | by apply lookup_insert_ne]. Qed.

Lemma apply_noted n s (up : bool) m name :
  nft_wf (mc_nft m) ->
  nf_scopes (mc_nft (program (ApplyScope n s up) m)) !! name
  = (if up then if String.eqb n name then Some s else nf_scopes (mc_nft m) !! name else nf_scopes (mc_nft m) !! name).
Proof.
  intros W. pose proof (program_apply n s up m W) as P. destruct up; [destruct P as [-> _] | by destruct P as [-> _]]. apply insert_noted.
Qed.

Lemma step_noted rs0 e m m' name :
  machine_inv rs0 m -> machine_step e m = Some m' ->
  nf_scopes (mc_nft m') !! name = note_scope name (nf_scopes (mc_nft m) !! name) e.
Proof.
  intros I. pose proof (gd_wf _ (mi_good _ _ I)) as W. destruct e; cbn [machine_step note_scope].
  - destruct (mc_stage m !! _); [done |]. intros [= <-]. unfold scope_step. cbn zeta. rewrite <- apply_noted by done. by destruct up.
  - destruct (mc_stage m !! _) as [[] |]; try done. intros [= <-]. unfold up_step. by destruct (bring_up _ _ _ _ _ _ _ _).
  - destruct (mc_stage m !! _) as [[] |]; try done. by intros [= <-].
  - destruct (mc_stage m !! _) as [[] |]; try done. intros [= <-]. unfold unscope_step. cbn [at_stage mc_nft].
    destruct (program_remove (Connect.wgIfName ifIndex) up m) as [-> _].
    destruct (String.eqb_spec (Connect.wgIfName ifIndex) name) as [-> | D]; [apply lookup_delete_eq | by rewrite lookup_delete_ne].
  - intros [= <-]. rewrite apply_noted by done. by destruct up.
Qed.

Lemma run_noted rs0 es m m' name :
  machine_inv rs0 m -> Forall worker_event_ok es -> machine_run es m = Some m' ->
  nf_scopes (mc_nft m') !! name = foldl (note_scope name) (nf_scopes (mc_nft m) !! name) es.
Proof.
  revert m. induction es as [| e es IH]; intros m I F; cbn [machine_run foldl]; [by intros [= <-] |].
  apply Forall_cons in F as [Oe F]. destruct (machine_step e m) as [m1 |] eqn:E; [| done]. cbn [mbind option_bind]. intros R.
  rewrite <- (step_noted rs0 e m m1 name I E). by apply IH; [eapply machine_step_inv | |].
Qed.

Lemma machine_start rs0 h0 : host_wf h0 -> machine_inv rs0 (mkMachine nft_empty rs0 h0 ∅).
Proof.
  intros W. split; cbn [mc_nft mc_rules mc_host mc_stage]; [apply empty_good | done | done |].
  intros n s L. by rewrite lookup_empty in L.
Qed.

(** C4. A buddy's interface is not up without its rules.  In whatever order
    workers program scopes, bring interfaces up, take them down and remove
    their rules, and reloads reprogram scopes, with any of these calls refused
    by the kernel, and whatever other tables the host has, as long as two
    workers are never on one interface: while a worker holds the interface of
    a buddy, from its rules being taken to their removal, a packet that comes
    in on that interface is not routed onward, and is delivered to this host
    only as the scope last programmed for it allows.  The same holds at every
    other moment, whether or not a worker holds it, if there was no interface
    of that name at the start and the kernel never refused to delete this one;
    deletions of other interfaces may have been refused. *)
Theorem interface_never_unfiltered (rs0 : Ruleset) (h0 : Host) (es : list WorkerEvent) (m : Machine) (n : nat) (l : Link) (p : Packet) :
  host_wf h0 -> Forall worker_event_ok es ->
  machine_run es (mkMachine nft_empty rs0 h0 ∅) = Some m ->
  ho_links (mc_host m) !! Connect.wgIfName n = Some l -> packet_ok p -> pk_iif p = Connect.wgIfName n ->
  is_Some (mc_stage m !! Connect.wgIfName n) \/
    (ho_links h0 !! Connect.wgIfName n = None /\ Forall (fun e => deletion_refused (Connect.wgIfName n) e = false) es) ->
  exists s, scope_in_force (Connect.wgIfName n) es = Some s /\
    hook_verdict big (mc_rules m) nfInetForward p = nfDrop /\
    hook_verdict big (mc_rules m) nfInetLocalIn p =
      (if admitted p s then hook_verdict big (delete tableName rs0) nfInetLocalIn p else nfDrop).
Proof.
  intros W F R L Po Pi Held. pose proof (machine_start rs0 h0 W) as I0.
  pose proof (run_noted rs0 es _ _ (Connect.wgIfName n) I0 F R) as Sc. pose proof (machine_run_inv rs0 es _ _ I0 F R) as I.
  assert (St : is_Some (mc_stage m !! Connect.wgIfName n)).
  { destruct Held as [St | [N D]]; [done |]. eexists. refine (machine_run_owned rs0 _ es _ m I0 F _ D R l L).
    intros x. cbn [mc_host]. by rewrite N. }
  destruct St as [st St]. destruct (mi_rules _ _ I _ _ St) as (k & rs1 & Gk & Er & Ek & [s Es]).
  pose proof (intended_verdict big rs0 _ rs1 k p Gk Po Er (mi_other _ _ I)) as V. cbn zeta in V.
  rewrite Pi, Ek, Es in V. exists s. split_and!; [| apply V | apply V].
  rewrite Es in Sc. cbn [mc_nft nf_scopes nft_empty] in Sc. by rewrite lookup_empty in Sc.
Qed.
End Interfaces.

(** ** Two buddies *)

Module InterfacesDemo.
#[local] Existing Instance Crypto.Toy.toy_ed.

Definition all_well : Faults := WgDemo.all_well.
Definition up_of (n : nat) (pub : string) : WorkerEvent := EUp n 51820 "me" pub None true all_well.

Definition day : list WorkerEvent :=
  [EScope 0 NftDemo.web true; up_of 0 "bob"; EScope 1 NftDemo.nothing false; EScope 1 NftDemo.nothing true; up_of 1 "carol"; EDown 0 true; EUnscope 0 false;
   ERescope 1 NftDemo.web true].

Definition start : Machine := mkMachine nft_empty ∅ (mkHost ∅ 3) ∅.

Definition run (es : list WorkerEvent) : option Machine :=
  machine_run (fun _ => Some (be_bytes 32 9)) (fun _ => be_bytes 32 7) false es start.

Definition from_carol : Packet := mkPacket "bnet1" IPPROTO_TCP (String (byte_of 200) (String (byte_of 0) (String (byte_of 0) (String (byte_of 22) "")))) 8.

Lemma day_ok : Forall worker_event_ok day.
Proof.
  assert (O : scope_ok NftDemo.web) by (intros q ->%list_elem_of_singleton; cbn; lia).
  assert (O' : scope_ok NftDemo.nothing) by (intros q ?%not_elem_of_nil; done).
  unfold day, up_of. repeat (apply Forall_cons; split; [cbn [worker_event_ok]; unfold MaxBuddies; (lia || (split; [lia | done])) |]). apply Forall_nil_2.
Qed.

Lemma from_carol_ok : packet_ok from_carol.
Proof. split; [split; [cbn; lia | done] |]. split; [cbn; unfold IPPROTO_TCP; lia | cbn; lia]. Qed.

Lemma start_wf : host_wf (mkHost ∅ 3).
Proof. split; intros n *; cbn [ho_links]; rewrite lookup_empty; discriminate. Qed.

Lemma interface_never_unfiltered_witness :
  exists m, run day = Some m /\ hook_verdict false (mc_rules m) nfInetForward from_carol = nfDrop /\
    hook_verdict false (mc_rules m) nfInetLocalIn from_carol = nfDrop.
Proof.
  destruct (run day) as [m |] eqn:R; [| vm_compute in R; discriminate R].
  assert (L : is_Some (m0 ← run day; ho_links (mc_host m0) !! "bnet1")) by (vm_compute; eexists; reflexivity).
  rewrite R in L. destruct L as [l L]. exists m. split; [reflexivity |].
  destruct (interface_never_unfiltered (fun _ => Some (be_bytes 32 9)) (fun _ => be_bytes 32 7) false ∅ (mkHost ∅ 3) day m 1 l from_carol) as (s & Es & V1 & V2).
  - exact start_wf.
  - exact day_ok.
  - exact R.
  - exact L.
  - exact from_carol_ok.
  - reflexivity.
  - right. split; [apply lookup_empty |]. repeat constructor.
  - split; [exact V1 |]. rewrite V2. change (scope_in_force "bnet1" day) with (Some NftDemo.web) in Es. injection Es as <-. reflexivity.
Defined.

Definition from_bob : Packet := mkPacket "bnet0" IPPROTO_TCP (String (byte_of 200) (String (byte_of 0) (String (byte_of 0) (String (byte_of 22) "")))) 8.

(** A refused teardown is ignored and the rules are removed all the same: the
    interface stays up, and a packet on it is let through to this host and
    routed onward. *)
Lemma refused_teardown_opens :
  exists m, run [EScope 0 NftDemo.nothing true; up_of 0 "bob"; EDown 0 true; EUnscope 0 true] = Some m /\
    lk_up <$> (ho_links (mc_host m) !! "bnet0") = Some true /\
    hook_verdict false (mc_rules m) nfInetLocalIn from_bob = nfAccept /\
    hook_verdict false (mc_rules m) nfInetForward from_bob = nfAccept.
Proof. eexists. split; [vm_compute; reflexivity |]. vm_compute. done. Qed.
End InterfacesDemo.
