(* ===== verification/EndToEnd.v ===== *)
(** * From the handshake server to the relay

    The handshake server issues the tickets the relay admits.  Two components
    that share no state meet here: the tickets of one pair, minted by
    [issueTicket], take the bind datagrams of both buddies through the cookie,
    rate and admission checks of the relay and through [verifyTicketBind] to
    one relayed session with traffic flowing both ways. *)

From S2P Require Import Prelude Base64 Sha256 Json NetAddr Crypto Protocol Ticket HsRegistry Authz.
From S2P Require Handshake Register.
From S2P Require Import RelayWire RelayServer RelayInv RelayProps RelayComplete.

Section EndToEnd.
Context `{Ed25519Laws}.

(** The random bytes [ticket.NewID] draws. *)
Definition drawn (ch : Handshake.Choice) : Prop :=
  (forall r, Handshake.ch_sid ch = Some r -> slen r = IDLen) /\
  (forall r, Handshake.ch_nonce ch = Some r -> slen r = IDLen).

Definition sids_valid (r : hsRegistry) : Prop := map_Forall (fun _ sid => ValidID sid = true) (sids r).

Lemma sidFor_spec rand tok r sid r' :
  sidFor rand tok r = (Some sid, r') -> sids_valid r -> (forall x, rand = Some x -> slen x = IDLen) ->
  sids r' !! tok = Some sid /\ ValidID sid = true /\ sids_valid r'.
Proof.
  intros Hs Hv Hr. unfold sidFor in Hs. destruct (sids r !! tok) as [s0 |] eqn:E.
  - injection Hs as <- <-. split_and!; [done | by apply (Hv tok) | done].
  - destruct (_ <=? _); [done |]. destruct rand as [raw |]; [| done]. injection Hs as <- <-. cbn [sids with_sids].
    assert (Hid : ValidID (NewID raw) = true) by (apply NewID_valid; auto).
    split_and!; [by rewrite lookup_insert_eq | done | by apply map_Forall_insert_2].
Qed.

(** What an issued ticket is. *)
Record issued (priv relayID : string) (now : Z) (m : Message) (partner : Peer) (r' : hsRegistry) (tk : RelayTicket)
    (p : Payload) : Prop := {
  is_wf : ticket_wf p;
  is_bytes : exists payload sig, Sign priv p = Ok (payload, sig) /\
    RawURL.DecodeString (rt_Payload tk) = Some payload /\ RawURL.DecodeString (rt_Sig tk) = Some sig;
  is_rid : RID p = relayID;
  is_epk : EPK p = m_EphPub m;
  is_sid : sids r' !! m_Token m = Some (SID p);
  is_keys : m_PubKey m <> p_PubKey partner;
  is_leg : Leg p = if str_ltb (p_PubKey partner) (m_PubKey m) then LegB else LegA;
  is_window : forall t, now <= t <= now + MaxTTL -> CheckWindow p t = Ok tt;
}.

Lemma unix_mono a b : a <= b -> unix a <= unix b.
Proof. intros Hab. unfold unix. apply Z.div_le_mono; [done | lia]. Qed.

Lemma unix_add now n : unix (now + n * second) = unix now + n.
Proof. unfold unix, second. by rewrite Z.div_add. Qed.

Lemma issueTicket_spec now ch priv relayID m partner r tk r' eph :
  Handshake.issueTicket now ch priv relayID m partner r = (Some tk, r') ->
  ValidID relayID = true -> drawn ch -> sids_valid r -> m_EphPub m = RawURL.EncodeToString (pub_of eph) ->
  0 <= unix now <= int64_max - 1000 ->
  exists p, issued priv relayID now m partner r' tk p.
Proof.
  intros Hi Hrid [Hsid Hnon] Hv Heph Hnow. unfold Handshake.issueTicket in Hi.
  destruct (_ || _); [done |]. rewrite Heph, RawURL_decode_encode, pub_size in Hi. cbn [negb Nat.eqb] in Hi.
  destruct (String.eqb_spec (m_PubKey m) (p_PubKey partner)) as [? | Hne]; [done |].
  set (leg := if str_ltb _ _ then LegB else LegA) in Hi.
  destruct (sidFor _ _ r) as [osid r1] eqn:Es. destruct osid as [sid |]; [| done].
  destruct (sidFor_spec _ _ _ _ _ Es Hv Hsid) as (Hs1 & Hsv & _).
  destruct (Handshake.ch_nonce ch) as [rand |]; [| done].
  set (p := mkPayload _ _ _ _ _ _ _ _) in Hi.
  assert (Hu : unix (now + MaxTTL) = unix now + 120) by apply unix_add.
  assert (Hw : ticket_wf p).
  { split; cbn [V RID SID Nonce Leg EPK IAT EXP p]; try done.
    - by apply NewID_valid, Hnon.
    - unfold leg. destruct (str_ltb _ _); auto.
    - exists (pub_of eph). split; [apply pub_size | done].
    - unfold in_int64, int64_min, int64_max in *. lia.
    - rewrite Hu. unfold in_int64, int64_min, int64_max in *. lia. }
  destruct (Sign priv p) as [[payload sig] |] eqn:Esig; [| done]. injection Hi as <- <-.
  exists p. split; try done.
  - exists payload, sig. cbn [rt_Payload rt_Sig]. by rewrite !RawURL_decode_encode.
  - intros t Ht. apply CheckWindow_iff; [apply Hw | apply Hw | |].
    + pose proof (unix_mono now t). pose proof (unix_mono t (now + MaxTTL)). lia.
    + unfold window_ok. cbn [IAT EXP p]. rewrite Hu.
      pose proof (unix_mono now t). pose proof (unix_mono t (now + MaxTTL)). lia.
Qed.

(** The bind a buddy builds from the credential it adopted, over a cookie. *)
Definition bind_of (c : Register.relayCred) (cookie : string) : Bind :=
  BindCred_bind (Register.bindCred (Some c)) (Register.session "" (Some c)) (RawURL.EncodeToString cookie) cookie.

(** Its datagram reaches the relay with the cookie that is current for its
    source, and the relay's verifier gets to it. *)
Definition binds_at (c : Config) (cred : Register.relayCred) (src : UDPAddr) (t : Z) : list Event :=
  [EvPacket t (MarshalBind (bind_of cred (freshCookie c src t))) src; EvVerify t 0].

Lemma valid_id_nonempty id : ValidID id = true -> id <> "".
Proof. by intros Hv ->. Qed.

(** A buddy adopts the ticket the server issued for its ephemeral key, and
    spends exactly the signed bytes under the session the server named. *)
Lemma issued_adopted priv relayID now m partner r' tk p eph :
  issued priv relayID now m partner r' tk p -> m_EphPub m = RawURL.EncodeToString (pub_of eph) ->
  exists c, Register.adopt (Some (Register.newRelayCred eph)) (Some tk) = Ok c /\
    forall cf src t, bind_of c (freshCookie cf src t) = honest_bind cf priv eph p src t.
Proof.
  intros I He. destruct (is_bytes _ _ _ _ _ _ _ _ I) as (payload & sig & Hs & Hp & Hg).
  pose proof (is_wf _ _ _ _ _ _ _ _ I) as Hw.
  destruct (Sign_accepted priv p [pub_of priv] Hw) as (pl & sg & Hs' & _ & Hparse & _ & Hsl); [by left |].
  rewrite Hs in Hs'. injection Hs' as <- <-.
  assert (payload = render (Payload_json p) /\ sig = ed_sign priv (signedBytes (render (Payload_json p)))) as [-> ->]
    by (unfold Sign in Hs; case_match; by simplify_eq).
  eexists (Register.mkRelayCred eph (RawURL.EncodeToString (pub_of eph)) _ _ (SID p)). split.
  - unfold Register.adopt. rewrite Hp, Hg, Hsl, Hparse. cbn [negb Nat.eqb Register.rc_pub Register.newRelayCred].
    by rewrite (is_epk _ _ _ _ _ _ _ _ I), He, String.eqb_refl.
  - intros cf src t. unfold bind_of, honest_bind, Register.bindCred, Register.session, Register.have.
    cbn [Register.rc_sid Register.rc_payload Register.rc_sig Register.rc_priv].
    destruct (String.eqb_spec (SID p) "") as [E | _]; [| done]. by destruct (valid_id_nonempty (SID p) (tw_sid p Hw)).
Qed.

Lemma legs_opposite mA mB pA pB (a b : Payload) :
  Leg a = (if str_ltb (p_PubKey pB) (m_PubKey mA) then LegB else LegA) ->
  Leg b = (if str_ltb (p_PubKey pA) (m_PubKey mB) then LegB else LegA) ->
  p_PubKey pA = m_PubKey mA -> p_PubKey pB = m_PubKey mB -> m_PubKey mA <> m_PubKey mB -> Leg a <> Leg b.
Proof.
  intros -> -> -> -> Hne. destruct (str_ltb (m_PubKey mB) (m_PubKey mA)) eqn:E1.
  - apply str_ltb_asym in E1. rewrite E1. done.
  - destruct (str_ltb (m_PubKey mA) (m_PubKey mB)) eqn:E2; [done |].
    destruct Hne. symmetry. by apply str_ltb_total.
Qed.

(** ** Data keeps flowing *)

(** Datagrams that are not binds. *)
Definition data_events (ds : list (Z * string * UDPAddr)) : list Event := (fun d => EvPacket d.1.1 d.1.2 d.2) <$> ds.

(** They leave the addresses and what is behind them. *)
Lemma data_keeps ds : forall s,
  Forall (fun d => ParseBind d.1.2 = None) ds ->
  byAddr (tab (run (data_events ds) s).1) = byAddr (tab s) /\
  forall r, peer (load_fwd (tab (run (data_events ds) s).1) r) = peer (load_fwd (tab s) r).
Proof.
  induction ds as [| [[t pkt] src] ds IH]; intros s F; [done |]. apply Forall_cons in F as [E F]. cbn [fst snd] in E.
  cbn [data_events fmap list_fmap]. change ((fun d => EvPacket d.1.1 d.1.2 d.2) <$> ds) with (data_events ds).
  rewrite run_cons. cbn [step fst snd]. unfold packet. rewrite E. unfold forward.
  destruct (byAddr (tab s) !! UDPAddr_String src) as [r |]; cbn [fst]; [| by apply IH].
  destruct (IH (on_tab (store_seen r t) s) F) as [I1 I2]. split; [by rewrite I1 |]. intros r'. rewrite I2.
  cbn [on_tab with_tab tab]. unfold store_seen, load_fwd. cbn [fwds with_fwds].
  destruct (decide (r' = r)) as [-> |]; [by rewrite lookup_insert_eq | by rewrite lookup_insert_ne].
Qed.

(** Room and patience of the relay for both binds: it runs in ticket mode with
    no verification under way, its address filter and its limit per source let
    both datagrams in, its global budget has a place for the first and its
    reserve for half-open sessions one for the second. *)
Record admits (s : Server) (sid : string) (srcA srcB : UDPAddr) (tA tB : Z) : Prop := {
  ad_mode : ticketMode (cfg s) = true;
  ad_idle : inFlight s = [];
  ad_fromA : cidrAllowed (allowed (cfg s)) (IPof srcA) = true;
  ad_fromB : cidrAllowed (allowed (cfg s)) (IPof srcB) = true;
  ad_rateA : (RateLimit.Allow tA (FromIP (IPof srcA)) (bindRL s)).1 = true;
  ad_rateB : (RateLimit.Allow tB (FromIP (IPof srcB)) (RateLimit.Allow tA (FromIP (IPof srcA)) (bindRL s)).2).1 = true;
  ad_budget : (RateLimit.AllowGlobal tA (sigRL s)).1 = true;
  ad_reserve : (RateLimit.Allow tB sid (reserveRL s)).1 = true;
  ad_new : sessions (tab s) !! sid = None;
  ad_session : Z.of_nat (size (sessions (tab s))) < maxSessions (cfg s);
  ad_legA : legs_held (tab s) (FromIP (IPof srcA)) + 1 < maxLegsPerIP (cfg s);
  ad_legB : legs_held (tab s) (FromIP (IPof srcB)) + 1 < maxLegsPerIP (cfg s);
}.

(** The first bind opens the session. *)
Lemma first_bind s sid srcA srcB tA tB priv eph a :
  tab_inv (cfg s) (tab s) -> admits s sid srcA srcB tA tB -> In (pub_of priv) (serverKeys (cfg s)) ->
  ticket_wf a -> RID a = relayID (cfg s) -> EPK a = RawURL.EncodeToString (pub_of eph) -> CheckWindow a tA = Ok tt -> SID a = sid ->
  let la := mkLeg srcA (next_ref (tab s)) (FromIP (IPof srcA)) (Leg a) (EPK a) in
  exists s1 o1 ses1, run [EvPacket tA (MarshalBind (honest_bind (cfg s) priv eph a srcA tA)) srcA; EvVerify tA 0] s = (s1, o1) /\
    ack sid srcA ∈ o1 /\ tab_inv (cfg s1) (tab s1) /\ cfg s1 = cfg s /\ inFlight s1 = [] /\
    bindRL s1 = (RateLimit.Allow tA (FromIP (IPof srcA)) (bindRL s)).2 /\ reserveRL s1 = reserveRL s /\
    sessions (tab s1) !! sid = Some ses1 /\ legs ses1 = [la] /\
    byAddr (tab s1) = <[UDPAddr_String srcA := fwd_ref la]> (byAddr (tab s)) /\
    forall acct, legs_held (tab s1) acct <= legs_held (tab s) acct + 1.
Proof.
  intros HI Ad Hk Hw Hr He Hwin Hsid la. destruct (RateLimit.Allow tA (FromIP (IPof srcA)) (bindRL s)) as [okA lA] eqn:EA.
  pose proof (ad_rateA _ _ _ _ _ _ Ad) as RA. rewrite EA in RA. cbn in RA. subst okA.
  destruct (RateLimit.AllowGlobal tA (sigRL s)) as [okG lG] eqn:EG. pose proof (ad_budget _ _ _ _ _ _ Ad) as RG. rewrite EG in RG. cbn in RG. subst okG.
  pose proof (ad_new _ _ _ _ _ _ Ad) as Hnone. rewrite <- Hsid in Hnone.
  assert (D : draw_budget tA (SID a) (with_bindRL s lA) = (true, with_sigRL (with_bindRL s lA) lG)).
  { unfold draw_budget, halfOpen. cbn [tab with_bindRL]. rewrite Hnone. cbn [sigRL with_bindRL]. by rewrite EG. }
  destruct (ticket_path_claims s tA a priv eph srcA lA _ HI (ad_mode _ _ _ _ _ _ Ad) (ad_idle _ _ _ _ _ _ Ad) (ad_fromA _ _ _ _ _ _ Ad) EA D
              Hk Hw Hr He Hwin) as (s1 & o1 & ses & Hrun & Ho & Hf & HI1 & Ht & Hcl & _ & [(ses1 & Htk1 & Hl1 & Hs1) Hip Hby _ _ _]).
  { unfold leg_free. rewrite Hnone. apply (ad_session _ _ _ _ _ _ Ad). } { pose proof (ad_legA _ _ _ _ _ _ Ad). lia. }
  assert (Hempty : legs ses = []) by (destruct Hcl as [E | (_ & ? & _)]; [rewrite Ht, Hnone in E; done | done]).
  rewrite Hempty in Hl1. exists s1, o1, ses1. rewrite Hsid in Ho. split_and!; try done.
  - exact (fr_cfg _ _ Hf).
  - rewrite (fr_inFlight _ _ Hf). apply (ad_idle _ _ _ _ _ _ Ad).
  - exact (fr_bindRL _ _ Hf).
  - exact (fr_reserveRL _ _ Hf).
  - rewrite Hs1, Ht, Hsid. apply lookup_insert_eq.
  - intros acct. unfold legs_held at 1. rewrite Hip. unfold chargeIP, legs_held. cbn [legsPerIP with_legsPerIP].
    destruct (decide (FromIP (IPof srcA) = acct)) as [<- | Hne]; [rewrite lookup_insert_eq | rewrite lookup_insert_ne by done]; cbn; lia.
Qed.

(** The second bind completes it. *)
Lemma second_bind s s1 sid srcA srcB tA tB priv eph b ses1 la :
  admits s sid srcA srcB tA tB -> tab_inv (cfg s1) (tab s1) -> cfg s1 = cfg s -> inFlight s1 = [] ->
  bindRL s1 = (RateLimit.Allow tA (FromIP (IPof srcA)) (bindRL s)).2 -> reserveRL s1 = reserveRL s ->
  sessions (tab s1) !! sid = Some ses1 -> legs ses1 = [la] -> addr la = srcA -> name la <> Leg b ->
  byAddr (tab s1) !! UDPAddr_String srcA = Some (fwd_ref la) -> UDPAddr_String srcA <> UDPAddr_String srcB ->
  (forall acct, legs_held (tab s1) acct <= legs_held (tab s) acct + 1) -> In (pub_of priv) (serverKeys (cfg s)) ->
  ticket_wf b -> RID b = relayID (cfg s) -> EPK b = RawURL.EncodeToString (pub_of eph) -> CheckWindow b tB = Ok tt -> SID b = sid ->
  exists s2 o2, run [EvPacket tB (MarshalBind (honest_bind (cfg s) priv eph b srcB tB)) srcB; EvVerify tB 0] s1 = (s2, o2) /\
    ack sid srcB ∈ o2 /\
    exists rA rB, byAddr (tab s2) !! UDPAddr_String srcA = Some rA /\ byAddr (tab s2) !! UDPAddr_String srcB = Some rB /\
      peer (load_fwd (tab s2) rA) = Some srcB /\ peer (load_fwd (tab s2) rB) = Some srcA.
Proof.
  intros Ad HI1 Ec Hj Hb Hres Hses Hl Hla Hleg HbA Hsrc Hheld Hk Hw Hr He Hwin Hsid.
  destruct (RateLimit.Allow tB (FromIP (IPof srcB)) (bindRL s1)) as [okB lB] eqn:EB. pose proof (ad_rateB _ _ _ _ _ _ Ad) as RB.
  rewrite <- Hb, EB in RB. cbn in RB. subst okB.
  destruct (RateLimit.Allow tB sid (reserveRL s1)) as [okR lR] eqn:ER. pose proof (ad_reserve _ _ _ _ _ _ Ad) as RR.
  rewrite <- Hres, ER in RR. cbn in RR. subst okR.
  assert (D : draw_budget tB (SID b) (with_bindRL s1 lB) = (true, with_reserveRL (with_bindRL s1 lB) lR)).
  { unfold draw_budget, halfOpen. cbn [tab with_bindRL]. rewrite Hsid, Hses, Hl. cbn [length Nat.eqb reserveRL with_bindRL]. by rewrite ER. }
  rewrite <- Ec in Hk, Hr |- *.
  destruct (ticket_path_claims s1 tB b priv eph srcB lB (with_reserveRL (with_bindRL s1 lB) lR) HI1) as (s2 & o2 & ses2 & Hrun & Ho & _ & _ & _ & _ & Hu & [_ _ Hby _ _ Hok]);
    try done; [rewrite Ec; apply Ad | rewrite Ec; apply Ad | | |].
  { unfold leg_free. rewrite Hsid, Hses. by exists la. }
  { rewrite Ec. pose proof (Hheld (FromIP (IPof srcB))). pose proof (ad_legB _ _ _ _ _ _ Ad). lia. }
  rewrite Hsid in Hu, Ho. rewrite (Hu _ Hses), Hl in Hok. cbn [app legs_ok] in Hok. destruct Hok as [HokA HokB].
  exists s2, o2. split; [done |]. split; [done |]. exists (fwd_ref la), (next_ref (tab s1)). rewrite Hby. cbn [addr fwd_ref] in *.
  rewrite lookup_insert_ne by done. rewrite lookup_insert_eq. unfold peer_at in HokA, HokB. split_and!; [done | done | done | by rewrite HokB, Hla].
Qed.

(** C7. Two buddies the handshake server paired meet at the relay.  Take the
    tickets it issued to them for one token (each naming the other as partner,
    under the same session id), and a relay that pins the server's key and runs
    under the same relay id, does not know the session yet, and has room for
    it, for both sources and for both datagrams within its address filter, its
    limit per source, its budget and its reserve.  Then both adopt their
    tickets; the bind datagrams they send from two addresses, over the cookie
    that is current for each, each verified when it arrives and while its ticket is valid,
    pass every check of the relay and are acknowledged; and in the state
    reached, and after any datagrams that are not binds, from any source, a
    datagram of one is forwarded to the other and to nobody else.  (What can
    end that is a later bind or the reaper, which are not part of it.) *)
Theorem pair_meets_at_relay
    s priv mA mB pA pB nowA nowB chA chB r0 r1 r2 r3 tkA tkB ephA ephB srcA srcB tA tB sid :
  srv_inv s -> In (pub_of priv) (serverKeys (cfg s)) -> ValidID (relayID (cfg s)) = true ->
  Handshake.issueTicket nowA chA priv (relayID (cfg s)) mA pB r0 = (Some tkA, r1) ->
  Handshake.issueTicket nowB chB priv (relayID (cfg s)) mB pA r2 = (Some tkB, r3) ->
  drawn chA -> drawn chB -> sids_valid r0 -> sids_valid r2 ->
  p_PubKey pA = m_PubKey mA -> p_PubKey pB = m_PubKey mB ->
  sids r1 !! m_Token mA = Some sid -> sids r3 !! m_Token mB = Some sid ->
  m_EphPub mA = RawURL.EncodeToString (pub_of ephA) -> m_EphPub mB = RawURL.EncodeToString (pub_of ephB) ->
  0 <= unix nowA <= int64_max - 1000 -> 0 <= unix nowB <= int64_max - 1000 ->
  nowA <= tA <= nowA + MaxTTL -> nowB <= tB <= nowB + MaxTTL ->
  admits s sid srcA srcB tA tB -> UDPAddr_String srcA <> UDPAddr_String srcB ->
  exists cA cB s2 o,
    Register.adopt (Some (Register.newRelayCred ephA)) (Some tkA) = Ok cA /\
    Register.adopt (Some (Register.newRelayCred ephB)) (Some tkB) = Ok cB /\
    run (binds_at (cfg s) cA srcA tA ++ binds_at (cfg s) cB srcB tB) s = (s2, o) /\ ack sid srcA ∈ o /\ ack sid srcB ∈ o /\
    forall ds t pkt, Forall (fun d => ParseBind d.1.2 = None) ds -> ParseBind pkt = None ->
      (packet t pkt srcA (run (data_events ds) s2).1).2 = [Send pkt srcB] /\
      (packet t pkt srcB (run (data_events ds) s2).1).2 = [Send pkt srcA].
Proof.
  intros HI Hk Hrid HiA HiB HdA HdB HvA HvB HkA HkB HsA HsB HeA HeB HnA HnB HtA HtB Ad Hsrc.
  destruct (issueTicket_spec _ _ _ _ _ _ _ _ _ ephA HiA Hrid HdA HvA HeA HnA) as [a Ia].
  destruct (issueTicket_spec _ _ _ _ _ _ _ _ _ ephB HiB Hrid HdB HvB HeB HnB) as [b Ib].
  assert (Sa : SID a = sid) by (pose proof (is_sid _ _ _ _ _ _ _ _ Ia); congruence).
  assert (Sb : SID b = sid) by (pose proof (is_sid _ _ _ _ _ _ _ _ Ib); congruence).
  assert (Hleg : Leg a <> Leg b) by (eapply legs_opposite; [apply Ia | apply Ib | done | done |]; rewrite <- HkB; apply Ia).
  destruct (issued_adopted _ _ _ _ _ _ _ _ ephA Ia HeA) as (cA & HaA & HbA), (issued_adopted _ _ _ _ _ _ _ _ ephB Ib HeB) as (cB & HaB & HbB).
  destruct (first_bind s sid srcA srcB tA tB priv ephA a (si_tab _ HI) Ad Hk (is_wf _ _ _ _ _ _ _ _ Ia) (is_rid _ _ _ _ _ _ _ _ Ia))
    as (s1 & o1 & ses1 & R1 & O1 & HI1 & Ec & Hj & Hb & Hres & Hses & Hl & Hby & Hheld);
    [by rewrite <- HeA; apply Ia | by apply Ia | done |].
  destruct (second_bind s s1 sid srcA srcB tA tB priv ephB b ses1 (mkLeg srcA (next_ref (tab s)) (FromIP (IPof srcA)) (Leg a) (EPK a)))
    as (s2 & o2 & R2 & O2 & rA & rB & BA & BB & PA & PB); try done;
    [by rewrite Hby, lookup_insert_eq | apply Ib | apply Ib | by rewrite <- HeB; apply Ib | by apply Ib |].
  exists cA, cB, s2, (o1 ++ o2). split; [done |]. split; [done |]. split.
  { unfold binds_at. rewrite HbA, HbB, run_app, R1. cbn [fst snd]. by rewrite R2. }
  split; [set_solver |]. split; [set_solver |]. intros ds t pkt F N. destruct (data_keeps ds s2 F) as [KA KP].
  unfold packet. rewrite N. unfold forward. rewrite KA, BA, BB. cbn [snd]. by rewrite !KP, PA, PB.
Qed.
End EndToEnd.

Module MeetDemo.
#[local] Existing Instance Toy.toy_ed.
#[local] Existing Instance Toy.toy_ed_laws.

Definition reg_of (id key eph : string) : Message :=
  mkMessage TypeRegister Version "pairing-token" "" "buddy" id key "" "" 0 "" "" "" (RawURL.EncodeToString (pub_of eph))
    [] "" None "" "" "" "" "" "" "".
Definition peer_of (m : Message) : Peer := mkPeer (m_ID m) (m_PubKey m) "" "" [] "" 0.
Definition alice_reg : Message := reg_of "alice" "key-a" "eph-alice".
Definition bob_reg : Message := reg_of "bob" "key-b" "eph-bob".
Definition draw : Handshake.Choice := Handshake.mkChoice [] [] [] (Some "session-id-16byt") (Some "nonce-nonce-nonc").
Definition issue (m p : Message) (r : hsRegistry) :=
  Handshake.issueTicket Demo.t0 draw "server" Demo.relay_id m (peer_of p) r.
Definition first := Eval vm_compute in issue alice_reg bob_reg (newHSRegistry (10 * second)).
Definition second_ := Eval vm_compute in issue bob_reg alice_reg first.2.

Lemma demo_admits : admits Demo.s0 (NewID "session-id-16byt") Demo.alice Demo.bob Demo.t0 Demo.t0.
Proof. split; vm_compute; reflexivity. Qed.

Lemma pair_meets_at_relay_witness :
  exists cA cB s2 o, run (binds_at (cfg Demo.s0) cA Demo.alice Demo.t0 ++ binds_at (cfg Demo.s0) cB Demo.bob Demo.t0) Demo.s0 = (s2, o) /\
    forall t pkt, ParseBind pkt = None ->
      (packet t pkt Demo.alice s2).2 = [Send pkt Demo.bob] /\ (packet t pkt Demo.bob s2).2 = [Send pkt Demo.alice].
Proof.
  destruct first as [[tkA |] r1] eqn:EA; [| exfalso; vm_compute in EA; discriminate EA].
  destruct second_ as [[tkB |] r3] eqn:EB; [| exfalso; vm_compute in EB; discriminate EB].
  assert (D : drawn draw) by (split; intros r [= <-]; reflexivity).
  assert (HA : issue alice_reg bob_reg (newHSRegistry (10 * second)) = (Some tkA, r1))
    by (rewrite <- EA; vm_compute; reflexivity).
  assert (HB : issue bob_reg alice_reg r1 = (Some tkB, r3)).
  { replace r1 with first.2 by (rewrite EA; reflexivity). rewrite <- EB. vm_compute. reflexivity. }
  assert (Hr1 : sids r1 = {["pairing-token" := NewID "session-id-16byt"]})
    by (replace r1 with first.2 by (rewrite EA; reflexivity); vm_compute; reflexivity).
  assert (Hr3 : sids r3 = sids r1).
  { rewrite Hr1. replace r3 with second_.2 by (rewrite EB; reflexivity). vm_compute. reflexivity. }
  assert (V1 : sids_valid r1).
  { unfold sids_valid. rewrite Hr1. apply map_Forall_singleton. vm_compute. reflexivity. }
  destruct (pair_meets_at_relay Demo.s0 "server" alice_reg bob_reg (peer_of alice_reg) (peer_of bob_reg)
              Demo.t0 Demo.t0 draw draw (newHSRegistry (10 * second)) r1 r1 r3 tkA tkB "eph-alice" "eph-bob"
              Demo.alice Demo.bob Demo.t0 Demo.t0 (NewID "session-id-16byt"))
    as (cA & cB & s2 & o & _ & _ & R & _ & _ & Hf).
  - apply New_inv.
  - left. reflexivity.
  - vm_compute. reflexivity.
  - exact HA.
  - exact HB.
  - exact D.
  - exact D.
  - apply map_Forall_empty.
  - exact V1.
  - reflexivity.
  - reflexivity.
  - rewrite Hr1. reflexivity.
  - rewrite Hr3, Hr1. reflexivity.
  - reflexivity.
  - reflexivity.
  - vm_compute. split; discriminate.
  - vm_compute. split; discriminate.
  - vm_compute. split; discriminate.
  - vm_compute. split; discriminate.
  - exact demo_admits.
  - intros E. vm_compute in E. discriminate E.
  - exists cA, cB, s2, o. split; [exact R |]. intros t pkt N. exact (Hf [] t pkt (Forall_nil_2 _) N).
Defined.
End MeetDemo.
